(** * rxwp: reactive runtime, asynx scheduler, indexArray and STWS
    child-list reconciliation

    A shallow embedding of the parts of the repository the specification
    talks about, and the properties they satisfy.

    - [JsArray], [Dom], [Reconcile]:
      packages/dom-reconcile/src/src/reconcile.ts
    - [Reactive]: packages/reactivity/src/observable.ts
    - [Asynx]: packages/reactivity/src/index.ts (the asynx scheduler)
    - [IndexArray]: unnamed/part_003
*)

From stdpp Require Import gmap list.
From Stdlib Require Import ZArith Lia.

Local Open Scope Z_scope.

(** ** Outcome of a JavaScript computation over a mutable store [S]:
    either a value and the store, or a thrown exception and the store the
    throw left behind (mutations before a throw are not undone). *)

Inductive result (E S A : Type) : Type :=
| Ok (a : A) (s : S)
| Throw (e : E) (s : S).
Arguments Ok {E S A} a s.
Arguments Throw {E S A} e s.

Definition bind {E S A B} (m : S -> result E S A) (k : A -> S -> result E S B)
  : S -> result E S B :=
  fun s => match m s with
           | Ok a s' => k a s'
           | Throw e s' => Throw e s'
           end.

Definition ret {E S A} (a : A) : S -> result E S A := fun s => Ok a s.
Definition throw {E S A} (e : E) : S -> result E S A := fun s => Throw e s.

Declare Scope js_scope.
Delimit Scope js_scope with js.
Notation "'do' x <- m ; k" := (bind m (fun x => k))
  (at level 10, x name, m at level 100, k at level 200) : js_scope.
Notation "'exec' m ; k" := (bind m (fun _ => k))
  (at level 10, m at level 100, k at level 200) : js_scope.

(* ===================================================================== *)
(** * JavaScript arrays of nodes, and the DOM node sink                   *)
(* ===================================================================== *)

Module JsArray.

(** A DOM node is identified by a number; nodes are compared by
    reference only. *)
Definition Node := nat.

(** What a variable of type [Node | null] or an array read can hold. *)
Inductive jsval := JNull | JUndef | JNode (n : Node).

#[global] Instance jsval_eq_dec : EqDecision jsval.
Proof. solve_decision. Defined.

#[global] Instance jsval_countable : Countable jsval :=
  inj_countable'
    (fun v => match v with
              | JNull => inl false | JUndef => inl true | JNode n => inr n
              end)
    (fun s => match s with
              | inl false => JNull | inl true => JUndef | inr n => JNode n
              end)
    (fun v => match v with JNull | JUndef | JNode _ => eq_refl end).

(** [a === b] *)
Definition seq_js (a b : jsval) : bool := bool_decide (a = b).

(** [arr[i]]: out of range (also negative) reads give [undefined]. *)
Definition aget (arr : list jsval) (i : Z) : jsval :=
  if i <? 0 then JUndef else default JUndef (arr !! Z.to_nat i).

(** [arr[i] = v]: in range it overwrites, past the end the array grows
    (the gap reads as [undefined]); a negative [i] is not an array index
    and leaves the elements alone. *)
Definition aset (arr : list jsval) (i : Z) (v : jsval) : list jsval :=
  if i <? 0 then arr
  else if i <? Z.of_nat (length arr) then <[Z.to_nat i := v]> arr
  else arr ++ replicate (Z.to_nat i - length arr)%nat JUndef ++ [v].

(** Clamping of a relative index, as [splice], [slice] and [indexOf]
    do it. *)
Definition clamp (len i : Z) : Z :=
  if i <? 0 then Z.max (len + i) 0 else Z.min i len.

(** [arr.splice(start, deleteCount, ...items)]: the new contents of the
    array and the removed elements. *)
Definition splice (arr : list jsval) (start cnt : Z) (items : list jsval)
  : list jsval * list jsval :=
  let len := Z.of_nat (length arr) in
  let s := clamp len start in
  let c := Z.min (Z.max cnt 0) (len - s) in
  (take (Z.to_nat s) arr ++ items ++ drop (Z.to_nat (s + c)) arr,
   take (Z.to_nat c) (drop (Z.to_nat s) arr)).

(** [arr.slice(from, to)] *)
Definition slice (arr : list jsval) (from to : Z) : list jsval :=
  let len := Z.of_nat (length arr) in
  let k := clamp len from in
  let e := clamp len to in
  take (Z.to_nat (e - k)) (drop (Z.to_nat k) arr).

(** [arr.indexOf(x, from)] *)
Fixpoint index_from (x : jsval) (l : list jsval) (i : Z) : Z :=
  match l with
  | [] => -1
  | y :: l' => if seq_js y x then i else index_from x l' (i + 1)
  end.

Definition indexOf (arr : list jsval) (x : jsval) (from : Z) : Z :=
  let len := Z.of_nat (length arr) in
  if len <=? from then -1
  else let k := if from <? 0 then Z.max (len + from) 0 else from in
       index_from x (drop (Z.to_nat k) arr) k.

(** A [Node[]] argument seen as an array of values. *)
Definition of_nodes (l : list Node) : list jsval := JNode <$> l.

End JsArray.

(* ===================================================================== *)
(** * The node sink: the child list of [parent]                           *)
(* ===================================================================== *)

Module Dom.
Import JsArray.

Inductive error := TypeError | NotFoundError.

(** The calls made on [parent]. *)
Inductive op :=
| InsertBefore (child : Node) (ref : jsval)
| RemoveChild (child : Node)
| ReplaceChild (newChild oldChild : Node).

(** The sink: [parent]'s live children in order, and the calls made on
    [parent] so far (oldest first). Nodes outside [children] are
    detached. *)
Record t := { children : list Node; calls : list op }.

Definition is_child (n : Node) (d : t) : bool :=
  bool_decide (n ∈ children d).

Definition without (n : Node) (l : list Node) : list Node :=
  filter (fun m => m ≠ n) l.

Fixpoint insert_at (n r : Node) (l : list Node) : list Node :=
  match l with
  | [] => [n]
  | m :: l' => if bool_decide (m = r) then n :: m :: l'
               else m :: insert_at n r l'
  end.

Fixpoint next_of (n : Node) (l : list Node) : jsval :=
  match l with
  | [] => JNull
  | m :: l' => if bool_decide (m = n)
               then match l' with [] => JNull | x :: _ => JNode x end
               else next_of n l'
  end.

(** [x.nextSibling] *)
Definition nextSibling (x : jsval) : t -> result error t jsval :=
  fun d => match x with
           | JNode n => Ok (next_of n (children d)) d
           | _ => Throw TypeError d
           end.

(** [parent.insertBefore(child, ref)] *)
Definition insertBefore (child ref : jsval) : t -> result error t unit :=
  fun d =>
    match child with
    | JNode n =>
        match ref with
        | JNode r =>
            if is_child r d then
              Ok tt {| children := if bool_decide (n = r) then children d
                                   else insert_at n r (without n (children d));
                       calls := calls d ++ [InsertBefore n ref] |}
            else Throw NotFoundError d
        | _ => Ok tt {| children := without n (children d) ++ [n];
                        calls := calls d ++ [InsertBefore n ref] |}
        end
    | _ => Throw TypeError d
    end.

(** [parent.removeChild(child)] *)
Definition removeChild (child : jsval) : t -> result error t unit :=
  fun d =>
    match child with
    | JNode n =>
        if is_child n d then
          Ok tt {| children := without n (children d);
                   calls := calls d ++ [RemoveChild n] |}
        else Throw NotFoundError d
    | _ => Throw TypeError d
    end.

(** [parent.replaceChild(newChild, oldChild)] *)
Definition replaceChild (newChild oldChild : jsval)
  : t -> result error t unit :=
  fun d =>
    match newChild, oldChild with
    | JNode n, JNode o =>
        if is_child o d then
          Ok tt {| children :=
                     if bool_decide (n = o) then children d
                     else (fun m => if bool_decide (m = o) then n else m)
                            <$> without n (children d);
                   calls := calls d ++ [ReplaceChild n o] |}
        else Throw NotFoundError d
    | _, _ => Throw TypeError d
    end.

End Dom.

(* ===================================================================== *)
(** * reconcile.ts: the Sequential Three-Way Splice                       *)
(* ===================================================================== *)

Module Reconcile.
Import JsArray.

(** A JavaScript exception ([TypeError], or the sink's
    [NotFoundError]), or a loop of the model that ran out of its
    iteration budget. *)
Inductive exn := Exception (e : Dom.error) | OutOfFuel.

(** The mutable state [reconcile] works on: the sink, the [current]
    array (mutated in place) and the variables that live across
    iterations of the main loop. [nextIndexes] and [prevNodes] are
    [null] until the advanced diff starts and are only read after
    that; they are empty here until then. *)
Record store := mkStore {
  parent : Dom.t;
  current : list jsval;
  currentEnd : Z;
  nextEnd : Z;
  start : Z;
  ins : Z;
  advancedDiff : bool;
  lastCurrent : jsval;
  lastNext : jsval;
  nextIndexes : gmap jsval Z;
  prevNodes : gset jsval
}.

Definition set_parent (d : Dom.t) (s : store) : store :=
  mkStore d (current s) (currentEnd s) (nextEnd s) (start s) (ins s)
    (advancedDiff s) (lastCurrent s) (lastNext s) (nextIndexes s) (prevNodes s).
Definition set_current (c : list jsval) (s : store) : store :=
  mkStore (parent s) c (currentEnd s) (nextEnd s) (start s) (ins s)
    (advancedDiff s) (lastCurrent s) (lastNext s) (nextIndexes s) (prevNodes s).
Definition set_currentEnd (z : Z) (s : store) : store :=
  mkStore (parent s) (current s) z (nextEnd s) (start s) (ins s)
    (advancedDiff s) (lastCurrent s) (lastNext s) (nextIndexes s) (prevNodes s).
Definition set_nextEnd (z : Z) (s : store) : store :=
  mkStore (parent s) (current s) (currentEnd s) z (start s) (ins s)
    (advancedDiff s) (lastCurrent s) (lastNext s) (nextIndexes s) (prevNodes s).
Definition set_start (z : Z) (s : store) : store :=
  mkStore (parent s) (current s) (currentEnd s) (nextEnd s) z (ins s)
    (advancedDiff s) (lastCurrent s) (lastNext s) (nextIndexes s) (prevNodes s).
Definition set_ins (z : Z) (s : store) : store :=
  mkStore (parent s) (current s) (currentEnd s) (nextEnd s) (start s) z
    (advancedDiff s) (lastCurrent s) (lastNext s) (nextIndexes s) (prevNodes s).
Definition set_lastCurrent (v : jsval) (s : store) : store :=
  mkStore (parent s) (current s) (currentEnd s) (nextEnd s) (start s) (ins s)
    (advancedDiff s) v (lastNext s) (nextIndexes s) (prevNodes s).
Definition set_lastNext (v : jsval) (s : store) : store :=
  mkStore (parent s) (current s) (currentEnd s) (nextEnd s) (start s) (ins s)
    (advancedDiff s) (lastCurrent s) v (nextIndexes s) (prevNodes s).
Definition start_advanced (m : gmap jsval Z) (p : gset jsval) (s : store)
  : store :=
  mkStore (parent s) (current s) (currentEnd s) (nextEnd s) (start s) (ins s)
    true (lastCurrent s) (lastNext s) m p.

Definition M (A : Type) : Type := store -> result exn store A.

(** A call on the sink, inside [reconcile]. *)
Definition dom {A} (m : Dom.t -> result Dom.error Dom.t A) : M A :=
  fun s => match m (parent s) with
           | Ok a d => Ok a (set_parent d s)
           | Throw e d => Throw (Exception e) (set_parent d s)
           end.

Definition insertBefore (child ref : jsval) : M unit :=
  dom (Dom.insertBefore child ref).
Definition removeChild (child : jsval) : M unit :=
  dom (Dom.removeChild child).
Definition replaceChild (n o : jsval) : M unit :=
  dom (Dom.replaceChild n o).
Definition nextSibling (x : jsval) : M jsval :=
  dom (Dom.nextSibling x).

Definition modify (f : store -> store) : M unit := fun s => Ok tt (f s).
Definition get {A} (f : store -> A) : M A := fun s => Ok (f s) s.

(** [current[i] = v] *)
Definition cur_set (i : Z) (v : jsval) : M unit :=
  modify (fun s => set_current (aset (current s) i v) s).

(** [current.splice(at, cnt, ...items)], giving the removed elements *)
Definition cur_splice (at_ cnt : Z) (items : list jsval) : M (list jsval) :=
  fun s => let '(c, removed) := splice (current s) at_ cnt items in
           Ok removed (set_current c s).

(** [while (cond) body] over a loop state [L] next to the store; the
    condition is pure. *)
Fixpoint while_ {L} (fuel : nat) (cond : L -> store -> bool)
    (body : L -> M L) (l : L) : M L :=
  fun s =>
    if cond l s then
      match fuel with
      | O => Throw OutOfFuel s
      | S fuel' =>
          match body l s with
          | Ok l' s' => while_ fuel' cond body l' s'
          | Throw e s' => Throw e s'
          end
      end
    else Ok l s.

(** [for (j = from; j < to; ++j) body(j)] *)
Definition for_ (fuel : nat) (from to : Z) (body : Z -> M unit) : M unit :=
  bind (while_ fuel (fun j _ => j <? to)
          (fun j => bind (body j) (fun _ => ret (j + 1))) from)
       (fun _ => ret tt).

Section Algorithm.

(** The iteration budget of every loop of the model, and the [next]
    argument, which [reconcile] only reads. *)
Variable fuel : nat.
Variable next : list jsval.

Local Open Scope js_scope.

(** [subsequenceIndex]: pure. The second loop state component is
    [Some (-1)] once the loop body has returned [-1]. *)
Definition subsequenceIndex (moreNodes : list jsval) (moreStart moreEnd : Z)
    (lessNodes : list jsval) (lessStart lessEnd : Z) : M Z :=
  let i := indexOf moreNodes (aget lessNodes lessStart) moreStart in
  if (-1 <? i) && (lessEnd - lessStart <=? moreEnd - (i + 1)) then
    do r <- while_ fuel
              (fun '(m, l, ret_) _ =>
                 match ret_ with
                 | Some _ => false
                 | None => l <? lessEnd
                 end)
              (fun '(m, l, _) =>
                 if negb (seq_js (aget moreNodes m) (aget lessNodes l))
                 then ret (m + 1, l + 1, Some (-1))
                 else ret (m + 1, l + 1, None))
              (i + 1, lessStart + 1, None);
    match r with
    | (_, _, Some v) => ret v
    | (_, _, None) => ret i
    end
  else ret i.

(** [fastPaths]: [true] when a fast path applied. *)
Definition fastPaths (currentStart currentEnd_ nextStart nextEnd_ : Z)
  : M bool :=
  let currentLeft := currentEnd_ - currentStart in
  let nextLeft := nextEnd_ - nextStart in
  let one_to_many :=
    if (currentLeft =? 1) || (nextLeft =? 1) then
      exec for_ fuel nextStart nextEnd_ (fun n =>
             do cur <- get current;
             insertBefore (aget next n) (aget cur currentStart));
      exec for_ fuel currentStart currentEnd_ (fun c =>
             do cur <- get current;
             removeChild (aget cur c));
      ret true
    else ret false in
  do cur <- get current;
  if currentLeft <? nextLeft then
    do i <- subsequenceIndex next nextStart nextEnd_
              cur currentStart currentEnd_;
    if -1 <? i then
      exec for_ fuel nextStart i (fun n =>
             insertBefore (aget next n) (aget cur currentStart));
      do target <- nextSibling (aget cur (currentEnd_ - 1));
      exec for_ fuel (i + currentLeft) nextEnd_ (fun n =>
             insertBefore (aget next n) target);
      ret true
    else one_to_many
  else if nextLeft <? currentLeft then
    do i <- subsequenceIndex cur currentStart currentEnd_
              next nextStart nextEnd_;
    if -1 <? i then
      exec for_ fuel currentStart i (fun c => removeChild (aget cur c));
      exec for_ fuel (i + nextLeft) currentEnd_ (fun c =>
             removeChild (aget cur c));
      ret true
    else one_to_many
  else one_to_many.

Definition nx (i : Z) : jsval := aget next i.
Definition has_prev (v : jsval) (s : store) : bool :=
  bool_decide (v ∈ prevNodes s).
Definition has_next (v : jsval) (s : store) : bool :=
  bool_decide (is_Some (nextIndexes s !! v)).
Definition when (b : bool) (m : M unit) : M unit := if b then m else ret tt.
Definition counting (cond : Z -> store -> bool) : M Z :=
  while_ fuel cond (fun n => ret (n + 1)) 1.

(** 3. Swap 2 nodes on opposite sides of lists *)
Definition swap_ends : M bool :=
  do s0 <- get id;
  let cur := current s0 in
  let st := start s0 in
  let ce := currentEnd s0 - 1 in
  let ne := nextEnd s0 - 1 in
  exec modify (set_currentEnd ce);
  do target <- nextSibling (aget cur ce);
  exec insertBefore (nx st) (aget cur st);
  exec modify (set_nextEnd ne);
  exec when ((1 <? ne - st) && (1 <? ce - st)) (insertBefore (nx ne) target);
  exec cur_set ce (nx ne);
  exec cur_set st (nx st);
  exec modify (set_start (st + 1));
  ret false.

(** 7. (initial optimization) the Map of next indexes *)
Definition build_nextIndexes (from to : Z) : gmap jsval Z :=
  foldl (fun m j => <[nx j := j]> m) ∅ (seqZ from (to - from)).

(** Initial optimization: single moves (4, 5), fast paths (6), start
    of the advanced diff (7). *)
Definition initial_optimization : M bool :=
  do s0 <- get id;
  let cur := current s0 in
  let st := start s0 in
  let ce := currentEnd s0 in
  let ne := nextEnd s0 in
  if seq_js (nx st) (aget cur (ce - 1)) then
    exec insertBefore (nx st) (aget cur st);
    exec modify (set_start (st + 1));
    do moved <- cur_splice (ce - 1) 1 [];
    do _ <- cur_splice st 0 [aget moved 0];
    ret false
  else if seq_js (aget cur st) (nx (ne - 1)) then
    exec modify (set_nextEnd (ne - 1));
    exec modify (set_currentEnd (ce - 1));
    do sibling <- nextSibling (aget cur (ce - 1));
    exec insertBefore (nx (ne - 1)) sibling;
    do moved <- cur_splice st 1 [];
    do _ <- cur_splice (ce - 1) 0 [aget moved 0];
    ret false
  else
    do applied <- fastPaths st ce st ne;
    if applied then ret true
    else
      exec modify (start_advanced (build_nextIndexes st ne)
                     (list_to_set (slice cur st ce)));
      ret false.

(** Advanced 4. Replace all end nodes, that could be replaced *)
Definition replace_ends (i j : Z) : M Z :=
  do s0 <- get id;
  let st := start s0 in
  exec replaceChild (nx i) (aget (current s0) j);
  exec cur_set j (nx i);
  do seq <- while_ fuel
              (fun seq s => (st <=? i - seq) && (st <=? j - seq)
                            && negb (has_prev (nx (i - seq)) s)
                            && negb (has_next (aget (current s) (j - seq)) s))
              (fun seq =>
                 do c <- get current;
                 exec replaceChild (nx (i - seq)) (aget c (j - seq));
                 exec cur_set (j - seq) (nx (i - seq));
                 ret (seq + 1))
              1;
  exec modify (set_currentEnd (currentEnd s0 - seq));
  do c <- get current;
  exec modify (set_lastCurrent (aget c (currentEnd s0 - seq)));
  ret seq.

(** Advanced 5. Insert all next end nodes, that aren't in previous nodes *)
Definition insert_ends (i : Z) : M Z :=
  do s0 <- get id;
  let st := start s0 in
  do target <- nextSibling (aget (current s0) (currentEnd s0 - 1));
  exec insertBefore (nx i) target;
  do r <- while_ fuel
            (fun '(seq, _) s => (st <=? i - seq)
                                && negb (has_prev (nx (i - seq)) s))
            (fun '(seq, target) =>
               exec insertBefore (nx (i - seq)) target;
               ret (seq + 1, nx (i - seq)))
            (1, nx i);
  let seq := r.1 in
  do _ <- cur_splice (currentEnd s0) 0
            (slice next (nextEnd s0 - seq) (nextEnd s0));
  ret seq.

(** Advanced 6. Remove all current end nodes, that aren't in next nodes *)
Definition remove_ends (j : Z) : M bool :=
  do s0 <- get id;
  let st := start s0 in
  exec removeChild (aget (current s0) j);
  do seq <- while_ fuel
              (fun seq s => (st <=? j - seq)
                            && negb (has_next (aget (current s) (j - seq)) s))
              (fun seq =>
                 do c <- get current;
                 exec removeChild (aget c (j - seq));
                 ret (seq + 1))
              1;
  do _ <- cur_splice (nextEnd s0 - seq) seq [];
  exec modify (set_currentEnd (currentEnd s0 - seq));
  do c <- get current;
  exec modify (set_lastCurrent (aget c (currentEnd s0 - seq)));
  ret false.

(** What step 2 of the rearrange hands to step 3: [continue], or the
    nodes spliced out of [current] ([null] when none were) and the
    length of the current-side sequence. *)
Inductive rtl :=
| Continue
| Proceed (cNodes : option (list jsval)) (cSeq : Z).

(** Use of [cNodes!]: a [null] there is a [TypeError]. *)
Definition non_null (cNodes : option (list jsval)) : M (list jsval) :=
  match cNodes with
  | Some l => ret l
  | None => throw (Exception Dom.TypeError)
  end.

(** [nextIndexes.get(node) || -1] *)
Definition nextIndex_or (v : jsval) (s : store) : Z :=
  match nextIndexes s !! v with
  | Some z => if z =? 0 then -1 else z
  | None => -1
  end.

(** Advanced 7, step 1: analyze. Gives [(i, seq, k, cSeq)]. *)
Definition analyze : M (Z * Z * Z * Z) :=
  do s0 <- get id;
  let cur := current s0 in
  let st := start s0 in
  let ce := currentEnd s0 in
  let ne := nextEnd s0 in
  let currentNode := aget cur st in
  let nextNode := nx st in
  do a <- (if has_prev nextNode s0 then
             let i := indexOf cur nextNode (st + 1) in
             do seq <- counting (fun seq _ =>
                         (i + seq <? ce)
                         && seq_js (aget cur (i + seq)) (nx (st + seq)));
             ret (i, seq)
           else
             do seq <- counting (fun seq s =>
                         (st + seq <? ne)
                         && negb (has_prev (nx (st + seq)) s));
             ret (-1, seq));
  let '(i, seq) := a in
  if seq_js (nx (st + seq)) currentNode || ((-1 <? i) && (i - st <? seq))
  then ret (i, seq, -1, 0)
  else
    let k := nextIndex_or currentNode s0 in
    if -1 <? k then
      do cSeq <- counting (fun cSeq _ =>
                   (k + cSeq <? ne)
                   && seq_js (nx (k + cSeq)) (aget cur (st + cSeq)));
      ret (i, seq, k, cSeq)
    else
      do cSeq <- counting (fun cSeq s =>
                   (st + cSeq <? ce)
                   && negb (has_next (aget cur (st + cSeq)) s));
      ret (i, seq, k, cSeq).

(** Advanced 7, step 2: right-to-left move or insert of the next node
    or sequence. *)
Definition rtl_phase (i seq k cSeq : Z) : M rtl :=
  do s0 <- get id;
  let cur := current s0 in
  let st := start s0 in
  let currentNode := aget cur st in
  let nextNode := nx st in
  if -1 <? i then
    if seq =? 1 then
      if (i =? k) && (cSeq =? 1) then
        do target <- nextSibling (aget cur i);
        exec insertBefore (nx st) (aget cur st);
        exec when (1 <? i - st) (insertBefore (nx i) target);
        exec cur_set i (nx i);
        exec cur_set st (nx st);
        exec modify (set_start (st + 1));
        ret Continue
      else
        exec insertBefore nextNode currentNode;
        do moved <- cur_splice i 1 [];
        do cNodes <- cur_splice st cSeq [aget moved 0];
        ret (Proceed (Some cNodes) cSeq)
    else if i - st <? seq then
      do target <- nextSibling (aget cur (i - 1 + seq));
      exec for_ fuel st i (fun j =>
             do c <- get current;
             insertBefore (aget c j) target);
      do moved <- cur_splice st (i - st) [];
      do _ <- cur_splice (st + seq) 0 moved;
      ret (Proceed None cSeq)
    else
      exec for_ fuel 0 seq (fun j => insertBefore (nx (st + j)) currentNode);
      do moved <- cur_splice i seq [];
      do cNodes <- cur_splice st cSeq moved;
      ret (Proceed (Some cNodes) cSeq)
  else if k =? -1 then
    do j <- while_ fuel (fun j _ => (j <? seq) && (j <? cSeq))
              (fun j =>
                 do c <- get current;
                 exec replaceChild (nx (st + j)) (aget c (st + j));
                 exec cur_set (st + j) (nx (st + j));
                 ret (j + 1))
              0;
    exec (if j <? seq then
            do c <- get current;
            do target <- nextSibling (aget c (st + j - 1));
            do j' <- while_ fuel (fun j _ => j <? seq)
                       (fun j =>
                          exec insertBefore (nx (st + j)) target;
                          exec modify (fun s =>
                                 set_currentEnd (currentEnd s + 1) s);
                          ret (j + 1))
                       j;
            do _ <- cur_splice (st + j') 0
                      (slice next (st + j') (st + seq));
            ret tt
          else if j <? cSeq then
            do j' <- while_ fuel (fun j _ => j <? cSeq)
                       (fun j =>
                          do c <- get current;
                          exec removeChild (aget c (st + j));
                          exec modify (fun s =>
                                 set_currentEnd (currentEnd s - 1) s);
                          ret (j + 1))
                       j;
            do _ <- cur_splice (st + j') (cSeq - j') [];
            ret tt
          else ret tt);
    ret (Proceed None 0)
  else
    exec for_ fuel 0 seq (fun j => insertBefore (nx (st + j)) currentNode);
    do cNodes <- cur_splice st cSeq (slice next st (st + seq));
    exec modify (fun s => set_currentEnd (currentEnd s + seq) s);
    ret (Proceed (Some cNodes) cSeq).

(** Advanced 7, step 3: left-to-right move or removal of the current
    node or sequence ([seq] is its length, [k] its index in [next],
    [start] is already advanced). *)
Definition ltr_phase (currentNode : jsval) (cNodes : option (list jsval))
    (k seq : Z) : M bool :=
  do s0 <- get id;
  let st := start s0 in
  let ce := currentEnd s0 in
  if -1 <? k then
    let i := k + seq - 1 in
    do di <- (if (ce <=? i) || (negb (ins s0 =? 0) && (ce - ins s0 <=? i))
              then
                do r <- while_ fuel
                          (fun '(j, stop) _ =>
                             negb stop && (ce - ins s0 <=? j))
                          (fun '(j, _) =>
                             do s <- get id;
                             match nextIndexes s
                                     !! aget (current s) (j - seq) with
                             | Some z => if z <? i then ret (j, true)
                                         else ret (j - 1, false)
                             | None => ret (j - 1, false)
                             end)
                          (if ce <=? i then ce - 1 else i, false);
                let i' := r.1 in
                exec modify (set_ins (ins s0 + seq));
                ret (i' - seq + 1 - st, i')
              else ret (k - st, i));
    let '(d, i) := di in
    let k := st + seq in
    if k =? ce then ret false
    else if seq =? 1 then
      do c <- get current;
      do sibling <- nextSibling (aget c (i - seq));
      exec insertBefore currentNode sibling;
      do _ <- cur_splice i 0 [currentNode];
      ret false
    else if (d <? seq) || (ce - k <? seq) then
      do j <- while_ fuel (fun j _ => (j <? ce) && (j <? k + d))
                (fun j =>
                   do c <- get current;
                   exec insertBefore (aget c (j - seq)) currentNode;
                   ret (j + 1))
                k;
      do nodes <- non_null cNodes;
      do _ <- cur_splice (j - seq) 0 nodes;
      ret false
    else
      do c <- get current;
      do target <- nextSibling (aget c (i - seq));
      exec for_ fuel 0 seq (fun j =>
             do nodes <- non_null cNodes;
             insertBefore (aget nodes j) target);
      do nodes <- non_null cNodes;
      do _ <- cur_splice (i - seq + 1) 0 nodes;
      ret false
  else
    exec for_ fuel 0 seq (fun j =>
           do nodes <- non_null cNodes;
           removeChild (aget nodes j));
    exec modify (fun s => set_currentEnd (currentEnd s - seq) s);
    ret false.

(** Advanced 7: the 3-step, 2-sides rearrange. *)
Definition rearrange : M bool :=
  do s0 <- get id;
  let currentNode := aget (current s0) (start s0) in
  do a <- analyze;
  let '(i, seq, k, cSeq) := a in
  do r <- rtl_phase i seq k cSeq;
  match r with
  | Continue => ret false
  | Proceed cNodes cSeq' =>
      exec modify (set_start (start s0 + seq));
      if cSeq' =? 0 then ret false
      else ltr_phase currentNode cNodes k cSeq'
  end.

(** [lastCurrent !== current[(j = currentEnd - 1)] &&
     !nextIndexes.has((lastCurrent = current[j]))], after [ins === 0]:
    the assignment to [lastCurrent] happens when the first two
    conjuncts hold. *)
Definition current_end_changed : M bool :=
  do s0 <- get id;
  let v := aget (current s0) (currentEnd s0 - 1) in
  if (ins s0 =? 0) && negb (seq_js (lastCurrent s0) v) then
    exec modify (set_lastCurrent v);
    ret (negb (has_next v s0))
  else ret false.

(** Advanced diff mode: ends optimizations (4, 5, 6), else the
    rearrange (7). *)
Definition advanced_diff : M bool :=
  do s0 <- get id;
  let i := nextEnd s0 - 1 in
  let changed := negb (seq_js (lastNext s0) (nx i)) in
  exec when changed (modify (set_lastNext (nx i)));
  if changed && negb (has_prev (nx i) s0) then
    do replace <- current_end_changed;
    do seq <- (if replace then replace_ends i (currentEnd s0 - 1)
               else insert_ends i);
    exec modify (set_nextEnd (nextEnd s0 - seq));
    exec modify (set_lastNext (nx (nextEnd s0 - seq)));
    ret false
  else
    do remove <- current_end_changed;
    if remove then remove_ends (currentEnd s0 - 1)
    else rearrange.

(** One iteration of the main loop; [true] when the iteration
    returned from [reconcile]. *)
Definition iteration : M bool :=
  do s0 <- get id;
  let cur := current s0 in
  let st := start s0 in
  let ce := currentEnd s0 in
  let ne := nextEnd s0 in
  if seq_js (aget cur st) (nx st) then
    exec modify (set_start (st + 1));
    ret false
  else if seq_js (aget cur (ce - 1)) (nx (ne - 1)) then
    exec modify (set_currentEnd (ce - 1));
    exec modify (set_nextEnd (ne - 1));
    exec when (0 <? ins s0) (modify (set_ins (ins s0 - 1)));
    ret false
  else if (ins s0 =? 0) && seq_js (aget cur st) (nx (ne - 1))
          && seq_js (nx st) (aget cur (ce - 1)) then
    swap_ends
  else if negb (advancedDiff s0) then initial_optimization
  else advanced_diff.

(** II) the main loop: [n] bounds the number of iterations. *)
Fixpoint main_loop (n : nat) : M bool :=
  fun s =>
    if (start s <? currentEnd s) && (start s <? nextEnd s) then
      match n with
      | O => Throw OutOfFuel s
      | S n' =>
          match iteration s with
          | Ok true s' => Ok true s'
          | Ok false s' => main_loop n' s'
          | Throw e s' => Throw e s'
          end
      end
    else Ok false s.

(** III) Final optimization - insert or remove remaining elements *)
Definition final_optimization : M unit :=
  do s0 <- get id;
  if start s0 =? currentEnd s0 then
    if start s0 =? nextEnd s0 then ret tt
    else
      do target <- nextSibling (aget (current s0) (currentEnd s0 - 1));
      for_ fuel (start s0) (nextEnd s0) (fun j =>
        exec modify (set_start (j + 1));
        insertBefore (nx j) target)
  else if start s0 =? nextEnd s0 then
    for_ fuel (start s0) (currentEnd s0) (fun j =>
      do c <- get current;
      exec modify (set_start (j + 1));
      removeChild (aget c j))
  else ret tt.

Definition body : M unit :=
  do returned <- main_loop fuel;
  if returned then ret tt else final_optimization.

End Algorithm.

(** I) the variables as declared on entry *)
Definition enter (p : Dom.t) (cur next : list jsval) : store :=
  {| parent := p; current := cur;
     currentEnd := Z.of_nat (length cur); nextEnd := Z.of_nat (length next);
     start := 0; ins := 0; advancedDiff := false;
     lastCurrent := JNull; lastNext := JNull;
     nextIndexes := ∅; prevNodes := ∅ |}.

(** [reconcile(parent, current, next)] *)
Definition reconcile (fuel : nat) (p : Dom.t) (cur next : list Node)
  : result exn store unit :=
  body fuel (of_nodes next) (enter p (of_nodes cur) (of_nodes next)).

End Reconcile.

(* ===================================================================== *)
(** * observable.ts: the reactive graph and its scheduler                 *)
(* ===================================================================== *)

Module Reactive.

(** Objects live in heaps and are named by references. User values are
    integers. *)
Definition ref := nat.
Definition Val := Z.

(** enums.ts *)
Module State.
Definition Actual : Z := 0.
Definition Stale : Z := 1.
Definition Pending : Z := 2.
Definition PendingDisposal : Z := 4.
Definition Running : Z := 8.
Definition Disposed : Z := 16.
Definition Upstreamable : Z := Z.lor Pending PendingDisposal.
Definition Liftable : Z := Z.lor (Z.lor Stale Pending) PendingDisposal.
Definition All : Z := 31.
Definition PendingStates : Z := 14.
End State.

Module ObserverType.
Definition Memo : Z := 1.
Definition Observer : Z := 2.
Definition UpdatesQueue : Z := Z.lor Memo Observer.
Definition RenderEffect : Z := 4.
Definition AfterEffect : Z := 8.
Definition EffectsQueue : Z := Z.lor RenderEffect AfterEffect.
Definition Computed : Z := 16.
Definition Root : Z := 32.
Definition RemountableRoot : Z := 64.
End ObserverType.

(** What can be thrown: the two [Error]s the runtime raises itself, a
    value thrown by user code, a [TypeError] of the engine (a property
    read on [null] or [undefined]). The last two are not JavaScript
    behaviour: a reference with no object behind it, and a loop or
    recursion of the model that ran out of its budget. *)
Inductive exn :=
| CircularDependency
| RunawayClock
| UserError (code : Z)
| TypeError
| Dangling
| OutOfFuel.

#[global] Instance exn_eq_dec : EqDecision exn.
Proof. solve_decision. Defined.

(** An owner's [ctx] object; of its keys only [ERROR] (the installed
    error handlers) matters here. *)
Record Ctx := mkCtx { ctx_error : option (list ref) }.

Record Source := mkSource {
  s_value : Val;
  s_pending : option Val;
  s_sub : option ref;
  s_locked : Z;
  s_eq : option (Val -> Val -> bool)
}.

Definition set_s_value (x : Val) (r : Source) : Source :=
  mkSource x (s_pending r) (s_sub r) (s_locked r) (s_eq r).
Definition set_s_pending (x : option Val) (r : Source) : Source :=
  mkSource (s_value r) x (s_sub r) (s_locked r) (s_eq r).
Definition set_s_sub (x : option ref) (r : Source) : Source :=
  mkSource (s_value r) (s_pending r) x (s_locked r) (s_eq r).
Definition set_s_locked (x : Z) (r : Source) : Source :=
  mkSource (s_value r) (s_pending r) (s_sub r) x (s_eq r).
Definition set_s_eq (x : option (Val -> Val -> bool)) (r : Source) : Source :=
  mkSource (s_value r) (s_pending r) (s_sub r) (s_locked r) x.

(** [fn], [cleanups] and the error handlers are user code: the heap
    holds their names, their behaviour is a parameter of the runtime
    (see [Section Runtime]). The [app] field is not modelled: none of
    the functions below reads it. *)
Record Observer := mkObserver {
  type : Z;
  state : Z;
  fn : option ref;
  value : Val;
  eq : option (Val -> Val -> bool);
  age : Z;
  owner : option ref;
  owned : option (list ref);
  ctx : option Ctx;
  cleanups : option (list ref);
  src1 : option ref;
  src1Slot : Z;
  srcs : option (list ref);
  srcSlots : option (list Z);
  deps : option (list (option ref));
  depSlot : Z;
  depsCount : Z;
  sub : option ref
}.

Definition set_type (x : Z) (r : Observer) : Observer :=
  mkObserver x (state r) (fn r) (value r) (eq r) (age r) (owner r) (owned r) (ctx r) (cleanups r) (src1 r) (src1Slot r) (srcs r) (srcSlots r) (deps r) (depSlot r) (depsCount r) (sub r).
Definition set_state (x : Z) (r : Observer) : Observer :=
  mkObserver (type r) x (fn r) (value r) (eq r) (age r) (owner r) (owned r) (ctx r) (cleanups r) (src1 r) (src1Slot r) (srcs r) (srcSlots r) (deps r) (depSlot r) (depsCount r) (sub r).
Definition set_fn (x : option ref) (r : Observer) : Observer :=
  mkObserver (type r) (state r) x (value r) (eq r) (age r) (owner r) (owned r) (ctx r) (cleanups r) (src1 r) (src1Slot r) (srcs r) (srcSlots r) (deps r) (depSlot r) (depsCount r) (sub r).
Definition set_value (x : Val) (r : Observer) : Observer :=
  mkObserver (type r) (state r) (fn r) x (eq r) (age r) (owner r) (owned r) (ctx r) (cleanups r) (src1 r) (src1Slot r) (srcs r) (srcSlots r) (deps r) (depSlot r) (depsCount r) (sub r).
Definition set_eq (x : option (Val -> Val -> bool)) (r : Observer) : Observer :=
  mkObserver (type r) (state r) (fn r) (value r) x (age r) (owner r) (owned r) (ctx r) (cleanups r) (src1 r) (src1Slot r) (srcs r) (srcSlots r) (deps r) (depSlot r) (depsCount r) (sub r).
Definition set_age (x : Z) (r : Observer) : Observer :=
  mkObserver (type r) (state r) (fn r) (value r) (eq r) x (owner r) (owned r) (ctx r) (cleanups r) (src1 r) (src1Slot r) (srcs r) (srcSlots r) (deps r) (depSlot r) (depsCount r) (sub r).
Definition set_owner (x : option ref) (r : Observer) : Observer :=
  mkObserver (type r) (state r) (fn r) (value r) (eq r) (age r) x (owned r) (ctx r) (cleanups r) (src1 r) (src1Slot r) (srcs r) (srcSlots r) (deps r) (depSlot r) (depsCount r) (sub r).
Definition set_owned (x : option (list ref)) (r : Observer) : Observer :=
  mkObserver (type r) (state r) (fn r) (value r) (eq r) (age r) (owner r) x (ctx r) (cleanups r) (src1 r) (src1Slot r) (srcs r) (srcSlots r) (deps r) (depSlot r) (depsCount r) (sub r).
Definition set_ctx (x : option Ctx) (r : Observer) : Observer :=
  mkObserver (type r) (state r) (fn r) (value r) (eq r) (age r) (owner r) (owned r) x (cleanups r) (src1 r) (src1Slot r) (srcs r) (srcSlots r) (deps r) (depSlot r) (depsCount r) (sub r).
Definition set_cleanups (x : option (list ref)) (r : Observer) : Observer :=
  mkObserver (type r) (state r) (fn r) (value r) (eq r) (age r) (owner r) (owned r) (ctx r) x (src1 r) (src1Slot r) (srcs r) (srcSlots r) (deps r) (depSlot r) (depsCount r) (sub r).
Definition set_src1 (x : option ref) (r : Observer) : Observer :=
  mkObserver (type r) (state r) (fn r) (value r) (eq r) (age r) (owner r) (owned r) (ctx r) (cleanups r) x (src1Slot r) (srcs r) (srcSlots r) (deps r) (depSlot r) (depsCount r) (sub r).
Definition set_src1Slot (x : Z) (r : Observer) : Observer :=
  mkObserver (type r) (state r) (fn r) (value r) (eq r) (age r) (owner r) (owned r) (ctx r) (cleanups r) (src1 r) x (srcs r) (srcSlots r) (deps r) (depSlot r) (depsCount r) (sub r).
Definition set_srcs (x : option (list ref)) (r : Observer) : Observer :=
  mkObserver (type r) (state r) (fn r) (value r) (eq r) (age r) (owner r) (owned r) (ctx r) (cleanups r) (src1 r) (src1Slot r) x (srcSlots r) (deps r) (depSlot r) (depsCount r) (sub r).
Definition set_srcSlots (x : option (list Z)) (r : Observer) : Observer :=
  mkObserver (type r) (state r) (fn r) (value r) (eq r) (age r) (owner r) (owned r) (ctx r) (cleanups r) (src1 r) (src1Slot r) (srcs r) x (deps r) (depSlot r) (depsCount r) (sub r).
Definition set_deps (x : option (list (option ref))) (r : Observer) : Observer :=
  mkObserver (type r) (state r) (fn r) (value r) (eq r) (age r) (owner r) (owned r) (ctx r) (cleanups r) (src1 r) (src1Slot r) (srcs r) (srcSlots r) x (depSlot r) (depsCount r) (sub r).
Definition set_depSlot (x : Z) (r : Observer) : Observer :=
  mkObserver (type r) (state r) (fn r) (value r) (eq r) (age r) (owner r) (owned r) (ctx r) (cleanups r) (src1 r) (src1Slot r) (srcs r) (srcSlots r) (deps r) x (depsCount r) (sub r).
Definition set_depsCount (x : Z) (r : Observer) : Observer :=
  mkObserver (type r) (state r) (fn r) (value r) (eq r) (age r) (owner r) (owned r) (ctx r) (cleanups r) (src1 r) (src1Slot r) (srcs r) (srcSlots r) (deps r) (depSlot r) x (sub r).
Definition set_sub (x : option ref) (r : Observer) : Observer :=
  mkObserver (type r) (state r) (fn r) (value r) (eq r) (age r) (owner r) (owned r) (ctx r) (cleanups r) (src1 r) (src1Slot r) (srcs r) (srcSlots r) (deps r) (depSlot r) (depsCount r) x.

Record SourceSub := mkSourceSub {
  obs1 : option ref;
  obs1Slot : Z;
  obs : option (list ref);
  obsSlots : option (list Z)
}.

Definition set_obs1 (x : option ref) (r : SourceSub) : SourceSub :=
  mkSourceSub x (obs1Slot r) (obs r) (obsSlots r).
Definition set_obs1Slot (x : Z) (r : SourceSub) : SourceSub :=
  mkSourceSub (obs1 r) x (obs r) (obsSlots r).
Definition set_obs (x : option (list ref)) (r : SourceSub) : SourceSub :=
  mkSourceSub (obs1 r) (obs1Slot r) x (obsSlots r).
Definition set_obsSlots (x : option (list Z)) (r : SourceSub) : SourceSub :=
  mkSourceSub (obs1 r) (obs1Slot r) (obs r) x.

(** A slot of a queue's [items] array. *)
Inductive item := INull | IUndef | IRef (r : ref).

#[global] Instance item_eq_dec : EqDecision item.
Proof. solve_decision. Defined.

Record Queue := mkQueue {
  items : list item;
  size : Z
}.

Definition set_items (x : list item) (r : Queue) : Queue :=
  mkQueue x (size r).
Definition set_size (x : Z) (r : Queue) : Queue :=
  mkQueue (items r) x.

(** The module state: the heaps, the four queues, the tracking and
    scheduling globals. [ran] and [handled] are ghost state: the
    observers whose [fn] the runtime has called, and the error handlers
    it has called with what they were given, oldest first. *)
Record World := mkWorld {
  sources : gmap ref Source;
  observers : gmap ref Observer;
  subscriptions : gmap ref SourceSub;
  Changes : Queue;
  Updates : Queue;
  Disposes : Queue;
  Effects : Queue;
  Observer_ : option ref;
  Owner : option ref;
  Pending : option ref;
  Time : Z;
  IsRunning : bool;
  PendingEffects : option (list ref);
  ran : list ref;
  handled : list (ref * exn)
}.

Definition set_sources (x : gmap ref Source) (r : World) : World :=
  mkWorld x (observers r) (subscriptions r) (Changes r) (Updates r) (Disposes r) (Effects r) (Observer_ r) (Owner r) (Pending r) (Time r) (IsRunning r) (PendingEffects r) (ran r) (handled r).
Definition set_observers (x : gmap ref Observer) (r : World) : World :=
  mkWorld (sources r) x (subscriptions r) (Changes r) (Updates r) (Disposes r) (Effects r) (Observer_ r) (Owner r) (Pending r) (Time r) (IsRunning r) (PendingEffects r) (ran r) (handled r).
Definition set_subscriptions (x : gmap ref SourceSub) (r : World) : World :=
  mkWorld (sources r) (observers r) x (Changes r) (Updates r) (Disposes r) (Effects r) (Observer_ r) (Owner r) (Pending r) (Time r) (IsRunning r) (PendingEffects r) (ran r) (handled r).
Definition set_Changes (x : Queue) (r : World) : World :=
  mkWorld (sources r) (observers r) (subscriptions r) x (Updates r) (Disposes r) (Effects r) (Observer_ r) (Owner r) (Pending r) (Time r) (IsRunning r) (PendingEffects r) (ran r) (handled r).
Definition set_Updates (x : Queue) (r : World) : World :=
  mkWorld (sources r) (observers r) (subscriptions r) (Changes r) x (Disposes r) (Effects r) (Observer_ r) (Owner r) (Pending r) (Time r) (IsRunning r) (PendingEffects r) (ran r) (handled r).
Definition set_Disposes (x : Queue) (r : World) : World :=
  mkWorld (sources r) (observers r) (subscriptions r) (Changes r) (Updates r) x (Effects r) (Observer_ r) (Owner r) (Pending r) (Time r) (IsRunning r) (PendingEffects r) (ran r) (handled r).
Definition set_Effects (x : Queue) (r : World) : World :=
  mkWorld (sources r) (observers r) (subscriptions r) (Changes r) (Updates r) (Disposes r) x (Observer_ r) (Owner r) (Pending r) (Time r) (IsRunning r) (PendingEffects r) (ran r) (handled r).
Definition set_Observer_ (x : option ref) (r : World) : World :=
  mkWorld (sources r) (observers r) (subscriptions r) (Changes r) (Updates r) (Disposes r) (Effects r) x (Owner r) (Pending r) (Time r) (IsRunning r) (PendingEffects r) (ran r) (handled r).
Definition set_Owner (x : option ref) (r : World) : World :=
  mkWorld (sources r) (observers r) (subscriptions r) (Changes r) (Updates r) (Disposes r) (Effects r) (Observer_ r) x (Pending r) (Time r) (IsRunning r) (PendingEffects r) (ran r) (handled r).
Definition set_Pending (x : option ref) (r : World) : World :=
  mkWorld (sources r) (observers r) (subscriptions r) (Changes r) (Updates r) (Disposes r) (Effects r) (Observer_ r) (Owner r) x (Time r) (IsRunning r) (PendingEffects r) (ran r) (handled r).
Definition set_Time (x : Z) (r : World) : World :=
  mkWorld (sources r) (observers r) (subscriptions r) (Changes r) (Updates r) (Disposes r) (Effects r) (Observer_ r) (Owner r) (Pending r) x (IsRunning r) (PendingEffects r) (ran r) (handled r).
Definition set_IsRunning (x : bool) (r : World) : World :=
  mkWorld (sources r) (observers r) (subscriptions r) (Changes r) (Updates r) (Disposes r) (Effects r) (Observer_ r) (Owner r) (Pending r) (Time r) x (PendingEffects r) (ran r) (handled r).
Definition set_PendingEffects (x : option (list ref)) (r : World) : World :=
  mkWorld (sources r) (observers r) (subscriptions r) (Changes r) (Updates r) (Disposes r) (Effects r) (Observer_ r) (Owner r) (Pending r) (Time r) (IsRunning r) x (ran r) (handled r).
Definition set_ran (x : list ref) (r : World) : World :=
  mkWorld (sources r) (observers r) (subscriptions r) (Changes r) (Updates r) (Disposes r) (Effects r) (Observer_ r) (Owner r) (Pending r) (Time r) (IsRunning r) (PendingEffects r) x (handled r).
Definition set_handled (x : list (ref * exn)) (r : World) : World :=
  mkWorld (sources r) (observers r) (subscriptions r) (Changes r) (Updates r) (Disposes r) (Effects r) (Observer_ r) (Owner r) (Pending r) (Time r) (IsRunning r) (PendingEffects r) (ran r) x.

Definition M (A : Type) : Type := World -> result exn World A.

Local Open Scope js_scope.

Definition gets {A} (f : World -> A) : M A := fun w => Ok (f w) w.
Definition modify (f : World -> World) : M unit := fun w => Ok tt (f w).
Definition when (b : bool) (m : M unit) : M unit := if b then m else ret tt.

Fixpoint forM_ {A} (l : list A) (f : A -> M unit) : M unit :=
  match l with
  | [] => ret tt
  | x :: l' => exec f x; forM_ l' f
  end.

(** [while (cond) body], with an iteration budget. *)
Fixpoint while_ {L} (fuel : nat) (cond : L -> World -> bool)
    (body : L -> M L) (l : L) : M L :=
  fun w =>
    if cond l w then
      match fuel with
      | O => Throw OutOfFuel w
      | S fuel' =>
          match body l w with
          | Ok l' w' => while_ fuel' cond body l' w'
          | Throw e w' => Throw e w'
          end
      end
    else Ok l w.

(** [try { m } catch (e) { h(e) }] and [try { m } finally { f }]. The
    two failures of the model itself are not exceptions of the
    program and pass through. *)
Definition catchable (e : exn) : bool :=
  match e with Dangling | OutOfFuel => false | _ => true end.

Definition try_catch {S A} (m : S -> result exn S A)
    (h : exn -> S -> result exn S A) : S -> result exn S A :=
  fun w => match m w with
           | Ok a w' => Ok a w'
           | Throw e w' => if catchable e then h e w' else Throw e w'
           end.

Definition try_finally {S A} (m : S -> result exn S A)
    (f : S -> result exn S unit) : S -> result exn S A :=
  fun w => match m w with
           | Ok a w' => (exec f; ret a) w'
           | Throw e w' =>
               if catchable e then (exec f; throw e) w' else Throw e w'
           end.

(** Code of the module run from code that works on a larger state [S]
    holding the module state (read by [view], written by [update]). *)
Definition lift {S A} (view : S -> World) (update : World -> S -> S)
    (m : M A) : S -> result exn S A :=
  fun s => match m (view s) with
           | Ok a w => Ok a (update w s)
           | Throw e w => Throw e (update w s)
           end.

(** [arr[i] = v] on an array whose holes read as [hole] *)
Definition array_set {A} (hole : A) (arr : list A) (i : Z) (v : A) : list A :=
  if i <? 0 then arr
  else if i <? Z.of_nat (length arr) then <[Z.to_nat i := v]> arr
  else arr ++ replicate (Z.to_nat i - length arr)%nat hole ++ [v].

Definition array_get {A} (hole : A) (arr : list A) (i : Z) : A :=
  if i <? 0 then hole else default hole (arr !! Z.to_nat i).

(** ** Heap access *)

Definition getObs (o : ref) : M Observer :=
  fun w => match observers w !! o with
           | Some ob => Ok ob w
           | None => Throw Dangling w
           end.

Definition updObs (o : ref) (f : Observer -> Observer) : M unit :=
  fun w => match observers w !! o with
           | Some ob => Ok tt (set_observers (<[o := f ob]> (observers w)) w)
           | None => Throw Dangling w
           end.

Definition getSrc (r : ref) : M Source :=
  fun w => match sources w !! r with
           | Some x => Ok x w
           | None => Throw Dangling w
           end.

Definition updSrc (r : ref) (f : Source -> Source) : M unit :=
  fun w => match sources w !! r with
           | Some x => Ok tt (set_sources (<[r := f x]> (sources w)) w)
           | None => Throw Dangling w
           end.

Definition getSub (r : ref) : M SourceSub :=
  fun w => match subscriptions w !! r with
           | Some x => Ok x w
           | None => Throw Dangling w
           end.

Definition updSub (r : ref) (f : SourceSub -> SourceSub) : M unit :=
  fun w => match subscriptions w !! r with
           | Some x =>
               Ok tt (set_subscriptions (<[r := f x]> (subscriptions w)) w)
           | None => Throw Dangling w
           end.

(** [new SourceSub()]: a fresh reference. *)
Definition newSub : M ref :=
  fun w => let r := fresh (dom (subscriptions w)) in
           Ok r (set_subscriptions
                   (<[r := mkSourceSub None 0 None None]> (subscriptions w)) w).

(** ** class Queue *)

Inductive qname := QChanges | QUpdates | QDisposes | QEffects.

Definition queue (q : qname) (w : World) : Queue :=
  match q with
  | QChanges => Changes w | QUpdates => Updates w
  | QDisposes => Disposes w | QEffects => Effects w
  end.

Definition set_queue (q : qname) (x : Queue) (w : World) : World :=
  match q with
  | QChanges => set_Changes x w | QUpdates => set_Updates x w
  | QDisposes => set_Disposes x w | QEffects => set_Effects x w
  end.

Definition qsize (q : qname) (w : World) : Z := size (queue q w).

Definition set_qsize (q : qname) (n : Z) : M unit :=
  modify (fun w => set_queue q (set_size n (queue q w)) w).

(** [add(item) { this.items[this.size++] = item }] *)
Definition Queue_add (q : qname) (r : ref) : M unit :=
  modify (fun w =>
    let Q := queue q w in
    set_queue q (mkQueue (array_set IUndef (items Q) (size Q) (IRef r))
                   (size Q + 1)) w).

Fixpoint index_of (x : item) (l : list item) (i : Z) : Z :=
  match l with
  | [] => -1
  | y :: l' => if bool_decide (y = x) then i else index_of x l' (i + 1)
  end.

(** [itemIndex(item) { return this.items.indexOf(item) }] *)
Definition Queue_itemIndex (q : qname) (r : ref) : M Z :=
  gets (fun w => index_of (IRef r) (items (queue q w)) 0).

(** [remove(itemIndex) { this.items.splice(itemIndex, 1) }], for a
    non-negative index: [size] is left as it is. *)
Definition Queue_remove (q : qname) (i : Z) : M unit :=
  modify (fun w =>
    let Q := queue q w in
    set_queue q (set_items (take (Z.to_nat i) (items Q)
                            ++ drop (S (Z.to_nat i)) (items Q)) Q) w).

(** ** resetObserver *)
Definition resetObserver (o : ref) (flags : Z) : M unit :=
  updObs o (fun ob =>
    set_depsCount 0 (set_depSlot 0
      (set_state (Z.land (state ob) (Z.lnot flags)) ob))).

Definition is_set (bits flag : Z) : bool := negb (Z.land bits flag =? 0).

(** ** class SourceSub *)

(** [connect()], on the subscription [this] *)
Definition SourceSub_connect (this : ref) : M unit :=
  do listener <- gets Observer_;
  match listener with
  | None => throw TypeError
  | Some to =>
      do tob <- getObs to;
      do sb <- getSub this;
      let toSlot :=
        match src1 tob, srcs tob with
        | None, _ => -1
        | Some _, None => 0
        | Some _, Some l => Z.of_nat (length l)
        end in
      let link (fromSlot : Z) : M unit :=
        match src1 tob, srcs tob, srcSlots tob with
        | None, _, _ =>
            updObs to (fun ob => set_src1Slot fromSlot (set_src1 (Some this) ob))
        | Some _, None, _ =>
            updObs to (fun ob =>
              set_srcSlots (Some [fromSlot]) (set_srcs (Some [this]) ob))
        | Some _, Some l, Some sl =>
            updObs to (fun ob =>
              set_srcSlots (Some (sl ++ [fromSlot]))
                (set_srcs (Some (l ++ [this])) ob))
        | Some _, Some _, None => throw TypeError
        end in
      match obs1 sb, obs sb with
      | None, _ =>
          exec updSub this (fun x => set_obs1Slot toSlot (set_obs1 (Some to) x));
          link (-1)
      | Some o1, None =>
          if bool_decide (o1 = to) then ret tt
          else
            exec updSub this (fun x =>
                   set_obsSlots (Some [toSlot]) (set_obs (Some [to]) x));
            link 0
      | Some _, Some l =>
          if bool_decide (last l = Some to) then ret tt
          else
            match obsSlots sb with
            | None => throw TypeError
            | Some sl =>
                exec updSub this (fun x =>
                       set_obsSlots (Some (sl ++ [toSlot]))
                         (set_obs (Some (l ++ [to])) x));
                link (Z.of_nat (length l))
            end
      end
  end.

(** [disconnect(slot)]: swap-with-last removal *)
Definition SourceSub_disconnect (this : ref) (slot : Z) : M unit :=
  if slot =? -1 then updSub this (set_obs1 None)
  else
    do sb <- getSub this;
    match obs sb, obsSlots sb with
    | Some l, Some sl =>
        match last l, last sl with
        | Some lastObs, Some lastSlot =>
            let l' := removelast l in
            let sl' := removelast sl in
            if slot =? Z.of_nat (length l') then
              updSub this (fun x => set_obsSlots (Some sl') (set_obs (Some l') x))
            else
              exec updSub this (fun x =>
                     set_obsSlots (Some (array_set 0 sl' slot lastSlot))
                       (set_obs (Some (array_set lastObs l' slot lastObs)) x));
              if lastSlot =? -1 then updObs lastObs (set_src1Slot slot)
              else
                do lob <- getObs lastObs;
                match srcSlots lob with
                | Some ss =>
                    updObs lastObs
                      (set_srcSlots (Some (array_set 0 ss lastSlot slot)))
                | None => throw TypeError
                end
        | _, _ =>
            if slot =? 0 then ret tt else throw TypeError
        end
    | _, _ => throw TypeError
    end.

(** ** Marking *)

(** [$$PendingEffects !== null && $$PendingEffects.has(observer)] *)
Definition isPendingEffect (o : ref) : M bool :=
  gets (fun w => match PendingEffects w with
                 | Some l => bool_decide (o ∈ l)
                 | None => false
                 end).

Fixpoint markForDisposal (n : nat) (children : list ref) (pending : bool)
  : M unit :=
  match n with
  | O => throw OutOfFuel
  | S n' =>
      forM_ children (fun child =>
        do cb <- getObs child;
        do now <- gets Time;
        exec (if pending then
                when (negb (is_set (state cb) State.Disposed))
                  (updObs child (fun ob =>
                     set_state (Z.lor (state ob) State.PendingDisposal) ob))
              else
                updObs child (fun ob =>
                  set_state State.Disposed (set_age now ob)));
        match owned cb with
        | Some l => markForDisposal n' l pending
        | None => ret tt
        end)
  end.

(** [stalePendingEffect]: mark effect that's pending from previous tick
    as stale *)
Definition stalePendingEffect (n : nat) (o : ref) : M unit :=
  do ob <- getObs o;
  let st := state ob in
  if negb (is_set st State.Stale) then
    if st =? State.Pending then
      exec updObs o (set_state State.Stale);
      match owned ob with
      | Some l => markForDisposal n l false
      | None => ret tt
      end
    else if is_set st State.PendingDisposal then
      exec updObs o (fun ob => set_state (Z.lor (state ob) State.Stale) ob);
      match owned ob with
      | Some l => markForDisposal n l false
      | None => ret tt
      end
    else ret tt
  else ret tt.

(** The three marking kernels [getStateFn] chooses from. *)
Inductive stateFn := FStale | FPending | FStalePending.

Definition getStateFn (observerType : Z) (onChange dirty : bool) : stateFn :=
  if observerType =? ObserverType.Computed then FStale
  else if dirty then FStalePending
  else if onChange then FPending
  else FStale.

(** Scheduling of a marked observer: [$$Effects] for effects,
    [$$Updates] for all but computeds. *)
Definition schedule (o : ref) (ty : Z) : M unit :=
  if is_set ty ObserverType.EffectsQueue then Queue_add QEffects o
  else if negb (ty =? ObserverType.Computed) then Queue_add QUpdates o
  else ret tt.

(** [stale], [pending], [stalePending], [prepareDownstream],
    [markDownstream] and [markObservers] call each other along the
    edges of the graph; [n] bounds the depth of the calls. *)
Fixpoint stale (n : nat) (o : ref) : M unit :=
  match n with
  | O => throw OutOfFuel
  | S n' =>
      do ob <- getObs o;
      do now <- gets Time;
      if age ob <? now then
        exec updObs o (set_age now);
        let isEffect := is_set (type ob) ObserverType.EffectsQueue in
        do waiting <- isPendingEffect o;
        if isEffect && waiting then stalePendingEffect n' o
        else
          exec updObs o (fun ob => set_state (Z.lor (state ob) State.Stale) ob);
          exec schedule o (type ob);
          prepareDownstream n' o (bool_decide (is_Some (eq ob)))
      else ret tt
  end

with pending (n : nat) (o : ref) : M unit :=
  match n with
  | O => throw OutOfFuel
  | S n' =>
      do ob <- getObs o;
      do now <- gets Time;
      if age ob <? now then
        let isEffect := is_set (type ob) ObserverType.EffectsQueue in
        do waiting <- isPendingEffect o;
        if negb (isEffect && waiting
                 && (state ob =? State.PendingDisposal)) then
          do p <- gets Pending;
          exec updObs o (fun ob =>
                 set_depsCount (depsCount ob + 1)
                   (set_deps (Some (array_set None (default [] (deps ob))
                                      (depsCount ob) p))
                      (set_state (Z.lor (state ob) State.Pending) ob)));
          exec schedule o (type ob);
          prepareDownstream n' o true
        else ret tt
      else ret tt
  end

with stalePending (n : nat) (o : ref) : M unit :=
  match n with
  | O => throw OutOfFuel
  | S n' =>
      do ob <- getObs o;
      if is_set (state ob) State.Pending then
        exec updObs o (set_state State.Stale);
        do now <- gets Time;
        if age ob <? now then
          exec updObs o (set_age now);
          match eq ob with
          | None => markDownstream n' o false true
          | Some _ => ret tt
          end
        else ret tt
      else ret tt
  end

with prepareDownstream (n : nat) (o : ref) (pending_ : bool) : M unit :=
  match n with
  | O => throw OutOfFuel
  | S n' =>
      do ob <- getObs o;
      match eq ob with
      | Some _ =>
          do saved <- gets Pending;
          exec modify (set_Pending (Some o));
          exec markDownstream n' o true false;
          modify (set_Pending saved)
      | None => markDownstream n' o pending_ false
      end
  end

with markDownstream (n : nat) (o : ref) (onChange dirty : bool) : M unit :=
  match n with
  | O => throw OutOfFuel
  | S n' =>
      do ob <- getObs o;
      exec match owned ob with
           | Some l => markForDisposal n' l (onChange && negb dirty)
           | None => ret tt
           end;
      do ob' <- getObs o;
      match sub ob' with
      | Some sb => markObservers n' sb (getStateFn (type ob') onChange dirty)
      | None => ret tt
      end
  end

with markObservers (n : nat) (sb : ref) (f : stateFn) : M unit :=
  match n with
  | O => throw OutOfFuel
  | S n' =>
      do x <- getSub sb;
      let mark (o : ref) : M unit :=
        match f with
        | FStale => stale n' o
        | FPending => pending n' o
        | FStalePending => stalePending n' o
        end in
      exec match obs1 x with
           | Some o => mark o
           | None => ret tt
           end;
      match obs x with
      | Some l => forM_ l mark
      | None => ret tt
      end
  end.

(** ** lookup (utils.ts), for the [ERROR] key *)
Fixpoint lookup_ERROR (n : nat) (owner_ : option ref)
  : M (option (list ref)) :=
  match owner_ with
  | None => ret None
  | Some o =>
      match n with
      | O => throw OutOfFuel
      | S n' =>
          do ob <- getObs o;
          match ctx ob with
          | Some (mkCtx (Some handlers)) => ret (Some handlers)
          | _ => lookup_ERROR n' (owner ob)
          end
      end
  end.

Section Runtime.

(** User code, named by the references the heap holds: the
    computation of an observer applied to its previous value, a
    cleanup applied to [final], an error handler applied to what was
    thrown. It runs against the whole module state, as JavaScript
    closures do. [fuel] is the budget of every loop and recursion. *)
Variable run_fn : ref -> Val -> M Val.
Variable run_cleanup : ref -> bool -> M unit.
Variable run_handler : ref -> exn -> M unit.
Variable fuel : nat.

(** A call of an error handler, with its ghost record. *)
Definition call_handler (e : exn) (h : ref) : M unit :=
  exec modify (fun w => set_handled (handled w ++ [(h, e)]) w);
  run_handler h e.

(** [handleError]: the handlers run in order ([runAll]); the list is
    the one found when the lookup was made. *)
Definition handleError (e : exn) : M unit :=
  do top <- gets Owner;
  do fns <- lookup_ERROR fuel top;
  match fns with
  | None => throw e
  | Some handlers =>
      forM_ handlers (call_handler e)
  end.

(** [disconnect] and [dispose] *)
Fixpoint disconnect (n : nat) (o : ref) (final : bool) : M unit :=
  match n with
  | O => throw OutOfFuel
  | S n' =>
      do ob <- getObs o;
      exec match cleanups ob with
           | Some cs =>
               exec forM_ cs (fun c => run_cleanup c final);
               updObs o (set_cleanups None)
           | None => ret tt
           end;
      exec updObs o (set_ctx None);
      exec match owned ob with
           | Some l =>
               exec forM_ l (dispose n');
               updObs o (set_owned None)
           | None => ret tt
           end;
      exec match src1 ob with
           | Some s1 =>
               do ob1 <- getObs o;
               exec SourceSub_disconnect s1 (src1Slot ob1);
               updObs o (set_src1 None)
           | None => ret tt
           end;
      match srcs ob with
      | Some l =>
          exec forM_ (imap (fun i s => (Z.of_nat i, s)) l)
                 (fun '(i, s) =>
                    do obi <- getObs o;
                    match srcSlots obi with
                    | Some slots => SourceSub_disconnect s (array_get 0 slots i)
                    | None => throw TypeError
                    end);
          updObs o (fun ob => set_srcSlots None (set_srcs None ob))
      | None => ret tt
      end
  end

with dispose (n : nat) (o : ref) : M unit :=
  match n with
  | O => throw OutOfFuel
  | S n' =>
      exec updObs o (fun ob => set_deps None (set_sub None (set_fn None ob)));
      exec disconnect n' o true;
      resetObserver o State.All
  end.

(** [runObserver], up to the call of [fn]: the observer becomes the
    owner and listener and is [Running], its inputs, cleanups and
    owned observers are dropped. Gives the previous value, the saved
    owner and listener, and the function to call. *)
Definition runObserver_prelude (o : ref)
  : M (Val * option ref * option ref * ref) :=
  do ob <- getObs o;
  let previous := value ob in
  do owner_ <- gets Owner;
  do listener <- gets Observer_;
  exec modify (fun w => set_Observer_ (Some o) (set_Owner (Some o) w));
  exec updObs o (set_state State.Running);
  exec disconnect fuel o false;
  do ob1 <- getObs o;
  match fn ob1 with
  | None => throw TypeError
  | Some f => ret (previous, owner_, listener, f)
  end.

(** The ghost record of a call of [fn]. *)
Definition record_run (o : ref) : M unit :=
  modify (fun w => set_ran (ran w ++ [o]) w).

(** [runObserver]: the re-run of a computation. The assignments
    after the call of [fn] do not happen when [fn] throws. *)
Definition runObserver (o : ref) : M Val :=
  do p <- runObserver_prelude o;
  let '(previous, owner_, listener, f) := p in
  exec record_run o;
  do v <- run_fn f previous;
  exec updObs o (set_value v);
  exec resetObserver o State.All;
  exec modify (fun w => set_Observer_ listener (set_Owner owner_ w));
  ret previous.

(** [updateNode], [liftObserver], [applyUpstream] *)
Fixpoint updateNode (n : nat) (o : ref) : M unit :=
  match n with
  | O => throw OutOfFuel
  | S n' =>
      do ob <- getObs o;
      let st := state ob in
      if negb (is_set st State.Disposed) then
        if is_set st State.Pending then
          match deps ob with
          | None => throw TypeError
          | Some ds =>
              exec updObs o (fun ob =>
                     set_depSlot (depSlot ob + 1)
                       (set_deps (Some (array_set None ds (depSlot ob) None))
                          ob));
              when (depSlot ob + 1 =? depsCount ob)
                (resetObserver o State.PendingStates)
          end
        else if is_set st State.Stale then
          if is_set st State.PendingDisposal then liftObserver n' o
          else
            match eq ob with
            | Some equals =>
                do previous <- runObserver o;
                do ob' <- getObs o;
                when (negb (equals previous (value ob')))
                  (markDownstream fuel o false true)
            | None =>
                do _ <- runObserver o;
                ret tt
            end
        else ret tt
      else ret tt
  end

with liftObserver (n : nat) (o : ref) : M unit :=
  match n with
  | O => throw OutOfFuel
  | S n' =>
      do ob <- getObs o;
      exec when (is_set (state ob) State.Upstreamable) (applyUpstream n' o);
      do ob' <- getObs o;
      exec when (is_set (state ob') State.Stale) (updateNode n' o);
      resetObserver o State.All
  end

with applyUpstream (n : nat) (o : ref) : M unit :=
  match n with
  | O => throw OutOfFuel
  | S n' =>
      do ob <- getObs o;
      exec when (is_set (state ob) State.PendingDisposal)
             match owner ob with
             | None => throw TypeError
             | Some ow =>
                 do owb <- getObs ow;
                 exec when (is_set (state owb) State.Liftable)
                        (liftObserver n' ow);
                 updObs o (fun ob =>
                   set_state (Z.land (state ob)
                                (Z.lnot State.PendingDisposal)) ob)
             end;
      do ob' <- getObs o;
      when (is_set (state ob') State.Pending)
        match deps ob' with
        | None => throw TypeError
        | Some captured =>
            exec forM_ (seqZ (depSlot ob') (depsCount ob' - depSlot ob'))
                   (fun i =>
                      do obi <- getObs o;
                      let ds := default captured (deps obi) in
                      exec match array_get None ds i with
                           | Some dep => liftObserver n' dep
                           | None => ret tt
                           end;
                      updObs o (fun ob =>
                        match deps ob with
                        | Some ds' =>
                            set_deps (Some (array_set None ds' i None)) ob
                        | None => ob
                        end));
            updObs o (fun ob =>
              set_state (Z.land (state ob) (Z.lnot State.Pending)) ob)
        end
  end.

(** [applyDataChange]; [NOT_PENDING] committed as a value is not
    representable and is a [TypeError] here. *)
Definition applyDataChange (r : ref) : M unit :=
  do x <- getSrc r;
  match s_pending x with
  | None => throw TypeError
  | Some v =>
      exec updSrc r (fun x => set_s_pending None (set_s_value v x));
      match s_sub x with
      | Some sb => markObservers fuel sb FStale
      | None => ret tt
      end
  end.

(** The function a queue was constructed with, applied to what the
    slot held; [null] and [undefined] make it fail on its first
    property access. *)
Definition queue_fn (q : qname) (it : item) : M unit :=
  match it with
  | IRef r =>
      match q with
      | QChanges => applyDataChange r
      | QUpdates | QEffects => updateNode fuel r
      | QDisposes => dispose fuel r
      end
  | _ => throw TypeError
  end.

(** [items[i] = null] *)
Definition clear_slot (q : qname) (i : Z) (w : World) : World :=
  set_queue q (set_items (array_set IUndef (items (queue q w)) i INull)
                 (queue q w)) w.

(** One iteration of the loop of [run()]:
    [try { item = items[i]; items[i] = null; fn(item) }
     catch (err) { handleError(err) }] *)
Definition run_item (q : qname) (i : Z) : M unit :=
  try_catch
    (do it <- gets (fun w => array_get IUndef (items (queue q w)) i);
     exec modify (clear_slot q i);
     queue_fn q it)
    handleError.

(** [run()] *)
Definition Queue_run (q : qname) : M unit :=
  do _ <- while_ fuel (fun i w => i <? qsize q w)
            (fun i => exec run_item q i; ret (i + 1)) 0;
  set_qsize q 0.

Definition savePendingEffects : M unit :=
  exec modify (fun w =>
         let E := Effects w in
         let queued := omap (fun it => match it with
                                       | IRef r => Some r
                                       | _ => None
                                       end)
                         (take (Z.to_nat (size E)) (items E)) in
         set_PendingEffects
           (Some (foldl (fun acc r => if bool_decide (r ∈ acc) then acc
                                      else acc ++ [r])
                    (default [] (PendingEffects w)) queued)) w);
  set_qsize QEffects 0.

Definition eager_work (w : World) : bool :=
  (0 <? qsize QChanges w) || (0 <? qsize QUpdates w).

(** An effect of the effects phase: render effects run at once, the
    others are collected. *)
Definition sort_effect (it : item) (afterEffects : list ref)
  : M (list ref) :=
  try_catch
    match it with
    | IRef o =>
        do ob <- getObs o;
        if type ob =? ObserverType.RenderEffect then
          exec updateNode fuel o; ret afterEffects
        else ret (afterEffects ++ [o])
    | _ => throw TypeError
    end
    (fun e => exec handleError e; ret afterEffects).

(** [runQueues] and [runEffects] *)
Fixpoint runQueues (n : nat) : M unit :=
  match n with
  | O => throw OutOfFuel
  | S n' =>
      do running <- gets IsRunning;
      exec modify (set_IsRunning true);
      exec set_qsize QDisposes 0;
      do _ <- while_ fuel
                (fun _ w => eager_work w || (0 <? qsize QDisposes w))
                (fun count =>
                   exec when (0 <? count) (modify (fun w => set_Time (Time w + 1) w));
                   exec Queue_run QChanges;
                   exec Queue_run QUpdates;
                   exec Queue_run QDisposes;
                   if 100000 <? count then throw RunawayClock
                   else
                     do w <- gets id;
                     exec when ((0 <? qsize QEffects w) && eager_work w)
                            savePendingEffects;
                     ret (count + 1))
                0;
      do w <- gets id;
      exec when ((0 <? qsize QEffects w)
                 || bool_decide (is_Some (PendingEffects w)))
             (runEffects n');
      modify (set_IsRunning running)
  end

with runEffects (n : nat) : M unit :=
  match n with
  | O => throw OutOfFuel
  | S n' =>
      do waiting <- gets PendingEffects;
      do after1 <- match waiting with
                   | Some l =>
                       do a <- foldl (fun acc o =>
                                        do a <- acc; sort_effect (IRef o) a)
                                 (ret []) l;
                       exec modify (set_PendingEffects None);
                       ret a
                   | None => ret []
                   end;
      do size0 <- gets (qsize QEffects);
      do after2 <- (if 0 <? size0 then
                      do r <- while_ fuel
                                (fun '(i, _) w => i <? qsize QEffects w)
                                (fun '(i, a) =>
                                   do it <- gets (fun w =>
                                              array_get IUndef (items (Effects w)) i);
                                   do a' <- sort_effect it a;
                                   ret (i + 1, a'))
                                (0, after1);
                      exec set_qsize QEffects 0;
                      ret r.2
                    else ret after1);
      exec forM_ after2 (fun o => try_catch (updateNode fuel o) handleError);
      do w <- gets id;
      exec when (0 <? qsize QDisposes w) (Queue_run QDisposes);
      do w' <- gets id;
      if eager_work w' then
        exec modify (fun w => set_Time (Time w + 1) w);
        runQueues n'
      else if 0 <? qsize QEffects w' then
        exec modify (fun w => set_Time (Time w + 1) w);
        runEffects n'
      else ret tt
  end.

(** [event] *)
Definition event : M unit :=
  do owner_ <- gets Owner;
  exec set_qsize QUpdates 0;
  exec modify (fun w => set_Time (Time w + 1) w);
  try_finally (runQueues fuel)
    (modify (fun w =>
       set_Owner owner_ (set_Observer_ None (set_IsRunning false w)))).

(** [batch], of a piece of user code [body] *)
Definition batch_in {S A} (view : S -> World) (update : World -> S -> S)
    (body : S -> result exn S A) : S -> result exn S A :=
  do running <- lift view update (gets IsRunning);
  if running then body
  else
    exec lift view update (modify (set_IsRunning true));
    exec lift view update (set_qsize QChanges 0);
    try_finally
      (do result <- body; exec lift view update event; ret result)
      (lift view update (modify (set_IsRunning false))).

Definition batch {A} (body : M A) : M A :=
  batch_in (fun w => w) (fun w _ => w) body.

(** ** class Source *)

(** [current()] *)
Definition Source_current (r : ref) : M Val :=
  do listener <- gets Observer_;
  exec match listener with
       | Some _ =>
           do x <- getSrc r;
           do sb <- match s_sub x with
                    | Some sb => ret sb
                    | None =>
                        do sb <- newSub;
                        exec updSrc r (set_s_sub (Some sb));
                        ret sb
                    end;
           SourceSub_connect sb
       | None => ret tt
       end;
  do x <- getSrc r;
  ret (s_value x).

(** [next(value)] *)
Definition Source_next (r : ref) (v : Val) : M Val :=
  do x <- getSrc r;
  if 0 <? s_locked x then
    exec updSrc r (set_s_pending (Some v));
    ret v
  else
    do running <- gets IsRunning;
    if running then
      exec when (bool_decide (s_pending x = None)) (Queue_add QChanges r);
      exec updSrc r (set_s_pending (Some v));
      ret v
    else
      match s_sub x with
      | Some _ =>
          exec updSrc r (set_s_pending (Some v));
          exec Queue_add QChanges r;
          exec event;
          ret v
      | None =>
          exec updSrc r (set_s_value v);
          ret v
      end.

(** [lock()] *)
Definition Source_lock (r : ref) : M unit :=
  exec updSrc r (fun x => set_s_locked (s_locked x + 1) x);
  do running <- gets IsRunning;
  when running
    (do srcIndexInChanges <- Queue_itemIndex QChanges r;
     when (negb (srcIndexInChanges =? -1))
       (Queue_remove QChanges srcIndexInChanges)).

(** [unlock()] *)
Definition Source_unlock (r : ref) : M unit :=
  do x <- getSrc r;
  if s_locked x =? 0 then ret tt
  else
    exec updSrc r (fun x => set_s_locked (s_locked x - 1) x);
    when ((s_locked x - 1 =? 0) && bool_decide (is_Some (s_pending x)))
      (exec Queue_add QChanges r;
       do running <- gets IsRunning;
       when (negb running) event).

(** The argument of a write: a value, or a function of the last
    value. *)
Inductive update := Value (v : Val) | Updater (f : Val -> Val).

(** [call()] without an argument is [current()]; [call(next)]: *)
Definition Source_call (r : ref) (next : update) : M Val :=
  do x <- getSrc r;
  let lastValue := default (s_value x) (s_pending x) in
  let v := match next with Value v => v | Updater f => f lastValue end in
  match s_eq x with
  | Some equals => if equals lastValue v then ret lastValue
                   else Source_next r v
  | None => Source_next r v
  end.

(** ** class Observer: [call()] *)
Definition Observer_call (o : ref) : M Val :=
  do ob <- getObs o;
  exec when ((type ob =? ObserverType.Computed)
             && is_set (state ob) State.Stale)
         (updateNode fuel o);
  do listener <- gets Observer_;
  exec match listener with
       | Some _ =>
           do ob1 <- getObs o;
           let st := state ob1 in
           exec when (is_set st State.Liftable) (liftObserver fuel o);
           do ob2 <- getObs o;
           do now <- gets Time;
           if (age ob2 =? now) && (st =? State.Running) then
             throw CircularDependency
           else
             when (negb (is_set st State.Disposed))
               (do ob3 <- getObs o;
                do sb <- match sub ob3 with
                         | Some sb => ret sb
                         | None =>
                             do sb <- newSub;
                             exec updObs o (set_sub (Some sb));
                             ret sb
                         end;
                SourceSub_connect sb)
       | None => ret tt
       end;
  do ob4 <- getObs o;
  ret (value ob4).

End Runtime.

End Reactive.

(* ===================================================================== *)
(** * asynx: the microtask ('asap') queue of the asynchronous layer       *)
(* ===================================================================== *)

Module Asynx.
Import Reactive.

(** An action of a pipeline: the user function, and the observables
    of an action given as the tuple [[fn, lock]] (none otherwise). *)
Record action := Action { act_fn : ref; act_lock : list ref }.

(** The closure [scheduleAsynx] hands to [tick]: the action to execute,
    its input, the sources its [cleanup] unlocks, and what is left in
    the [actions] array. *)
Record thunk := Thunk {
  th_fn : ref;
  th_input : Val;
  th_lock : list ref;
  th_rest : list action
}.

Inductive slot := SNull | SUndef | SThunk (t : thunk).

(** The one kind of callback the module gives to [Resolved.then]: the
    one created in [scheduleTick]. *)
Inductive microtask := TickCallback.

Record AsapQueue := mkAsapQueue {
  aq_items : list slot;
  aq_size : Z;
  aq_count : Z
}.

(** The module state of asynx.ts next to that of observable.ts, and the
    host's microtask queue. [executed] is ghost state: the actions the
    queue has called, oldest first. *)
Record Loop := mkLoop {
  world : World;
  Running_ : bool;
  Scheduled : bool;
  Tick : Z;
  Queue_ : AsapQueue;
  microtasks : list microtask;
  executed : list ref
}.

Definition set_world (x : World) (l : Loop) : Loop :=
  mkLoop x (Running_ l) (Scheduled l) (Tick l) (Queue_ l) (microtasks l) (executed l).
Definition set_Running_ (x : bool) (l : Loop) : Loop :=
  mkLoop (world l) x (Scheduled l) (Tick l) (Queue_ l) (microtasks l) (executed l).
Definition set_Scheduled (x : bool) (l : Loop) : Loop :=
  mkLoop (world l) (Running_ l) x (Tick l) (Queue_ l) (microtasks l) (executed l).
Definition set_Tick (x : Z) (l : Loop) : Loop :=
  mkLoop (world l) (Running_ l) (Scheduled l) x (Queue_ l) (microtasks l) (executed l).
Definition set_Queue_ (x : AsapQueue) (l : Loop) : Loop :=
  mkLoop (world l) (Running_ l) (Scheduled l) (Tick l) x (microtasks l) (executed l).
Definition set_microtasks (x : list microtask) (l : Loop) : Loop :=
  mkLoop (world l) (Running_ l) (Scheduled l) (Tick l) (Queue_ l) x (executed l).
Definition set_executed (x : list ref) (l : Loop) : Loop :=
  mkLoop (world l) (Running_ l) (Scheduled l) (Tick l) (Queue_ l) (microtasks l) x.

Definition MX (A : Type) : Type := Loop -> result exn Loop A.

Local Open Scope js_scope.

Definition change (f : Loop -> Loop) : MX unit := fun l => Ok tt (f l).
Definition read {A} (f : Loop -> A) : MX A := fun l => Ok (f l) l.

(** Code of observable.ts, run from here. *)
Definition core {A} (m : M A) : MX A := lift world (fun w l => set_world w l) m.

Fixpoint forX_ {A} (l : list A) (f : A -> MX unit) : MX unit :=
  match l with
  | [] => ret tt
  | x :: l' => exec f x; forX_ l' f
  end.

(** [scheduleTick] *)
Definition scheduleTick : MX unit :=
  do scheduled <- read Scheduled;
  if scheduled then ret tt
  else
    exec change (set_Scheduled true);
    exec change (fun l => set_Tick (Tick l + 1) l);
    change (fun l => set_microtasks (microtasks l ++ [TickCallback]) l).

(** [AsapQueue.add], on [$$Queue]; gives the [AsynxId] *)
Definition Queue_add (t : thunk) : MX (Z * Z) :=
  do q <- read Queue_;
  do now <- read Tick;
  exec change (set_Queue_
                 (mkAsapQueue (array_set SUndef (aq_items q) (aq_size q) (SThunk t))
                    (aq_size q + 1) (aq_count q + 1)));
  ret (now, aq_size q).

(** [tick(action)]; the [Dispose] it returns is not modelled. *)
Definition tick (t : thunk) : MX unit :=
  exec scheduleTick;
  do _ <- Queue_add t;
  ret tt.

Section Pipeline.

Variable run_fn : ref -> Val -> M Val.
Variable run_cleanup : ref -> bool -> M unit.
Variable run_handler : ref -> exn -> M unit.
(** The user function of an action, applied to its input. Results
    that are promises are not modelled. *)
Variable run_action : ref -> Val -> MX Val.
(** The part of [AsapQueue.run] that looks at the timeline of delayed
    tasks and the host clock. *)
Variable check_timeline : MX unit.
Variable fuel : nat.

(** [lockDeps(lock)] locks now; the cleanup it returns unlocks. *)
Definition lockDeps (lock : list ref) : MX unit :=
  forX_ lock (fun r => core (Source_lock r)).

Definition lockCleanup (lock : list ref) : MX unit :=
  forX_ lock (fun r =>
    core (Source_unlock run_fn run_cleanup run_handler fuel r)).

(** [scheduleAsynx], for the source ['asap'] and for a source function
    whose result [input] is not a promise: both end in [tick]. *)
Definition scheduleAsynx (input : Val) (actions : list action) : MX unit :=
  match actions with
  | [] => ret tt
  | a :: rest =>
      exec lockDeps (act_lock a);
      tick (Thunk (act_fn a) input (act_lock a) rest)
  end.

(** [executeNext] *)
Definition executeNext (t : thunk) : MX unit :=
  try_catch
    (do result <- run_action (th_fn t) (th_input t);
     exec lockCleanup (th_lock t);
     scheduleAsynx result (th_rest t))
    (fun e =>
       exec core (handleError run_handler fuel e);
       lockCleanup (th_lock t)).

(** The queued closure:
    [try { executeNext(action, initialValue, cleanup) }
     catch (error) { handleError(error); cleanup() }] *)
Definition run_thunk (t : thunk) : MX unit :=
  try_catch (executeNext t)
    (fun e =>
       exec core (handleError run_handler fuel e);
       lockCleanup (th_lock t)).

(** [AsapQueue.run(true)], on [$$Queue] *)
Definition Queue_run : MX unit :=
  do q <- read Queue_;
  if aq_count q =? 0 then ret tt
  else
    exec change (set_Queue_ (mkAsapQueue (aq_items q) 0 0));
    exec forX_ (seqZ 0 (aq_size q)) (fun i =>
           match array_get SUndef (aq_items q) i with
           | SThunk t =>
               exec change (fun l => set_executed (executed l ++ [th_fn t]) l);
               run_thunk t
           | _ => throw TypeError
           end);
    check_timeline.

(** [runMicroQueue] *)
Definition runMicroQueue : MX unit :=
  exec change (set_Scheduled false);
  exec change (set_Running_ true);
  exec batch_in run_fn run_cleanup run_handler fuel
         world (fun w l => set_world w l) Queue_run;
  change (set_Running_ false).

(** The host runs a microtask. *)
Definition run_microtask (m : microtask) : MX unit :=
  match m with
  | TickCallback =>
      do scheduled <- read Scheduled;
      if scheduled then runMicroQueue else ret tt
  end.

(** [asynx('asap', actions, initialValue)] *)
Definition asynx_asap (actions : list action) (initialValue : Val)
  : MX unit :=
  scheduleAsynx initialValue actions.

End Pipeline.

End Asynx.

(* ===================================================================== *)
(** * indexArray: mapping of a list by position                            *)
(* ===================================================================== *)

Module IndexArray.
Import Reactive.

(** The values of the input list. *)
Definition T := Z.

(** An element of [items]: a value of the list, or the [FALLBACK]
    marker. *)
Inductive cell := FALLBACK | Item (v : T).

#[global] Instance cell_eq_dec : EqDecision cell.
Proof. solve_decision. Defined.

(** What the operator asks of the reactive core, in the order it asks:
    [root(f)] (the root is named by the disposer handed to [f]),
    [observable(v)], the write [sources[i](() => v)], the call of a
    disposer. *)
Inductive effect :=
| RootCreated (disposer : ref)
| ObservableCreated (source : ref) (v : T)
| Written (source : ref) (v : T)
| Disposed (disposer : ref).

Section Mapping.

(** What [mapFn] returns; [mapFn] is given the readable of the
    source it is created with, and the index. The fallback, when
    the option is set, and the two pool options; the constant
    [DEFAULT_POOL_LIMIT] is defined outside the available sources. *)
Variable R : Type.
Variable mapFn : ref -> Z -> R.
Variable fallback : option R.
Variable DEFAULT_POOL_LIMIT : Z.
Variable poolLimit_option : option Z.

Record PoolItem := mkPoolItem {
  p_mapped : option R;
  p_disposer : option ref;
  p_source : option ref
}.

(** The variables the returned function closes over. Array slots
    hold [None] for [undefined]. [pool] is [None] for [null].
    [fresh] names the next object the core creates; [effects] is
    the record of the requests made to the core, oldest first. *)
Record closure := mkClosure {
  items : list cell;
  mapped : list (option R);
  disposers : list (option ref);
  sources : list (option ref);
  len : Z;
  pool : option (gmap Z PoolItem);
  fresh_ref : ref;
  effects : list effect
}.

Definition set_items (x : list cell) (c : closure) : closure :=
  mkClosure x (mapped c) (disposers c) (sources c) (len c) (pool c)
    (fresh_ref c) (effects c).
Definition set_mapped (x : list (option R)) (c : closure) : closure :=
  mkClosure (items c) x (disposers c) (sources c) (len c) (pool c)
    (fresh_ref c) (effects c).
Definition set_disposers (x : list (option ref)) (c : closure) : closure :=
  mkClosure (items c) (mapped c) x (sources c) (len c) (pool c)
    (fresh_ref c) (effects c).
Definition set_sources (x : list (option ref)) (c : closure) : closure :=
  mkClosure (items c) (mapped c) (disposers c) x (len c) (pool c)
    (fresh_ref c) (effects c).
Definition set_len (x : Z) (c : closure) : closure :=
  mkClosure (items c) (mapped c) (disposers c) (sources c) x (pool c)
    (fresh_ref c) (effects c).
Definition set_pool (x : option (gmap Z PoolItem)) (c : closure) : closure :=
  mkClosure (items c) (mapped c) (disposers c) (sources c) (len c) x
    (fresh_ref c) (effects c).
Definition set_fresh_ref (x : ref) (c : closure) : closure :=
  mkClosure (items c) (mapped c) (disposers c) (sources c) (len c) (pool c)
    x (effects c).
Definition emit (e : effect) (c : closure) : closure :=
  mkClosure (items c) (mapped c) (disposers c) (sources c) (len c) (pool c)
    (fresh_ref c) (effects c ++ [e]).

Definition MI (A : Type) : Type := closure -> result exn closure A.

Local Open Scope js_scope.

Definition upd (f : closure -> closure) : MI unit := fun c => Ok tt (f c).
Definition look {A} (f : closure -> A) : MI A := fun c => Ok (f c) c.

Fixpoint forI_ {A} (l : list A) (f : A -> MI unit) : MI unit :=
  match l with
  | [] => ret tt
  | x :: l' => exec f x; forI_ l' f
  end.

(** [arr.length = n] *)
Definition resize {A} (arr : list (option A)) (n : Z) : list (option A) :=
  take (Z.to_nat n) arr ++ replicate (Z.to_nat n - length arr)%nat None.

(** A new object of the core. *)
Definition allocate : MI ref :=
  fun c => Ok (fresh_ref c) (set_fresh_ref (S (fresh_ref c)) c).

(** [disposers[i]()] *)
Definition call_disposer (i : Z) : MI unit :=
  do ds <- look disposers;
  match array_get None ds i with
  | Some d => upd (emit (Disposed d))
  | None => throw TypeError
  end.

(** [pool !== null && (options.poolLimit || DEFAULT_POOL_LIMIT)], when
    [pool] is not [null] *)
Definition poolLimit : Z :=
  match poolLimit_option with
  | Some n => if n =? 0 then DEFAULT_POOL_LIMIT else n
  | None => DEFAULT_POOL_LIMIT
  end.

Section Update.

(** One call of the returned function, with [newItems = list() || []]. *)
Variable newItems : list T.

Definition newLength : Z := Z.of_nat (length newItems).

(** [mapper], run by [root] for index [i] *)
Definition root_mapper (i : Z) : MI unit :=
  do d <- allocate;
  exec upd (emit (RootCreated d));
  exec upd (fun c => set_disposers (array_set None (disposers c) i (Some d)) c);
  do s <- allocate;
  match newItems !! Z.to_nat i with
  | Some v =>
      exec upd (emit (ObservableCreated s v));
      exec upd (fun c => set_sources (array_set None (sources c) i (Some s)) c);
      upd (fun c => set_mapped (array_set None (mapped c) i (Some (mapFn s i))) c)
  | None => throw TypeError
  end.

Definition recycleFromPool (i : Z) (p : PoolItem) : MI unit :=
  exec upd (fun c => set_mapped (array_set None (mapped c) i (p_mapped p)) c);
  exec upd (fun c => set_disposers (array_set None (disposers c) i (p_disposer p)) c);
  exec upd (fun c => set_sources (array_set None (sources c) i (p_source p)) c);
  upd (fun c => set_pool (delete i <$> pool c) c).

Definition saveInPool (i : Z) : MI unit :=
  upd (fun c =>
    match pool c with
    | Some m =>
        let m1 := if poolLimit <=? Z.of_nat (base.size m)
                  then delete (newLength - 1 + Z.of_nat (base.size m)) m
                  else m in
        set_pool (Some (<[i := mkPoolItem (array_get None (mapped c) i)
                                 (array_get None (disposers c) i)
                                 (array_get None (sources c) i)]> m1)) c
    | None => c
    end).

(** The body of the first loop, for index [i] *)
Definition visit (i : Z) : MI unit :=
  do c <- look id;
  let old := Z.of_nat (length (items c)) in
  if (i <? old)
     && negb (bool_decide (items c !! Z.to_nat i
                           = Item <$> newItems !! Z.to_nat i)) then
    match array_get None (sources c) i, newItems !! Z.to_nat i with
    | Some s, Some v => upd (emit (Written s v))
    | _, _ => throw TypeError
    end
  else if old <=? i then
    match pool c with
    | Some m =>
        match m !! i with
        | Some p => recycleFromPool i p
        | None => root_mapper i
        end
    | None => root_mapper i
    end
  else ret tt.

(** The body of the second loop, for index [i] *)
Definition retire (i : Z) : MI unit :=
  do c <- look id;
  match pool c with
  | Some _ => saveInPool i
  | None => call_disposer i
  end.

Definition clear : MI unit :=
  upd (fun c => set_len 0 (set_mapped [] (set_items [] (set_disposers [] c)))).

(** [if (items[0] === FALLBACK) { ... }] *)
Definition drop_fallback : MI unit :=
  do c <- look id;
  if bool_decide (items c !! 0%nat = Some FALLBACK) then
    exec call_disposer 0;
    clear
  else ret tt.

(** The returned function (the part under [untrack]); gives the
    array it returns. *)
Definition update : MI (list (option R)) :=
  do c0 <- look id;
  if newLength =? 0 then
    exec (if negb (len c0 =? 0) then
            exec match pool c0 with
                 | Some _ => forI_ (seqZ 0 (len c0)) saveInPool
                 | None =>
                     forI_ (seqZ 0 (Z.of_nat (length (disposers c0))))
                       call_disposer
                 end;
            exec clear;
            upd (set_sources [])
          else ret tt);
    exec match fallback with
         | Some r =>
             exec upd (set_items [FALLBACK]);
             do d <- allocate;
             exec upd (emit (RootCreated d));
             exec upd (fun c =>
                    set_disposers (array_set None (disposers c) 0 (Some d)) c);
             exec upd (fun c =>
                    set_mapped (array_set None (mapped c) 0 (Some r)) c);
             upd (set_len 1)
         | None => ret tt
         end;
    look mapped
  else
    exec drop_fallback;
    exec forI_ (seqZ 0 newLength) visit;
    do c1 <- look id;
    exec forI_ (seqZ newLength (Z.of_nat (length (items c1)) - newLength))
           retire;
    exec upd (fun c =>
           set_len newLength
             (set_sources (resize (sources c) newLength)
                (set_disposers (resize (disposers c) newLength) c)));
    exec upd (set_items (Item <$> newItems));
    exec upd (fun c => set_mapped (take (Z.to_nat newLength) (mapped c)) c);
    look mapped.

End Update.

End Mapping.

End IndexArray.


(* ===================================================================== *)
(** * What the properties are stated with                                 *)
(* ===================================================================== *)

(** The state a computation leaves, whether it returns or throws. *)
Definition final {E S A} (r : result E S A) : S :=
  match r with Ok _ s | Throw _ s => s end.

Module ReactiveSpec.
Import Reactive.

(** The stored value of an observer. *)
Definition value_at (o : ref) (w : World) : option Val :=
  value <$> observers w !! o.

(** [keeps o m]: the computation [m] leaves the stored value of [o] as
    it was. User code has no access to the field; it is the runtime
    that assigns it, in [runObserver]. *)
Definition keeps (o : ref) {A} (m : M A) : Prop :=
  forall w, value_at o (final (m w)) = value_at o w.

(** [nearest w n top r]: walking up the owner chain from [top], through
    at most [n] owners, [r] is the list of error handlers of the first
    owner that carries one, [None] when the chain ends without. *)
Inductive nearest (w : World) : nat -> option ref -> option (list ref) -> Prop :=
| nearest_top n : nearest w n None None
| nearest_here n o ob hs :
    observers w !! o = Some ob ->
    ctx ob = Some (mkCtx (Some hs)) ->
    nearest w (S n) (Some o) (Some hs)
| nearest_up n o ob r :
    observers w !! o = Some ob ->
    ctx ob = None \/ ctx ob = Some (mkCtx None) ->
    nearest w n (owner ob) r ->
    nearest w (S n) (Some o) r.

(** [flush step q i w ws w_end]: the worlds [ws] are the states after
    the successive iterations [i], [i+1], ... of a flush of [q] started
    in [w]: each iteration found its index below the size and
    returned; in [w_end] the index has reached the size. *)
Fixpoint flush (step : Z -> M unit) (q : qname) (i : Z) (w : World)
    (ws : list World) (w_end : World) : Prop :=
  match ws with
  | [] => w_end = w /\ qsize q w <= i
  | w' :: ws' =>
      i < qsize q w /\ step i w = Ok tt w' /\ flush step q (i + 1) w' ws' w_end
  end.

(** ** Worlds and user code of the examples *)

Definition empty_queue : Queue := mkQueue [] 0.

Definition blank_world : World :=
  {| sources := ∅; observers := ∅; subscriptions := ∅;
     Changes := empty_queue; Updates := empty_queue;
     Disposes := empty_queue; Effects := empty_queue;
     Observer_ := None; Owner := None; Pending := None;
     Time := 0; IsRunning := false; PendingEffects := None;
     ran := []; handled := [] |}.

Definition blank_observer (ty st : Z) (f : option ref)
    (equals : option (Val -> Val -> bool)) (own : option ref) : Observer :=
  mkObserver ty st f 0 equals 0 own None None None None 0 None None None 0 0 None.

(** The default [equals] of observables and memos: [prev === next]. *)
Definition EQUALS : Val -> Val -> bool := Z.eqb.

Definition no_cleanup : ref -> bool -> M unit := fun _ _ => ret tt.
Definition no_handler : ref -> exn -> M unit := fun _ _ => ret tt.
Definition identity_fn : ref -> Val -> M Val := fun _ v => ret v.

(** A memo in the middle of a re-run, at time 3. *)
Definition running_memo : Observer :=
  set_age 3 (blank_observer ObserverType.Memo State.Running (Some 1%nat) None None).

Definition running_world : World :=
  set_observers {[ 1%nat := running_memo ]}
    (set_Time 3 (set_Owner (Some 1%nat) blank_world)).

(** A root (0) that owns two stale memos (1 and 2), both queued in
    [$$Updates]; [handlers] is the root's [ctx[ERROR]]. *)
Definition stale_memo (f : ref) : Observer :=
  set_age 1 (blank_observer ObserverType.Memo State.Stale (Some f) (Some EQUALS)
               (Some 0%nat)).

Definition two_stale (handlers : option (list ref)) : World :=
  set_observers
    {[ 0%nat := set_ctx (Some (mkCtx handlers))
                  (set_owned (Some [1%nat; 2%nat])
                     (blank_observer ObserverType.Root State.Actual None None None));
       1%nat := stale_memo 1%nat;
       2%nat := stale_memo 2%nat ]}
    (set_Updates (mkQueue [IRef 1%nat; IRef 2%nat] 2)
       (set_IsRunning true (set_Time 1 blank_world))).

(** The computation of memo 1 throws, that of memo 2 returns 5. *)
Definition throwing_fn : ref -> Val -> M Val :=
  fun f v => match f with
             | 1%nat => throw (UserError 7)
             | _ => ret 5
             end.

(** An observable [x] (source 0) read by a memo [m] (observer 1, with
    the default equality) that a render effect [r] (observer 2) reads:
    [m = memo(() => x() * 2)], [r = renderEffect(() => m())]. *)
Fixpoint chain_fn (n : nat) (f : ref) (prev : Val) : M Val :=
  match n with
  | O => throw OutOfFuel
  | S n' =>
      match f with
      | 1%nat => bind (Source_current 0%nat) (fun x => ret (x * 2))
      | 2%nat => Observer_call (chain_fn n') no_cleanup 20 1%nat
      | _ => ret prev
      end
  end.

Definition chain_world : World :=
  set_sources {[ 0%nat := mkSource 0 None (Some 0%nat) 0 (Some EQUALS) ]}
    (set_observers
       {[ 1%nat := set_sub (Some 1%nat)
                     (set_src1Slot (-1) (set_src1 (Some 0%nat)
                        (blank_observer ObserverType.Memo State.Actual
                           (Some 1%nat) (Some EQUALS) None)));
          2%nat := set_src1Slot (-1) (set_src1 (Some 1%nat)
                     (blank_observer ObserverType.RenderEffect State.Actual
                        (Some 2%nat) None None)) ]}
       (set_subscriptions
          {[ 0%nat := mkSourceSub (Some 1%nat) (-1) None None;
             1%nat := mkSourceSub (Some 2%nat) (-1) None None ]}
          (set_Time 1 blank_world))).

(** [x(a); x(b)] inside a batch that has not flushed yet, and the state
    after the [$$Changes] phase of the flush. *)
Definition write (fns : ref -> Val -> M Val) (x : ref) (v : Val) : M Val :=
  Source_call fns no_cleanup no_handler 20 x (Value v).

Definition chain_staged : World :=
  final (bind (write (chain_fn 20) 0%nat 1)
           (fun _ => write (chain_fn 20) 0%nat 0)
           (set_IsRunning true chain_world)).

Definition chain_marked : World :=
  final (Queue_run (chain_fn 20) no_cleanup no_handler 20 QChanges
           (set_Time 2 chain_staged)).

(** A diamond: [m = memo(() => x() * 0)] (observer 1) and
    [d = memo(() => x() + m())] (observer 2) both read [x]. *)
Fixpoint diamond_fn (n : nat) (f : ref) (prev : Val) : M Val :=
  match n with
  | O => throw OutOfFuel
  | S n' =>
      match f with
      | 1%nat => bind (Source_current 0%nat) (fun x => ret (x * 0))
      | 2%nat => bind (Source_current 0%nat) (fun x =>
                   bind (Observer_call (diamond_fn n') no_cleanup 20 1%nat)
                     (fun m => ret (x + m)))
      | _ => ret prev
      end
  end.

Definition diamond_world : World :=
  set_sources {[ 0%nat := mkSource 0 None (Some 0%nat) 0 (Some EQUALS) ]}
    (set_observers
       {[ 1%nat := set_sub (Some 1%nat)
                     (set_src1Slot (-1) (set_src1 (Some 0%nat)
                        (blank_observer ObserverType.Memo State.Actual
                           (Some 1%nat) (Some EQUALS) None)));
          2%nat := set_srcSlots (Some [-1]) (set_srcs (Some [1%nat])
                     (set_src1Slot 0 (set_src1 (Some 0%nat)
                        (blank_observer ObserverType.Memo State.Actual
                           (Some 2%nat) (Some EQUALS) None)))) ]}
       (set_subscriptions
          {[ 0%nat := mkSourceSub (Some 1%nat) (-1) (Some [2%nat]) (Some [-1]);
             1%nat := mkSourceSub (Some 2%nat) 0 None None ]}
          (set_Time 1 blank_world))).

Definition diamond_after : result exn World Val :=
  batch (diamond_fn 20) no_cleanup no_handler 20
    (write (diamond_fn 20) 0%nat 1) diamond_world.

(** An observable with no subscriber, and [batch(() => { x(1);
    x.lock(); x(2); x.unlock() })] on it. *)
Definition lock_world : World :=
  set_sources {[ 0%nat := mkSource 0 None None 0 (Some EQUALS) ]} blank_world.

Definition write_lock_write_unlock : M unit :=
  batch identity_fn no_cleanup no_handler 10
    (bind (write identity_fn 0%nat 1) (fun _ =>
     bind (Source_lock 0%nat) (fun _ =>
     bind (write identity_fn 0%nat 2) (fun _ =>
     Source_unlock identity_fn no_cleanup no_handler 10 0%nat)))).

(** [x.lock(); x(5); x(7)] outside a batch, in [chain_world]. *)
Definition locked_writes : M Val :=
  bind (Source_lock 0%nat) (fun _ =>
  bind (write (chain_fn 20) 0%nat 5) (fun _ =>
  write (chain_fn 20) 0%nat 7)).

Definition chain_locked : World := final (locked_writes chain_world).

(** The memo [m] of [chain_world] after its re-run in [chain_marked]. *)
Definition chain_recomputed : World :=
  final (runObserver (chain_fn 20) no_cleanup 20 1%nat chain_marked).

(** The observer [o] of a world, when there is one. *)
Definition the_observer (o : ref) (w : World) : Observer :=
  default (blank_observer 0 0 None None None) (observers w !! o).

(** [two_stale], when the flush has reached the call of the function
    of memo 1, and when that call has thrown. *)
Definition two_stale_entered : World :=
  final (runObserver_prelude no_cleanup 20 1%nat
           (clear_slot QUpdates 0 (two_stale (Some [9%nat])))).

Definition two_stale_thrown : World :=
  set_ran (ran two_stale_entered ++ [1%nat]) two_stale_entered.

(** The states after the two iterations of the flush of [$$Updates]
    in [two_stale (Some [9])]. *)
Definition two_stale_step1 : World :=
  final (run_item throwing_fn no_cleanup no_handler 20 QUpdates 0
           (two_stale (Some [9%nat]))).

Definition two_stale_step2 : World :=
  final (run_item throwing_fn no_cleanup no_handler 20 QUpdates 1
           two_stale_step1).

End ReactiveSpec.


Module AsynxSpec.
Import Reactive ReactiveSpec Asynx.

(** Successive executions: [runs step l ts l_end] when running [step]
    on the elements of [ts] in order, from the state [l], returns each
    time and ends in [l_end]. *)
Fixpoint runs {X} (step : X -> MX unit) (l : Loop) (ts : list X)
    (l_end : Loop) : Prop :=
  match ts with
  | [] => l_end = l
  | t :: ts' => exists l', step t l = Ok tt l' /\ runs step l' ts' l_end
  end.

(** A call [asynx('asap', a :: rest, v)] is given as [(a, rest, v)]:
    the call itself, the closure it queues, the sources it locks. *)
Definition call (c : action * list action * Val) : MX unit :=
  asynx_asap (c.1.1 :: c.1.2) c.2.

Definition thunk_of (c : action * list action * Val) : thunk :=
  Thunk (act_fn c.1.1) c.2 (act_lock c.1.1) c.1.2.

Definition locks_of (c : action * list action * Val) : list ref :=
  act_lock c.1.1.

(** The state [tick(t)] leaves. *)
Definition ticked (t : thunk) (l : Loop) : Loop :=
  let l1 := if Scheduled l then l
            else set_microtasks (microtasks l ++ [TickCallback])
                   (set_Tick (Tick l + 1) (set_Scheduled true l)) in
  set_Queue_
    (mkAsapQueue
       (array_set SUndef (aq_items (Queue_ l1)) (aq_size (Queue_ l1)) (SThunk t))
       (aq_size (Queue_ l1) + 1) (aq_count (Queue_ l1) + 1)) l1.

(** [queued ts q]: the queue holds exactly the closures [ts], in
    order, from slot 0. *)
Definition queued (ts : list thunk) (q : AsapQueue) : Prop :=
  aq_size q = Z.of_nat (length ts)
  /\ aq_count q = Z.of_nat (length ts)
  /\ forall (j : nat) (t : thunk),
       ts !! j = Some t ->
       array_get SUndef (aq_items q) (Z.of_nat j) = SThunk t.

(** The state in which the first queued closure is called: the
    callback has cleared [$$Scheduled], [batch] has opened (the
    scheduler is running, [$$Changes] is reset), the queue has been
    emptied. And the state the callback leaves when the flush of the
    batch has ended in [l]. *)
Definition drained (l : Loop) : Loop :=
  set_Queue_ (mkAsapQueue (aq_items (Queue_ l)) 0 0)
    (set_world (set_Changes (set_size 0 (Changes (world l)))
                  (set_IsRunning true (world l)))
       (set_Running_ true (set_Scheduled false l))).

Definition closed (l : Loop) : Loop :=
  set_Running_ false (set_world (set_IsRunning false (world l)) l).

(** The state in which the first queued closure is called when the
    callback finds a batch open already: [batch] only calls its
    function. *)
Definition joined (l : Loop) : Loop :=
  set_Queue_ (mkAsapQueue (aq_items (Queue_ l)) 0 0)
    (set_Running_ true (set_Scheduled false l)).

(** The call of one queued closure, with its ghost record. *)
Definition execute (run_fn : ref -> Val -> M Val)
    (run_cleanup : ref -> bool -> M unit) (run_handler : ref -> exn -> M unit)
    (run_action : ref -> Val -> MX Val) (fuel : nat) (t : thunk) : MX unit :=
  bind (change (fun l => set_executed (executed l ++ [th_fn t]) l))
    (fun _ => run_thunk run_fn run_cleanup run_handler run_action fuel t).

(** ** The examples: three observables without subscribers; the action
    [f] writes 1 to the observable [f]. *)

Definition three_sources : Loop :=
  {| world := set_sources
                {[ 0%nat := mkSource 0 None None 0 (Some EQUALS);
                   1%nat := mkSource 0 None None 0 (Some EQUALS);
                   2%nat := mkSource 0 None None 0 (Some EQUALS) ]}
                blank_world;
     Running_ := false; Scheduled := false; Tick := 0;
     Queue_ := mkAsapQueue [] 0 0; microtasks := []; executed := [] |}.

Definition writer : ref -> Val -> MX Val :=
  fun f _ => core (Source_call identity_fn no_cleanup no_handler 20 f (Value 1)).

(** The action 0 throws; the others write. *)
Definition failing_writer : ref -> Val -> MX Val :=
  fun f v => match f with
             | O => throw (UserError 7)
             | _ => writer f v
             end.

Definition no_timeline : MX unit := ret tt.

(** [asynx('asap', [w0]); asynx('asap', [[w1, [x1]]]); asynx('asap', [w2])] *)
Definition three_calls : list (action * list action * Val) :=
  [ (Action 0%nat [], [], 0); (Action 1%nat [1%nat], [], 0);
    (Action 2%nat [], [], 0) ].

Definition three_scheduled : Loop := final (forX_ three_calls call three_sources).

Definition three_ran : Loop :=
  final (forX_ (thunk_of <$> three_calls)
           (execute identity_fn no_cleanup no_handler writer 20)
           (drained three_scheduled)).

Definition three_flushed : Loop :=
  final (core (event identity_fn no_cleanup no_handler 20) three_ran).

Definition two_calls : list (action * list action * Val) :=
  [ (Action 0%nat [], [], 0); (Action 1%nat [], [], 0) ].

Definition two_scheduled : Loop := final (forX_ two_calls call three_sources).

(** The three calls made inside a batch, and the state in which the
    host runs the microtask: the batch has been closed since. *)
Definition in_batch : Loop :=
  set_world (set_IsRunning true (world three_sources)) three_sources.

Definition batch_scheduled : Loop := final (forX_ three_calls call in_batch).

Definition batch_left : Loop :=
  set_world (set_IsRunning false (world batch_scheduled)) batch_scheduled.

Definition batch_ran : Loop :=
  final (forX_ (thunk_of <$> three_calls)
           (execute identity_fn no_cleanup no_handler writer 20)
           (drained batch_left)).

Definition batch_flushed : Loop :=
  final (core (event identity_fn no_cleanup no_handler 20) batch_ran).

End AsynxSpec.


(* ===================================================================== *)
(** * Inputs and states the properties of [reconcile] are stated on       *)
(* ===================================================================== *)

Module ReconcileSpec.
Import JsArray Reconcile.

(** Scenario S1: the nodes [a b c d e f] are 0 .. 5, the new node [h]
    is 6. *)
Definition S1_current : list Node := [0; 1; 2; 3; 4; 5]%nat.
Definition S1_next : list Node := [0; 2; 1; 6; 5; 4]%nat.

(** [x.nextSibling] for the last node before the list [l]. *)
Definition first_of (l : list Node) : jsval :=
  match l with
  | [] => JNull
  | x :: _ => JNode x
  end.

(** The store of [reconcile] between two iterations of the main loop,
    as long as the advanced diff has not started: [pre] and [suf] are
    the settled ends, [c] and [nx] the parts of [current] and [next]
    left between the cursors; [d] is the child list of [parent] and
    [k] the calls made on it. *)
Definition window (k : list Dom.op) (d pre c nx suf : list Node) : store :=
  {| parent := {| Dom.children := d; Dom.calls := k |};
     current := of_nodes (pre ++ c ++ suf);
     currentEnd := Z.of_nat (length pre + length c);
     nextEnd := Z.of_nat (length pre + length nx);
     start := Z.of_nat (length pre);
     ins := 0; advancedDiff := false;
     lastCurrent := JNull; lastNext := JNull;
     nextIndexes := ∅; prevNodes := ∅ |}.

(** [body] from a state between two iterations of the main loop, with
    [m] iterations left to the main loop. *)
Definition resume (fuel : nat) (next : list jsval) (m : nat) : M unit :=
  bind (main_loop fuel next m)
    (fun returned => if returned then ret tt else final_optimization fuel next).

(** [more[i + j] === less[ls + j]] for every [j] from 1 below [n]:
    the comparison the loop of [subsequenceIndex] makes. *)
Definition run_matches (more less : list jsval) (i ls n : Z) : bool :=
  forallb (fun j => seq_js (aget more (i + j)) (aget less (ls + j)))
    (seqZ 1 (n - 1)).

End ReconcileSpec.


(* ===================================================================== *)
(** * What one update of [indexArray] asks of the reactive core           *)
(* ===================================================================== *)

Module IndexArraySpec.
Import Reactive IndexArray.

(** The write position [i] of the common prefix gets: none when the
    value did not change, else the new value, to the source of that
    position. *)
Definition write_at (prev next : list T) (srcs : list (option ref)) (i : nat)
  : list effect :=
  match prev !! i, next !! i, srcs !! i with
  | Some p, Some n, Some (Some s) =>
      if bool_decide (p = n) then [] else [Written s n]
  | _, _, _ => []
  end.

Definition writes (prev next : list T) (srcs : list (option ref)) : list effect :=
  flat_map (write_at prev next srcs)
    (seq 0 (Nat.min (length prev) (length next))).

(** A request that constructs an entry, with objects that did not
    exist before [fresh]. *)
Definition constructs (fresh : ref) (e : effect) : Prop :=
  match e with
  | RootCreated d => (fresh <= d)%nat
  | ObservableCreated s _ => (fresh <= s)%nat
  | _ => False
  end.

(** A request that disposes of the entry of a position from [n] on. *)
Definition disposes (ds : list (option ref)) (n : nat) (e : effect) : Prop :=
  match e with
  | Disposed d => exists i, (n <= i)%nat /\ ds !! i = Some (Some d)
  | _ => False
  end.

(** The closure after the requests [es], nothing else changed. *)
Definition emits {R} (es : list effect) (c : closure R) : closure R :=
  mkClosure R (items R c) (mapped R c) (disposers R c) (sources R c) (len R c)
    (pool R c) (fresh_ref R c) (effects R c ++ es).

Definition dispose_at (ds : list (option ref)) (i : nat) : list effect :=
  match ds !! i with
  | Some (Some d) => [Disposed d]
  | _ => []
  end.

(** The entries of the first [m] positions are the same objects. *)
Definition prefix_kept {R} (m : nat) (c c' : closure R) : Prop :=
  take m (mapped R c') = take m (mapped R c)
  /\ take m (disposers R c') = take m (disposers R c)
  /\ take m (sources R c') = take m (sources R c).

(** The example: [indexArray(list, (v, i) => i)] without fallback and
    without pool, after a first update with the list [10, 20, 30]. *)
Definition example_mapFn : ref -> Z -> Z := fun _ i => i.

Definition example_start : closure Z :=
  mkClosure Z [] [] [] [] 0 None 0%nat [].

Definition example_update (l : list T) : MI Z (list (option Z)) :=
  update Z example_mapFn None 100 None l.

Definition example_first : closure Z :=
  final (example_update [10; 20; 30] example_start).

End IndexArraySpec.


(* ===================================================================== *)
(** * asynx: the [Dispose] of a tick                                      *)
(* ===================================================================== *)

Module AsapDispose.
Import Reactive Asynx.

Local Open Scope js_scope.

(** [AsapQueue.remove([tick, index])], on [$$Queue]:
    [if (tick === this.now()) { this.items[index] = null;
       return --this.count === 0 ? (this.size = 0) : this.count }
     else return -1] *)
Definition Queue_remove (id : Z * Z) : MX Z :=
  do now <- read Tick;
  if id.1 =? now then
    do q <- read Queue_;
    let cleared := array_set SUndef (aq_items q) id.2 SNull in
    if aq_count q - 1 =? 0 then
      exec change (set_Queue_ (mkAsapQueue cleared 0 (aq_count q - 1)));
      ret 0
    else
      exec change (set_Queue_ (mkAsapQueue cleared (aq_size q) (aq_count q - 1)));
      ret (aq_count q - 1)
  else ret (-1).

(** [tick(action)], giving the [AsynxId] that the [Dispose] it returns
    closes over: [() => $$Queue.remove(id)]. *)
Definition tick_id (t : thunk) : MX (Z * Z) :=
  exec scheduleTick;
  Asynx.Queue_add t.

End AsapDispose.

Module AsapDisposeSpec.
Import Reactive ReactiveSpec Asynx AsynxSpec AsapDispose.

(** [two_scheduled] once the second of its two tasks is disposed, and
    the state in which the drain then stops. *)
Definition second_disposed : Loop :=
  final (Queue_remove (Tick two_scheduled, 1) two_scheduled).

Definition first_ran : Loop :=
  final (execute identity_fn no_cleanup no_handler writer 20
           (Thunk 0%nat 0 [] [])
           (set_Queue_ (mkAsapQueue (aq_items (Queue_ second_disposed)) 0 0)
              two_scheduled)).

(** A pipeline of one action that throws, holding a lock on the
    observable 1. *)
Definition locked_failing : Loop :=
  final (call (Action 0%nat [1%nat], [], 0) three_sources).

End AsapDisposeSpec.

Module BatchSpec.
Import Reactive.

(** [!eq || !eq(a, b)] for the comparator of the observable [x]: a
    write of [b] over the last value [a] goes to [next]. *)
Definition differs (x : Source) (a b : Val) : Prop :=
  match s_eq x with
  | Some equals => equals a b = false
  | None => True
  end.

(** Successive writes [vs] over the last value [a], each going to
    [next]. *)
Fixpoint changing (x : Source) (a : Val) (vs : list Val) : Prop :=
  match vs with
  | [] => True
  | v :: vs' => differs x a v /\ changing x v vs'
  end.

(** The render effect of [chain_world] reading the observable [x],
    and the state after its first read. *)
Definition reading_world : World :=
  set_Observer_ (Some 2%nat) ReactiveSpec.chain_world.

Definition read_once : World := final (SourceSub_connect 0%nat reading_world).

End BatchSpec.

Module PoolSpec.
Import Reactive IndexArray.

(** A request other than the call of a disposer. *)
Definition no_dispose (e : effect) : Prop :=
  match e with
  | Disposed _ => False
  | _ => True
  end.

(** [spares m]: run in pool mode, [m] stays in pool mode and calls no
    disposer, whether it returns or throws. *)
Definition spares {R A} (m : MI R A) : Prop :=
  forall c : closure R,
    is_Some (pool R c) ->
    is_Some (pool R (final (m c)))
    /\ exists es, effects R (final (m c)) = effects R c ++ es
                  /\ Forall no_dispose es.

(** The entries below position [lo] are the same objects in [c] and
    [c']. *)
Definition same_entries {R} (lo : Z) (c c' : closure R) : Prop :=
  forall j, j < lo ->
    array_get None (mapped R c') j = array_get None (mapped R c) j
    /\ array_get None (disposers R c') j = array_get None (disposers R c) j
    /\ array_get None (sources R c') j = array_get None (sources R c) j.

(** The entry of position [j], as [saveInPool] stores it. *)
Definition entry_at {R} (c : closure R) (j : Z) : PoolItem R :=
  mkPoolItem R (array_get None (mapped R c) j)
    (array_get None (disposers R c) j) (array_get None (sources R c) j).

(** The state of the first loop before position [k], when the
    positions from [lo] on are all taken from the pool [m]. *)
Definition recycled {R} (lo k : Z) (m : gmap Z (PoolItem R))
    (c ck : closure R) : Prop :=
  items R ck = items R c
  /\ effects R ck = effects R c
  /\ fresh_ref R ck = fresh_ref R c
  /\ (exists mk, pool R ck = Some mk
        /\ forall j, mk !! j
                     = if bool_decide (lo <= j < k) then None else m !! j)
  /\ (forall j p, lo <= j < k -> m !! j = Some p ->
        array_get None (mapped R ck) j = p_mapped R p
        /\ array_get None (disposers R ck) j = p_disposer R p
        /\ array_get None (sources R ck) j = p_source R p)
  /\ same_entries lo c ck.

(** The state of the second loop before position [k], when the
    positions from [lo] on are saved in the pool [m] and the pool
    stays under its limit. *)
Definition saved {R} (lo k : Z) (m : gmap Z (PoolItem R))
    (c ck : closure R) : Prop :=
  items R ck = items R c
  /\ effects R ck = effects R c
  /\ fresh_ref R ck = fresh_ref R c
  /\ mapped R ck = mapped R c
  /\ disposers R ck = disposers R c
  /\ sources R ck = sources R c
  /\ (exists mk, pool R ck = Some mk
        /\ (forall j, mk !! j
                      = if bool_decide (lo <= j < k) then Some (entry_at c j)
                        else m !! j)
        /\ Z.of_nat (base.size mk) <= Z.of_nat (base.size m) + (k - lo)).

(** The example of [IndexArraySpec] in pool mode, after the lists
    [10, 20, 30] and then [10]. *)
Definition pooled_update (l : list T) : MI Z (list (option Z)) :=
  update Z IndexArraySpec.example_mapFn None 100 None l.

Definition pooled_start : closure Z :=
  mkClosure Z [] [] [] [] 0 (Some ∅) 0%nat [].

Definition pooled_first : closure Z :=
  final (pooled_update [10; 20; 30] pooled_start).

Definition pooled_shrunk : closure Z :=
  final (pooled_update [10] pooled_first).

End PoolSpec.

Module LinkSpec.
Import Reactive.

(** Slot [k] of the pair of a first field with its slot and two
    parallel arrays: slot [-1] is the first field, slot [k >= 0] the
    entries [k] of the arrays. *)
Definition slot_entry (first : option ref) (firstSlot : Z)
    (arr : option (list ref)) (slots : option (list Z)) (k : Z)
  : option (ref * Z) :=
  if k =? -1 then
    match first with
    | Some o => Some (o, firstSlot)
    | None => None
    end
  else if k <? 0 then None
  else
    match arr, slots with
    | Some l, Some sl =>
        match l !! Z.to_nat k, sl !! Z.to_nat k with
        | Some o, Some j => Some (o, j)
        | _, _ => None
        end
    | _, _ => None
    end.

(** Slot [k] of a subscription: the observer it holds and that
    observer's slot for it ([obs1] with [obs1Slot], or [obs[k]] with
    [obsSlots[k]]). *)
Definition sub_entry (sb : SourceSub) : Z -> option (ref * Z) :=
  slot_entry (obs1 sb) (obs1Slot sb) (obs sb) (obsSlots sb).

(** Slot [j] of an observer: the subscription it holds and that
    subscription's slot for it ([src1] with [src1Slot], or [srcs[j]]
    with [srcSlots[j]]). *)
Definition obs_entry (ob : Observer) : Z -> option (ref * Z) :=
  slot_entry (src1 ob) (src1Slot ob) (srcs ob) (srcSlots ob).

(** Two parallel arrays go together: both [null], or of one length. *)
Definition arrays_shaped (arr : option (list ref)) (slots : option (list Z))
  : Prop :=
  match arr, slots with
  | Some l, Some sl => length l = length sl
  | None, None => True
  | _, _ => False
  end.

Definition sub_shaped (sb : SourceSub) : Prop :=
  arrays_shaped (obs sb) (obsSlots sb).

Definition obs_shaped (ob : Observer) : Prop :=
  arrays_shaped (srcs ob) (srcSlots ob).

Definition shaped (w : World) : Prop :=
  (forall s sb, subscriptions w !! s = Some sb -> sub_shaped sb)
  /\ (forall o ob, observers w !! o = Some ob -> obs_shaped ob).

(** Every slot of a subscription is answered by the observer it
    names: slot [k] of [s] holds [(o, j)] only if slot [j] of [o]
    holds [(s, k)]. *)
Definition sub_linked (w : World) : Prop :=
  forall s sb k o j,
    subscriptions w !! s = Some sb ->
    sub_entry sb k = Some (o, j) ->
    exists ob, observers w !! o = Some ob /\ obs_entry ob j = Some (s, k).

(** The converse: every slot of an observer is answered by the
    subscription it names. *)
Definition obs_linked (w : World) : Prop :=
  forall o ob j s k,
    observers w !! o = Some ob ->
    obs_entry ob j = Some (s, k) ->
    exists sb, subscriptions w !! s = Some sb /\ sub_entry sb k = Some (o, j).

(** The observer [o] is subscribed to [s] in [w], on both sides. *)
Definition edge (w : World) (s : ref) (k : Z) (o : ref) (j : Z) : Prop :=
  exists sb ob,
    subscriptions w !! s = Some sb /\ observers w !! o = Some ob
    /\ sub_entry sb k = Some (o, j) /\ obs_entry ob j = Some (s, k).

(** Every slot of an observer is answered, but for the slots [done]
    of the observer [o]. *)
Definition obs_linked_but (w : World) (o : ref) (done : Z -> Prop) : Prop :=
  forall o' ob j s k,
    observers w !! o' = Some ob ->
    obs_entry ob j = Some (s, k) ->
    ~ (o' = o /\ done j) ->
    exists sb, subscriptions w !! s = Some sb /\ sub_entry sb k = Some (o', j).

(** No subscription holds a slot [done] of the observer [o]. *)
Definition released (w : World) (o : ref) (done : Z -> Prop) : Prop :=
  forall s sb k j,
    subscriptions w !! s = Some sb ->
    sub_entry sb k = Some (o, j) -> ~ done j.

(** The observer [b] holds the subscriptions [a] holds, in the same
    places. *)
Definition same_srcs (a b : Observer) : Prop :=
  src1 b = src1 a /\ srcs b = srcs a
  /\ (length <$> srcSlots b) = (length <$> srcSlots a).

Definition same_sources (w w' : World) : Prop :=
  forall o,
    match observers w !! o, observers w' !! o with
    | Some a, Some b => same_srcs a b
    | None, None => True
    | _, _ => False
    end.

(** The state while the observer [o] gives up its subscriptions, the
    slots [done] already given up. *)
Definition unsubscribing (w : World) (o : ref) (done : Z -> Prop) : Prop :=
  shaped w /\ sub_linked w /\ obs_linked_but w o done /\ released w o done.

(** The observers other than [o] hold in [w'] the subscriptions they
    hold in [w]. *)
Definition others_keep (w w' : World) (o : ref) : Prop :=
  forall o' a,
    o' <> o -> observers w !! o' = Some a ->
    exists b, observers w' !! o' = Some b
              /\ src1 b = src1 a /\ srcs b = srcs a.

(** An observable read by three computations: its subscription holds
    observer 1 in [obs1] and observers 2 and 3 in [obs]; each of them
    holds the subscription in [src1]. *)
Definition reader (slot : Z) : Observer :=
  set_src1Slot slot (set_src1 (Some 0%nat)
    (ReactiveSpec.blank_observer ObserverType.Memo State.Actual None None None)).

Definition shared_world : World :=
  set_observers {[ 1%nat := reader (-1); 2%nat := reader 0; 3%nat := reader 1 ]}
    (set_subscriptions
       {[ 0%nat := mkSourceSub (Some 1%nat) (-1) (Some [2%nat; 3%nat])
                     (Some [-1; -1]) ]}
       ReactiveSpec.blank_world).

End LinkSpec.

(* ===================================================================== *)
(** * asynx: class TimelineScheduler, the delayed tasks                   *)
(* ===================================================================== *)

Module TimelineScheduler.

(** A callback is named by a reference; [indexOf] compares the names. *)
Definition callback := nat.

(** A timeout of the host that has not fired: the id [setTimeout]
    returned, the delay it was given, and the time its closure passes
    to [executeTasks]. *)
Record timer := mkTimer { t_id : Z; t_wait : Z; t_time : Z }.

(** The fields of the scheduler and what it uses of the host: the
    clock [performance.now()], the pending timeouts (oldest first) and
    the last id [setTimeout] returned. Times are numbers compared with
    [===]. *)
Record Scheduler := mkScheduler {
  tasks : gmap Z (list callback);
  nextCheck : option Z;
  timeoutId : option Z;
  now : Z;
  timers : list timer;
  last_id : Z
}.

Definition set_tasks (x : gmap Z (list callback)) (s : Scheduler) : Scheduler :=
  mkScheduler x (nextCheck s) (timeoutId s) (now s) (timers s) (last_id s).
Definition set_nextCheck (x : option Z) (s : Scheduler) : Scheduler :=
  mkScheduler (tasks s) x (timeoutId s) (now s) (timers s) (last_id s).
Definition set_timeoutId (x : option Z) (s : Scheduler) : Scheduler :=
  mkScheduler (tasks s) (nextCheck s) x (now s) (timers s) (last_id s).
Definition set_timers (x : list timer) (s : Scheduler) : Scheduler :=
  mkScheduler (tasks s) (nextCheck s) (timeoutId s) (now s) x (last_id s).
Definition set_last_id (x : Z) (s : Scheduler) : Scheduler :=
  mkScheduler (tasks s) (nextCheck s) (timeoutId s) (now s) (timers s) x.

(** [clearTimeout(id)]: nothing when no such timeout is pending. *)
Definition clearTimeout (id : Z) (s : Scheduler) : Scheduler :=
  set_timers (filter (fun t => t_id t <> id) (timers s)) s.

(** [window.setTimeout(() => { executeTasks(time); rescheduleCheck() },
    wait)]: gives a new id. *)
Definition setTimeout (wait time : Z) (s : Scheduler) : Z * Scheduler :=
  let id := last_id s + 1 in
  (id, set_last_id id (set_timers (timers s ++ [mkTimer id wait time]) s)).

(** [Math.min(...this.tasks.keys())], for a map that is not empty. *)
Definition min_key {A} (m : gmap Z A) : Z :=
  match (map_to_list m).*1 with
  | [] => 0
  | k :: ks => foldr Z.min k ks
  end.

(** [rescheduleCheck()] *)
Definition rescheduleCheck (s : Scheduler) : Scheduler :=
  if bool_decide (base.size (tasks s) = 0%nat) then
    let s1 := match timeoutId s with
              | Some id => set_timeoutId None (clearTimeout id s)
              | None => s
              end in
    set_nextCheck None s1
  else
    let earliestTime := min_key (tasks s) in
    if bool_decide (nextCheck s = Some earliestTime) then s
    else
      let s1 := match timeoutId s with
                | Some id => clearTimeout id s
                | None => s
                end in
      let waitTime := Z.max 0 (earliestTime - now s1) in
      let '(id, s2) := setTimeout waitTime earliestTime s1 in
      set_nextCheck (Some earliestTime) (set_timeoutId (Some id) s2).

(** [schedule(delay, callback)]: gives what the returned closure
    holds, the time and the callback. *)
Definition schedule (delay : Z) (cb : callback) (s : Scheduler)
  : (Z * callback) * Scheduler :=
  let time := now s + delay in
  let s1 := if bool_decide (is_Some (tasks s !! time)) then s
            else set_tasks (<[time := []]> (tasks s)) s in
  let s2 := set_tasks
              (<[time := default [] (tasks s1 !! time) ++ [cb]]> (tasks s1)) s1 in
  ((time, cb), rescheduleCheck s2).

(** [callbacks.indexOf(callback)] and [callbacks.splice(index, 1)]
    when the index is not [-1] *)
Fixpoint remove_first (cb : callback) (l : list callback) : list callback :=
  match l with
  | [] => []
  | x :: l' => if bool_decide (x = cb) then l' else x :: remove_first cb l'
  end.

(** The closure [schedule] returns *)
Definition dispose (d : Z * callback) (s : Scheduler) : Scheduler :=
  let '(time, cb) := d in
  let s1 := match tasks s !! time with
            | Some callbacks =>
                let callbacks' := remove_first cb callbacks in
                if bool_decide (length callbacks' = 0%nat)
                then set_tasks (delete time (tasks s)) s
                else set_tasks (<[time := callbacks']> (tasks s)) s
            | None => s
            end in
  if bool_decide (nextCheck s1 = Some time) then rescheduleCheck s1 else s1.

End TimelineScheduler.

Module TimelineSpec.
Import TimelineScheduler.

(** [t] is the earliest time with tasks. *)
Definition earliest {A} (t : Z) (m : gmap Z A) : Prop :=
  is_Some (m !! t) /\ forall k, is_Some (m !! k) -> t <= k.

(** The scheduler is armed: without tasks it has no check and the
    host no timeout; with tasks, [nextCheck] is the earliest time and
    one timeout is pending, the one of [timeoutId], for that time. *)
Definition armed (s : Scheduler) : Prop :=
  match nextCheck s with
  | None => tasks s = ∅ /\ timeoutId s = None /\ timers s = []
  | Some t =>
      earliest t (tasks s)
      /\ exists id w, timeoutId s = Some id /\ timers s = [mkTimer id w t]
  end.

Definition idle : Scheduler := mkScheduler ∅ None None 0 [] 0.

(** Three tasks: two for time 50, then one for time 20. *)
Definition three_tasks : Scheduler :=
  (schedule 20 3%nat (schedule 50 2%nat (schedule 50 1%nat idle).2).2).2.

(** Inside the timeout for time 20, which fires on time: the host has
    dropped the timeout and moved the clock, [executeTasks] has taken
    the tasks of time 20 out of the map. *)
Definition firing : Scheduler :=
  set_tasks (delete 20 (tasks three_tasks))
    (set_timers [] (mkScheduler (tasks three_tasks) (nextCheck three_tasks)
                      (timeoutId three_tasks) 20 (timers three_tasks)
                      (last_id three_tasks))).

End TimelineSpec.

Module LockSpec.
Import Reactive.

(** How many times the list [locks] names the observable [r]. *)
Definition times (r : ref) (locks : list ref) : Z :=
  Z.of_nat (length (filter (fun r' => r' = r) locks)).

(** [w'] is [w] with the lock count of every observable [r] moved by
    [d r]. *)
Definition relocked (d : ref -> Z) (w w' : World) : Prop :=
  w' = set_sources (sources w') w
  /\ forall r, sources w' !! r
               = (fun x => set_s_locked (s_locked x + d r) x) <$> sources w !! r.

End LockSpec.

Module InitialSpec.
Import JsArray Reconcile ReconcileSpec.

(** The index of the first [x] in [l]. *)
Fixpoint position (x : Node) (l : list Node) : option nat :=
  match l with
  | [] => None
  | y :: l' => if bool_decide (y = x) then Some 0%nat else S <$> position x l'
  end.

(** Where steps 1 to 5 of the main loop (common prefix, common
    suffix, swap of the ends, single move right to left, single move
    left to right) stop: [c] and [nx] are the parts of [current] and
    [next] left between the cursors, [anchored] tells whether some
    node of [current] precedes them, [n] bounds the steps. The
    result is what is left when a list is used up or none of the
    five steps applies. *)
Fixpoint stops (n : nat) (anchored : bool) (c nx : list Node)
  : bool * list Node * list Node :=
  match n with
  | O => (anchored, c, nx)
  | S n' =>
      match c, nx with
      | x :: c', y :: nx' =>
          if bool_decide (x = y) then stops n' true c' nx'
          else if bool_decide (last c = last nx) then
            stops n' anchored (removelast c) (removelast nx)
          else if bool_decide (Some x = last nx)
                  && bool_decide (Some y = last c) then
            stops n' true (removelast c') (removelast nx')
          else if bool_decide (Some y = last c) then
            stops n' true (removelast c) nx'
          else if bool_decide (Some x = last nx) then
            stops n' anchored c' (removelast nx)
          else (anchored, c, nx)
      | _, _ => (anchored, c, nx)
      end
  end.

(** The shorter part [less] against the longer part [more], as
    [fastPaths] sees them: the first node of [less] is found in
    [more], [less] is a run of [more] from there and some node of
    [more] follows the run (the test of [subsequenceIndex] that
    enough nodes remain holds, its loop runs and finds the run); or
    the first node of [less] is not in [more] and [less] is that one
    node (one to many). *)
Definition run_at (less more : list Node) : bool :=
  match less with
  | [] => false
  | x :: _ =>
      match position x more with
      | Some i =>
          bool_decide (take (length less) (drop i more) = less)
          && bool_decide (i + length less < length more)%nat
      | None => bool_decide (length less = 1%nat)
      end
  end.

(** A fast path applies to the parts left between the cursors. *)
Definition fast (c nx : list Node) : bool :=
  if bool_decide (length c < length nx)%nat then run_at c nx
  else if bool_decide (length nx < length c)%nat then run_at nx c
  else bool_decide (length c = 1%nat).

Definition stop_of (cur next : list Node) : bool * list Node * list Node :=
  stops (S (length cur + length next)) false cur next.

(** The pairs that the initial optimisation finishes: steps 1 to 5
    use up one of the lists (the final insertion or removal does the
    rest), or stop where a fast path applies. *)
Definition finishes (cur next : list Node) : bool :=
  let '(_, c, nx) := stop_of cur next in
  match c, nx with
  | _ :: _, _ :: _ => fast c nx
  | _, _ => true
  end.

(** The final insertion has no node of [current] before it. *)
Definition inserts_at_front (cur next : list Node) : bool :=
  let '(a, c, nx) := stop_of cur next in
  match c, nx with
  | [], _ :: _ => negb a
  | _, _ => false
  end.

(** What the final insertion or removal and the fast paths leave in
    the [current] array: [next], but for the one part [nx] between
    the settled ends, in whose place the array still has the part
    [c] that was handled on the child list only. *)
Definition stale_window (next : list Node) (cur : list jsval) : Prop :=
  exists pre c nx suf,
    next = pre ++ nx ++ suf
    /\ cur = of_nodes (pre ++ c ++ suf)
    /\ (c = [] \/ nx = [] \/ fast c nx = true).

End InitialSpec.


(* ===================================================================== *)
(** * Properties of the reactive graph                                    *)
(* ===================================================================== *)

Module ReactiveFacts.
Import Reactive ReactiveSpec.

(** ** The stored value of an observer is only assigned by [runObserver] *)

Lemma keeps_bind o {A B} (m : M A) (k : A -> M B) :
  keeps o m -> (forall a, keeps o (k a)) -> keeps o (bind m k).
Proof.
  intros Hm Hk w. unfold bind. specialize (Hm w).
  destruct (m w) as [a w'|e w']; simpl in *; [|exact Hm].
  rewrite <- Hm. apply Hk.
Qed.

Lemma keeps_ret o {A} (a : A) : keeps o (ret a).
Proof. intros w. reflexivity. Qed.

Lemma keeps_throw o {A} (e : exn) : keeps o (throw e : M A).
Proof. intros w. reflexivity. Qed.

Lemma keeps_gets o {A} (f : World -> A) : keeps o (gets f).
Proof. intros w. reflexivity. Qed.

Lemma keeps_getObs o o' : keeps o (getObs o').
Proof. intros w. unfold getObs. destruct (observers w !! o'); reflexivity. Qed.

Lemma keeps_getSub o r : keeps o (getSub r).
Proof. intros w. unfold getSub. destruct (subscriptions w !! r); reflexivity. Qed.

Lemma keeps_modify o (f : World -> World) :
  (forall w, observers (f w) = observers w) -> keeps o (modify f).
Proof. intros Hf w. unfold modify, value_at. simpl. rewrite Hf. reflexivity. Qed.

Lemma keeps_updObs o o' (f : Observer -> Observer) :
  (forall ob, value (f ob) = value ob) -> keeps o (updObs o' f).
Proof.
  intros Hf w. unfold updObs, value_at.
  destruct (observers w !! o') as [ob|] eqn:Ho'; simpl; [|reflexivity].
  destruct (decide (o' = o)) as [->|Hne].
  - rewrite lookup_insert_eq, Ho'. simpl. rewrite Hf. reflexivity.
  - rewrite lookup_insert_ne by exact Hne. reflexivity.
Qed.

Lemma keeps_updSub o r (f : SourceSub -> SourceSub) : keeps o (updSub r f).
Proof. intros w. unfold updSub. destruct (subscriptions w !! r); reflexivity. Qed.

Lemma keeps_forM_ o {A} (l : list A) (f : A -> M unit) :
  (forall x, keeps o (f x)) -> keeps o (forM_ l f).
Proof.
  intros Hf. induction l as [|x l IH]; simpl.
  - apply keeps_ret.
  - apply keeps_bind; [apply Hf|intros _; exact IH].
Qed.

Lemma keeps_when o (b : bool) (m : M unit) : keeps o m -> keeps o (when b m).
Proof. intros Hm. destruct b; simpl; [exact Hm|apply keeps_ret]. Qed.

Ltac keeps_step :=
  first
    [ apply keeps_ret | apply keeps_throw | apply keeps_gets
    | apply keeps_getObs | apply keeps_getSub
    | apply keeps_updSub
    | apply keeps_updObs; intros []; reflexivity
    | apply keeps_modify; intros []; reflexivity
    | apply keeps_when
    | apply keeps_forM_; intros ?
    | apply keeps_bind; [|intros ?] ].

Ltac keeps_cases :=
  match goal with
  | |- keeps _ (match ?x with _ => _ end) => destruct x
  | |- keeps _ (if ?b then _ else _) => destruct b
  end.

Lemma keeps_SourceSub_disconnect o this slot :
  keeps o (SourceSub_disconnect this slot).
Proof.
  unfold SourceSub_disconnect. repeat first [ keeps_step | keeps_cases ].
Qed.

Lemma final_lookup_ERROR n top w : final (lookup_ERROR n top w) = w.
Proof.
  revert top. induction n as [|n IH]; intros [o|]; simpl; try reflexivity.
  unfold bind, getObs. destruct (observers w !! o) as [ob|]; [|reflexivity].
  destruct (ctx ob) as [[[hs|]]|]; simpl; try reflexivity; apply IH.
Qed.

Lemma keeps_lookup_ERROR o n top : keeps o (lookup_ERROR n top).
Proof. intros w. rewrite final_lookup_ERROR. reflexivity. Qed.

Lemma lookup_nearest w n top r :
  nearest w n top r -> lookup_ERROR n top w = Ok r w.
Proof.
  induction 1 as [n|n o ob hs Ho Hc|n o ob r Ho Hc _ IH].
  - destruct n; reflexivity.
  - simpl. unfold bind, getObs. rewrite Ho, Hc. reflexivity.
  - simpl. unfold bind, getObs. rewrite Ho.
    destruct Hc as [-> | ->]; exact IH.
Qed.

Section UserCode.
Variable run_fn : ref -> Val -> M Val.
Variable run_cleanup : ref -> bool -> M unit.
Variable run_handler : ref -> exn -> M unit.
Variable fuel : nat.
Variable o : ref.

Hypothesis cleanup_keeps : forall c final_, keeps o (run_cleanup c final_).
Hypothesis handler_keeps : forall h e, keeps o (run_handler h e).

Lemma keeps_disconnect_dispose n :
  (forall o' b, keeps o (disconnect run_cleanup n o' b))
  /\ (forall o', keeps o (dispose run_cleanup n o')).
Proof.
  induction n as [|n [IHd IHp]]; split; intros; simpl;
    try apply keeps_throw.
  - repeat first
      [ apply cleanup_keeps | apply keeps_SourceSub_disconnect
      | apply IHp | keeps_step | keeps_cases ].
  - unfold resetObserver.
    repeat first [ apply IHd | keeps_step | keeps_cases ].
Qed.

Lemma keeps_prelude o' :
  keeps o (runObserver_prelude run_cleanup fuel o').
Proof.
  unfold runObserver_prelude.
  repeat first
    [ apply (proj1 (keeps_disconnect_dispose fuel))
    | keeps_step | keeps_cases ].
Qed.

Lemma keeps_handleError e : keeps o (handleError run_handler fuel e).
Proof.
  unfold handleError, call_handler.
  repeat first
    [ apply handler_keeps | apply keeps_lookup_ERROR | keeps_step | keeps_cases ].
Qed.
End UserCode.

(** ** The loop of [Queue.run] *)

Section Flush.
Variable run_fn : ref -> Val -> M Val.
Variable run_cleanup : ref -> bool -> M unit.
Variable run_handler : ref -> exn -> M unit.
Variable fuel : nat.

Lemma while_flush (q : qname) (n : nat) (ws : list World) (i : Z)
    (w w_end : World) :
  (length ws <= n)%nat ->
  flush (run_item run_fn run_cleanup run_handler fuel q) q i w ws w_end ->
  while_ n (fun i w => i <? qsize q w)
    (fun i => bind (run_item run_fn run_cleanup run_handler fuel q i)
                (fun _ => ret (i + 1))) i w
  = Ok (i + Z.of_nat (length ws)) w_end.
Proof.
  revert n i w. induction ws as [|w' ws IH]; intros n i w Hn Hfl.
  - destruct Hfl as [-> Hsz].
    assert (Hc : (i <? qsize q w) = false) by (apply Z.ltb_ge; exact Hsz).
    destruct n; simpl; rewrite Hc; f_equal; simpl; lia.
  - destruct Hfl as (Hlt & Hstep & Hrest).
    assert (Hc : (i <? qsize q w) = true) by (apply Z.ltb_lt; exact Hlt).
    destruct n as [|n]; [simpl in Hn; lia|].
    simpl. rewrite Hc. unfold bind at 1. rewrite Hstep. simpl.
    rewrite (IH n (i + 1) w'); [f_equal; lia|simpl in Hn; lia|exact Hrest].
Qed.
End Flush.

(** ** C7: reading an observer that is running *)

Section Call.
Variable run_fn : ref -> Val -> M Val.
Variable run_cleanup : ref -> bool -> M unit.
Variable fuel : nat.

(** C7 (as amended). An observer in the [Running] state whose age is
    the current tick raises [CircularDependency] when it is read
    while a listener is active ([$$Observer] is not [null]); nothing
    is changed by the read. *)
Theorem tracked_self_read_is_circular
    (w : World) (o l : ref) (ob : Observer) :
  observers w !! o = Some ob ->
  state ob = State.Running ->
  age ob = Time w ->
  Observer_ w = Some l ->
  Observer_call run_fn run_cleanup fuel o w = Throw CircularDependency w.
Proof.
  intros Ho Hst Hage Hl.
  unfold Observer_call, bind, getObs, gets, when.
  rewrite Ho, Hst.
  change (is_set State.Running State.Stale) with false.
  rewrite andb_false_r. cbn [ret].
  rewrite Hl, Ho, Hst.
  change (is_set State.Running State.Liftable) with false.
  cbn [ret]. rewrite Ho, Hage, Z.eqb_refl. reflexivity.
Qed.
End Call.

Lemma tracked_self_read_is_circular_witness :
  Observer_call identity_fn no_cleanup 3 1%nat
    (set_Observer_ (Some 1%nat) running_world)
  = Throw CircularDependency (set_Observer_ (Some 1%nat) running_world).
Proof.
  apply (tracked_self_read_is_circular identity_fn no_cleanup 3
           (set_Observer_ (Some 1%nat) running_world) 1%nat 1%nat running_memo);
    reflexivity.
Defined.

(** C7 (as stated) fails: under [untrack] ([$$Observer] is [null]) the
    running memo reads its own stored value and nothing is raised. *)
Lemma untracked_self_read_returns :
  observers running_world !! 1%nat = Some running_memo
  /\ state running_memo = State.Running
  /\ age running_memo = Time running_world
  /\ Observer_call identity_fn no_cleanup 3 1%nat running_world
     = Ok (value running_memo) running_world.
Proof. repeat split. Qed.

(** ** C4: a computation that throws *)

Section Recompute.
Variable run_fn : ref -> Val -> M Val.
Variable run_cleanup : ref -> bool -> M unit.
Variable run_handler : ref -> exn -> M unit.
Variable fuel : nat.

(** What the [catch] around a re-run does with [e] in the state [w3]:
    [r] being the handlers of the nearest owner that carries some,
    every one of them is called with [e], in the order of the
    list; without one, [e] is raised again. *)
Lemma handleError_routes (w3 : World) (e : exn) (r : option (list ref)) :
  nearest w3 fuel (Owner w3) r ->
  handleError run_handler fuel e w3
  = match r with
    | Some handlers =>
        forM_ handlers
          (fun h =>
             bind (modify (fun w => set_handled (handled w ++ [(h, e)]) w))
               (fun _ => run_handler h e)) w3
    | None => Throw e w3
    end.
Proof.
  intros Hnear. unfold handleError, bind, gets.
  rewrite (lookup_nearest _ _ _ _ Hnear). destruct r; reflexivity.
Qed.

End Recompute.


(** ** C9: the flush of a queue *)

Section QueueRun.
Variable run_fn : ref -> Val -> M Val.
Variable run_cleanup : ref -> bool -> M unit.
Variable run_handler : ref -> exn -> M unit.
Variable fuel : nat.

(** C9 (as amended). What is thrown while an item is processed is
    caught and given to [handleError]. When every iteration returns
    (the item's function returned, or [handleError] did after it
    threw), the flush goes through every slot below the size, in
    order, and returns with the size set to 0. *)
Theorem flush_continues_after_handled_error
    (q : qname) (w w_end : World) (ws : list World) :
  (length ws <= fuel)%nat ->
  flush (run_item run_fn run_cleanup run_handler fuel q) q 0 w ws w_end ->
  Queue_run run_fn run_cleanup run_handler fuel q w
  = Ok tt (set_queue q (set_size 0 (queue q w_end)) w_end)
  /\ qsize q (set_queue q (set_size 0 (queue q w_end)) w_end) = 0
  /\ forall (i : Z) (w1 w2 : World) (e : exn),
       queue_fn run_fn run_cleanup fuel q
         (array_get IUndef (items (queue q w1)) i) (clear_slot q i w1)
       = Throw e w2 ->
       catchable e = true ->
       run_item run_fn run_cleanup run_handler fuel q i w1
       = handleError run_handler fuel e w2.
Proof.
  intros Hn Hfl. split; [|split].
  - unfold Queue_run. unfold bind at 1.
    rewrite (while_flush run_fn run_cleanup run_handler fuel
               q fuel ws 0 w w_end Hn Hfl).
    reflexivity.
  - destruct q; reflexivity.
  - intros i w1 w2 e Hthrow Hcatch.
    unfold run_item, try_catch, bind, gets, modify.
    rewrite Hthrow, Hcatch. reflexivity.
Qed.
End QueueRun.

Lemma flush_continues_after_handled_error_witness :
  Queue_run throwing_fn no_cleanup no_handler 20 QUpdates
    (two_stale (Some [9%nat]))
  = Ok tt (set_queue QUpdates (set_size 0 (queue QUpdates two_stale_step2))
             two_stale_step2)
  /\ ran two_stale_step2 = [1%nat; 2%nat]
  /\ handled two_stale_step2 = [(9%nat, UserError 7)].
Proof.
  apply conj; [|apply conj; vm_compute; reflexivity].
  refine (proj1 (flush_continues_after_handled_error throwing_fn no_cleanup
                   no_handler 20 QUpdates (two_stale (Some [9%nat]))
                   two_stale_step2 [two_stale_step1; two_stale_step2] _ _)).
  - cbn [length]. lia.
  - cbn [flush]. repeat apply conj; vm_compute; (reflexivity || discriminate).
Defined.

(** C9 (as stated) fails: with no error handler in the owner chain the
    exception of the first item is re-raised by [handleError]; the
    flush stops there, the second item is still queued and has not
    been processed, the size is not reset. *)
Lemma unhandled_error_aborts_flush :
  exists w,
    Queue_run throwing_fn no_cleanup no_handler 20 QUpdates (two_stale None)
    = Throw (UserError 7) w
    /\ ran w = [1%nat]
    /\ items (Updates w) = [INull; IRef 2%nat]
    /\ qsize QUpdates w = 2.
Proof. eexists. vm_compute. repeat split. Qed.

(** ** C3: equality stops the propagation *)

Section Equality.
Variable run_fn : ref -> Val -> M Val.
Variable run_cleanup : ref -> bool -> M unit.
Variable fuel : nat.

(** C3 (as amended). [m] is [Stale] and carries an equality; its
    re-run gives a value equal to the previous one. Then [updateNode]
    does nothing after the re-run: no downstream observer is marked
    [Stale]. A downstream observer [d] whose only mark is [Pending],
    with one pending dependency left, goes back to [Actual] when the
    queue reaches it, and its function is not called. *)
Theorem equal_recompute_resolves_pending
    (w w1 : World) (m d : ref) (om om1 od : Observer)
    (equals : Val -> Val -> bool) (previous : Val)
    (ds : list (option ref)) (n : nat) :
  observers w !! m = Some om ->
  state om = State.Stale ->
  eq om = Some equals ->
  runObserver run_fn run_cleanup fuel m w = Ok previous w1 ->
  observers w1 !! m = Some om1 ->
  equals previous (value om1) = true ->
  observers w1 !! d = Some od ->
  state od = State.Pending ->
  deps od = Some ds ->
  depSlot od + 1 = depsCount od ->
  updateNode run_fn run_cleanup fuel (S n) m w = Ok tt w1
  /\ exists od',
       updateNode run_fn run_cleanup fuel (S n) d w1
       = Ok tt (set_observers (<[d := od']> (observers w1)) w1)
       /\ state od' = State.Actual
       /\ value od' = value od
       /\ ran (set_observers (<[d := od']> (observers w1)) w1) = ran w1.
Proof.
  intros Hm Hst Heq Hrun Hm1 Hequal Hd Hdst Hdeps Hslot. split.
  - cbn [updateNode]. unfold bind at 1. unfold getObs at 1.
    rewrite Hm, Hst.
    change (is_set State.Stale State.Disposed) with false.
    change (is_set State.Stale State.Pending) with false.
    change (is_set State.Stale State.Stale) with true.
    change (is_set State.Stale State.PendingDisposal) with false.
    cbn [negb]. rewrite Heq.
    unfold bind at 1. rewrite Hrun.
    unfold bind at 1. unfold getObs at 1. rewrite Hm1, Hequal.
    reflexivity.
  - eexists. split; [|split; [|split]].
    + cbn [updateNode]. unfold bind at 1. unfold getObs at 1.
      rewrite Hd, Hdst.
      change (is_set State.Pending State.Disposed) with false.
      change (is_set State.Pending State.Pending) with true.
      cbn [negb]. rewrite Hdeps.
      unfold bind, updObs, when, resetObserver. rewrite Hd.
      rewrite Hslot, Z.eqb_refl.
      unfold updObs. cbn [observers set_observers].
      rewrite lookup_insert_eq.
      cbn [set_observers observers sources subscriptions Changes Updates
           Disposes Effects Observer_ Owner Pending Time IsRunning
           PendingEffects ran handled].
      rewrite insert_insert_eq.
      reflexivity.
    + cbn. rewrite Hdst. reflexivity.
    + reflexivity.
    + reflexivity.
Qed.
End Equality.

Lemma equal_recompute_resolves_pending_witness :
  updateNode (chain_fn 20) no_cleanup 20 1 1%nat chain_marked
  = Ok tt chain_recomputed
  /\ exists od',
       updateNode (chain_fn 20) no_cleanup 20 1 2%nat chain_recomputed
       = Ok tt (set_observers (<[2%nat := od']> (observers chain_recomputed))
                  chain_recomputed)
       /\ state od' = State.Actual
       /\ value od' = value (the_observer 2%nat chain_recomputed)
       /\ ran (set_observers (<[2%nat := od']> (observers chain_recomputed))
                 chain_recomputed)
          = ran chain_recomputed.
Proof.
  apply (equal_recompute_resolves_pending (chain_fn 20) no_cleanup 20
           chain_marked chain_recomputed 1%nat 2%nat
           (the_observer 1%nat chain_marked)
           (the_observer 1%nat chain_recomputed)
           (the_observer 2%nat chain_recomputed)
           EQUALS 0 [Some 1%nat] 0);
    vm_compute; reflexivity.
Defined.

(** C3 (as stated) fails: in the diamond the memo [m] is re-run and its
    value is equal to the previous one, and the downstream memo [d] is
    re-run in the same tick all the same, because it was also marked
    [Stale] by [x]. *)
Lemma diamond_downstream_recomputes :
  exists w,
    diamond_after = Ok 1 w
    /\ ran w = [1%nat; 2%nat]
    /\ value_at 1%nat w = value_at 1%nat diamond_world
    /\ eq (the_observer 1%nat diamond_world) = Some EQUALS
    /\ obs1 <$> subscriptions diamond_world !! 1%nat = Some (Some 2%nat).
Proof. eexists. vm_compute. repeat split. Qed.

(** ** C5: locks *)

Section Locked.
Variable run_fn : ref -> Val -> M Val.
Variable run_cleanup : ref -> bool -> M unit.
Variable run_handler : ref -> exn -> M unit.
Variable fuel : nat.

(** A write to a locked source returns; it changes nothing but the
    pending slot of that source: the committed value, the lock, the
    other sources, the observers and the four queues are what they
    were, and no computation is run. *)
Lemma locked_write_only_stages (w : World) (r : ref) (x : Source)
    (u : update) :
  sources w !! r = Some x -> 0 < s_locked x ->
  exists v w' x',
    Source_call run_fn run_cleanup run_handler fuel r u w = Ok v w'
    /\ sources w' !! r = Some x'
    /\ s_value x' = s_value x
    /\ s_locked x' = s_locked x
    /\ (forall r', r' <> r -> sources w' !! r' = sources w !! r')
    /\ observers w' = observers w
    /\ Changes w' = Changes w /\ Updates w' = Updates w
    /\ Effects w' = Effects w /\ Disposes w' = Disposes w
    /\ ran w' = ran w.
Proof.
  intros Hx Hl.
  assert (Hnext : forall v, exists w' x',
             Source_next run_fn run_cleanup run_handler fuel r v w = Ok v w'
             /\ sources w' !! r = Some x'
             /\ s_value x' = s_value x
             /\ s_locked x' = s_locked x
             /\ (forall r', r' <> r -> sources w' !! r' = sources w !! r')
             /\ observers w' = observers w
             /\ Changes w' = Changes w /\ Updates w' = Updates w
             /\ Effects w' = Effects w /\ Disposes w' = Disposes w
             /\ ran w' = ran w).
  { intros v. unfold Source_next, bind at 1, getSrc. rewrite Hx.
    destruct (Z.ltb_spec 0 (s_locked x)); [|lia].
    unfold bind, updSrc. rewrite Hx.
    eexists _, (set_s_pending (Some v) x). split; [reflexivity|].
    cbn. split; [apply lookup_insert_eq|].
    split; [reflexivity|]. split; [reflexivity|].
    split; [intros r' Hr'; apply lookup_insert_ne; congruence|].
    repeat split. }
  unfold Source_call, bind at 1, getSrc. rewrite Hx.
  destruct (s_eq x) as [equals|].
  - match goal with |- context [equals ?a ?b] => destruct (equals a b) end.
    + eexists _, w, x. split; [reflexivity|]. repeat split; auto.
    + destruct (Hnext (match u with
                       | Value v => v
                       | Updater f => f (default (s_value x) (s_pending x))
                       end)) as (w' & x' & H); eauto.
  - destruct (Hnext (match u with
                     | Value v => v
                     | Updater f => f (default (s_value x) (s_pending x))
                     end)) as (w' & x' & H); eauto.
Qed.

(** An untracked read gives the committed value. *)
Lemma untracked_read_is_committed (w : World) (r : ref) (x : Source) :
  sources w !! r = Some x -> Observer_ w = None ->
  Source_current r w = Ok (s_value x) w.
Proof.
  intros Hx Ho. unfold Source_current, bind, gets, getSrc, ret.
  rewrite Ho, Hx. reflexivity.
Qed.
End Locked.

(** The lock on its ordinary path, in the chain [x -> m -> r]: two
    writes under the lock run no computation and leave the committed
    value; the unlock commits the last staged value once, and [m] and
    [r] are each re-run once. *)
Lemma lock_collapses_writes :
  ran chain_locked = []
  /\ (s_value <$> sources chain_locked !! 0%nat) = Some 0
  /\ (s_pending <$> sources chain_locked !! 0%nat) = Some (Some 7)
  /\ exists w,
       Source_unlock (chain_fn 20) no_cleanup no_handler 20 0%nat chain_locked
       = Ok tt w
       /\ (s_value <$> sources w !! 0%nat) = Some 7
       /\ (s_pending <$> sources w !! 0%nat) = Some None
       /\ ran w = [1%nat; 2%nat]
       /\ value_at 1%nat w = Some 14
       /\ value_at 2%nat w = Some 14.
Proof.
  repeat apply conj; try (vm_compute; reflexivity).
  eexists. repeat apply conj; vm_compute; reflexivity.
Qed.

(** C5, where the code departs from it: [x] is written in a batch,
    locked (which takes it out of [$$Changes] but leaves the size of
    the queue as it was), written again and unlocked. The flush then
    finds a hole in the first slot, the [TypeError] is re-raised, and
    [x] is never committed: it keeps its old value, the staged value
    stays pending. *)
Theorem lock_after_queued_write_loses_commit :
  exists w,
    write_lock_write_unlock lock_world = Throw TypeError w
    /\ (s_value <$> sources w !! 0%nat) = Some 0
    /\ (s_pending <$> sources w !! 0%nat) = Some (Some 2)
    /\ (s_locked <$> sources w !! 0%nat) = Some 0
    /\ Changes w = mkQueue [INull; IRef 0%nat] 2.
Proof. eexists. vm_compute. repeat split. Qed.

End ReactiveFacts.


(* ===================================================================== *)
(** * Properties of the 'asap' queue                                      *)
(* ===================================================================== *)

Module AsynxFacts.
Import Reactive ReactiveSpec Asynx AsynxSpec.

Lemma forX_runs {X} (step : X -> MX unit) ts l l_end :
  runs step l ts l_end -> forX_ ts step l = Ok tt l_end.
Proof.
  revert l. induction ts as [|t ts IH]; intros l H; simpl in *.
  - subst. reflexivity.
  - destruct H as (l' & Hs & Hr). unfold bind. rewrite Hs. apply IH, Hr.
Qed.

Lemma tick_ticked t l : tick t l = Ok tt (ticked t l).
Proof.
  unfold tick, ticked, scheduleTick, Asynx.Queue_add, bind, read, change.
  destruct (Scheduled l); reflexivity.
Qed.

Lemma ticked_scheduled t w' l :
  Scheduled l = true ->
  ticked t (set_world w' l)
  = set_Queue_
      (mkAsapQueue
         (array_set SUndef (aq_items (Queue_ l)) (aq_size (Queue_ l)) (SThunk t))
         (aq_size (Queue_ l) + 1) (aq_count (Queue_ l) + 1))
      (set_world w' l).
Proof.
  intros Hs. unfold ticked. cbn [Scheduled set_world]. rewrite Hs. reflexivity.
Qed.

Lemma lock_ok (r : ref) (l : Loop) :
  r ∈ dom (sources (world l)) ->
  exists w', core (Source_lock r) l = Ok tt (set_world w' l)
             /\ dom (sources w') = dom (sources (world l))
             /\ IsRunning w' = IsRunning (world l).
Proof.
  intros Hr. pose proof Hr as Hin.
  apply elem_of_dom in Hr. destruct Hr as [x Hx].
  assert (Hdom : dom (<[r := set_s_locked (s_locked x + 1) x]> (sources (world l)))
                 = dom (sources (world l))).
  { rewrite dom_insert_L. apply subseteq_union_1_L, singleton_subseteq_l, Hin. }
  unfold core, lift, Source_lock, bind, updSrc. rewrite Hx.
  unfold gets, when. cbn [IsRunning set_sources].
  destruct (IsRunning (world l)) eqn:Hrun.
  - unfold Queue_itemIndex, gets, bind.
    match goal with |- context [negb ?b] => destruct b end; cbn [negb].
    + eexists. split; [reflexivity|]. cbn. split; [exact Hdom|exact Hrun].
    + unfold Queue_remove, modify. eexists. split; [reflexivity|].
      cbn. split; [exact Hdom|exact Hrun].
  - eexists. split; [reflexivity|]. cbn. split; [exact Hdom|exact Hrun].
Qed.

Lemma lockDeps_ok (lock : list ref) (l : Loop) :
  (forall r, r ∈ lock -> r ∈ dom (sources (world l))) ->
  exists w', lockDeps lock l = Ok tt (set_world w' l)
             /\ dom (sources w') = dom (sources (world l))
             /\ IsRunning w' = IsRunning (world l).
Proof.
  revert l. induction lock as [|r lock IH]; intros l H.
  - exists (world l). destruct l. repeat split; reflexivity.
  - destruct (lock_ok r l) as (w1 & H1 & Hd1 & Hr1); [apply H; left|].
    destruct (IH (set_world w1 l)) as (w2 & H2 & Hd2 & Hr2).
    { intros r' Hr'. cbn. rewrite Hd1. apply H. right. exact Hr'. }
    exists w2. split; [|split].
    + unfold lockDeps in *. cbn [forX_]. unfold bind at 1. rewrite H1.
      rewrite H2. destruct l; reflexivity.
    + rewrite Hd2. cbn. exact Hd1.
    + rewrite Hr2. cbn. exact Hr1.
Qed.

Lemma array_get_set_eq {A} (hole : A) (arr : list A) (i : Z) (v : A) :
  0 <= i -> array_get hole (array_set hole arr i v) i = v.
Proof.
  intros Hi. unfold array_get, array_set.
  destruct (i <? 0) eqn:Hneg; [apply Z.ltb_lt in Hneg; lia|].
  destruct (i <? Z.of_nat (length arr)) eqn:Hlt.
  - apply Z.ltb_lt in Hlt.
    rewrite list_lookup_insert_eq by lia. reflexivity.
  - apply Z.ltb_ge in Hlt.
    rewrite lookup_app_r by lia.
    rewrite lookup_app_r by (rewrite length_replicate; lia).
    rewrite length_replicate.
    replace (Z.to_nat i - length arr - (Z.to_nat i - length arr))%nat
      with 0%nat by lia.
    reflexivity.
Qed.

Lemma array_get_set_ne {A} (hole : A) (arr : list A) (i j : Z) (v : A) :
  0 <= j < i -> array_get hole (array_set hole arr i v) j = array_get hole arr j.
Proof.
  intros Hj. unfold array_get, array_set.
  destruct (j <? 0) eqn:Hneg; [apply Z.ltb_lt in Hneg; lia|].
  destruct (i <? 0) eqn:Hneg'; [apply Z.ltb_lt in Hneg'; lia|].
  destruct (i <? Z.of_nat (length arr)) eqn:Hlt.
  - rewrite list_lookup_insert_ne by lia. reflexivity.
  - apply Z.ltb_ge in Hlt.
    destruct (decide (Z.to_nat j < length arr)%nat) as [Hin|Hout].
    + rewrite lookup_app_l by lia. reflexivity.
    + rewrite (lookup_ge_None_2 arr) by lia.
      rewrite lookup_app_r by lia.
      rewrite lookup_app_l by (rewrite length_replicate; lia).
      rewrite lookup_replicate_2 by lia. reflexivity.
Qed.

Lemma call_step (c : action * list action * Val) (l : Loop) :
  (forall r, r ∈ locks_of c -> r ∈ dom (sources (world l))) ->
  exists w',
    call c l = Ok tt (ticked (thunk_of c) (set_world w' l))
    /\ dom (sources w') = dom (sources (world l))
    /\ IsRunning w' = IsRunning (world l).
Proof.
  intros H.
  destruct (lockDeps_ok (locks_of c) l H) as (w' & Hl & Hd & Hr).
  exists w'. unfold call, asynx_asap, scheduleAsynx. unfold bind at 1.
  unfold locks_of in Hl. cbn [act_lock] in *. rewrite Hl.
  rewrite tick_ticked. repeat split; assumption.
Qed.

(** Scheduling further calls once a tick is scheduled: no new
    microtask. *)
Lemma calls_scheduled (cs : list (action * list action * Val))
    (ts : list thunk) (l : Loop) :
  Scheduled l = true ->
  queued ts (Queue_ l) ->
  (forall c r, c ∈ cs -> r ∈ locks_of c -> r ∈ dom (sources (world l))) ->
  exists l1,
    forX_ cs call l = Ok tt l1
    /\ Scheduled l1 = true
    /\ microtasks l1 = microtasks l
    /\ IsRunning (world l1) = IsRunning (world l)
    /\ queued (ts ++ (thunk_of <$> cs)) (Queue_ l1).
Proof.
  revert ts l. induction cs as [|c cs IH]; intros ts l Hs Hq Hlocks.
  - exists l. rewrite app_nil_r. repeat split; try reflexivity; try assumption;
      apply Hq.
  - destruct (call_step c l) as (w' & Hc & Hd & Hr).
    { intros r Hr. apply (Hlocks c r); [left|exact Hr]. }
    rewrite (ticked_scheduled _ _ _ Hs) in Hc.
    match type of Hc with _ = Ok tt ?l' =>
      destruct (IH (ts ++ [thunk_of c]) l')
        as (l1 & H1 & Hs1 & Hm1 & Hi1 & Hq1)
    end.
    + exact Hs.
    + unfold queued. cbn [Queue_ set_Queue_ aq_size aq_count aq_items].
      destruct Hq as (Hsz & Hct & Hit). split; [|split].
      * rewrite Hsz, length_app. simpl. lia.
      * rewrite Hct, length_app. simpl. lia.
      * intros j t Hj. rewrite Hsz.
        destruct (decide (j < length ts)%nat) as [Hlt|Hge].
        -- rewrite lookup_app_l in Hj by exact Hlt.
           rewrite array_get_set_ne by lia. apply Hit, Hj.
        -- rewrite lookup_app_r in Hj by lia.
           destruct (j - length ts)%nat as [|k] eqn:Hk; simpl in Hj;
             [|destruct k; discriminate].
           injection Hj as <-.
           replace (Z.of_nat j) with (Z.of_nat (length ts)) by lia.
           apply array_get_set_eq. lia.
    + intros c' r Hc' Hr'. cbn [world set_world set_Queue_].
      rewrite Hd. apply (Hlocks c' r); [right; exact Hc'|exact Hr'].
    + cbn in Hm1, Hi1.
      exists l1. split; [|split; [|split; [|split]]].
      * cbn [forX_]. unfold bind at 1. rewrite Hc. exact H1.
      * exact Hs1.
      * exact Hm1.
      * rewrite Hi1. exact Hr.
      * rewrite <- app_assoc in Hq1. exact Hq1.
Qed.

Section Batching.
Variable run_fn : ref -> Val -> M Val.
Variable run_cleanup : ref -> bool -> M unit.
Variable run_handler : ref -> exn -> M unit.
Variable run_action : ref -> Val -> MX Val.
Variable check_timeline : MX unit.
Variable fuel : nat.

Let exec_ := execute run_fn run_cleanup run_handler run_action fuel.

Lemma forX_slots (ts : list thunk) (slots : list slot) (a : Z) (l : Loop) :
  (forall (j : nat) (t : thunk),
     ts !! j = Some t -> array_get SUndef slots (a + Z.of_nat j) = SThunk t) ->
  forX_ (seqZ a (Z.of_nat (length ts)))
    (fun i => match array_get SUndef slots i with
              | SThunk t => exec_ t
              | _ => throw TypeError
              end) l
  = forX_ ts exec_ l.
Proof.
  revert a l. induction ts as [|t ts IH]; intros a l H; [reflexivity|].
  rewrite seqZ_cons by (simpl; lia).
  cbn [forX_ length]. unfold bind.
  pose proof (H 0%nat t eq_refl) as H0. rewrite Z.add_0_r in H0. rewrite H0.
  destruct (exec_ t l) as [[] l'|e l']; [|reflexivity].
  replace (Z.pred (Z.of_nat (S (length ts)))) with (Z.of_nat (length ts)) by lia.
  apply IH. intros j t' Hj.
  replace (Z.succ a + Z.of_nat j) with (a + Z.of_nat (S j)) by lia.
  apply H. exact Hj.
Qed.

Lemma drain_runs (l0 : Loop) (ts : list thunk) (l2 l3 : Loop) :
  ts <> [] ->
  queued ts (Queue_ l0) ->
  runs exec_ (set_Queue_ (mkAsapQueue (aq_items (Queue_ l0)) 0 0) l0) ts l2 ->
  check_timeline l2 = Ok tt l3 ->
  Asynx.Queue_run run_fn run_cleanup run_handler run_action check_timeline
    fuel l0
  = Ok tt l3.
Proof.
  intros Hne (Hsz & Hct & Hit) Hruns Hcheck.
  unfold Asynx.Queue_run, bind, read.
  assert (Hc0 : (aq_count (Queue_ l0) =? 0) = false).
  { apply Z.eqb_neq. rewrite Hct. destruct ts; [congruence|simpl; lia]. }
  rewrite Hc0. unfold change at 1.
  rewrite Hsz.
  match goal with
  | |- context [forX_ _ ?F ?st] =>
      change (forX_ (seqZ 0 (Z.of_nat (length ts))) F st)
        with (forX_ (seqZ 0 (Z.of_nat (length ts)))
                (fun i => match array_get SUndef (aq_items (Queue_ l0)) i with
                          | SThunk t => exec_ t
                          | _ => throw TypeError
                          end)
                (set_Queue_ (mkAsapQueue (aq_items (Queue_ l0)) 0 0) l0))
  end.
  rewrite forX_slots by (intros j t Hj; rewrite Z.add_0_l; apply Hit, Hj).
  rewrite (forX_runs _ _ _ _ Hruns).
  exact Hcheck.
Qed.

(** The callback of the microtask when no batch is open: it opens
    one, and the flush follows the last closure. *)
Lemma microtask_runs (l1 : Loop) (ts : list thunk) (l2 l3 l4 : Loop) :
  ts <> [] ->
  Scheduled l1 = true ->
  IsRunning (world l1) = false ->
  queued ts (Queue_ l1) ->
  runs exec_ (drained l1) ts l2 ->
  check_timeline l2 = Ok tt l3 ->
  core (event run_fn run_cleanup run_handler fuel) l3 = Ok tt l4 ->
  run_microtask run_fn run_cleanup run_handler run_action check_timeline fuel
    TickCallback l1
  = Ok tt (closed l4).
Proof.
  intros Hne Hs Hrun Hq Hruns Hcheck Hevent.
  unfold run_microtask. unfold bind at 1. unfold read at 1. rewrite Hs.
  unfold runMicroQueue, bind, change, batch_in, lift, gets, bind.
  cbn [world set_world set_Running_ set_Scheduled IsRunning]. rewrite Hrun.
  unfold modify, set_qsize, modify, try_finally, bind.
  cbn [world set_world set_Running_ set_Scheduled].
  match goal with
  | |- context [Asynx.Queue_run _ _ _ _ _ _ ?st] =>
      rewrite (drain_runs st ts l2 l3 Hne)
  end; [| exact Hq | exact Hruns | exact Hcheck ].
  unfold core, lift in Hevent.
  destruct (event run_fn run_cleanup run_handler fuel (world l3))
    as [[] w4|e w4] eqn:Hev; [|discriminate].
  injection Hevent as <-.
  reflexivity.
Qed.

(** The callback of the microtask when a batch is open: the closures
    run inside it. *)
Lemma microtask_joins (l1 : Loop) (ts : list thunk) (l2 l3 : Loop) :
  ts <> [] ->
  Scheduled l1 = true ->
  IsRunning (world l1) = true ->
  queued ts (Queue_ l1) ->
  runs exec_ (joined l1) ts l2 ->
  check_timeline l2 = Ok tt l3 ->
  run_microtask run_fn run_cleanup run_handler run_action check_timeline fuel
    TickCallback l1
  = Ok tt (set_Running_ false l3).
Proof.
  intros Hne Hs Hrun Hq Hruns Hcheck.
  unfold run_microtask. unfold bind at 1. unfold read at 1. rewrite Hs.
  unfold runMicroQueue, bind, change, batch_in, lift, gets, bind.
  cbn [world set_world set_Running_ set_Scheduled IsRunning]. rewrite Hrun.
  match goal with
  | |- context [Asynx.Queue_run _ _ _ _ _ _ ?st] =>
      rewrite (drain_runs st ts l2 l3 Hne)
  end; [reflexivity| exact Hq | | exact Hcheck ].
  cbn [Queue_ set_world set_Running_ set_Scheduled].
  replace (set_world (world l1) (set_Running_ true (set_Scheduled false l1)))
    with (set_Running_ true (set_Scheduled false l1))
    by (destruct l1; reflexivity).
  exact Hruns.
Qed.

(** C6 (as amended). No tick is scheduled and the asap queue is
    empty when a synchronous frame, inside a batch or not, makes
    K >= 1 calls [asynx('asap', ...)], each with an action. The
    calls return and give the host exactly one microtask. When the
    host runs it, the tick still scheduled and the queue as the
    calls left it, and every queued closure returns, the closures
    are called one after the other, in the order of the calls,
    inside one batch: the one the callback opens, whose single
    flush follows the last of them, or the one it finds open. *)
Theorem asap_calls_share_one_microtask_and_batch
    (c : action * list action * Val)
    (cs : list (action * list action * Val)) (l : Loop) :
  Scheduled l = false ->
  aq_size (Queue_ l) = 0 ->
  aq_count (Queue_ l) = 0 ->
  (forall c' r, c' ∈ c :: cs -> r ∈ locks_of c' ->
                r ∈ dom (sources (world l))) ->
  exists l1,
    forX_ (c :: cs) call l = Ok tt l1
    /\ microtasks l1 = microtasks l ++ [TickCallback]
    /\ Scheduled l1 = true
    /\ forall lm : Loop,
         Scheduled lm = true ->
         Queue_ lm = Queue_ l1 ->
         (IsRunning (world lm) = false ->
          forall l2 l3 l4,
            runs (execute run_fn run_cleanup run_handler run_action fuel)
              (drained lm) (thunk_of <$> c :: cs) l2 ->
            check_timeline l2 = Ok tt l3 ->
            core (event run_fn run_cleanup run_handler fuel) l3 = Ok tt l4 ->
            run_microtask run_fn run_cleanup run_handler run_action
              check_timeline fuel TickCallback lm
            = Ok tt (closed l4))
         /\ (IsRunning (world lm) = true ->
             forall l2 l3,
               runs (execute run_fn run_cleanup run_handler run_action fuel)
                 (joined lm) (thunk_of <$> c :: cs) l2 ->
               check_timeline l2 = Ok tt l3 ->
               run_microtask run_fn run_cleanup run_handler run_action
                 check_timeline fuel TickCallback lm
               = Ok tt (set_Running_ false l3)).
Proof.
  intros Hs Hsz Hct Hlocks.
  destruct (call_step c l) as (w' & Hc & Hd & Hr).
  { intros r Hr. apply (Hlocks c r); [left|exact Hr]. }
  assert (Hfirst : ticked (thunk_of c) (set_world w' l)
                   = set_Queue_
                       (mkAsapQueue
                          (array_set SUndef (aq_items (Queue_ l)) 0
                             (SThunk (thunk_of c))) 1 1)
                       (set_microtasks (microtasks l ++ [TickCallback])
                          (set_Tick (Tick l + 1)
                             (set_Scheduled true (set_world w' l))))).
  { unfold ticked. cbn [Scheduled set_world]. rewrite Hs.
    cbn [Queue_ set_microtasks set_Tick set_Scheduled set_world].
    rewrite Hsz, Hct. reflexivity. }
  rewrite Hfirst in Hc.
  match type of Hc with _ = Ok tt ?l' =>
    destruct (calls_scheduled cs [thunk_of c] l')
      as (l1 & H1 & Hs1 & Hm1 & Hi1 & Hq1)
  end.
  - reflexivity.
  - unfold queued. cbn [Queue_ set_Queue_ aq_size aq_count aq_items length].
    split; [reflexivity|split; [reflexivity|]].
    intros [|j] t Hj; simpl in Hj; [|discriminate].
    injection Hj as <-. apply array_get_set_eq. lia.
  - intros c' r Hc' Hr'. cbn [world set_world set_Queue_ set_microtasks
                               set_Tick set_Scheduled].
    rewrite Hd. apply (Hlocks c' r); [right; exact Hc'|exact Hr'].
  - cbn in Hm1. exists l1. split; [|split; [|split]].
    + cbn [forX_]. unfold bind at 1. rewrite Hc. exact H1.
    + exact Hm1.
    + exact Hs1.
    + intros lm Hsm Hqm. rewrite <- Hqm in Hq1. split.
      * intros Hrun l2 l3 l4 Hruns Hcheck Hevent.
        apply (microtask_runs lm (thunk_of <$> c :: cs) l2 l3 l4);
          try assumption.
        discriminate.
      * intros Hrun l2 l3 Hruns Hcheck.
        apply (microtask_joins lm (thunk_of <$> c :: cs) l2 l3);
          try assumption.
        discriminate.
Qed.
End Batching.

Lemma asap_calls_share_one_microtask_and_batch_witness :
  exists l1,
    forX_ three_calls call in_batch = Ok tt l1
    /\ microtasks l1 = [TickCallback]
    /\ exists l4,
         run_microtask identity_fn no_cleanup no_handler writer no_timeline 20
           TickCallback
           (set_world (set_IsRunning false (world l1)) l1)
         = Ok tt (closed l4)
         /\ executed l4 = [0%nat; 1%nat; 2%nat].
Proof.
  destruct (asap_calls_share_one_microtask_and_batch identity_fn no_cleanup
              no_handler writer no_timeline 20
              (Action 0%nat [], [], 0)
              [(Action 1%nat [1%nat], [], 0); (Action 2%nat [], [], 0)]
              in_batch) as (l1 & H1 & Hm & Hs1 & Hrun); try reflexivity.
  { intros c' r Hc' Hr'.
    assert (Hr : r = 1%nat).
    { unfold locks_of in Hr'.
      repeat (apply elem_of_cons in Hc'; destruct Hc' as [-> | Hc']);
        cbn in Hr'; try (apply elem_of_nil in Hr'; contradiction);
        try (apply elem_of_nil in Hc'; contradiction).
      apply list_elem_of_singleton in Hr'. exact Hr'. }
    subst r. vm_compute. set_solver. }
  exists l1. apply conj; [exact H1|]. apply conj; [exact Hm|].
  assert (E : forX_ three_calls call in_batch = Ok tt batch_scheduled)
    by (vm_compute; reflexivity).
  change (forX_ three_calls call in_batch = Ok tt l1) in H1.
  rewrite E in H1. injection H1 as <-.
  exists batch_flushed. apply conj; [|vm_compute; reflexivity].
  destruct (Hrun batch_left eq_refl eq_refl) as [Hopen _].
  apply (Hopen eq_refl batch_ran batch_ran batch_flushed);
    [|reflexivity|vm_compute; reflexivity].
  cbn [runs three_calls fmap list_fmap].
  eexists. apply conj; [vm_compute; reflexivity|].
  eexists. apply conj; [vm_compute; reflexivity|].
  eexists. apply conj; [vm_compute; reflexivity|].
  vm_compute. reflexivity.
Defined.

(** The three calls of the example, run to the end: one microtask, the
    three actions called in order, the three observables committed by
    the flush of the batch. *)
Lemma three_asap_writes :
  microtasks three_scheduled = [TickCallback]
  /\ exists l,
       run_microtask identity_fn no_cleanup no_handler writer no_timeline 20
         TickCallback three_scheduled = Ok tt l
       /\ executed l = [0%nat; 1%nat; 2%nat]
       /\ (s_value <$> sources (world l) !! 0%nat) = Some 1
       /\ (s_value <$> sources (world l) !! 1%nat) = Some 1
       /\ (s_value <$> sources (world l) !! 2%nat) = Some 1
       /\ microtasks l = [TickCallback].
Proof. split; [vm_compute; reflexivity|]. eexists. vm_compute. repeat split. Qed.

(** C6 (as stated) fails: the action of the first of two calls throws
    and no error handler is installed. [handleError] re-raises, the
    drain of the queue stops, and the second closure, taken out of the
    queue with the first, is never called. *)
Lemma unhandled_task_error_drops_the_rest :
  microtasks two_scheduled = [TickCallback]
  /\ exists l,
       run_microtask identity_fn no_cleanup no_handler failing_writer
         no_timeline 20 TickCallback two_scheduled
       = Throw (UserError 7) l
       /\ executed l = [0%nat]
       /\ aq_size (Queue_ l) = 0
       /\ aq_count (Queue_ l) = 0
       /\ microtasks l = [TickCallback].
Proof. split; [vm_compute; reflexivity|]. eexists. vm_compute. repeat split. Qed.

End AsynxFacts.


(* ===================================================================== *)
(** * Properties of [reconcile]                                           *)
(* ===================================================================== *)

Module ReconcileFacts.
Import JsArray Reconcile ReconcileSpec.

#[local] Set Warnings "-clear-no-such-hyp".

Ltac list_eq :=
  rewrite <- ?app_assoc; cbn [app]; rewrite <- ?app_assoc; cbn [app];
  reflexivity.
Ltac len_eq := repeat (progress (rewrite ?length_app; cbn [length])); lia.
Ltac len_hyps := cbn [length] in *; rewrite ?length_app in *; cbn [length] in *; lia.
Ltac fields :=
  cbn [parent current currentEnd nextEnd start ins advancedDiff lastCurrent
       lastNext nextIndexes prevNodes Dom.children Dom.calls].
Ltac step :=
  unfold set_parent, set_currentEnd, set_nextEnd, set_start, set_current;
  fields.
Ltac store_eq :=
  unfold window; step;
  lazymatch goal with
  | |- Ok _ _ = Ok _ _ => f_equal
  | |- _ => idtac
  end;
  f_equal; first [reflexivity | f_equal; list_eq | len_eq].
Ltac nodup H :=
  clear - H; unfold Node in *;
  repeat (progress (rewrite ?NoDup_app, ?NoDup_cons, ?NoDup_nil in * ));
  set_solver.

(** ** Arrays of nodes *)

Lemma aget_at (l a b : list Node) (v : Node) (i : Z) :
  l = a ++ v :: b -> i = Z.of_nat (length a) ->
  aget (of_nodes l) i = JNode v.
Proof.
  intros -> ->. unfold aget, of_nodes.
  destruct (Z.ltb_spec (Z.of_nat (length a)) 0) as [H|_]; [lia|].
  rewrite Nat2Z.id, list_lookup_fmap, list_lookup_middle by reflexivity.
  reflexivity.
Qed.

Lemma aget_before (l : list jsval) (i : Z) : i < 0 -> aget l i = JUndef.
Proof.
  intros H. unfold aget. destruct (Z.ltb_spec i 0); [reflexivity|lia].
Qed.

Lemma aset_at (l a b : list Node) (v w : Node) (i : Z) :
  l = a ++ v :: b -> i = Z.of_nat (length a) ->
  aset (of_nodes l) i (JNode w) = of_nodes (a ++ w :: b).
Proof.
  intros -> ->. unfold aset, of_nodes.
  destruct (Z.ltb_spec (Z.of_nat (length a)) 0) as [H|_]; [lia|].
  rewrite length_fmap, length_app. cbn [length].
  destruct (Z.ltb_spec (Z.of_nat (length a))
              (Z.of_nat (length a + S (length b)))) as [_|H]; [|lia].
  rewrite Nat2Z.id, !fmap_app, !fmap_cons.
  rewrite insert_app_r_alt by (rewrite length_fmap; lia).
  rewrite length_fmap, Nat.sub_diag. reflexivity.
Qed.

Lemma splice_out (l a b : list Node) (v : Node) (i : Z) :
  l = a ++ v :: b -> i = Z.of_nat (length a) ->
  splice (of_nodes l) i 1 [] = (of_nodes (a ++ b), [JNode v]).
Proof.
  intros -> ->. unfold splice, clamp, of_nodes.
  rewrite length_fmap, length_app. cbn [length].
  destruct (Z.ltb_spec (Z.of_nat (length a)) 0) as [H|_]; [lia|].
  rewrite Z.min_l by lia.
  rewrite Z.max_l by lia. rewrite Z.min_l by lia.
  rewrite Nat2Z.id.
  replace (Z.to_nat (Z.of_nat (length a) + 1)) with (length (JNode <$> a) + 1)%nat
    by (rewrite length_fmap; lia).
  rewrite !fmap_app, !fmap_cons.
  rewrite drop_app_add.
  rewrite (take_app_length' (JNode <$> a)) by (rewrite length_fmap; reflexivity).
  rewrite (drop_app_length' (JNode <$> a)) by (rewrite length_fmap; reflexivity).
  reflexivity.
Qed.

Lemma splice_in (l a b : list Node) (v : Node) (i : Z) :
  l = a ++ b -> i = Z.of_nat (length a) ->
  splice (of_nodes l) i 0 [JNode v] = (of_nodes (a ++ v :: b), []).
Proof.
  intros -> ->. unfold splice, clamp, of_nodes.
  rewrite length_fmap, length_app.
  destruct (Z.ltb_spec (Z.of_nat (length a)) 0) as [H|_]; [lia|].
  rewrite Z.min_l by lia.
  rewrite Z.max_l by lia. rewrite Z.min_l by lia.
  rewrite Z.add_0_r, Nat2Z.id.
  rewrite !fmap_app, !fmap_cons.
  rewrite take_app_length' by (rewrite length_fmap; reflexivity).
  rewrite drop_app_length' by (rewrite length_fmap; reflexivity).
  reflexivity.
Qed.

Lemma seq_js_nodes (a b : Node) :
  seq_js (JNode a) (JNode b) = bool_decide (a = b).
Proof.
  unfold seq_js. apply bool_decide_ext. split; congruence.
Qed.

(** ** The child list *)

Lemma without_absent (n : Node) (l : list Node) :
  n ∉ l -> Dom.without n l = l.
Proof.
  intros H. unfold Dom.without. induction l as [|m l IH]; [reflexivity|].
  apply not_elem_of_cons in H as [Hne Hl].
  rewrite filter_cons_True by congruence. f_equal. apply IH, Hl.
Qed.

Lemma without_app (n : Node) (a b : list Node) :
  Dom.without n (a ++ b) = Dom.without n a ++ Dom.without n b.
Proof. apply filter_app. Qed.

Lemma without_here (n : Node) (l : list Node) :
  n ∉ l -> Dom.without n (n :: l) = l.
Proof.
  intros H. unfold Dom.without. rewrite filter_cons_False by tauto.
  apply without_absent, H.
Qed.

Lemma without_middle (n : Node) (a b : list Node) :
  n ∉ a -> n ∉ b -> Dom.without n (a ++ n :: b) = a ++ b.
Proof.
  intros Ha Hb. rewrite without_app, without_here, without_absent by assumption.
  reflexivity.
Qed.

Lemma insert_at_middle (n r : Node) (a b : list Node) :
  r ∉ a -> Dom.insert_at n r (a ++ r :: b) = a ++ n :: r :: b.
Proof.
  intros H. induction a as [|m a IH]; cbn [Dom.insert_at app].
  - rewrite bool_decide_eq_true_2 by reflexivity. reflexivity.
  - apply not_elem_of_cons in H as [Hne Ha].
    rewrite bool_decide_eq_false_2 by congruence. f_equal. apply IH, Ha.
Qed.

Lemma next_of_middle (n : Node) (a b : list Node) :
  n ∉ a -> Dom.next_of n (a ++ n :: b) = first_of b.
Proof.
  intros H. induction a as [|m a IH]; cbn [Dom.next_of app].
  - rewrite bool_decide_eq_true_2 by reflexivity. reflexivity.
  - apply not_elem_of_cons in H as [Hne Ha].
    rewrite bool_decide_eq_false_2 by congruence. apply IH, Ha.
Qed.

(** [parent.insertBefore(n, target)] where [target] is the node after
    the part [a] of the child list, or [null] at its end. *)
Lemma insertBefore_at (n : Node) (d a b : list Node) (k : list Dom.op) :
  Dom.without n d = a ++ b -> n ∉ b -> NoDup (a ++ b) ->
  Dom.insertBefore (JNode n) (first_of b) {| Dom.children := d; Dom.calls := k |}
  = Ok tt {| Dom.children := a ++ n :: b;
             Dom.calls := k ++ [Dom.InsertBefore n (first_of b)] |}.
Proof.
  intros Hw Hn Hnd. destruct b as [|r b]; cbn [first_of Dom.insertBefore].
  - cbn [Dom.children Dom.calls]. rewrite Hw, app_nil_r. reflexivity.
  - assert (Hr : r ∈ d).
    { assert (H : r ∈ Dom.without n d) by (rewrite Hw; set_solver).
      unfold Dom.without in H. apply list_elem_of_filter in H. tauto. }
    unfold Dom.is_child. cbn [Dom.children Dom.calls].
    rewrite bool_decide_eq_true_2 by exact Hr.
    rewrite bool_decide_eq_false_2 by set_solver.
    rewrite Hw, insert_at_middle; [reflexivity|].
    apply NoDup_app in Hnd as (_ & Hd & _). intros Hin.
    apply (Hd r Hin). left.
Qed.


Lemma insertBefore_node (n r : Node) (d a b : list Node) (k : list Dom.op) :
  Dom.without n d = a ++ r :: b -> n ∉ r :: b -> NoDup (a ++ r :: b) ->
  Dom.insertBefore (JNode n) (JNode r) {| Dom.children := d; Dom.calls := k |}
  = Ok tt {| Dom.children := a ++ n :: r :: b;
             Dom.calls := k ++ [Dom.InsertBefore n (JNode r)] |}.
Proof. apply (insertBefore_at n d a (r :: b) k). Qed.

(** ** The steps of the first phase *)

Lemma step_prefix (fuel : nat) (k : list Dom.op) (d pre c nx suf : list Node)
    (x : Node) :
  iteration fuel (of_nodes (pre ++ (x :: nx) ++ suf))
    (window k d pre (x :: c) (x :: nx) suf)
  = Ok false (window k d (pre ++ [x]) c nx suf).
Proof.
  unfold iteration, bind, get, Reconcile.nx. cbn [id]. unfold window at 1 2. fields.
  rewrite (aget_at _ pre (c ++ suf) x) by first [list_eq | len_eq].
  rewrite (aget_at _ pre (nx ++ suf) x) by first [list_eq | len_eq].
  rewrite seq_js_nodes, bool_decide_eq_true_2 by reflexivity.
  unfold modify, ret. store_eq.
Qed.


Lemma last_snoc_inv {A} (l : list A) (z : A) :
  last l = Some z -> l = removelast l ++ [z].
Proof.
  intros H. destruct (decide (l = [])) as [->|Hne]; [discriminate|].
  destruct (exists_last Hne) as (l' & z' & ->).
  rewrite last_snoc in H. injection H as ->.
  rewrite removelast_last. reflexivity.
Qed.

Lemma aget_first (pre l suf : list Node) (x : Node) :
  head l = Some x ->
  aget (of_nodes (pre ++ l ++ suf)) (Z.of_nat (length pre)) = JNode x.
Proof.
  intros H. destruct l as [|x' l]; [discriminate|]. injection H as ->.
  apply (aget_at _ pre (l ++ suf) x); reflexivity.
Qed.

Lemma aget_last (pre l suf : list Node) (z : Node) :
  last l = Some z ->
  aget (of_nodes (pre ++ l ++ suf)) (Z.of_nat (length pre + length l) - 1)
  = JNode z.
Proof.
  intros H. apply last_snoc_inv in H. rewrite H at 1.
  apply (aget_at _ (pre ++ removelast l) suf z); [list_eq|].
  rewrite H at 1. len_eq.
Qed.

(** Which step an iteration takes, by the ends of the two parts left
    between the cursors. *)
Lemma iteration_steps (fuel : nat) (s : store) (pre c nw suf : list Node)
    (x y zc zn : Node) :
  current s = of_nodes (pre ++ c ++ suf) ->
  start s = Z.of_nat (length pre) ->
  currentEnd s = Z.of_nat (length pre + length c) ->
  nextEnd s = Z.of_nat (length pre + length nw) ->
  ins s = 0 -> advancedDiff s = false ->
  head c = Some x -> head nw = Some y ->
  last c = Some zc -> last nw = Some zn ->
  iteration fuel (of_nodes (pre ++ nw ++ suf)) s
  = if bool_decide (x = y) then
      Ok false (set_start (start s + 1) s)
    else if bool_decide (zc = zn) then
      Ok false (set_nextEnd (nextEnd s - 1) (set_currentEnd (currentEnd s - 1) s))
    else if bool_decide (x = zn) && bool_decide (y = zc) then
      swap_ends (of_nodes (pre ++ nw ++ suf)) s
    else
      initial_optimization fuel (of_nodes (pre ++ nw ++ suf)) s.
Proof.
  intros Hcur Hst Hce Hne Hins Hadv Hx Hy Hzc Hzn.
  destruct s as [p cur ce ne st i adv lc ln ni pn].
  cbn [current start currentEnd nextEnd ins advancedDiff] in *. subst.
  unfold iteration, bind, get, Reconcile.nx. cbn [id]. fields.
  rewrite (aget_first pre c suf x Hx), (aget_first pre nw suf y Hy).
  rewrite (aget_last pre c suf zc Hzc), (aget_last pre nw suf zn Hzn).
  rewrite !seq_js_nodes.
  destruct (bool_decide (x = y)); [reflexivity|].
  destruct (bool_decide (zc = zn)); [reflexivity|].
  cbn [Z.eqb andb negb Z.ltb Z.compare].
  destruct (bool_decide (x = zn)), (bool_decide (y = zc)); reflexivity.
Qed.

Lemma gap_test (p : nat) (l : list Node) (a b : Node) :
  (1 <? Z.of_nat (p + length (a :: l ++ [b])) - 1 - Z.of_nat p)
  = match l with [] => false | _ => true end.
Proof.
  destruct l as [|c l]; cbn [app length].
  - destruct (Z.ltb_spec 1 (Z.of_nat (p + 2) - 1 - Z.of_nat p)); [lia|reflexivity].
  - rewrite length_app. cbn [length].
    destruct (Z.ltb_spec 1 (Z.of_nat (p + S (S (length l + 1))) - 1 - Z.of_nat p));
      [reflexivity|lia].
Qed.

Lemma swap_step (k : list Dom.op) (pre cm nm suf : list Node) (x y : Node) :
  NoDup (pre ++ (x :: cm ++ [y]) ++ suf) ->
  exists k',
    swap_ends (of_nodes (pre ++ (y :: nm ++ [x]) ++ suf))
      (window k (pre ++ (x :: cm ++ [y]) ++ suf) pre
         (x :: cm ++ [y]) (y :: nm ++ [x]) suf)
    = Ok false
        (window k' (match nm with
                    | [] => pre ++ y :: x :: cm ++ suf
                    | _ => pre ++ y :: cm ++ x :: suf
                    end) (pre ++ [y]) cm nm (x :: suf)).
Proof.
  intros Hnd.
  assert (Hc : pre ++ (x :: cm ++ [y]) ++ suf = (pre ++ x :: cm) ++ y :: suf)
    by list_eq.
  assert (Hn : pre ++ (y :: nm ++ [x]) ++ suf = (pre ++ y :: nm) ++ x :: suf)
    by list_eq.
  assert (Hy1 : y ∉ pre ++ x :: cm) by nodup Hnd.
  assert (Hy2 : y ∉ suf) by nodup Hnd.
  assert (Hy3 : y ∉ x :: cm ++ suf) by nodup Hnd.
  assert (Hd1 : NoDup (pre ++ x :: cm ++ suf)) by nodup Hnd.
  assert (Hx1 : x ∉ pre ++ [y]) by nodup Hnd.
  assert (Hx2 : x ∉ cm ++ suf) by nodup Hnd.
  assert (Hx3 : x ∉ suf) by nodup Hnd.
  assert (Hd2 : NoDup ((pre ++ y :: cm) ++ suf)) by nodup Hnd.
  unfold swap_ends, bind, get, modify, nextSibling, insertBefore, dom, cur_set,
    Reconcile.nx, window. cbn [id]. fields.
  set (cl := pre ++ (x :: cm ++ [y]) ++ suf) in *.
  set (nl := pre ++ (y :: nm ++ [x]) ++ suf) in *.
  rewrite (aget_at cl (pre ++ x :: cm) suf y (Z.of_nat (length pre + length (x :: cm ++ [y])) - 1))
    by first [exact Hc | len_eq].
  rewrite (aget_at nl pre (nm ++ [x] ++ suf) y (Z.of_nat (length pre)))
    by first [subst nl; list_eq | len_eq].
  rewrite (aget_at cl pre (cm ++ [y] ++ suf) x (Z.of_nat (length pre)))
    by first [subst cl; list_eq | len_eq].
  rewrite (aget_at nl (pre ++ y :: nm) suf x (Z.of_nat (length pre + length (y :: nm ++ [x])) - 1))
    by first [exact Hn | len_eq].
  step.
  unfold Dom.nextSibling. fields.
  replace (Dom.next_of y cl) with (first_of suf)
    by (rewrite Hc; symmetry; apply next_of_middle; exact Hy1).
  step.
  rewrite (insertBefore_node y x cl pre (cm ++ suf) k);
    [|rewrite Hc, without_middle by assumption; list_eq|assumption|assumption].
  step.
  rewrite !gap_test.
  assert (Hw : Dom.without x (pre ++ y :: x :: cm ++ suf) = (pre ++ y :: cm) ++ suf).
  { replace (pre ++ y :: x :: cm ++ suf) with ((pre ++ [y]) ++ x :: (cm ++ suf))
      by list_eq.
    rewrite without_middle by assumption. list_eq. }
  remember (match nm with [] => false | _ :: _ => true end) as bn eqn:Hbn.
  remember (match cm with [] => false | _ :: _ => true end) as bc eqn:Hbc.
  assert (Hfin : exists k' d',
             (if bn && bc
              then Dom.insertBefore (JNode x) (first_of suf)
                     {| Dom.children := pre ++ y :: x :: cm ++ suf;
                        Dom.calls := k ++ [Dom.InsertBefore y (JNode x)] |}
              else Ok tt {| Dom.children := pre ++ y :: x :: cm ++ suf;
                            Dom.calls := k ++ [Dom.InsertBefore y (JNode x)] |})
             = Ok tt {| Dom.children := d'; Dom.calls := k' |}
             /\ d' = match nm with
                     | [] => pre ++ y :: x :: cm ++ suf
                     | _ :: _ => pre ++ y :: cm ++ x :: suf
                     end).
  { destruct bn, bc; cbn [andb].
    - rewrite (insertBefore_at x _ (pre ++ y :: cm) suf) by assumption.
      do 2 eexists. split; [reflexivity|]. destruct nm; [discriminate|list_eq].
    - do 2 eexists. split; [reflexivity|].
      destruct cm; [|discriminate]. destruct nm; reflexivity.
    - do 2 eexists. split; [reflexivity|]. destruct nm; [reflexivity|discriminate].
    - do 2 eexists. split; [reflexivity|]. destruct nm; [reflexivity|discriminate]. }
  destruct Hfin as (k' & d' & Hfin & Hd').
  exists k'. rewrite <- Hd'. clear Hd' Hbn Hbc.
  destruct (bn && bc); cbn [when]; unfold ret; step;
    [rewrite Hfin|injection Hfin as <- <-];
    unfold modify; step;
    rewrite (aset_at cl _ suf y x _ Hc) by len_eq;
    rewrite (aset_at _ pre (cm ++ x :: suf) x y) by first [list_eq | len_eq];
    do 2 f_equal; first [reflexivity | f_equal; list_eq | len_eq].
Qed.

Lemma rtl_step (fuel : nat) (k : list Dom.op) (pre cm nm suf : list Node)
    (x y : Node) :
  NoDup (pre ++ (x :: cm ++ [y]) ++ suf) ->
  exists k',
    initial_optimization fuel (of_nodes (pre ++ (y :: nm) ++ suf))
      (window k (pre ++ (x :: cm ++ [y]) ++ suf) pre
         (x :: cm ++ [y]) (y :: nm) suf)
    = Ok false
        (window k' (pre ++ y :: x :: cm ++ suf) (pre ++ [y]) (x :: cm) nm suf).
Proof.
  intros Hnd.
  assert (Hc : pre ++ (x :: cm ++ [y]) ++ suf = (pre ++ x :: cm) ++ y :: suf)
    by list_eq.
  assert (Hy1 : y ∉ pre ++ x :: cm) by nodup Hnd.
  assert (Hy2 : y ∉ suf) by nodup Hnd.
  assert (Hy3 : y ∉ x :: cm ++ suf) by nodup Hnd.
  assert (Hd1 : NoDup (pre ++ x :: cm ++ suf)) by nodup Hnd.
  unfold initial_optimization, bind, get, modify, insertBefore, dom, cur_splice,
    Reconcile.nx, window. cbn [id]. fields.
  set (cl := pre ++ (x :: cm ++ [y]) ++ suf) in *.
  set (nl := pre ++ (y :: nm) ++ suf) in *.
  rewrite (aget_at cl (pre ++ x :: cm) suf y
             (Z.of_nat (length pre + length (x :: cm ++ [y])) - 1))
    by first [exact Hc | len_eq].
  rewrite (aget_at nl pre (nm ++ suf) y (Z.of_nat (length pre)))
    by first [subst nl; list_eq | len_eq].
  rewrite (aget_at cl pre (cm ++ [y] ++ suf) x (Z.of_nat (length pre)))
    by first [subst cl; list_eq | len_eq].
  rewrite seq_js_nodes, bool_decide_eq_true_2 by reflexivity.
  step.
  rewrite (insertBefore_node y x cl pre (cm ++ suf) k);
    [|rewrite Hc, without_middle by assumption; list_eq|assumption|assumption].
  step.
  rewrite (splice_out cl (pre ++ x :: cm) suf y) by first [exact Hc | len_eq].
  step. change (aget [JNode y] 0) with (JNode y).
  rewrite (splice_in ((pre ++ x :: cm) ++ suf) pre (x :: cm ++ suf) y)
    by first [list_eq | len_eq].
  step. unfold ret. eexists.
  do 2 f_equal; first [reflexivity | f_equal; list_eq | len_eq].
Qed.

Lemma ltr_step (fuel : nat) (k : list Dom.op) (pre cm nm suf : list Node)
    (x y zc : Node) :
  NoDup (pre ++ (x :: cm) ++ suf) ->
  head (nm ++ [x]) = Some y -> last (x :: cm) = Some zc ->
  y <> zc -> x <> zc ->
  exists k',
    initial_optimization fuel (of_nodes (pre ++ (nm ++ [x]) ++ suf))
      (window k (pre ++ (x :: cm) ++ suf) pre (x :: cm) (nm ++ [x]) suf)
    = Ok false (window k' (pre ++ cm ++ x :: suf) pre cm nm (x :: suf)).
Proof.
  intros Hnd Hy Hzc Hyz Hxz.
  assert (Hcm : exists cm', cm = cm' ++ [zc]).
  { destruct cm as [|c1 cm]; [cbn in Hzc; congruence|].
    change (last (x :: c1 :: cm)) with (last (c1 :: cm)) in Hzc.
    exists (removelast (c1 :: cm)). apply last_snoc_inv, Hzc. }
  destruct Hcm as (cm' & Hcm).
  assert (Hc : pre ++ (x :: cm) ++ suf = (pre ++ x :: cm') ++ zc :: suf)
    by (rewrite Hcm; list_eq).
  assert (Hx1 : x ∉ pre) by nodup Hnd.
  assert (Hx2 : x ∉ cm ++ suf) by nodup Hnd.
  assert (Hx3 : x ∉ suf) by nodup Hnd.
  assert (Hd1 : NoDup ((pre ++ cm) ++ suf)) by nodup Hnd.
  assert (Hz1 : zc ∉ pre ++ x :: cm').
  { rewrite Hc in Hnd. nodup Hnd. }
  unfold initial_optimization, bind, get, modify, insertBefore, nextSibling, dom,
    cur_splice, Reconcile.nx, window. cbn [id]. fields.
  set (cl := pre ++ (x :: cm) ++ suf) in *.
  set (nl := pre ++ (nm ++ [x]) ++ suf) in *.
  rewrite (aget_at cl (pre ++ x :: cm') suf zc
             (Z.of_nat (length pre + length (x :: cm)) - 1))
    by first [exact Hc | rewrite Hcm; len_eq].
  replace (aget (of_nodes nl) (Z.of_nat (length pre))) with (JNode y)
    by (symmetry; apply aget_first, Hy).
  rewrite (aget_at cl pre (cm ++ suf) x (Z.of_nat (length pre)))
    by first [subst cl; list_eq | len_eq].
  rewrite (aget_at nl (pre ++ nm) suf x
             (Z.of_nat (length pre + length (nm ++ [x])) - 1))
    by first [subst nl; list_eq | len_eq].
  rewrite !seq_js_nodes.
  rewrite (bool_decide_eq_false_2 (y = zc)) by assumption.
  rewrite bool_decide_eq_true_2 by reflexivity.
  step. unfold Dom.nextSibling. fields.
  replace (Dom.next_of zc cl) with (first_of suf)
    by (rewrite Hc; symmetry; apply next_of_middle; exact Hz1).
  step.
  rewrite (insertBefore_at x cl (pre ++ cm) suf);
    [|subst cl; cbn [app]; rewrite without_middle by assumption; list_eq
     |assumption|assumption].
  step.
  rewrite (splice_out cl pre (cm ++ suf) x) by first [subst cl; list_eq | len_eq].
  step. change (aget [JNode x] 0) with (JNode x).
  rewrite (splice_in (pre ++ cm ++ suf) (pre ++ cm) suf x)
    by first [list_eq | len_eq].
  step. unfold ret. eexists.
  do 2 f_equal; first [reflexivity | f_equal; list_eq | len_eq].
Qed.

(** ** Loops *)

Lemma for_done (fuel : nat) (from to : Z) (body : Z -> M unit) (s : store) :
  to <= from -> for_ fuel from to body s = Ok tt s.
Proof.
  intros H. unfold for_, bind.
  destruct fuel; cbn [while_];
    (destruct (Z.ltb_spec from to); [lia|reflexivity]).
Qed.

Lemma for_step (fuel : nat) (from to : Z) (body : Z -> M unit) (s s' : store) :
  from < to -> body from s = Ok tt s' ->
  for_ (S fuel) from to body s = for_ fuel (from + 1) to body s'.
Proof.
  intros H Hb. unfold for_, bind at 1 3. cbn [while_].
  destruct (Z.ltb_spec from to); [|lia].
  unfold bind at 1. rewrite Hb. reflexivity.
Qed.

Lemma main_loop_exit (fuel n : nat) (next : list jsval) (s : store) :
  (start s <? currentEnd s) && (start s <? nextEnd s) = false ->
  main_loop fuel next n s = Ok false s.
Proof. intros H. destruct n; cbn [main_loop]; rewrite H; reflexivity. Qed.

Lemma main_loop_next (fuel n : nat) (next : list jsval) (s s' : store) :
  (start s <? currentEnd s) && (start s <? nextEnd s) = true ->
  iteration fuel next s = Ok false s' ->
  main_loop fuel next (S n) s = main_loop fuel next n s'.
Proof. intros H Hi. cbn [main_loop]. rewrite H, Hi. reflexivity. Qed.

(** The final insertion: the nodes [rest] of [next], not yet
    children, go before the node that follows the part [a] of the
    child list. *)
Lemma insert_loop (nl suf : list Node) (rest : list Node) :
  forall (fuel : nat) (a : list Node) (s : store),
    nl = a ++ rest ++ suf ->
    Dom.children (parent s) = a ++ suf ->
    NoDup nl ->
    (length rest <= fuel)%nat ->
    exists s',
      for_ fuel (Z.of_nat (length a)) (Z.of_nat (length a + length rest))
        (fun j => bind (modify (set_start (j + 1)))
                    (fun _ => insertBefore (Reconcile.nx (of_nodes nl) j)
                                (first_of suf))) s
      = Ok tt s'
      /\ Dom.children (parent s') = nl
      /\ current s' = current s.
Proof.
  induction rest as [|r rest IH]; intros fuel a s Hnl Hd Hnd Hf.
  - exists s. rewrite for_done by (cbn [length]; lia).
    rewrite Hd, Hnl. auto.
  - destruct fuel as [|fuel]; [cbn [length] in Hf; lia|].
    destruct s as [[d k] cur ce ne st i adv lc ln ni pn].
    cbn [parent Dom.children] in Hd. subst d.
    assert (Hr1 : r ∉ a ++ suf) by (rewrite Hnl in Hnd; nodup Hnd).
    assert (Hr2 : r ∉ suf) by (rewrite Hnl in Hnd; nodup Hnd).
    assert (Hd1 : NoDup (a ++ suf)) by (rewrite Hnl in Hnd; nodup Hnd).
    erewrite for_step; [| cbn [length]; lia |].
    2:{ unfold bind, modify, insertBefore, dom, Reconcile.nx. step.
        rewrite (aget_at nl a (rest ++ suf) r) by first [exact Hnl | reflexivity].
        rewrite (insertBefore_at r (a ++ suf) a suf);
          [|apply without_absent, Hr1|assumption|assumption].
        reflexivity. }
    destruct (IH fuel (a ++ [r])
                {| parent := {| Dom.children := a ++ r :: suf;
                                Dom.calls := k ++ [Dom.InsertBefore r (first_of suf)] |};
                   current := cur; currentEnd := ce; nextEnd := ne;
                   start := Z.of_nat (length a) + 1; ins := i;
                   advancedDiff := adv; lastCurrent := lc; lastNext := ln;
                   nextIndexes := ni; prevNodes := pn |})
      as (s' & Hs' & Hc' & Hcur').
    + rewrite Hnl. list_eq.
    + cbn [parent Dom.children]. list_eq.
    + exact Hnd.
    + cbn [length] in Hf. lia.
    + exists s'. split; [|split; assumption].
      rewrite <- Hs'. f_equal; len_eq.
Qed.

(** The final removal: the nodes [rest] of [current] leave the child
    list. *)
Lemma remove_loop (rest : list Node) :
  forall (fuel : nat) (a b u v : list Node) (s : store),
    current s = of_nodes (a ++ rest ++ b) ->
    Dom.children (parent s) = u ++ rest ++ v ->
    NoDup (u ++ rest ++ v) ->
    (length rest <= fuel)%nat ->
    exists s',
      for_ fuel (Z.of_nat (length a)) (Z.of_nat (length a + length rest))
        (fun j => bind (get current)
                    (fun c => bind (modify (set_start (j + 1)))
                                (fun _ => removeChild (aget c j)))) s
      = Ok tt s'
      /\ Dom.children (parent s') = u ++ v
      /\ current s' = current s.
Proof.
  induction rest as [|r rest IH]; intros fuel a b u v s Hcur Hd Hnd Hf.
  - exists s. rewrite for_done by (cbn [length]; lia). rewrite Hd. auto.
  - destruct fuel as [|fuel]; [cbn [length] in Hf; lia|].
    destruct s as [[d k] cur ce ne st i adv lc ln ni pn].
    cbn [parent Dom.children current] in Hd, Hcur. subst d cur.
    assert (Hr1 : r ∉ u) by nodup Hnd.
    assert (Hr2 : r ∉ rest ++ v) by nodup Hnd.
    assert (Hd1 : NoDup (u ++ rest ++ v)) by nodup Hnd.
    erewrite for_step; [| cbn [length]; lia |].
    2:{ unfold bind, get, modify, removeChild, dom. step.
        rewrite (aget_at _ a (rest ++ b) r) by reflexivity.
        unfold Dom.removeChild, Dom.is_child. fields.
        rewrite bool_decide_eq_true_2 by set_solver.
        cbn [app]. rewrite without_middle by assumption.
        reflexivity. }
    destruct (IH fuel (a ++ [r]) b u v
                {| parent := {| Dom.children := u ++ rest ++ v;
                                Dom.calls := k ++ [Dom.RemoveChild r] |};
                   current := of_nodes (a ++ (r :: rest) ++ b);
                   currentEnd := ce; nextEnd := ne;
                   start := Z.of_nat (length a) + 1; ins := i;
                   advancedDiff := adv; lastCurrent := lc; lastNext := ln;
                   nextIndexes := ni; prevNodes := pn |})
      as (s' & Hs' & Hc' & Hcur').
    + cbn [current]. f_equal. list_eq.
    + reflexivity.
    + exact Hd1.
    + cbn [length] in Hf. lia.
    + exists s'. split; [|split; assumption].
      rewrite <- Hs'. f_equal; len_eq.
Qed.

Lemma final_remove (fuel : nat) (next : list jsval) (s : store)
    (pre c suf u v : list Node) :
  start s = Z.of_nat (length pre) ->
  nextEnd s = Z.of_nat (length pre) ->
  currentEnd s = Z.of_nat (length pre + length c) ->
  current s = of_nodes (pre ++ c ++ suf) ->
  Dom.children (parent s) = u ++ c ++ v ->
  NoDup (u ++ c ++ v) ->
  (length c <= fuel)%nat ->
  exists s',
    final_optimization fuel next s = Ok tt s'
    /\ Dom.children (parent s') = u ++ v
    /\ current s' = current s.
Proof.
  intros Hst Hne Hce Hcur Hd Hnd Hf.
  unfold final_optimization, bind at 1, get. cbn [id].
  rewrite Hst, Hne, Hce, Z.eqb_refl.
  destruct c as [|x c].
  - cbn [length]. rewrite Nat.add_0_r, Z.eqb_refl.
    exists s. rewrite Hd. auto.
  - destruct (Z.eqb_spec (Z.of_nat (length pre))
                (Z.of_nat (length pre + length (x :: c)))) as [E|_];
      [cbn [length] in E; lia|].
    apply (remove_loop (x :: c) fuel pre suf u v s); assumption.
Qed.

Lemma final_insert (fuel : nat) (s : store) (pre nw suf : list Node) :
  start s = Z.of_nat (length pre) ->
  currentEnd s = Z.of_nat (length pre) ->
  nextEnd s = Z.of_nat (length pre + length nw) ->
  current s = of_nodes (pre ++ suf) ->
  Dom.children (parent s) = pre ++ suf ->
  NoDup (pre ++ nw ++ suf) ->
  pre <> [] -> nw <> [] ->
  (length nw <= fuel)%nat ->
  exists s',
    final_optimization fuel (of_nodes (pre ++ nw ++ suf)) s = Ok tt s'
    /\ Dom.children (parent s') = pre ++ nw ++ suf
    /\ current s' = current s.
Proof.
  intros Hst Hce Hne Hcur Hd Hnd Hpre Hnw Hf.
  destruct (exists_last Hpre) as (pre' & p & Ep).
  assert (Hp : p ∉ pre') by (rewrite Ep in Hnd; nodup Hnd).
  unfold final_optimization, bind at 1, get. cbn [id].
  rewrite Hst, Hce, Hne, Z.eqb_refl.
  destruct (Z.eqb_spec (Z.of_nat (length pre))
              (Z.of_nat (length pre + length nw))) as [E|_].
  { destruct nw; [congruence|cbn [length] in E; lia]. }
  unfold bind at 1, nextSibling, dom. rewrite Hcur.
  rewrite (aget_at (pre ++ suf) pre' suf p)
    by first [rewrite Ep; list_eq | rewrite Ep; len_eq].
  unfold Dom.nextSibling. rewrite Hd.
  replace (Dom.next_of p (pre ++ suf)) with (first_of suf)
    by (rewrite Ep, <- app_assoc; symmetry; apply next_of_middle, Hp).
  destruct (insert_loop (pre ++ nw ++ suf) suf nw fuel pre
              (set_parent (parent s) s)) as (s' & Hs' & Hc' & Hcur');
    try assumption; try reflexivity.
  exists s'. split; [exact Hs'|]. split; [exact Hc'|]. rewrite Hcur'.
  exact Hcur.
Qed.

Lemma final_remove_window (fuel : nat) (next : list jsval) (k : list Dom.op)
    (d pre c suf u v : list Node) :
  d = u ++ c ++ v -> NoDup d -> (length c <= fuel)%nat ->
  exists s',
    final_optimization fuel next (window k d pre c [] suf) = Ok tt s'
    /\ Dom.children (parent s') = u ++ v
    /\ current s' = of_nodes (pre ++ c ++ suf).
Proof.
  intros -> Hnd Hf.
  apply (final_remove fuel next (window k (u ++ c ++ v) pre c [] suf)
           pre c suf u v); try reflexivity; try assumption.
  unfold window. fields. f_equal. cbn [length]. lia.
Qed.

Lemma final_insert_window (fuel : nat) (k : list Dom.op)
    (pre nw suf : list Node) :
  NoDup (pre ++ nw ++ suf) -> pre <> [] -> nw <> [] ->
  (length nw <= fuel)%nat ->
  exists s',
    final_optimization fuel (of_nodes (pre ++ nw ++ suf))
      (window k (pre ++ [] ++ suf) pre [] nw suf) = Ok tt s'
    /\ Dom.children (parent s') = pre ++ nw ++ suf
    /\ current s' = of_nodes (pre ++ [] ++ suf).
Proof.
  intros Hnd Hpre Hnw Hf.
  apply (final_insert fuel (window k (pre ++ [] ++ suf) pre [] nw suf)
           pre nw suf); try reflexivity; try assumption.
  unfold window. fields. f_equal. cbn [length]. lia.
Qed.

Lemma last_cons_is_Some {A} (x : A) (l : list A) : exists z, last (x :: l) = Some z.
Proof.
  destruct (last (x :: l)) as [z|] eqn:E; [exists z; reflexivity|].
  apply last_None in E. discriminate.
Qed.

Lemma last_cons_ne {A} (x z : A) (l : list A) :
  last (x :: l) = Some z -> x <> z -> exists l', l = l' ++ [z].
Proof.
  intros H Hne. destruct l as [|c l]; [cbn in H; congruence|].
  change (last (x :: c :: l)) with (last (c :: l)) in H.
  exists (removelast (c :: l)). apply last_snoc_inv, H.
Qed.

Lemma window_loops (k : list Dom.op) (d pre c nw suf : list Node) :
  (start (window k d pre c nw suf) <? currentEnd (window k d pre c nw suf))
  && (start (window k d pre c nw suf) <? nextEnd (window k d pre c nw suf))
  = match c, nw with
    | _ :: _, _ :: _ => true
    | _, _ => false
    end.
Proof.
  unfold window. fields.
  destruct c as [|x c], nw as [|y nw]; cbn [length];
    repeat match goal with
           | |- context [?a <? ?b] => destruct (Z.ltb_spec a b); try lia
           end; reflexivity.
Qed.

Lemma resume_next (fuel m : nat) (next : list jsval) (s s' : store) :
  (start s <? currentEnd s) && (start s <? nextEnd s) = true ->
  iteration fuel next s = Ok false s' ->
  resume fuel next (S m) s = resume fuel next m s'.
Proof.
  intros H Hi. unfold resume, bind. rewrite (main_loop_next _ _ _ _ s' H Hi).
  reflexivity.
Qed.

Lemma resume_exit (fuel m : nat) (next : list jsval) (s : store) :
  (start s <? currentEnd s) && (start s <? nextEnd s) = false ->
  resume fuel next m s = final_optimization fuel next s.
Proof.
  intros H. unfold resume, bind. rewrite main_loop_exit by exact H. reflexivity.
Qed.

Lemma enter_window (p : Dom.t) (cur next : list Node) :
  enter p (of_nodes cur) (of_nodes next)
  = window (Dom.calls p) (Dom.children p) [] cur next [].
Proof.
  destruct p as [d k]. unfold enter, window, of_nodes.
  rewrite !length_fmap, app_nil_r. reflexivity.
Qed.


(** A node put in front of a one-node list: the suffix step brings
    [currentEnd] to 0 and the final insertion reads
    [current[-1].nextSibling]; the call does not return. *)
Lemma reconcile_prepend_throws :
  exists s,
    reconcile 5 {| Dom.children := [0%nat]; Dom.calls := [] |}
      [0%nat] [1%nat; 0%nat] = Throw (Exception Dom.TypeError) s
    /\ Dom.children (parent s) = [0%nat].
Proof. eexists. split; [vm_compute; reflexivity|]. reflexivity. Qed.

(** [subsequenceIndex] gives the index it found when the longer list
    has too few nodes left after it: the fast path takes [next] for
    [current] with nodes around it. *)
Lemma reconcile_fast_path_misplaces :
  exists s,
    reconcile 9 {| Dom.children := [0; 1; 2]%nat; Dom.calls := [] |}
      [0; 1; 2]%nat [9; 0; 2; 1]%nat = Ok tt s
    /\ Dom.children (parent s) = [9; 0; 1; 2]%nat.
Proof. eexists. split; [vm_compute; reflexivity|]. reflexivity. Qed.

(** The advanced diff, step 6: the nodes removed from the end of the
    child list are spliced out of [current] at [nextEnd - seq], not
    at [currentEnd - seq]; the array loses a node that stays a child
    and keeps the removed one, which a later step removes again. *)
Lemma reconcile_advanced_removal_throws :
  exists s,
    reconcile 9 {| Dom.children := [2; 1; 0]%nat; Dom.calls := [] |}
      [2; 1; 0]%nat [3; 1]%nat = Throw (Exception Dom.NotFoundError) s
    /\ Dom.children (parent s) = [2; 1]%nat
    /\ current s = [JNode 2%nat; JNode 0%nat].
Proof.
  eexists. split; [vm_compute; reflexivity|]. split; reflexivity.
Qed.

(** The advanced diff, step 7: after the replacement of a node, the
    new nodes left to insert go into the child list, but the splice
    that should add them to [current] adds nothing; the array falls
    behind the child list and the call returns with a child list
    that is not [next]. *)
Lemma reconcile_advanced_insertion_misplaces :
  exists s,
    reconcile 9 {| Dom.children := [0; 1; 2]%nat; Dom.calls := [] |}
      [0; 1; 2]%nat [3; 6; 2; 1; 4; 5]%nat = Ok tt s
    /\ Dom.children (parent s) = [3; 6; 2; 1; 4]%nat.
Proof. eexists. split; [vm_compute; reflexivity|]. reflexivity. Qed.

(** ** Scenario S1 *)

Lemma main_loop_step (fuel n : nat) (next : list jsval) (s : store) :
  (start s <? currentEnd s) && (start s <? nextEnd s) = true ->
  main_loop fuel next (S n) s
  = match iteration fuel next s with
    | Ok true s' => Ok true s'
    | Ok false s' => main_loop fuel next n s'
    | Throw e s' => Throw e s'
    end.
Proof. intros H. cbn [main_loop]. rewrite H. reflexivity. Qed.

Ltac loop_step :=
  rewrite main_loop_step by (vm_compute; reflexivity);
  let r := fresh "r" in
  match goal with
  | |- context [iteration ?f ?n ?s] =>
      set (r := iteration f n s); vm_compute in r; subst r; cbv beta iota
  end.

(** C2. Scenario S1, [current = [a,b,c,d,e,f]] and
    [next = [a,c,b,h,f,e]], with any iteration budget from 6 on:
    [reconcile] returns after exactly three calls on [parent], the
    move of [c] before [b], the replacement of [d] by [h], the move of
    [f] before [e]; the child list and the [current] array are
    [next]. *)
Theorem reconcile_small_reorder (k : nat) :
  exists s,
    reconcile (6 + k) {| Dom.children := S1_current; Dom.calls := [] |}
      S1_current S1_next = Ok tt s
    /\ Dom.calls (parent s)
       = [Dom.InsertBefore 2%nat (JNode 1%nat); Dom.ReplaceChild 6%nat 3%nat;
          Dom.InsertBefore 5%nat (JNode 4%nat)]
    /\ Dom.children (parent s) = S1_next
    /\ current s = of_nodes S1_next.
Proof.
  unfold reconcile, body, bind.
  change (6 + k)%nat with (S (S (S (S (S (S k)))))).
  do 6 loop_step.
  rewrite main_loop_exit by (vm_compute; reflexivity).
  eexists. split; [vm_compute; reflexivity|].
  vm_compute. repeat split.
Qed.

(** C10. With an empty [current] and a non-empty [next], whatever the
    parent and the iteration budget, [reconcile] throws a [TypeError]
    (the read of [nextSibling] on [current[-1]], which is
    [undefined]) in the state of its entry: no call was made on
    [parent], no node was inserted. *)
Theorem reconcile_empty_current_throws (fuel : nat) (p : Dom.t)
    (next : list Node) :
  next <> [] ->
  reconcile fuel p [] next
  = Throw (Exception Dom.TypeError) (enter p [] (of_nodes next))
  /\ parent (enter p [] (of_nodes next)) = p.
Proof.
  intros Hne. split; [|reflexivity].
  destruct next as [|n next]; [congruence|].
  unfold reconcile, body, bind.
  rewrite main_loop_exit by reflexivity.
  reflexivity.
Qed.

Lemma reconcile_empty_current_throws_witness :
  reconcile 5 {| Dom.children := [3%nat]; Dom.calls := [] |} [] [7%nat]
  = Throw (Exception Dom.TypeError)
      (enter {| Dom.children := [3%nat]; Dom.calls := [] |} []
         (of_nodes [7%nat]))
  /\ parent (enter {| Dom.children := [3%nat]; Dom.calls := [] |} []
               (of_nodes [7%nat]))
     = {| Dom.children := [3%nat]; Dom.calls := [] |}.
Proof.
  apply (reconcile_empty_current_throws 5
           {| Dom.children := [3%nat]; Dom.calls := [] |} [7%nat]).
  discriminate.
Defined.

End ReconcileFacts.


(* ===================================================================== *)
(** * Properties of [indexArray]                                          *)
(* ===================================================================== *)

Module IndexArrayFacts.
Import Reactive IndexArray IndexArraySpec.

Lemma array_get_nat {A} (hole : A) (arr : list A) (i : nat) :
  array_get hole arr (Z.of_nat i) = default hole (arr !! i).
Proof.
  unfold array_get. destruct (Z.ltb_spec (Z.of_nat i) 0); [lia|].
  rewrite Nat2Z.id. reflexivity.
Qed.

Lemma array_set_take {A} (hole : A) (arr : list A) (n i : nat) (v : A) :
  (n <= i)%nat -> (n <= length arr)%nat ->
  take n (array_set hole arr (Z.of_nat i) v) = take n arr.
Proof.
  intros Hi Hn. unfold array_set.
  destruct (Z.ltb_spec (Z.of_nat i) 0); [lia|].
  destruct (Z.ltb_spec (Z.of_nat i) (Z.of_nat (length arr))).
  - rewrite Nat2Z.id. apply take_insert_ge. exact Hi.
  - apply take_app_le. exact Hn.
Qed.

Lemma array_set_length {A} (hole : A) (arr : list A) (i : Z) (v : A) :
  (length arr <= length (array_set hole arr i v))%nat.
Proof.
  unfold array_set. destruct (i <? 0); [lia|].
  destruct (i <? Z.of_nat (length arr)).
  - rewrite length_insert. lia.
  - rewrite length_app. lia.
Qed.

Lemma take_resize {A} (arr : list (option A)) (m : nat) (n : Z) :
  (m <= Z.to_nat n)%nat -> (m <= length arr)%nat ->
  take m (resize arr n) = take m arr.
Proof.
  intros Hn Hl. unfold resize.
  rewrite take_app_le by (rewrite length_take; lia).
  rewrite take_take. f_equal. lia.
Qed.

Lemma write_at_sources (prev next : list T) (srcs srcs' : list (option ref))
    (m i : nat) :
  take m srcs' = take m srcs -> (i < m)%nat ->
  write_at prev next srcs' i = write_at prev next srcs i.
Proof.
  intros H Hi. unfold write_at.
  replace (srcs' !! i) with (srcs !! i); [reflexivity|].
  rewrite <- (lookup_take_lt srcs m i), <- (lookup_take_lt srcs' m i) by lia.
  rewrite H. reflexivity.
Qed.

Section Mapping.
Context {R : Type}.
Variable mapFn : ref -> Z -> R.
Variable fallback : option R.
Variable DEFAULT_POOL_LIMIT : Z.
Variable poolLimit_option : option Z.
Variable next : list T.

Lemma emits_nil (c : closure R) : emits [] c = c.
Proof. destruct c. unfold emits. cbn. rewrite app_nil_r. reflexivity. Qed.

Lemma emits_emits (es1 es2 : list effect) (c : closure R) :
  emits es2 (emits es1 c) = emits (es1 ++ es2) c.
Proof. unfold emits. cbn. rewrite app_assoc. reflexivity. Qed.

Lemma forI_app {A} (l1 l2 : list A) (f : A -> MI R unit) (c : closure R) :
  forI_ R (l1 ++ l2) f c = bind (forI_ R l1 f) (fun _ => forI_ R l2 f) c.
Proof.
  revert c. induction l1 as [|x l1 IH]; intros c; cbn [forI_ app].
  - reflexivity.
  - unfold bind. destruct (f x c) as [[] c'|e c']; [|reflexivity].
    rewrite IH. reflexivity.
Qed.

Lemma seqZ_S (a k : nat) :
  seqZ (Z.of_nat a) (Z.of_nat (S k))
  = Z.of_nat a :: seqZ (Z.of_nat (S a)) (Z.of_nat k).
Proof.
  rewrite seqZ_cons by lia. f_equal. f_equal; lia.
Qed.

(** The first loop on a position of the common prefix. *)
Lemma visit_prefix (prev : list T) (c : closure R) (i : nat) :
  items R c = Item <$> prev ->
  (i < length prev)%nat -> (i < length next)%nat ->
  is_Some (default None (sources R c !! i)) ->
  visit R mapFn next (Z.of_nat i) c
  = Ok tt (emits (write_at prev next (sources R c) i) c).
Proof.
  intros Hit Hp Hn [s Hs].
  destruct (lookup_lt_is_Some_2 prev i Hp) as [p Hpi].
  destruct (lookup_lt_is_Some_2 next i Hn) as [n Hni].
  destruct (sources R c !! i) as [[s'|]|] eqn:Hsi; cbn in Hs; try discriminate.
  injection Hs as ->.
  unfold visit, bind, look. cbn [id].
  rewrite Hit, length_fmap, Nat2Z.id, list_lookup_fmap, Hpi, Hni.
  rewrite array_get_nat, Hsi. cbn [default fmap option_fmap option_map].
  unfold write_at. rewrite Hpi, Hni, Hsi.
  destruct (Z.ltb_spec (Z.of_nat i) (Z.of_nat (length prev))); [|lia].
  cbn [andb].
  destruct (decide (p = n)) as [->|Hne].
  - rewrite !bool_decide_eq_true_2 by reflexivity. cbn [negb].
    destruct (Z.leb_spec (Z.of_nat (length prev)) (Z.of_nat i)); [lia|].
    rewrite emits_nil. reflexivity.
  - rewrite !bool_decide_eq_false_2 by congruence. cbn [negb].
    reflexivity.
Qed.

Lemma visit_prefix_loop (prev : list T) (k : nat) :
  forall (a : nat) (c : closure R),
    items R c = Item <$> prev ->
    (a + k <= length prev)%nat -> (a + k <= length next)%nat ->
    (forall i, (i < a + k)%nat -> is_Some (default None (sources R c !! i))) ->
    forI_ R (seqZ (Z.of_nat a) (Z.of_nat k)) (visit R mapFn next) c
    = Ok tt (emits (flat_map (write_at prev next (sources R c)) (seq a k)) c).
Proof.
  induction k as [|k IH]; intros a c Hit Hp Hn Hs.
  - cbn. rewrite emits_nil. reflexivity.
  - rewrite seqZ_S. cbn [forI_ seq flat_map]. unfold bind.
    rewrite (visit_prefix prev) by first [assumption | lia | apply Hs; lia].
    rewrite IH by first [assumption | lia | intros; apply Hs; lia].
    rewrite emits_emits. reflexivity.
Qed.


(** The first loop on a position past the old list: the entry is
    constructed, or taken from the pool. *)
Lemma visit_grow (old i : nat) (c : closure R) :
  (length (items R c) <= i)%nat -> (old <= i)%nat ->
  (i < length next)%nat ->
  (old <= length (mapped R c))%nat ->
  (old <= length (disposers R c))%nat ->
  (old <= length (sources R c))%nat ->
  exists c1 tail,
    visit R mapFn next (Z.of_nat i) c = Ok tt c1
    /\ items R c1 = items R c
    /\ prefix_kept old c c1
    /\ (old <= length (mapped R c1))%nat
    /\ (old <= length (disposers R c1))%nat
    /\ (old <= length (sources R c1))%nat
    /\ effects R c1 = effects R c ++ tail
    /\ Forall (constructs (fresh_ref R c)) tail
    /\ (fresh_ref R c <= fresh_ref R c1)%nat.
Proof.
  intros Hit Hold Hn Hm Hd Hs.
  destruct (lookup_lt_is_Some_2 next i Hn) as [v Hv].
  destruct c as [its mp ds ss ln pl fr efs]. cbn in Hit, Hm, Hd, Hs.
  assert (Hroot : exists c1 tail,
             root_mapper R mapFn next (Z.of_nat i)
               (mkClosure R its mp ds ss ln pl fr efs) = Ok tt c1
             /\ items R c1 = its
             /\ prefix_kept old (mkClosure R its mp ds ss ln pl fr efs) c1
             /\ (old <= length (mapped R c1))%nat
             /\ (old <= length (disposers R c1))%nat
             /\ (old <= length (sources R c1))%nat
             /\ effects R c1 = efs ++ tail
             /\ Forall (constructs fr) tail
             /\ (fr <= fresh_ref R c1)%nat).
  { unfold root_mapper, bind, allocate, upd. cbn.
    rewrite Nat2Z.id, Hv. cbn.
    do 2 eexists. split; [reflexivity|]. cbn.
    split; [reflexivity|]. unfold prefix_kept. cbn.
    rewrite !array_set_take by assumption.
    split; [auto|].
    split; [etransitivity; [exact Hm|apply array_set_length]|].
    split; [etransitivity; [exact Hd|apply array_set_length]|].
    split; [etransitivity; [exact Hs|apply array_set_length]|].
    split; [rewrite <- app_assoc; reflexivity|].
    split; [|lia].
    repeat constructor; cbn; lia. }
  unfold visit, bind at 1, look. cbn [id items pool].
  destruct (Z.ltb_spec (Z.of_nat i) (Z.of_nat (length its))); [lia|].
  cbn [andb].
  destruct (Z.leb_spec (Z.of_nat (length its)) (Z.of_nat i)); [|lia].
  destruct pl as [m|]; [|exact Hroot].
  destruct (m !! Z.of_nat i) as [p|]; [|exact Hroot].
  unfold recycleFromPool, bind, upd. cbn.
  exists (mkClosure R its (array_set None mp (Z.of_nat i) (p_mapped R p))
            (array_set None ds (Z.of_nat i) (p_disposer R p))
            (array_set None ss (Z.of_nat i) (p_source R p)) ln
            (Some (delete (Z.of_nat i) m)) fr efs), [].
  split; [reflexivity|]. cbn.
  split; [reflexivity|]. unfold prefix_kept. cbn.
  rewrite !array_set_take by assumption.
  split; [auto|].
  split; [etransitivity; [exact Hm|apply array_set_length]|].
  split; [etransitivity; [exact Hd|apply array_set_length]|].
  split; [etransitivity; [exact Hs|apply array_set_length]|].
  split; [rewrite app_nil_r; reflexivity|].
  split; [constructor|lia].
Qed.

Lemma constructs_mono (f f' : ref) (e : effect) :
  (f <= f')%nat -> constructs f' e -> constructs f e.
Proof. intros H. destruct e; cbn; lia. Qed.

Lemma visit_grow_loop (old k : nat) :
  forall (a : nat) (c : closure R),
    (length (items R c) <= a)%nat -> (old <= a)%nat ->
    (a + k <= length next)%nat ->
    (old <= length (mapped R c))%nat ->
    (old <= length (disposers R c))%nat ->
    (old <= length (sources R c))%nat ->
    exists c1 tail,
      forI_ R (seqZ (Z.of_nat a) (Z.of_nat k)) (visit R mapFn next) c
      = Ok tt c1
      /\ items R c1 = items R c
      /\ prefix_kept old c c1
      /\ (old <= length (mapped R c1))%nat
      /\ (old <= length (disposers R c1))%nat
      /\ (old <= length (sources R c1))%nat
      /\ effects R c1 = effects R c ++ tail
      /\ Forall (constructs (fresh_ref R c)) tail
      /\ (fresh_ref R c <= fresh_ref R c1)%nat.
Proof.
  induction k as [|k IH]; intros a c Hit Hold Hn Hm Hd Hs.
  - exists c, []. cbn. rewrite app_nil_r.
    repeat split; auto.
  - destruct (visit_grow old a c) as
      (c1 & t1 & H1 & Hi1 & (Hk1 & Hk2 & Hk3) & Hm1 & Hd1 & Hs1 & He1 & Hf1 & Hr1);
      try assumption; try lia.
    destruct (IH (S a) c1) as
      (c2 & t2 & H2 & Hi2 & (Hk4 & Hk5 & Hk6) & Hm2 & Hd2 & Hs2 & He2 & Hf2 & Hr2);
      try assumption; try lia.
    { rewrite Hi1. lia. }
    exists c2, (t1 ++ t2).
    rewrite seqZ_S. cbn [forI_]. unfold bind. rewrite H1.
    split; [exact H2|]. split; [congruence|].
    split; [unfold prefix_kept; repeat split; congruence|].
    split; [assumption|]. split; [assumption|]. split; [assumption|].
    split; [rewrite He2, He1, app_assoc; reflexivity|].
    split; [|lia].
    apply Forall_app. split; [assumption|].
    eapply Forall_impl; [exact Hf2|]. intros e. apply constructs_mono, Hr1.
Qed.

Lemma disposes_mono (ds : list (option ref)) (n n' : nat) (e : effect) :
  (n <= n')%nat -> disposes ds n' e -> disposes ds n e.
Proof.
  intros H. destruct e; cbn; try tauto.
  intros (i & Hi & Hd). exists i. split; [lia|exact Hd].
Qed.

(** The second loop: the entries past the new list are disposed of,
    or saved in the pool. *)
Lemma retire_loop (k : nat) :
  forall (a : nat) (c : closure R),
    (forall i, (a <= i < a + k)%nat ->
               is_Some (default None (disposers R c !! i))) ->
    exists c2 tail,
      forI_ R (seqZ (Z.of_nat a) (Z.of_nat k))
        (retire R DEFAULT_POOL_LIMIT poolLimit_option next) c = Ok tt c2
      /\ items R c2 = items R c
      /\ mapped R c2 = mapped R c
      /\ disposers R c2 = disposers R c
      /\ sources R c2 = sources R c
      /\ effects R c2 = effects R c ++ tail
      /\ Forall (disposes (disposers R c) a) tail
      /\ (k = 0%nat -> tail = []).
Proof.
  induction k as [|k IH]; intros a c Hds.
  - exists c, []. cbn. rewrite app_nil_r. repeat split; auto.
  - assert (H1 : exists c1 t1,
               retire R DEFAULT_POOL_LIMIT poolLimit_option next (Z.of_nat a) c
               = Ok tt c1
               /\ items R c1 = items R c /\ mapped R c1 = mapped R c
               /\ disposers R c1 = disposers R c
               /\ sources R c1 = sources R c
               /\ effects R c1 = effects R c ++ t1
               /\ Forall (disposes (disposers R c) a) t1).
    { destruct (Hds a) as [d Hd]; [lia|].
      destruct c as [its mp ds ss ln pl fr efs]. cbn in Hd |- *.
      unfold retire, bind, look. cbn [id pool].
      destruct pl as [m|].
      - unfold saveInPool, upd. cbn [pool].
        eexists _, []. split; [reflexivity|]. cbn. rewrite app_nil_r.
        repeat split; auto.
      - unfold call_disposer, bind, look. cbn [disposers].
        rewrite array_get_nat, Hd. unfold upd.
        eexists _, [Disposed d]. split; [reflexivity|]. cbn.
        repeat split; auto. constructor; [|constructor].
        exists a. split; [lia|].
        destruct (ds !! a) as [[d'|]|]; cbn in Hd; congruence. }
    destruct H1 as (c1 & t1 & H1 & Hi1 & Hm1 & Hd1 & Hs1 & He1 & Hf1).
    destruct (IH (S a) c1)
      as (c2 & t2 & H2 & Hi2 & Hm2 & Hd2 & Hs2 & He2 & Hf2 & _).
    { intros i Hi. rewrite Hd1. apply Hds. lia. }
    exists c2, (t1 ++ t2).
    rewrite seqZ_S. cbn [forI_]. unfold bind. rewrite H1.
    split; [exact H2|].
    split; [congruence|]. split; [congruence|]. split; [congruence|].
    split; [congruence|].
    split; [rewrite He2, He1, app_assoc; reflexivity|].
    split; [|discriminate].
    apply Forall_app. split; [assumption|].
    rewrite Hd1 in Hf2.
    eapply Forall_impl; [exact Hf2|]. intros e. apply disposes_mono. lia.
Qed.


(** C8. Two consecutive non-empty lists [prev] and [next], no
    fallback in play: the update for [next] returns the mapped
    array; the entries of the first [min |prev| |next|] positions
    are the objects they were (same mapped value, same disposer,
    same source); the requests to the core are, in order, one write
    to the source of each position of that prefix whose value
    changed, then only disposals of entries from position [|next|]
    on (when [next] is not longer) or only constructions with new
    objects (when [next] is not shorter). *)
Theorem indexArray_keeps_prefix (c : closure R) (prev : list T) :
  prev <> [] -> next <> [] ->
  items R c = Item <$> prev ->
  length (mapped R c) = length prev ->
  length (disposers R c) = length prev ->
  length (sources R c) = length prev ->
  (forall i, (i < length prev)%nat ->
             is_Some (default None (sources R c !! i))) ->
  (forall i, (i < length prev)%nat ->
             is_Some (default None (disposers R c !! i))) ->
  exists c' tail,
    update R mapFn fallback DEFAULT_POOL_LIMIT poolLimit_option next c
    = Ok (mapped R c') c'
    /\ prefix_kept (Nat.min (length prev) (length next)) c c'
    /\ items R c' = Item <$> next
    /\ effects R c' = effects R c ++ writes prev next (sources R c) ++ tail
    /\ ((length next <= length prev)%nat ->
        Forall (disposes (disposers R c) (length next)) tail)
    /\ ((length prev <= length next)%nat ->
        Forall (constructs (fresh_ref R c)) tail).
Proof.
  intros Hprev Hnext Hit Hlm Hld Hls Hss Hds.
  assert (Hnew : (newLength next =? 0) = false).
  { unfold newLength. destruct next; [congruence|]. reflexivity. }
  assert (Hfb : drop_fallback R c = Ok tt c).
  { unfold drop_fallback, bind, look. cbn [id]. rewrite Hit.
    destruct prev; [congruence|]. reflexivity. }
  unfold update. unfold bind at 1, look at 1. cbn [id]. rewrite Hnew.
  unfold bind at 1. rewrite Hfb. unfold bind at 1. unfold newLength.
  destruct (le_lt_dec (length next) (length prev)) as [Hle|Hlt].
  - (* the new list is not longer *)
    rewrite Nat.min_r by exact Hle.
    change 0 with (Z.of_nat 0).
    rewrite (visit_prefix_loop prev (length next) 0 c)
      by first [assumption | lia | intros; apply Hss; lia].
    unfold bind at 1, look at 1. cbn [id].
    replace (Z.of_nat (length (items R (emits _ c))) - Z.of_nat (length next))
      with (Z.of_nat (length prev - length next))
      by (cbn [emits items]; rewrite Hit, length_fmap; lia).
    destruct (retire_loop (length prev - length next) (length next)
                (emits (flat_map (write_at prev next (sources R c))
                          (seq 0 (length next))) c))
      as (c2 & tail & H2 & Hi2 & Hm2 & Hd2 & Hs2 & He2 & Hf2 & Hnil).
    { intros i Hi. cbn [emits disposers]. apply Hds. lia. }
    unfold bind at 1. rewrite H2.
    unfold bind, upd, look.
    match goal with
    | |- exists c' t, Ok _ ?C = _ /\ _ => exists C, tail
    end.
    split; [reflexivity|]. cbn.
    cbn [emits mapped disposers sources effects] in Hm2, Hd2, Hs2, He2, Hf2.
    split; [|split; [reflexivity|split; [|split]]].
    + unfold prefix_kept. cbn. rewrite Nat2Z.id, Hm2, Hd2, Hs2.
      rewrite !take_resize by lia. rewrite take_take, Nat.min_id.
      auto.
    + rewrite He2. unfold writes. rewrite Nat.min_r by exact Hle.
      rewrite <- app_assoc. reflexivity.
    + intros _. exact Hf2.
    + intros Hge. rewrite Hnil by lia. constructor.
  - (* the new list is longer *)
    rewrite Nat.min_l by lia.
    replace (seqZ 0 (Z.of_nat (length next)))
      with (seqZ (Z.of_nat 0) (Z.of_nat (length prev))
              ++ seqZ (Z.of_nat (length prev))
                   (Z.of_nat (length next - length prev))).
    2:{ replace (Z.of_nat (length next))
          with (Z.of_nat (length prev) + Z.of_nat (length next - length prev))
          by lia.
        rewrite seqZ_app by lia. reflexivity. }
    rewrite forI_app. unfold bind.
    rewrite (visit_prefix_loop prev (length prev) 0 c)
      by first [assumption | lia | intros; apply Hss; lia].
    destruct (visit_grow_loop (length prev) (length next - length prev)
                (length prev)
                (emits (flat_map (write_at prev next (sources R c))
                          (seq 0 (length prev))) c))
      as (c1 & tail & H1 & Hi1 & (Hk1 & Hk2 & Hk3) & Hm1 & Hd1 & Hs1 & He1
          & Hf1 & Hr1);
      try (cbn [emits items mapped disposers sources]; lia).
    { cbn [emits items]. rewrite Hit, length_fmap. lia. }
    rewrite H1.
    unfold look at 1. cbn [id].
    rewrite seqZ_nil by (rewrite Hi1; cbn [emits items];
                         rewrite Hit, length_fmap; lia).
    cbn [forI_]. unfold upd, look, ret.
    match goal with
    | |- exists c' t, Ok _ ?C = _ /\ _ => exists C, tail
    end.
    split; [reflexivity|]. cbn.
    cbn [emits mapped disposers sources effects fresh_ref]
      in Hk1, Hk2, Hk3, He1, Hf1.
    split; [|split; [reflexivity|split; [|split]]].
    + unfold prefix_kept. cbn. rewrite Nat2Z.id.
      rewrite !take_resize by lia. rewrite take_take.
      rewrite Nat.min_l by lia. auto.
    + rewrite He1. unfold writes. rewrite Nat.min_l by lia.
      rewrite <- app_assoc. reflexivity.
    + intros Hge. lia.
    + intros _. exact Hf1.
Qed.

End Mapping.

Lemma indexArray_keeps_prefix_witness :
  exists c' tail,
    example_update [10; 25; 30; 40] example_first = Ok (mapped Z c') c'
    /\ prefix_kept 3 example_first c'
    /\ items Z c' = Item <$> [10; 25; 30; 40]
    /\ effects Z c'
       = effects Z example_first
         ++ writes [10; 20; 30] [10; 25; 30; 40] (sources Z example_first)
         ++ tail
    /\ ((4 <= 3)%nat -> Forall (disposes (disposers Z example_first) 4) tail)
    /\ ((3 <= 4)%nat -> Forall (constructs (fresh_ref Z example_first)) tail).
Proof.
  apply (indexArray_keeps_prefix example_mapFn None 100 None
           [10; 25; 30; 40] example_first [10; 20; 30]).
  - discriminate.
  - discriminate.
  - vm_compute. reflexivity.
  - vm_compute. reflexivity.
  - vm_compute. reflexivity.
  - vm_compute. reflexivity.
  - intros [|[|[|i]]] Hi; [| | |cbn in Hi; lia];
      eexists; vm_compute; reflexivity.
  - intros [|[|[|i]]] Hi; [| | |cbn in Hi; lia];
      eexists; vm_compute; reflexivity.
Defined.

(** The example, run: the write to the source of position 1, then the
    construction of the entry of position 3; and, for a shorter list,
    the write to the source of position 0, then the disposal of the
    entries of positions 1 and 2. *)
Lemma example_updates :
  effects Z (final (example_update [10; 25; 30; 40] example_first))
  = effects Z example_first
    ++ [Written 3%nat 25; RootCreated 6%nat; ObservableCreated 7%nat 40]
  /\ effects Z (final (example_update [11] example_first))
     = effects Z example_first
       ++ [Written 1%nat 11; Disposed 2%nat; Disposed 4%nat].
Proof. split; vm_compute; reflexivity. Qed.

End IndexArrayFacts.


(* ===================================================================== *)
(** * Subscriptions and batches                                           *)
(* ===================================================================== *)

Module SubscriptionFacts.
Import Reactive ReactiveSpec BatchSpec.

(** X13. Two reads in a row subscribe once. When [connect] returns on
    a subscription whose first slot [obs1] is taken or whose array
    [obs] is not yet created, a second [connect] by the same listener
    right after it changes nothing. *)
Theorem connect_twice_is_connect_once (w w' : World) (this : ref)
    (sb : SourceSub) :
  subscriptions w !! this = Some sb ->
  is_Some (obs1 sb) \/ obs sb = None ->
  SourceSub_connect this w = Ok tt w' ->
  SourceSub_connect this w' = Ok tt w'.
Proof.
  intros Hsb Hshape H.
  unfold SourceSub_connect in H. unfold bind at 1, gets at 1 in H.
  destruct (Observer_ w) as [to|] eqn:Hto; [|discriminate].
  unfold bind at 1, getObs at 1 in H.
  destruct (observers w !! to) as [tob|] eqn:Htob; [|discriminate].
  unfold bind at 1, getSub at 1 in H. rewrite Hsb in H.
  assert (Hret : forall w1 sb1 tob1,
             Observer_ w1 = Some to ->
             observers w1 !! to = Some tob1 ->
             subscriptions w1 !! this = Some sb1 ->
             (obs1 sb1 = Some to /\ obs sb1 = None
              \/ is_Some (obs1 sb1)
                 /\ exists l, obs sb1 = Some l /\ last l = Some to) ->
             SourceSub_connect this w1 = Ok tt w1).
  { intros w1 sb1 tob1 H1 H2 H3 H4.
    unfold SourceSub_connect, bind at 1, gets at 1. rewrite H1.
    unfold bind at 1, getObs at 1. rewrite H2.
    unfold bind at 1, getSub at 1. rewrite H3.
    destruct H4 as [[-> ->] | [[o1 ->] (l & -> & Hl)]].
    - rewrite bool_decide_eq_true_2 by reflexivity. reflexivity.
    - rewrite bool_decide_eq_true_2 by exact Hl. reflexivity. }
  destruct (obs1 sb) as [o1|] eqn:Ho1.
  - destruct (obs sb) as [l|] eqn:Hl.
    + destruct (decide (last l = Some to)) as [E|N].
      * rewrite bool_decide_eq_true_2 in H by exact E.
        injection H as <-.
        apply (Hret w sb tob Hto Htob Hsb). right.
        rewrite Ho1. split; [eauto|]. exists l. auto.
      * rewrite bool_decide_eq_false_2 in H by exact N.
        destruct (obsSlots sb) as [sl|] eqn:Hsl; [|discriminate].
        unfold bind at 1, updSub at 1 in H. rewrite Hsb in H.
        destruct (src1 tob) as [s1|] eqn:Hs1;
          [destruct (srcs tob) as [ls|] eqn:Hsrcs;
           [destruct (srcSlots tob) as [ss|] eqn:Hss; [|discriminate]|]|];
          unfold updObs in H; cbn [observers set_subscriptions] in H;
          rewrite Htob in H; injection H as <-;
          (eapply Hret;
           [exact Hto
           |cbn [observers set_observers set_subscriptions]; apply lookup_insert_eq
           |cbn [subscriptions set_observers set_subscriptions];
            apply lookup_insert_eq
           |right; cbn [obs1 obs set_obs set_obsSlots]; rewrite Ho1;
            split; [eauto|]; eexists; split; [reflexivity|apply last_snoc]]).
    + destruct (decide (o1 = to)) as [E|N].
      * rewrite bool_decide_eq_true_2 in H by exact E.
        injection H as <-.
        apply (Hret w sb tob Hto Htob Hsb). left. rewrite Ho1, E. auto.
      * rewrite bool_decide_eq_false_2 in H by exact N.
        unfold bind at 1, updSub at 1 in H. rewrite Hsb in H.
        destruct (src1 tob) as [s1|] eqn:Hs1;
          [destruct (srcs tob) as [ls|] eqn:Hsrcs;
           [destruct (srcSlots tob) as [ss|] eqn:Hss; [|discriminate]|]|];
          unfold updObs in H; cbn [observers set_subscriptions] in H;
          rewrite Htob in H; injection H as <-;
          (eapply Hret;
           [exact Hto
           |cbn [observers set_observers set_subscriptions]; apply lookup_insert_eq
           |cbn [subscriptions set_observers set_subscriptions];
            apply lookup_insert_eq
           |right; cbn [obs1 obs set_obs set_obsSlots]; rewrite Ho1;
            split; [eauto|]; eexists; split; [reflexivity|reflexivity]]).
  - destruct Hshape as [[? Hx]|Hnone]; [discriminate|].
    unfold bind at 1, updSub at 1 in H. rewrite Hsb in H.
    destruct (src1 tob) as [s1|] eqn:Hs1;
      [destruct (srcs tob) as [ls|] eqn:Hsrcs;
       [destruct (srcSlots tob) as [ss|] eqn:Hss; [|discriminate]|]|];
      unfold updObs in H; cbn [observers set_subscriptions] in H;
      rewrite Htob in H; injection H as <-;
      (eapply Hret;
       [exact Hto
       |cbn [observers set_observers set_subscriptions]; apply lookup_insert_eq
       |cbn [subscriptions set_observers set_subscriptions];
        apply lookup_insert_eq
       |left; cbn [obs1 obs set_obs1 set_obs1Slot]; auto]).
Qed.

Lemma connect_twice_is_connect_once_witness :
  SourceSub_connect 0%nat read_once = Ok tt read_once
  /\ (obs <$> subscriptions read_once !! 0%nat) = Some (Some [2%nat]).
Proof.
  split; [|vm_compute; reflexivity].
  apply (connect_twice_is_connect_once reading_world read_once 0%nat
           (mkSourceSub (Some 1%nat) (-1) None None)).
  - vm_compute. reflexivity.
  - left. eexists. reflexivity.
  - vm_compute. reflexivity.
Defined.

End SubscriptionFacts.

Module BatchFacts.
Import Reactive ReactiveSpec BatchSpec.

Section Batch.
Variable run_fn : ref -> Val -> M Val.
Variable run_cleanup : ref -> bool -> M unit.
Variable run_handler : ref -> exn -> M unit.
Variable fuel : nat.

Let call_ := Source_call run_fn run_cleanup run_handler fuel.
Let batch_ := @batch run_fn run_cleanup run_handler fuel.

Lemma runQueues_unfold (m : nat) :
  m <> 0%nat ->
  runQueues run_fn run_cleanup run_handler fuel m
  = (do running <- gets IsRunning;
     exec modify (set_IsRunning true);
     exec set_qsize QDisposes 0;
     do _ <- while_ fuel
               (fun _ w => eager_work w || (0 <? qsize QDisposes w))
               (fun count =>
                  exec when (0 <? count)
                         (modify (fun w => set_Time (Time w + 1) w));
                  exec Queue_run run_fn run_cleanup run_handler fuel QChanges;
                  exec Queue_run run_fn run_cleanup run_handler fuel QUpdates;
                  exec Queue_run run_fn run_cleanup run_handler fuel QDisposes;
                  if 100000 <? count then throw RunawayClock
                  else
                    do w <- gets id;
                    exec when ((0 <? qsize QEffects w) && eager_work w)
                           savePendingEffects;
                    ret (count + 1))
               0;
     do w <- gets id;
     exec when ((0 <? qsize QEffects w)
                || bool_decide (is_Some (PendingEffects w)))
            (runEffects run_fn run_cleanup run_handler fuel (pred m));
     modify (set_IsRunning running))%js.
Proof. intros H. destruct m; [congruence|reflexivity]. Qed.

Lemma while_done {L} (n : nat) (cond : L -> World -> bool)
    (body : L -> M L) (l : L) (w : World) :
  cond l w = false -> while_ n cond body l w = Ok l w.
Proof. intros H. destruct n; cbn [while_]; rewrite H; reflexivity. Qed.

(** With nothing queued, [event] ticks the clock, resets the sizes
    of [$$Updates] and [$$Disposes] and runs nothing. *)
Lemma quiet_event (w : World) :
  fuel <> 0%nat ->
  qsize QChanges w <= 0 ->
  qsize QEffects w <= 0 ->
  PendingEffects w = None ->
  event run_fn run_cleanup run_handler fuel w
  = Ok tt (set_Observer_ None
             (set_IsRunning false
                (set_Disposes (set_size 0 (Disposes w))
                   (set_Time (Time w + 1)
                      (set_Updates (set_size 0 (Updates w)) w))))).
Proof.
  intros Hf Hc He Hp.
  set (w1 := set_queue QDisposes (set_size 0 (queue QDisposes
               (set_IsRunning true
                  (set_Time (Time (set_queue QUpdates (set_size 0 (queue QUpdates w)) w) + 1)
                     (set_queue QUpdates (set_size 0 (queue QUpdates w)) w)))))
               (set_IsRunning true
                  (set_Time (Time (set_queue QUpdates (set_size 0 (queue QUpdates w)) w) + 1)
                     (set_queue QUpdates (set_size 0 (queue QUpdates w)) w)))).
  assert (H1 : eager_work w1 || (0 <? qsize QDisposes w1) = false).
  { unfold w1, eager_work, qsize. destruct w as [so ob su qc qu qd qe ? ? ? ? ? ? ? ?].
    unfold qsize in Hc. cbn in Hc |- *.
    destruct (Z.ltb_spec 0 (size qc)); [lia|reflexivity]. }
  assert (H2 : (0 <? qsize QEffects w1)
               || bool_decide (is_Some (PendingEffects w1)) = false).
  { unfold w1, qsize. destruct w as [so ob su qc qu qd qe ? ? ? ? ? pf ? ?].
    unfold qsize in He. cbn in He, Hp |- *. subst pf.
    destruct (Z.ltb_spec 0 (size qe)); [lia|reflexivity]. }
  unfold event, bind at 1, gets at 1.
  unfold bind at 1, set_qsize at 1, modify at 1.
  unfold bind at 1, modify at 1.
  unfold try_finally.
  rewrite (runQueues_unfold fuel Hf).
  unfold bind at 1, gets at 1. unfold bind at 1, modify at 1.
  unfold bind at 1, set_qsize at 1, modify at 1.
  unfold bind at 1. fold w1.
  rewrite (while_done fuel _ _ 0 w1 H1).
  unfold bind at 1, gets at 1. cbn [id]. rewrite H2.
  unfold when, bind, ret, modify.
  unfold w1. destruct w. reflexivity.
Qed.

Lemma bind_ok {A B} (m : M A) (k : A -> M B) (w w' : World) (a : A) :
  m w = Ok a w' -> bind m k w = k a w'.
Proof. intros H. unfold bind. rewrite H. reflexivity. Qed.

Lemma bind_throw {A B} (m : M A) (k : A -> M B) (w w' : World) (e : exn) :
  m w = Throw e w' -> bind m k w = Throw e w'.
Proof. intros H. unfold bind. rewrite H. reflexivity. Qed.

Lemma try_finally_ok {A} (m : M A) (f : M unit) (w w' : World) (a : A) :
  m w = Ok a w' -> try_finally m f w = bind f (fun _ => ret a) w'.
Proof. intros H. unfold try_finally. rewrite H. reflexivity. Qed.

Lemma try_finally_throw {A} (m : M A) (f : M unit) (w w' : World) (e : exn) :
  m w = Throw e w' -> catchable e = true ->
  try_finally m f w = bind f (fun _ => throw e) w'.
Proof. intros H Hc. unfold try_finally. rewrite H, Hc. reflexivity. Qed.

Lemma lift_id {A} (m : M A) (w : World) :
  lift (fun w => w) (fun w _ => w) m w = m w.
Proof. unfold lift. destruct (m w); reflexivity. Qed.

(** [batch(body)] entered from outside a batch. *)
Lemma batch_enter {A} (body : M A) (w : World) :
  IsRunning w = false ->
  batch_ A body w
  = try_finally
      (bind body (fun result =>
         bind (event run_fn run_cleanup run_handler fuel)
           (fun _ => ret result)))
      (modify (set_IsRunning false))
      (set_queue QChanges (set_size 0 (queue QChanges (set_IsRunning true w)))
         (set_IsRunning true w)).
Proof.
  intros H. unfold batch_, batch, batch_in.
  unfold bind at 1. rewrite lift_id. unfold gets at 1. rewrite H.
  unfold bind at 1. rewrite lift_id. unfold modify at 1.
  unfold bind at 1. rewrite lift_id. unfold set_qsize at 1, modify at 1.
  unfold try_finally.
  match goal with
  | |- match ?a with _ => _ end = match ?b with _ => _ end =>
      assert (E : a = b)
  end.
  { unfold bind. destruct (body _) as [a w'|e' w']; [|reflexivity].
    rewrite lift_id. reflexivity. }
  rewrite E.
  destruct (bind body _ _) as [a w'|e' w']; [|destruct (catchable e')];
    unfold bind; rewrite ?lift_id; reflexivity.
Qed.

(** A write inside a batch to an unlocked observable with nothing
    staged: the observable is queued in [$$Changes] and the value is
    staged. *)
Lemma first_batched_write (w : World) (r : ref) (x : Source) (v : Val) :
  IsRunning w = true ->
  sources w !! r = Some x ->
  s_locked x = 0 ->
  s_pending x = None ->
  differs x (s_value x) v ->
  call_ r (Value v) w
  = Ok v (set_sources (<[r := set_s_pending (Some v) x]> (sources w))
            (set_Changes
               (mkQueue (array_set IUndef (items (Changes w))
                           (size (Changes w)) (IRef r))
                  (size (Changes w) + 1)) w)).
Proof.
  intros Hrun Hx Hl Hp Hd.
  unfold call_, Source_call, bind at 1, getSrc at 1. rewrite Hx, Hp.
  cbn [from_option id].
  assert (Hnext : Source_next run_fn run_cleanup run_handler fuel r v w
                  = Ok v (set_sources
                            (<[r := set_s_pending (Some v) x]> (sources w))
                            (set_Changes
                               (mkQueue (array_set IUndef (items (Changes w))
                                           (size (Changes w)) (IRef r))
                                  (size (Changes w) + 1)) w))).
  { unfold Source_next, bind at 1, getSrc at 1. rewrite Hx, Hl.
    cbn [Z.ltb Z.compare]. unfold bind at 1, gets at 1. rewrite Hrun, Hp.
    rewrite bool_decide_eq_true_2 by reflexivity.
    unfold when, bind, Queue_add, modify, updSrc, ret.
    cbn [queue set_queue sources set_Changes]. rewrite Hx. reflexivity. }
  unfold differs in Hd. destruct (s_eq x) as [equals|]; [rewrite Hd|];
    exact Hnext.
Qed.

(** A write inside a batch to an unlocked observable with a staged
    value only replaces the staged value. *)
Lemma later_batched_write (w : World) (r : ref) (x : Source) (p v : Val) :
  IsRunning w = true ->
  sources w !! r = Some x ->
  s_locked x = 0 ->
  s_pending x = Some p ->
  differs x p v ->
  call_ r (Value v) w
  = Ok v (set_sources (<[r := set_s_pending (Some v) x]> (sources w)) w).
Proof.
  intros Hrun Hx Hl Hp Hd.
  unfold call_, Source_call, bind at 1, getSrc at 1. rewrite Hx, Hp.
  cbn [from_option id].
  assert (Hnext : Source_next run_fn run_cleanup run_handler fuel r v w
                  = Ok v (set_sources
                            (<[r := set_s_pending (Some v) x]> (sources w)) w)).
  { unfold Source_next, bind at 1, getSrc at 1. rewrite Hx, Hl.
    cbn [Z.ltb Z.compare]. unfold bind at 1, gets at 1. rewrite Hrun, Hp.
    rewrite bool_decide_eq_false_2 by discriminate.
    unfold when, bind, updSrc, ret. rewrite Hx. reflexivity. }
  unfold differs in Hd. destruct (s_eq x) as [equals|]; [rewrite Hd|];
    exact Hnext.
Qed.

Lemma changing_staged (x : Source) (q : option Val) (vs : list Val) :
  forall a, changing x a vs -> changing (set_s_pending q x) a vs.
Proof.
  induction vs as [|v vs IH]; intros a H; [exact I|].
  destruct H as [Hd Hch]. split; [exact Hd|apply IH, Hch].
Qed.

Lemma later_batched_writes (r : ref) (vs : list Val) :
  forall (w : World) (x : Source) (p : Val),
    IsRunning w = true ->
    sources w !! r = Some x ->
    s_locked x = 0 ->
    s_pending x = Some p ->
    changing x p vs ->
    forM_ vs (fun v => bind (call_ r (Value v)) (fun _ => ret tt)) w
    = Ok tt (set_sources
               (<[r := set_s_pending (Some (default p (last vs))) x]>
                  (sources w)) w).
Proof.
  induction vs as [|v vs IH]; intros w x p Hrun Hx Hl Hp Hch.
  - cbn [forM_ last from_option id]. unfold ret. f_equal.
    rewrite insert_id; [destruct w; reflexivity|].
    rewrite Hx. f_equal. destruct x; cbn in *; subst; reflexivity.
  - destruct Hch as [Hd Hch]. cbn [forM_].
    erewrite bind_ok;
      [|erewrite bind_ok by (apply (later_batched_write w r x p v); assumption);
        reflexivity].
    rewrite (IH _ (set_s_pending (Some v) x) v);
      [|exact Hrun|apply lookup_insert_eq|exact Hl|reflexivity
       |apply changing_staged, Hch].
    f_equal. cbn [sources set_sources]. rewrite insert_insert_eq.
    replace (default v (last vs)) with (default p (last (v :: vs))).
    2:{ destruct vs as [|v0 vs']; [reflexivity|].
        change (last (v :: v0 :: vs')) with (last (v0 :: vs')).
        destruct (last (v0 :: vs')) eqn:E; [reflexivity|].
        apply last_None in E. discriminate. }
    destruct w, x; reflexivity.
Qed.

(** X15. Inside a batch, writes to an unlocked observable with
    nothing staged queue it in [$$Changes] once, however many they
    are; the last written value is the one staged, the committed
    value stays, and nothing else in the state changes: no
    computation is marked or run before the flush. *)
Theorem batched_writes_queue_once (w : World) (r : ref) (x : Source)
    (v : Val) (vs : list Val) :
  IsRunning w = true ->
  sources w !! r = Some x ->
  s_locked x = 0 ->
  s_pending x = None ->
  changing x (s_value x) (v :: vs) ->
  forM_ (v :: vs) (fun v => bind (call_ r (Value v)) (fun _ => ret tt)) w
  = Ok tt
      (set_sources
         (<[r := set_s_pending (Some (default v (last vs))) x]> (sources w))
         (set_Changes
            (mkQueue (array_set IUndef (items (Changes w)) (size (Changes w))
                        (IRef r))
               (size (Changes w) + 1)) w)).
Proof.
  intros Hrun Hx Hl Hp [Hd Hch]. cbn [forM_].
  erewrite bind_ok;
    [|erewrite bind_ok by (apply (first_batched_write w r x v); assumption);
      reflexivity].
  rewrite (later_batched_writes r vs _ (set_s_pending (Some v) x) v);
    [|exact Hrun|apply lookup_insert_eq|exact Hl|reflexivity
       |apply changing_staged, Hch].
  f_equal. cbn [sources set_sources]. rewrite insert_insert_eq.
  destruct w, x; reflexivity.
Qed.

(** X14. A batch whose body throws after a write leaves the written
    observable staged and never committed: the exception skips the
    flush, and a later batch, which resets the size of [$$Changes]
    on entry, does not queue an observable that already has a staged
    value. The later write returns, the flush commits nothing: the
    committed value is still the one from before the first batch. *)
Theorem failed_batch_strands_source (w : World) (r : ref) (x : Source)
    (v1 v2 : Val) (e : exn) :
  fuel <> 0%nat ->
  IsRunning w = false ->
  sources w !! r = Some x ->
  s_locked x = 0 ->
  s_pending x = None ->
  differs x (s_value x) v1 ->
  differs x v1 v2 ->
  catchable e = true ->
  qsize QEffects w <= 0 ->
  PendingEffects w = None ->
  exists w1 w2,
    batch_ Val (bind (call_ r (Value v1)) (fun _ => throw e)) w = Throw e w1
    /\ IsRunning w1 = false
    /\ sources w1 !! r = Some (set_s_pending (Some v1) x)
    /\ batch_ Val (call_ r (Value v2)) w1 = Ok v2 w2
    /\ sources w2 !! r = Some (set_s_pending (Some v2) x)
    /\ qsize QChanges w2 = 0
    /\ ran w2 = ran w.
Proof.
  intros Hf Hrun Hx Hl Hp Hd1 Hd2 He Hq Hpe.
  rewrite (batch_enter _ w Hrun).
  set (wa := set_queue QChanges
               (set_size 0 (queue QChanges (set_IsRunning true w)))
               (set_IsRunning true w)).
  assert (Hxa : sources wa !! r = Some x) by (destruct w; exact Hx).
  pose proof (first_batched_write wa r x v1 eq_refl Hxa Hl Hp Hd1) as Hw1.
  erewrite try_finally_throw;
    [|apply bind_throw; erewrite bind_ok by exact Hw1; reflexivity|exact He].
  unfold bind, modify, throw.
  eexists. eexists.
  split; [reflexivity|]. split; [reflexivity|].
  split; [cbn [sources set_IsRunning set_sources]; apply lookup_insert_eq|].
  match goal with
  | |- batch_ _ _ ?W = _ /\ _ => set (w1 := W)
  end.
  assert (Hrun1 : IsRunning w1 = false) by reflexivity.
  rewrite (batch_enter _ w1 Hrun1).
  set (wb := set_queue QChanges
               (set_size 0 (queue QChanges (set_IsRunning true w1)))
               (set_IsRunning true w1)).
  assert (Hxb : sources wb !! r = Some (set_s_pending (Some v1) x)).
  { unfold wb, w1. cbn [sources set_queue set_IsRunning set_sources set_Changes].
    apply lookup_insert_eq. }
  pose proof (later_batched_write wb r (set_s_pending (Some v1) x) v1 v2
                eq_refl Hxb Hl eq_refl Hd2) as Hw2.
  erewrite try_finally_ok.
  2:{ erewrite bind_ok by exact Hw2.
      erewrite bind_ok; [reflexivity|].
      apply quiet_event;
        [exact Hf
        |unfold wb, w1, wa, qsize; destruct w; cbn; lia
        |unfold wb, w1, wa, qsize in *; destruct w; cbn in *; lia
        |unfold wb, w1, wa; destruct w; cbn in *; assumption]. }
  unfold bind, modify, ret.
  split; [reflexivity|].
  split.
  { cbn [sources set_IsRunning set_Observer_ set_Disposes set_Time
         set_Updates set_sources].
    rewrite lookup_insert_eq. reflexivity. }
  split; [unfold wb, w1, wa, qsize; destruct w; reflexivity|].
  unfold wb, w1, wa; destruct w; reflexivity.
Qed.

End Batch.

Lemma batched_writes_queue_once_witness :
  forM_ [1; 2; 3]
    (fun v => bind (Source_call identity_fn no_cleanup no_handler 5 0%nat (Value v))
                (fun _ => ret tt))
    (set_IsRunning true lock_world)
  = Ok tt
      (set_sources
         (<[0%nat := set_s_pending (Some 3) (mkSource 0 None None 0 (Some EQUALS))]>
            (sources (set_IsRunning true lock_world)))
         (set_Changes (mkQueue [IRef 0%nat] 1) (set_IsRunning true lock_world))).
Proof.
  apply (batched_writes_queue_once identity_fn no_cleanup no_handler 5
           (set_IsRunning true lock_world) 0%nat
           (mkSource 0 None None 0 (Some EQUALS)) 1 [2; 3]).
  - reflexivity.
  - vm_compute. reflexivity.
  - reflexivity.
  - reflexivity.
  - vm_compute. repeat split.
Defined.

Lemma failed_batch_strands_source_witness :
  exists w1 w2,
    @batch identity_fn no_cleanup no_handler 5 Val
      (bind (Source_call identity_fn no_cleanup no_handler 5 0%nat (Value 1))
         (fun _ => throw (UserError 7))) lock_world
    = Throw (UserError 7) w1
    /\ IsRunning w1 = false
    /\ sources w1 !! 0%nat
       = Some (set_s_pending (Some 1) (mkSource 0 None None 0 (Some EQUALS)))
    /\ @batch identity_fn no_cleanup no_handler 5 Val
         (Source_call identity_fn no_cleanup no_handler 5 0%nat (Value 2)) w1
       = Ok 2 w2
    /\ sources w2 !! 0%nat
       = Some (set_s_pending (Some 2) (mkSource 0 None None 0 (Some EQUALS)))
    /\ qsize QChanges w2 = 0
    /\ ran w2 = ran lock_world.
Proof.
  apply (failed_batch_strands_source identity_fn no_cleanup no_handler 5
           lock_world 0%nat (mkSource 0 None None 0 (Some EQUALS)) 1 2
           (UserError 7)).
  - discriminate.
  - reflexivity.
  - vm_compute. reflexivity.
  - reflexivity.
  - reflexivity.
  - vm_compute. reflexivity.
  - vm_compute. reflexivity.
  - reflexivity.
  - vm_compute. discriminate.
  - reflexivity.
Defined.

End BatchFacts.


(* ===================================================================== *)
(** * The 'asap' queue: disposed ticks, and locks after an error          *)
(* ===================================================================== *)

Module AsapDisposeFacts.
Import Reactive ReactiveSpec ReactiveFacts Asynx AsynxSpec AsynxFacts AsapDispose
  AsapDisposeSpec.

Lemma forX_app {X} (f : X -> MX unit) (a b : list X) (l l' : Loop) :
  forX_ a f l = Ok tt l' -> forX_ (a ++ b) f l = forX_ b f l'.
Proof.
  revert l. induction a as [|x a IH]; intros l H; cbn [forX_ app] in *.
  - unfold ret in H. injection H as ->. reflexivity.
  - unfold bind in *. destruct (f x l) as [[] l1|e l1]; [|discriminate].
    apply IH, H.
Qed.

Section Drain.
Variable run_fn : ref -> Val -> M Val.
Variable run_cleanup : ref -> bool -> M unit.
Variable run_handler : ref -> exn -> M unit.
Variable run_action : ref -> Val -> MX Val.
Variable check_timeline : MX unit.
Variable fuel : nat.

(** X10. A task disposed before its microtask runs, other tasks
    being queued with it: its slot holds [null] and the size of the
    queue is as it was. The drain calls the closures before the
    slot, then throws a [TypeError] on the slot; the queue has been
    emptied, so the closures after the slot are never called. *)
Theorem disposed_slot_breaks_drain (l l_mid : Loop) (ts : list thunk) :
  (forall (j : nat) (t : thunk),
     ts !! j = Some t ->
     array_get SUndef (aq_items (Queue_ l)) (Z.of_nat j) = SThunk t) ->
  Z.of_nat (length ts) < aq_size (Queue_ l) ->
  aq_count (Queue_ l) <> 1 ->
  runs (execute run_fn run_cleanup run_handler run_action fuel)
    (set_Queue_
       (mkAsapQueue
          (array_set SUndef (aq_items (Queue_ l)) (Z.of_nat (length ts)) SNull)
          0 0) l)
    ts l_mid ->
  exists l1,
    Queue_remove (Tick l, Z.of_nat (length ts)) l
    = Ok (aq_count (Queue_ l) - 1) l1
    /\ aq_size (Queue_ l1) = aq_size (Queue_ l)
    /\ Asynx.Queue_run run_fn run_cleanup run_handler run_action
         check_timeline fuel l1
       = Throw TypeError l_mid.
Proof.
  intros Hts Hsz Hct Hruns.
  set (i := Z.of_nat (length ts)) in *.
  set (cleared := array_set SUndef (aq_items (Queue_ l)) i SNull) in *.
  exists (set_Queue_ (mkAsapQueue cleared (aq_size (Queue_ l))
                        (aq_count (Queue_ l) - 1)) l).
  assert (Hc : (aq_count (Queue_ l) - 1 =? 0) = false)
    by (apply Z.eqb_neq; lia).
  split; [|split; [reflexivity|]].
  - unfold Queue_remove, bind, read, change, ret. cbn [fst snd].
    rewrite Z.eqb_refl, Hc. reflexivity.
  - unfold Asynx.Queue_run, bind at 1, read at 1.
    cbn [Queue_ set_Queue_ aq_count aq_size aq_items]. rewrite Hc.
    unfold bind at 1, change at 1.
    replace (seqZ 0 (aq_size (Queue_ l)))
      with (seqZ 0 i ++ seqZ i (aq_size (Queue_ l) - i))
      by (rewrite <- (seqZ_app 0) by lia; f_equal; lia).
    unfold bind at 1.
    erewrite forX_app.
    2:{ unfold i.
        rewrite (forX_slots run_fn run_cleanup run_handler run_action fuel
                   ts cleared 0).
        - apply forX_runs. cbn [set_Queue_ Queue_]. exact Hruns.
        - intros j t Hj. rewrite Z.add_0_l. unfold cleared.
          rewrite array_get_set_ne.
          + apply Hts, Hj.
          + apply lookup_lt_Some in Hj. lia. }
    rewrite seqZ_cons by lia. cbn [forX_]. unfold bind at 1.
    unfold cleared. rewrite array_get_set_eq by lia. reflexivity.
Qed.

(** X11. A task disposed after its microtask has run and before any
    other tick is scheduled: the count of the emptied queue becomes
    -1. The next [tick] brings it back to 0, so the drain of the
    microtask that [tick] scheduled returns at once: the new closure
    stays in slot 0 and is not called by its own microtask. *)
Theorem late_dispose_hides_next_task (l : Loop) (id : Z * Z) (t : thunk) :
  aq_size (Queue_ l) = 0 ->
  aq_count (Queue_ l) = 0 ->
  Scheduled l = false ->
  id.1 = Tick l ->
  exists l1 l2,
    Queue_remove id l = Ok (-1) l1
    /\ tick t l1 = Ok tt l2
    /\ microtasks l2 = microtasks l ++ [TickCallback]
    /\ array_get SUndef (aq_items (Queue_ l2)) 0 = SThunk t
    /\ aq_size (Queue_ l2) = 1
    /\ Asynx.Queue_run run_fn run_cleanup run_handler run_action
         check_timeline fuel l2
       = Ok tt l2.
Proof.
  intros Hsz Hct Hs Hid.
  unfold Queue_remove, bind at 1, read at 1. rewrite Hid, Z.eqb_refl.
  unfold bind at 1, read at 1. rewrite Hct. cbn [Z.sub Z.eqb Z.opp Z.add Z.pos_sub].
  unfold bind, change, ret. rewrite Hsz.
  eexists. eexists. split; [reflexivity|].
  rewrite tick_ticked. split; [reflexivity|].
  unfold ticked. cbn [Scheduled set_Queue_]. rewrite Hs.
  cbn [Queue_ set_Queue_ set_microtasks set_Tick set_Scheduled aq_size
       aq_count aq_items microtasks].
  split; [reflexivity|]. split; [apply array_get_set_eq; lia|].
  split; [reflexivity|].
  unfold Asynx.Queue_run, bind, read.
  cbn [Queue_ set_Queue_ aq_count]. reflexivity.
Qed.

(** X12. An action throws and no owner up the owner chain carries an
    error handler: [handleError] re-raises in the [catch] of
    [executeNext] and again in the [catch] of the queued closure, so
    neither reaches its call of the lock cleanup. The closure throws
    what the action threw and leaves the state the action left: the
    observables locked for the action stay locked. *)
Theorem unhandled_action_error_keeps_locks (t : thunk) (l l' : Loop)
    (e : exn) :
  run_action (th_fn t) (th_input t) l = Throw e l' ->
  catchable e = true ->
  nearest (world l') fuel (Owner (world l')) None ->
  run_thunk run_fn run_cleanup run_handler run_action fuel t l = Throw e l'
  /\ forall r, r ∈ th_lock t ->
       s_locked <$> sources (world (final
         (run_thunk run_fn run_cleanup run_handler run_action fuel t l))) !! r
       = s_locked <$> sources (world l') !! r.
Proof.
  intros Hact Hc Hn.
  assert (Hh : core (handleError run_handler fuel e) l' = Throw e l').
  { unfold core, lift, handleError, bind, gets.
    rewrite (lookup_nearest _ _ _ _ Hn). unfold throw.
    destruct l'; reflexivity. }
  assert (Hrun : run_thunk run_fn run_cleanup run_handler run_action fuel t l
                 = Throw e l').
  { unfold run_thunk, executeNext, try_catch, bind.
    rewrite Hact, Hc, Hh, Hc, Hh. reflexivity. }
  split; [exact Hrun|]. intros r _. rewrite Hrun. reflexivity.
Qed.

End Drain.

Lemma disposed_slot_breaks_drain_witness :
  exists l1,
    Queue_remove (Tick two_scheduled, 1) two_scheduled = Ok 1 l1
    /\ aq_size (Queue_ l1) = 2
    /\ Asynx.Queue_run identity_fn no_cleanup no_handler writer no_timeline 20 l1
       = Throw TypeError first_ran
    /\ executed first_ran = [0%nat].
Proof.
  destruct (disposed_slot_breaks_drain identity_fn no_cleanup no_handler writer
              no_timeline 20 two_scheduled first_ran [Thunk 0%nat 0 [] []])
    as (l1 & Hrem & Hsz & Hrun).
  - intros [|j] t Hj; [|discriminate]. injection Hj as <-.
    vm_compute. reflexivity.
  - vm_compute. reflexivity.
  - vm_compute. discriminate.
  - cbn [runs]. eexists. split; [|reflexivity]. vm_compute. reflexivity.
  - exists l1. split; [exact Hrem|]. split; [exact Hsz|]. split; [exact Hrun|].
    vm_compute. reflexivity.
Defined.

Lemma late_dispose_hides_next_task_witness :
  exists l1 l2,
    Queue_remove (0, 0) three_sources = Ok (-1) l1
    /\ tick (Thunk 0%nat 0 [] []) l1 = Ok tt l2
    /\ microtasks l2 = [TickCallback]
    /\ array_get SUndef (aq_items (Queue_ l2)) 0 = SThunk (Thunk 0%nat 0 [] [])
    /\ aq_size (Queue_ l2) = 1
    /\ Asynx.Queue_run identity_fn no_cleanup no_handler writer no_timeline 20 l2
       = Ok tt l2.
Proof.
  apply (late_dispose_hides_next_task identity_fn no_cleanup no_handler writer
           no_timeline 20 three_sources (0, 0) (Thunk 0%nat 0 [] []));
    reflexivity.
Defined.

Lemma unhandled_action_error_keeps_locks_witness :
  run_thunk identity_fn no_cleanup no_handler failing_writer 20
    (Thunk 0%nat 0 [1%nat] []) locked_failing
  = Throw (UserError 7) locked_failing
  /\ (s_locked <$> sources (world locked_failing) !! 1%nat) = Some 1.
Proof.
  split; [|vm_compute; reflexivity].
  apply (unhandled_action_error_keeps_locks identity_fn no_cleanup no_handler
           failing_writer 20 (Thunk 0%nat 0 [1%nat] []) locked_failing
           locked_failing (UserError 7)).
  - reflexivity.
  - reflexivity.
  - apply nearest_top.
Defined.

End AsapDisposeFacts.


(* ===================================================================== *)
(** * [reconcile]: the calls it makes on [parent]                         *)
(* ===================================================================== *)

Module ReconcileCalls.
Import JsArray Reconcile ReconcileSpec ReconcileFacts.

#[local] Set Warnings "-clear-no-such-hyp".

(** ** The calls made on [parent] *)

Lemma final_nothing (fuel : nat) (next : list jsval) (k : list Dom.op)
    (d pre suf : list Node) :
  final_optimization fuel next (window k d pre [] [] suf)
  = Ok tt (window k d pre [] [] suf).
Proof.
  set (w := window k d pre [] [] suf).
  assert (E1 : (start w =? currentEnd w) = true)
    by (apply Z.eqb_eq; unfold w, window; fields; cbn [length]; lia).
  assert (E2 : (start w =? nextEnd w) = true)
    by (apply Z.eqb_eq; unfold w, window; fields; cbn [length]; lia).
  unfold final_optimization, bind, get. cbn [id]. rewrite E1, E2. reflexivity.
Qed.

(** Step 1 over a common prefix [pp]. *)
Lemma resume_prefix (fuel : nat) (pp : list Node) :
  forall (m : nat) (k : list Dom.op) (d pre c nw suf : list Node),
    resume fuel (of_nodes (pre ++ (pp ++ nw) ++ suf)) (length pp + m)
      (window k d pre (pp ++ c) (pp ++ nw) suf)
    = resume fuel (of_nodes (pre ++ (pp ++ nw) ++ suf)) m
        (window k d (pre ++ pp) c nw suf).
Proof.
  induction pp as [|x pp IH]; intros m k d pre c nw suf.
  - cbn [app length Nat.add]. rewrite app_nil_r. reflexivity.
  - cbn [length Nat.add].
    rewrite (resume_next fuel (length pp + m) _ _
               (window k d (pre ++ [x]) (pp ++ c) (pp ++ nw) suf)).
    + assert (E : pre ++ ((x :: pp) ++ nw) ++ suf
                  = (pre ++ [x]) ++ (pp ++ nw) ++ suf) by list_eq.
      rewrite E, (IH m k d (pre ++ [x]) c nw suf).
      do 2 f_equal. list_eq.
    + rewrite window_loops. reflexivity.
    + apply (step_prefix fuel k d pre (pp ++ c) (pp ++ nw) suf x).
Qed.

(** Step 2 over a common suffix [ss], the heads of the two parts
    being different all along. *)
Lemma resume_suffix (fuel : nat) (nl : list Node) (ss : list Node) :
  forall (m : nat) (k : list Dom.op) (d pre c nw suf : list Node),
    nl = pre ++ (nw ++ ss) ++ suf ->
    (forall s1 rest, ss = s1 :: rest -> head (c ++ [s1]) <> head (nw ++ [s1])) ->
    resume fuel (of_nodes nl) (length ss + m)
      (window k d pre (c ++ ss) (nw ++ ss) suf)
    = resume fuel (of_nodes nl) m (window k d pre c nw (ss ++ suf)).
Proof.
  induction ss as [|z ss IH] using rev_ind; intros m k d pre c nw suf Hnl Hh.
  - cbn [length Nat.add app]. rewrite !app_nil_r. reflexivity.
  - rewrite length_app. cbn [length].
    replace (length ss + 1 + m)%nat with (S (length ss + m)) by lia.
    assert (Hne : exists s1 rest, ss ++ [z] = s1 :: rest)
      by (destruct ss; cbn [app]; eauto).
    destruct Hne as (s1 & rest & Hss).
    specialize (Hh s1 rest Hss).
    assert (Hx : exists x, head (c ++ ss ++ [z]) = Some x /\ head (c ++ [s1]) = Some x).
    { destruct c as [|x c]; cbn [app head]; [|eauto].
      rewrite Hss. eauto. }
    assert (Hy : exists y, head (nw ++ ss ++ [z]) = Some y /\ head (nw ++ [s1]) = Some y).
    { destruct nw as [|y nw]; cbn [app head]; [|eauto].
      rewrite Hss. eauto. }
    destruct Hx as (x & Hx & Hx'), Hy as (y & Hy & Hy').
    assert (Nxy : x <> y) by congruence.
    assert (Hzc : last (c ++ ss ++ [z]) = Some z)
      by (rewrite !app_assoc; apply last_snoc).
    assert (Hzn : last (nw ++ ss ++ [z]) = Some z)
      by (rewrite !app_assoc; apply last_snoc).
    pose proof (iteration_steps fuel
                  (window k d pre (c ++ ss ++ [z]) (nw ++ ss ++ [z]) suf)
                  pre (c ++ ss ++ [z]) (nw ++ ss ++ [z]) suf x y z z
                  eq_refl eq_refl eq_refl eq_refl eq_refl eq_refl Hx Hy
                  Hzc Hzn) as Hit.
    rewrite <- Hnl in Hit.
    rewrite bool_decide_eq_false_2 in Hit by assumption.
    rewrite bool_decide_eq_true_2 in Hit by reflexivity.
    assert (Hloop : (start (window k d pre (c ++ ss ++ [z]) (nw ++ ss ++ [z]) suf)
                     <? currentEnd (window k d pre (c ++ ss ++ [z]) (nw ++ ss ++ [z]) suf))
                    && (start (window k d pre (c ++ ss ++ [z]) (nw ++ ss ++ [z]) suf)
                        <? nextEnd (window k d pre (c ++ ss ++ [z]) (nw ++ ss ++ [z]) suf))
                    = true).
    { rewrite window_loops.
      destruct (c ++ ss ++ [z]); [discriminate|].
      destruct (nw ++ ss ++ [z]); [discriminate|]. reflexivity. }
    rewrite (resume_next fuel _ _ _ _ Hloop Hit).
    replace (set_nextEnd _ _) with (window k d pre (c ++ ss) (nw ++ ss) (z :: suf)).
    2:{ unfold window; step. f_equal; first [f_equal; list_eq | len_eq]. }
    rewrite (IH m k d pre c nw (z :: suf)).
    + do 2 f_equal. list_eq.
    + rewrite Hnl. list_eq.
    + intros s1' rest' E. rewrite E in Hss. cbn [app] in Hss.
      injection Hss as -> _. exact Hh.
Qed.


(** The final insertion, with the calls it makes: the nodes [rest] of
    [next] go, in order, before the node [first_of w] that follows the
    part [A] of the child list. *)
Lemma insert_loop_calls (nl w rest : list Node) :
  forall (fuel : nat) (a b A : list Node) (s : store),
    nl = a ++ rest ++ b ->
    Dom.children (parent s) = A ++ w ->
    NoDup (A ++ rest ++ w) ->
    (length rest <= fuel)%nat ->
    exists s',
      for_ fuel (Z.of_nat (length a)) (Z.of_nat (length a + length rest))
        (fun j => bind (modify (set_start (j + 1)))
                    (fun _ => insertBefore (Reconcile.nx (of_nodes nl) j)
                                (first_of w))) s
      = Ok tt s'
      /\ Dom.children (parent s') = A ++ rest ++ w
      /\ Dom.calls (parent s')
         = Dom.calls (parent s)
           ++ ((fun n => Dom.InsertBefore n (first_of w)) <$> rest)
      /\ current s' = current s.
Proof.
  induction rest as [|r rest IH]; intros fuel a b A s Hnl Hd Hnd Hf.
  - exists s. rewrite for_done by (cbn [length]; lia).
    rewrite Hd. cbn [fmap list_fmap]. rewrite app_nil_r. auto.
  - destruct fuel as [|fuel]; [cbn [length] in Hf; lia|].
    destruct s as [[d k] cur ce ne st i adv lc ln ni pn].
    cbn [parent Dom.children Dom.calls current] in *. subst d.
    assert (Hr1 : r ∉ A ++ w) by nodup Hnd.
    assert (Hr2 : r ∉ w) by nodup Hnd.
    assert (Hd1 : NoDup (A ++ w)) by nodup Hnd.
    erewrite for_step; [| cbn [length]; lia |].
    2:{ unfold bind, modify, insertBefore, dom, Reconcile.nx. step.
        rewrite (aget_at nl a (rest ++ b) r) by first [exact Hnl | reflexivity].
        rewrite (insertBefore_at r (A ++ w) A w);
          [|apply without_absent, Hr1|assumption|assumption].
        reflexivity. }
    destruct (IH fuel (a ++ [r]) b (A ++ [r])
                {| parent := {| Dom.children := A ++ r :: w;
                                Dom.calls := k ++ [Dom.InsertBefore r (first_of w)] |};
                   current := cur; currentEnd := ce; nextEnd := ne;
                   start := Z.of_nat (length a) + 1; ins := i;
                   advancedDiff := adv; lastCurrent := lc; lastNext := ln;
                   nextIndexes := ni; prevNodes := pn |})
      as (s' & Hs' & Hc' & Hk' & Hcur').
    + rewrite Hnl. list_eq.
    + cbn [parent Dom.children]. list_eq.
    + revert Hnd. rewrite <- !app_assoc. cbn [app]. auto.
    + cbn [length] in Hf. lia.
    + exists s'. split; [|split; [|split]].
      * rewrite <- Hs'. f_equal; len_eq.
      * rewrite Hc'. list_eq.
      * rewrite Hk'. cbn [parent Dom.calls fmap list_fmap]. list_eq.
      * exact Hcur'.
Qed.

(** The final removal, with the calls it makes. *)
Lemma remove_loop_calls (rest : list Node) :
  forall (fuel : nat) (a b u v : list Node) (s : store),
    current s = of_nodes (a ++ rest ++ b) ->
    Dom.children (parent s) = u ++ rest ++ v ->
    NoDup (u ++ rest ++ v) ->
    (length rest <= fuel)%nat ->
    exists s',
      for_ fuel (Z.of_nat (length a)) (Z.of_nat (length a + length rest))
        (fun j => bind (get current)
                    (fun c => bind (modify (set_start (j + 1)))
                                (fun _ => removeChild (aget c j)))) s
      = Ok tt s'
      /\ Dom.children (parent s') = u ++ v
      /\ Dom.calls (parent s') = Dom.calls (parent s) ++ (Dom.RemoveChild <$> rest)
      /\ current s' = current s.
Proof.
  induction rest as [|r rest IH]; intros fuel a b u v s Hcur Hd Hnd Hf.
  - exists s. rewrite for_done by (cbn [length]; lia). rewrite Hd.
    cbn [fmap list_fmap]. rewrite app_nil_r. auto.
  - destruct fuel as [|fuel]; [cbn [length] in Hf; lia|].
    destruct s as [[d k] cur ce ne st i adv lc ln ni pn].
    cbn [parent Dom.children Dom.calls current] in *. subst d cur.
    assert (Hr1 : r ∉ u) by nodup Hnd.
    assert (Hr2 : r ∉ rest ++ v) by nodup Hnd.
    assert (Hd1 : NoDup (u ++ rest ++ v)) by nodup Hnd.
    erewrite for_step; [| cbn [length]; lia |].
    2:{ unfold bind, get, modify, removeChild, dom. step.
        rewrite (aget_at _ a (rest ++ b) r) by reflexivity.
        unfold Dom.removeChild, Dom.is_child. fields.
        rewrite bool_decide_eq_true_2 by set_solver.
        cbn [app]. rewrite without_middle by assumption.
        reflexivity. }
    destruct (IH fuel (a ++ [r]) b u v
                {| parent := {| Dom.children := u ++ rest ++ v;
                                Dom.calls := k ++ [Dom.RemoveChild r] |};
                   current := of_nodes (a ++ (r :: rest) ++ b);
                   currentEnd := ce; nextEnd := ne;
                   start := Z.of_nat (length a) + 1; ins := i;
                   advancedDiff := adv; lastCurrent := lc; lastNext := ln;
                   nextIndexes := ni; prevNodes := pn |})
      as (s' & Hs' & Hc' & Hk' & Hcur').
    + cbn [current]. f_equal. list_eq.
    + reflexivity.
    + exact Hd1.
    + cbn [length] in Hf. lia.
    + exists s'. split; [|split; [|split]].
      * rewrite <- Hs'. f_equal; len_eq.
      * exact Hc'.
      * rewrite Hk'. cbn [parent Dom.calls fmap list_fmap]. list_eq.
      * exact Hcur'.
Qed.

Lemma final_insert_calls (fuel : nat) (k : list Dom.op)
    (u pre nw suf v : list Node) :
  NoDup (u ++ pre ++ nw ++ suf ++ v) -> pre <> [] -> nw <> [] ->
  (length nw <= fuel)%nat ->
  exists s',
    final_optimization fuel (of_nodes (pre ++ nw ++ suf))
      (window k (u ++ pre ++ suf ++ v) pre [] nw suf) = Ok tt s'
    /\ Dom.children (parent s') = u ++ pre ++ nw ++ suf ++ v
    /\ Dom.calls (parent s')
       = k ++ ((fun n => Dom.InsertBefore n (first_of (suf ++ v))) <$> nw).
Proof.
  intros Hnd Hpre Hnw Hf.
  destruct (exists_last Hpre) as (pre' & p & Ep).
  assert (Hp : p ∉ u ++ pre') by (rewrite Ep in Hnd; nodup Hnd).
  set (w := window k (u ++ pre ++ suf ++ v) pre [] nw suf).
  assert (E1 : (start w =? currentEnd w) = true)
    by (apply Z.eqb_eq; unfold w, window; fields; cbn [length]; lia).
  assert (E2 : (start w =? nextEnd w) = false).
  { apply Z.eqb_neq. unfold w, window. fields.
    destruct nw; [congruence|cbn [length]; lia]. }
  unfold final_optimization, bind at 1, get. cbn [id]. rewrite E1, E2.
  unfold bind at 1, nextSibling, dom.
  assert (Ecur : aget (current w) (currentEnd w - 1) = JNode p).
  { unfold w, window. fields. cbn [app].
    apply (aget_at (pre ++ suf) pre' suf p);
      [rewrite Ep; list_eq|rewrite Ep; cbn [length]; len_eq]. }
  rewrite Ecur. unfold Dom.nextSibling.
  assert (Enext : Dom.next_of p (Dom.children (parent w)) = first_of (suf ++ v)).
  { unfold w, window. fields. rewrite Ep.
    replace (u ++ (pre' ++ [p]) ++ suf ++ v) with ((u ++ pre') ++ p :: (suf ++ v))
      by list_eq.
    apply next_of_middle, Hp. }
  rewrite Enext.
  destruct (insert_loop_calls (pre ++ nw ++ suf) (suf ++ v) nw fuel pre suf
              (u ++ pre) (set_parent (parent w) w))
    as (s' & Hs' & Hc' & Hk' & _).
  - reflexivity.
  - unfold w, window. step. list_eq.
  - revert Hnd. rewrite <- !app_assoc. auto.
  - exact Hf.
  - exists s'. split; [exact Hs'|]. split; [rewrite Hc'; list_eq|exact Hk'].
Qed.

Lemma final_remove_calls (fuel : nat) (next : list jsval) (k : list Dom.op)
    (u pre c suf v : list Node) :
  NoDup (u ++ pre ++ c ++ suf ++ v) -> (length c <= fuel)%nat ->
  exists s',
    final_optimization fuel next
      (window k (u ++ pre ++ c ++ suf ++ v) pre c [] suf) = Ok tt s'
    /\ Dom.children (parent s') = u ++ pre ++ suf ++ v
    /\ Dom.calls (parent s') = k ++ (Dom.RemoveChild <$> c).
Proof.
  intros Hnd Hf.
  set (w := window k (u ++ pre ++ c ++ suf ++ v) pre c [] suf).
  destruct c as [|x c].
  { exists w. unfold w. rewrite final_nothing. cbn [fmap list_fmap].
    rewrite app_nil_r. auto. }
  assert (E1 : (start w =? currentEnd w) = false)
    by (apply Z.eqb_neq; unfold w, window; fields; cbn [length]; lia).
  assert (E2 : (start w =? nextEnd w) = true)
    by (apply Z.eqb_eq; unfold w, window; fields; cbn [length]; lia).
  unfold final_optimization, bind at 1, get. cbn [id]. rewrite E1, E2.
  destruct (remove_loop_calls (x :: c) fuel pre suf (u ++ pre) (suf ++ v) w)
    as (s' & Hs' & Hc' & Hk' & _).
  - reflexivity.
  - unfold w, window. fields. list_eq.
  - revert Hnd. rewrite <- !app_assoc. auto.
  - exact Hf.
  - exists s'. split; [exact Hs'|]. split; [rewrite Hc'; list_eq|exact Hk'].
Qed.

Lemma reconcile_resume (fuel : nat) (p : Dom.t) (cur next : list Node) :
  reconcile fuel p cur next
  = resume fuel (of_nodes next) fuel
      (window (Dom.calls p) (Dom.children p) [] cur next []).
Proof. unfold reconcile. rewrite enter_window. reflexivity. Qed.

Lemma skip_prefix (fuel m : nat) (k : list Dom.op) (d pp c nw : list Node) :
  (length pp <= m)%nat ->
  resume fuel (of_nodes (pp ++ nw)) m (window k d [] (pp ++ c) (pp ++ nw) [])
  = resume fuel (of_nodes (pp ++ nw)) (m - length pp) (window k d pp c nw []).
Proof.
  intros Hm.
  replace m with (length pp + (m - length pp))%nat at 1 by lia.
  pose proof (resume_prefix fuel pp (m - length pp) k d [] c nw []) as H.
  cbn [app] in H. rewrite app_nil_r in H. exact H.
Qed.

Lemma skip_suffix (fuel m : nat) (nl : list Node) (k : list Dom.op)
    (d pre c nw ss : list Node) :
  nl = pre ++ nw ++ ss ->
  (length ss <= m)%nat ->
  (forall s1 rest, ss = s1 :: rest -> head (c ++ [s1]) <> head (nw ++ [s1])) ->
  resume fuel (of_nodes nl) m (window k d pre (c ++ ss) (nw ++ ss) [])
  = resume fuel (of_nodes nl) (m - length ss) (window k d pre c nw ss).
Proof.
  intros Hnl Hm Hh.
  replace m with (length ss + (m - length ss))%nat at 1 by lia.
  rewrite (resume_suffix fuel nl ss (m - length ss) k d pre c nw []);
    [rewrite app_nil_r; reflexivity|rewrite app_nil_r, Hnl; list_eq|exact Hh].
Qed.

(** X1. [reconcile] of a list with itself, whatever the children of
    [parent] are and whether or not the list has duplicates: the call
    returns, no call was made on [parent], [current] is untouched. *)
Theorem reconcile_same_list_is_silent (fuel : nat) (p : Dom.t) (l : list Node) :
  (length l <= fuel)%nat ->
  exists s,
    reconcile fuel p l l = Ok tt s
    /\ parent s = p
    /\ current s = of_nodes l.
Proof.
  intros Hf. rewrite reconcile_resume.
  pose proof (skip_prefix fuel fuel (Dom.calls p) (Dom.children p) l [] [] Hf) as H.
  rewrite app_nil_r in H. rewrite H.
  rewrite resume_exit by (rewrite window_loops; reflexivity).
  rewrite final_nothing.
  eexists. split; [reflexivity|]. destruct p as [d k].
  split; [reflexivity|].
  unfold window. fields. cbn [app]. rewrite app_nil_r. reflexivity.
Qed.

Lemma reconcile_same_list_is_silent_witness :
  exists s,
    reconcile 3 {| Dom.children := [7; 1]%nat; Dom.calls := [] |}
      [1; 2; 1]%nat [1; 2; 1]%nat = Ok tt s
    /\ parent s = {| Dom.children := [7; 1]%nat; Dom.calls := [] |}
    /\ current s = of_nodes [1; 2; 1]%nat.
Proof.
  apply (reconcile_same_list_is_silent 3
           {| Dom.children := [7; 1]%nat; Dom.calls := [] |} [1; 2; 1]%nat).
  cbn [length]. lia.
Defined.

(** X2. A run of new nodes [ins] put into a list after a non-empty
    part [pre] that stays (the list being a duplicate-free run of the
    children of [parent], [u] and [v] the children around it):
    [reconcile] returns after exactly one [insertBefore] per new node,
    in order, each before the node that followed [pre] ([null] when
    there is none); the children are the new list in place of the
    old. *)
Theorem reconcile_insertion_calls (fuel : nat) (p : Dom.t)
    (u pre ins suf v : list Node) :
  NoDup (u ++ pre ++ ins ++ suf ++ v) ->
  pre <> [] ->
  Dom.children p = u ++ pre ++ suf ++ v ->
  (length pre + length ins + length suf <= fuel)%nat ->
  exists s,
    reconcile fuel p (pre ++ suf) (pre ++ ins ++ suf) = Ok tt s
    /\ Dom.children (parent s) = u ++ pre ++ ins ++ suf ++ v
    /\ Dom.calls (parent s)
       = Dom.calls p
         ++ ((fun n => Dom.InsertBefore n (first_of (suf ++ v))) <$> ins).
Proof.
  intros Hnd Hpre Hp Hf. rewrite reconcile_resume, Hp.
  rewrite skip_prefix by lia.
  destruct ins as [|i1 ins].
  { cbn [app fmap list_fmap]. rewrite app_nil_r.
    pose proof (resume_prefix fuel suf (fuel - length pre - length suf)
                  (Dom.calls p) (u ++ pre ++ suf ++ v) pre [] [] []) as H.
    rewrite !app_nil_r in H.
    replace (length suf + (fuel - length pre - length suf))%nat
      with (fuel - length pre)%nat in H by (cbn [length] in Hf; lia).
    rewrite H, resume_exit by (rewrite window_loops; reflexivity).
    rewrite final_nothing. eexists. split; [reflexivity|]. auto. }
  rewrite (skip_suffix fuel _ (pre ++ (i1 :: ins) ++ suf) _ _ pre [] (i1 :: ins) suf);
    [|reflexivity|cbn [length] in Hf; lia|].
  2:{ intros s1 rest ->. cbn [app head]. intros E. injection E as ->.
      nodup Hnd. }
  rewrite resume_exit by (rewrite window_loops; reflexivity).
  apply final_insert_calls; [assumption|assumption|discriminate|].
  cbn [length] in *. lia.
Qed.

Lemma reconcile_insertion_calls_witness :
  exists s,
    reconcile 5 {| Dom.children := [9; 0; 1; 4; 8]%nat; Dom.calls := [] |}
      [0; 1; 4]%nat [0; 1; 2; 3; 4]%nat = Ok tt s
    /\ Dom.children (parent s) = [9; 0; 1; 2; 3; 4; 8]%nat
    /\ Dom.calls (parent s)
       = [Dom.InsertBefore 2%nat (JNode 4%nat);
          Dom.InsertBefore 3%nat (JNode 4%nat)].
Proof.
  apply (reconcile_insertion_calls 5
           {| Dom.children := [9; 0; 1; 4; 8]%nat; Dom.calls := [] |}
           [9%nat] [0; 1]%nat [2; 3]%nat [4%nat] [8%nat]).
  - apply (bool_decide_unpack _). vm_compute. exact I.
  - discriminate.
  - reflexivity.
  - cbn [length]. lia.
Defined.

(** X3. A run of nodes [rem] taken out of a list (the list being a
    duplicate-free run of the children of [parent]): [reconcile]
    returns after exactly one [removeChild] per node of the run, in
    order, and nothing else; with an empty [next] this empties the
    list. *)
Theorem reconcile_removal_calls (fuel : nat) (p : Dom.t)
    (u pre rem suf v : list Node) :
  NoDup (u ++ pre ++ rem ++ suf ++ v) ->
  Dom.children p = u ++ pre ++ rem ++ suf ++ v ->
  (length pre + length rem + length suf <= fuel)%nat ->
  exists s,
    reconcile fuel p (pre ++ rem ++ suf) (pre ++ suf) = Ok tt s
    /\ Dom.children (parent s) = u ++ pre ++ suf ++ v
    /\ Dom.calls (parent s) = Dom.calls p ++ (Dom.RemoveChild <$> rem).
Proof.
  intros Hnd Hp Hf. rewrite reconcile_resume, Hp.
  rewrite skip_prefix by lia.
  destruct rem as [|r1 rem].
  { cbn [app fmap list_fmap]. rewrite app_nil_r.
    pose proof (resume_prefix fuel suf (fuel - length pre - length suf)
                  (Dom.calls p) (u ++ pre ++ suf ++ v) pre [] [] []) as H.
    rewrite !app_nil_r in H.
    replace (length suf + (fuel - length pre - length suf))%nat
      with (fuel - length pre)%nat in H by (cbn [length] in Hf; lia).
    rewrite H, resume_exit by (rewrite window_loops; reflexivity).
    rewrite final_nothing. eexists. split; [reflexivity|]. auto. }
  pose proof (skip_suffix fuel (fuel - length pre) (pre ++ suf) (Dom.calls p)
                (u ++ pre ++ (r1 :: rem) ++ suf ++ v) pre (r1 :: rem) [] suf) as H.
  cbn [app] in H. cbn [app]. rewrite H;
    [|reflexivity|cbn [length] in Hf; lia|].
  2:{ intros s1 rest ->. cbn [app head]. intros E. injection E as ->.
      nodup Hnd. }
  rewrite resume_exit by (rewrite window_loops; reflexivity).
  apply (final_remove_calls fuel _ _ u pre (r1 :: rem) suf v);
    [assumption|cbn [length] in *; lia].
Qed.

Lemma reconcile_removal_calls_witness :
  exists s,
    reconcile 5 {| Dom.children := [9; 0; 1; 2; 3; 4; 8]%nat; Dom.calls := [] |}
      [0; 1; 2; 3; 4]%nat [0; 4]%nat = Ok tt s
    /\ Dom.children (parent s) = [9; 0; 4; 8]%nat
    /\ Dom.calls (parent s)
       = [Dom.RemoveChild 1%nat; Dom.RemoveChild 2%nat; Dom.RemoveChild 3%nat].
Proof.
  apply (reconcile_removal_calls 5
           {| Dom.children := [9; 0; 1; 2; 3; 4; 8]%nat; Dom.calls := [] |}
           [9%nat] [0%nat] [1; 2; 3]%nat [4%nat] [8%nat]).
  - apply (bool_decide_unpack _). vm_compute. exact I.
  - reflexivity.
  - cbn [length]. lia.
Defined.

(** ** The one-to-many fast path *)

Lemma index_from_absent (x : Node) (l : list Node) (i : Z) :
  x ∉ l -> index_from (JNode x) (of_nodes l) i = -1.
Proof.
  revert i. induction l as [|y l IH]; intros i H; [reflexivity|].
  apply not_elem_of_cons in H as [Hne Hl].
  cbn [of_nodes fmap list_fmap index_from].
  rewrite seq_js_nodes, bool_decide_eq_false_2 by congruence.
  apply IH, Hl.
Qed.

Lemma indexOf_absent (x : Node) (a b : list Node) :
  x ∉ b -> indexOf (of_nodes (a ++ b)) (JNode x) (Z.of_nat (length a)) = -1.
Proof.
  intros H. unfold indexOf.
  destruct (_ <=? _); [reflexivity|].
  destruct (Z.ltb_spec (Z.of_nat (length a)) 0); [lia|].
  rewrite Nat2Z.id. unfold of_nodes. rewrite fmap_app.
  rewrite drop_app_length' by (rewrite length_fmap; reflexivity).
  apply index_from_absent, H.
Qed.

Lemma subsequenceIndex_absent (fuel : nat) (more less : list jsval)
    (ms me ls le : Z) (s : store) :
  indexOf more (aget less ls) ms = -1 ->
  subsequenceIndex fuel more ms me less ls le s = Ok (-1) s.
Proof. intros H. unfold subsequenceIndex. rewrite H. reflexivity. Qed.

(** The first loop of the fast path: the nodes [rest] of [next] go,
    in order, before the node [r0] of the child list. *)
Lemma insert_before_loop (nl w rest : list Node) (r0 : Node) (st : Z) :
  forall (fuel : nat) (a b A : list Node) (s : store),
    nl = a ++ rest ++ b ->
    aget (current s) st = JNode r0 ->
    Dom.children (parent s) = A ++ r0 :: w ->
    NoDup (A ++ rest ++ r0 :: w) ->
    (length rest <= fuel)%nat ->
    exists d',
      for_ fuel (Z.of_nat (length a)) (Z.of_nat (length a + length rest))
        (fun n => bind (get current)
                    (fun cur => insertBefore (aget (of_nodes nl) n) (aget cur st))) s
      = Ok tt (set_parent d' s)
      /\ Dom.children d' = A ++ rest ++ r0 :: w
      /\ Dom.calls d'
         = Dom.calls (parent s)
           ++ ((fun n => Dom.InsertBefore n (JNode r0)) <$> rest).
Proof.
  induction rest as [|r rest IH]; intros fuel a b A s Hnl Hcur Hd Hnd Hf.
  - exists (parent s). rewrite for_done by (cbn [length]; lia).
    rewrite Hd. cbn [fmap list_fmap]. rewrite app_nil_r.
    destruct s. auto.
  - destruct fuel as [|fuel]; [cbn [length] in Hf; lia|].
    destruct s as [[d k] cur ce ne st' i adv lc ln ni pn].
    cbn [parent Dom.children Dom.calls current] in *. subst d.
    assert (Hr1 : r ∉ A ++ r0 :: w) by nodup Hnd.
    assert (Hr2 : r ∉ r0 :: w) by nodup Hnd.
    assert (Hd1 : NoDup (A ++ r0 :: w)) by nodup Hnd.
    erewrite for_step; [| cbn [length]; lia |].
    2:{ unfold bind, get, insertBefore, dom. step. rewrite Hcur.
        rewrite (aget_at nl a (rest ++ b) r) by first [exact Hnl | reflexivity].
        rewrite (insertBefore_node r r0 (A ++ r0 :: w) A w);
          [|apply without_absent, Hr1|assumption|assumption].
        reflexivity. }
    destruct (IH fuel (a ++ [r]) b (A ++ [r])
                {| parent := {| Dom.children := A ++ r :: r0 :: w;
                                Dom.calls := k ++ [Dom.InsertBefore r (JNode r0)] |};
                   current := cur; currentEnd := ce; nextEnd := ne;
                   start := st'; ins := i;
                   advancedDiff := adv; lastCurrent := lc; lastNext := ln;
                   nextIndexes := ni; prevNodes := pn |})
      as (d' & Hs' & Hc' & Hk').
    + rewrite Hnl. list_eq.
    + exact Hcur.
    + cbn [parent Dom.children]. list_eq.
    + revert Hnd. rewrite <- !app_assoc. cbn [app]. auto.
    + cbn [length] in Hf. lia.
    + exists d'. split; [|split].
      * unfold set_parent in Hs' |- *.
        cbn [parent current currentEnd nextEnd start ins advancedDiff
             lastCurrent lastNext nextIndexes prevNodes] in Hs' |- *.
        rewrite <- Hs'. f_equal; len_eq.
      * rewrite Hc'. list_eq.
      * rewrite Hk'. cbn [parent Dom.calls fmap list_fmap]. list_eq.
Qed.

(** The second loop of the fast path: the nodes [rest] of [current]
    leave the child list. *)
Lemma remove_each_loop (rest : list Node) :
  forall (fuel : nat) (a b u v : list Node) (s : store),
    current s = of_nodes (a ++ rest ++ b) ->
    Dom.children (parent s) = u ++ rest ++ v ->
    NoDup (u ++ rest ++ v) ->
    (length rest <= fuel)%nat ->
    exists d',
      for_ fuel (Z.of_nat (length a)) (Z.of_nat (length a + length rest))
        (fun j => bind (get current) (fun c => removeChild (aget c j))) s
      = Ok tt (set_parent d' s)
      /\ Dom.children d' = u ++ v
      /\ Dom.calls d' = Dom.calls (parent s) ++ (Dom.RemoveChild <$> rest).
Proof.
  induction rest as [|r rest IH]; intros fuel a b u v s Hcur Hd Hnd Hf.
  - exists (parent s). rewrite for_done by (cbn [length]; lia). rewrite Hd.
    cbn [fmap list_fmap]. rewrite app_nil_r. destruct s. auto.
  - destruct fuel as [|fuel]; [cbn [length] in Hf; lia|].
    destruct s as [[d k] cur ce ne st i adv lc ln ni pn].
    cbn [parent Dom.children Dom.calls current] in *. subst d cur.
    assert (Hr1 : r ∉ u) by nodup Hnd.
    assert (Hr2 : r ∉ rest ++ v) by nodup Hnd.
    assert (Hd1 : NoDup (u ++ rest ++ v)) by nodup Hnd.
    erewrite for_step; [| cbn [length]; lia |].
    2:{ unfold bind, get, removeChild, dom. step.
        rewrite (aget_at _ a (rest ++ b) r) by reflexivity.
        unfold Dom.removeChild, Dom.is_child. fields.
        rewrite bool_decide_eq_true_2 by set_solver.
        cbn [app]. rewrite without_middle by assumption.
        reflexivity. }
    destruct (IH fuel (a ++ [r]) b u v
                {| parent := {| Dom.children := u ++ rest ++ v;
                                Dom.calls := k ++ [Dom.RemoveChild r] |};
                   current := of_nodes (a ++ (r :: rest) ++ b);
                   currentEnd := ce; nextEnd := ne;
                   start := st; ins := i;
                   advancedDiff := adv; lastCurrent := lc; lastNext := ln;
                   nextIndexes := ni; prevNodes := pn |})
      as (d' & Hs' & Hc' & Hk').
    + cbn [current]. f_equal. list_eq.
    + reflexivity.
    + exact Hd1.
    + cbn [length] in Hf. lia.
    + exists d'. split; [|split].
      * unfold set_parent in Hs' |- *.
        cbn [parent current currentEnd nextEnd start ins advancedDiff
             lastCurrent lastNext nextIndexes prevNodes] in Hs' |- *.
        rewrite <- Hs'. f_equal; len_eq.
      * exact Hc'.
      * rewrite Hk'. cbn [parent Dom.calls fmap list_fmap]. list_eq.
Qed.

Lemma fastPaths_one_to_many (fuel : nat) (k : list Dom.op)
    (u pre c' nw suf v : list Node) (a : Node) :
  NoDup (u ++ pre ++ (a :: c') ++ nw ++ suf ++ v) ->
  nw <> [] ->
  c' = [] \/ length nw = 1%nat ->
  (length (a :: c') + length nw <= fuel)%nat ->
  exists d',
    fastPaths fuel (of_nodes (pre ++ nw ++ suf))
      (Z.of_nat (length pre)) (Z.of_nat (length pre + length (a :: c')))
      (Z.of_nat (length pre)) (Z.of_nat (length pre + length nw))
      (window k (u ++ pre ++ (a :: c') ++ suf ++ v) pre (a :: c') nw suf)
    = Ok true
        (set_parent d'
           (window k (u ++ pre ++ (a :: c') ++ suf ++ v) pre (a :: c') nw suf))
    /\ Dom.children d' = u ++ pre ++ nw ++ suf ++ v
    /\ Dom.calls d'
       = k ++ ((fun n => Dom.InsertBefore n (JNode a)) <$> nw)
           ++ (Dom.RemoveChild <$> (a :: c')).
Proof.
  intros Hnd Hnw Hone Hf.
  set (w := window k (u ++ pre ++ (a :: c') ++ suf ++ v) pre (a :: c') nw suf).
  set (nl := pre ++ nw ++ suf).
  assert (Hidx1 : forall me le s,
             subsequenceIndex fuel (of_nodes nl)
               (Z.of_nat (length pre)) me
               (current w) (Z.of_nat (length pre)) le s = Ok (-1) s).
  { intros. apply subsequenceIndex_absent.
    unfold w, window. fields.
    rewrite (aget_at _ pre (c' ++ suf) a) by reflexivity.
    apply indexOf_absent. nodup Hnd. }
  destruct nw as [|b nw']; [congruence|].
  assert (Hidx2 : forall me le s,
             subsequenceIndex fuel (current w)
               (Z.of_nat (length pre)) me
               (of_nodes nl) (Z.of_nat (length pre)) le s = Ok (-1) s).
  { intros. apply subsequenceIndex_absent.
    unfold nl. rewrite (aget_at _ pre (nw' ++ suf) b) by reflexivity.
    unfold w, window. fields.
    apply indexOf_absent. nodup Hnd. }
  assert (Hcond : (Z.of_nat (length pre + length (a :: c')) - Z.of_nat (length pre) =? 1)
                  || (Z.of_nat (length pre + length (b :: nw'))
                      - Z.of_nat (length pre) =? 1) = true).
  { apply orb_true_iff. destruct Hone as [-> | H1]; [left|right];
      apply Z.eqb_eq; [cbn [length]; lia|lia]. }
  assert (Hotm : exists d',
             bind (for_ fuel (Z.of_nat (length pre))
                     (Z.of_nat (length pre + length (b :: nw')))
                     (fun n => bind (get current) (fun cur =>
                        insertBefore (aget (of_nodes nl) n)
                          (aget cur (Z.of_nat (length pre))))))
               (fun _ =>
                  bind (for_ fuel (Z.of_nat (length pre))
                          (Z.of_nat (length pre + length (a :: c')))
                          (fun c => bind (get current) (fun cur =>
                             removeChild (aget cur c))))
                    (fun _ => ret true)) w
             = Ok true (set_parent d' w)
             /\ Dom.children d' = u ++ pre ++ (b :: nw') ++ suf ++ v
             /\ Dom.calls d'
                = k ++ ((fun n => Dom.InsertBefore n (JNode a)) <$> b :: nw')
                    ++ (Dom.RemoveChild <$> a :: c')).
  { destruct (insert_before_loop nl (c' ++ suf ++ v) (b :: nw') a
                (Z.of_nat (length pre)) fuel pre suf (u ++ pre) w)
      as (d1 & Hr1 & Hc1 & Hk1).
    - reflexivity.
    - unfold w, window. fields.
      apply (aget_at _ pre (c' ++ suf) a); reflexivity.
    - unfold w, window. fields. list_eq.
    - revert Hnd. rewrite <- !app_assoc. cbn [app].
      intros Hnd. nodup Hnd.
    - cbn [length] in *. lia.
    - destruct (remove_each_loop (a :: c') fuel pre suf (u ++ pre ++ b :: nw')
                  (suf ++ v) (set_parent d1 w))
        as (d2 & Hr2 & Hc2 & Hk2).
      + reflexivity.
      + cbn [parent set_parent]. rewrite Hc1. list_eq.
      + revert Hnd. rewrite <- !app_assoc. cbn [app].
        intros Hnd. nodup Hnd.
      + cbn [length] in *. lia.
      + exists d2. unfold bind at 1. rewrite Hr1.
        unfold bind at 1. rewrite Hr2.
        split; [reflexivity|]. split; [rewrite Hc2; list_eq|].
        rewrite Hk2. cbn [parent set_parent]. rewrite Hk1.
        unfold w, window. fields. list_eq. }
  destruct Hotm as (d' & Hrun & Hc & Hk'). exists d'.
  split; [|split; assumption].
  unfold fastPaths. cbv zeta. unfold bind at 1, get at 1.
  destruct (_ <? _).
  - unfold bind at 1. rewrite Hidx1.
    change (-1 <? -1) with false. cbv iota. rewrite Hcond. exact Hrun.
  - destruct (_ <? _).
    + unfold bind at 1. rewrite Hidx2.
      change (-1 <? -1) with false. cbv iota. rewrite Hcond. exact Hrun.
    + rewrite Hcond. exact Hrun.
Qed.

Ltac nodup_in :=
  unfold Node in *;
  repeat (progress (rewrite ?NoDup_app, ?NoDup_cons, ?NoDup_nil in * ));
  set_solver.

Lemma resume_return (fuel m : nat) (next : list jsval) (s s' : store) :
  (start s <? currentEnd s) && (start s <? nextEnd s) = true ->
  iteration fuel next s = Ok true s' ->
  resume fuel next (S m) s = Ok tt s'.
Proof.
  intros H Hi. unfold resume, bind. cbn [main_loop]. rewrite H, Hi. reflexivity.
Qed.

Lemma last_elem_of {A} (l : list A) (z : A) : last l = Some z -> z ∈ l.
Proof.
  intros H. apply last_snoc_inv in H. rewrite H. set_solver.
Qed.

(** X4. The one-to-many fast path. One node of the list replaced by a
    run of new nodes, or a run of nodes replaced by one new node
    (between parts [pre] and [suf] that stay; all nodes distinct):
    [reconcile] returns after inserting every new node, in order,
    before the first replaced node and then removing every replaced
    node; the children are the new list in place of the old. The
    [current] array is left as it was. *)
Theorem reconcile_one_to_many (fuel : nat) (p : Dom.t)
    (u pre c' nw suf v : list Node) (a : Node) :
  NoDup (u ++ pre ++ (a :: c') ++ nw ++ suf ++ v) ->
  nw <> [] ->
  c' = [] \/ length nw = 1%nat ->
  Dom.children p = u ++ pre ++ (a :: c') ++ suf ++ v ->
  (length pre + length (a :: c') + length nw + length suf <= fuel)%nat ->
  exists s,
    reconcile fuel p (pre ++ (a :: c') ++ suf) (pre ++ nw ++ suf) = Ok tt s
    /\ Dom.children (parent s) = u ++ pre ++ nw ++ suf ++ v
    /\ Dom.calls (parent s)
       = Dom.calls p ++ ((fun n => Dom.InsertBefore n (JNode a)) <$> nw)
           ++ (Dom.RemoveChild <$> a :: c')
    /\ current s = of_nodes (pre ++ (a :: c') ++ suf).
Proof.
  intros Hnd Hnw Hone Hp Hf. rewrite reconcile_resume, Hp.
  rewrite skip_prefix by lia.
  destruct nw as [|b nw']; [congruence|].
  rewrite (skip_suffix fuel _ (pre ++ (b :: nw') ++ suf) _ _ pre (a :: c')
             (b :: nw') suf);
    [|reflexivity|cbn [length] in Hf; lia|].
  2:{ intros s1 rest _. cbn [app head]. intros E. injection E as ->.
      nodup Hnd. }
  set (d := u ++ pre ++ (a :: c') ++ suf ++ v).
  set (w := window (Dom.calls p) d pre (a :: c') (b :: nw') suf).
  assert (Hm : exists m, (fuel - length pre - length suf = S m)%nat)
    by (exists (fuel - length pre - length suf - 1)%nat; cbn [length] in Hf; lia).
  destruct Hm as (m & ->).
  destruct (last_cons_is_Some a c') as (zc & Hzc).
  destruct (last_cons_is_Some b nw') as (zn & Hzn).
  pose proof (last_elem_of _ _ Hzc) as Hzc'.
  pose proof (last_elem_of _ _ Hzn) as Hzn'.
  assert (Nab : a <> b) by nodup Hnd.
  assert (Nz : zc <> zn) by (intros ->; clear - Hnd Hzc' Hzn'; nodup_in).
  assert (Nbz : b <> zc) by (intros ->; clear - Hnd Hzc'; nodup_in).
  assert (Naz : a <> zn) by (intros ->; clear - Hnd Hzn'; nodup_in).
  pose proof (iteration_steps fuel w pre (a :: c') (b :: nw') suf a b zc zn
                eq_refl eq_refl eq_refl eq_refl eq_refl eq_refl
                eq_refl eq_refl Hzc Hzn) as Hit.
  rewrite !bool_decide_eq_false_2 in Hit by assumption.
  cbn [andb] in Hit.
  destruct (fastPaths_one_to_many fuel (Dom.calls p) u pre c' (b :: nw') suf v a)
    as (d' & Hfp & Hc & Hk);
    [assumption|discriminate|assumption|cbn [length] in *; lia|].
  fold d in Hfp. fold w in Hfp.
  assert (Hio : initial_optimization fuel (of_nodes (pre ++ (b :: nw') ++ suf)) w
                = Ok true (set_parent d' w)).
  { unfold initial_optimization, bind at 1, get at 1. cbn [id].
    unfold Reconcile.nx.
    replace (aget (of_nodes (pre ++ (b :: nw') ++ suf)) (start w)) with (JNode b)
      by (symmetry; apply (aget_at _ pre (nw' ++ suf) b); reflexivity).
    replace (aget (current w) (currentEnd w - 1)) with (JNode zc)
      by (symmetry; apply (aget_last pre (a :: c') suf zc Hzc)).
    replace (aget (current w) (start w)) with (JNode a)
      by (symmetry; apply (aget_at _ pre (c' ++ suf) a); reflexivity).
    replace (aget (of_nodes (pre ++ (b :: nw') ++ suf)) (nextEnd w - 1))
      with (JNode zn)
      by (symmetry; apply (aget_last pre (b :: nw') suf zn Hzn)).
    rewrite !seq_js_nodes, !bool_decide_eq_false_2 by assumption.
    unfold bind at 1.
    change (start w) with (Z.of_nat (length pre)).
    change (currentEnd w) with (Z.of_nat (length pre + length (a :: c'))).
    change (nextEnd w) with (Z.of_nat (length pre + length (b :: nw'))).
    rewrite Hfp. reflexivity. }
  rewrite Hio in Hit.
  rewrite (resume_return fuel m _ w (set_parent d' w));
    [|unfold w; rewrite window_loops; reflexivity|exact Hit].
  eexists. split; [reflexivity|].
  split; [exact Hc|]. split; [exact Hk|]. reflexivity.
Qed.

Lemma reconcile_one_to_many_witness :
  exists s,
    reconcile 6 {| Dom.children := [9; 0; 1; 2; 8]%nat; Dom.calls := [] |}
      [0; 1; 2]%nat [0; 5; 6; 7; 2]%nat = Ok tt s
    /\ Dom.children (parent s) = [9; 0; 5; 6; 7; 2; 8]%nat
    /\ Dom.calls (parent s)
       = [Dom.InsertBefore 5%nat (JNode 1%nat);
          Dom.InsertBefore 6%nat (JNode 1%nat);
          Dom.InsertBefore 7%nat (JNode 1%nat);
          Dom.RemoveChild 1%nat]
    /\ current s = of_nodes [0; 1; 2]%nat.
Proof.
  apply (reconcile_one_to_many 6
           {| Dom.children := [9; 0; 1; 2; 8]%nat; Dom.calls := [] |}
           [9%nat] [0%nat] [] [5; 6; 7]%nat [2%nat] [8%nat] 1%nat).
  - apply (bool_decide_unpack _). vm_compute. exact I.
  - discriminate.
  - left. reflexivity.
  - reflexivity.
  - cbn [length]. lia.
Defined.

Lemma forallb_fmap {A B} (f : B -> bool) (g : A -> B) (l : list A) :
  forallb f (g <$> l) = forallb (fun x => f (g x)) l.
Proof.
  induction l as [|x l IH]; [reflexivity|].
  cbn [fmap list_fmap forallb]. rewrite <- IH. reflexivity.
Qed.

Lemma forallb_ext' {A} (f g : A -> bool) (l : list A) :
  (forall x, f x = g x) -> forallb f l = forallb g l.
Proof.
  intros H. induction l as [|x l IH]; [reflexivity|].
  cbn [forallb]. rewrite H, IH. reflexivity.
Qed.

Lemma subsequence_loop (more less : list jsval) (le : Z) (n : nat) :
  forall (fuel : nat) (m l : Z) (s : store),
    l + Z.of_nat n = le -> (n <= fuel)%nat ->
    exists m' l',
      while_ fuel
        (fun '(m, l, ret_) (_ : store) =>
           match ret_ : option Z with
           | Some _ => false
           | None => l <? le
           end)
        (fun '(m, l, _) =>
           if negb (seq_js (aget more m) (aget less l))
           then ret (m + 1, l + 1, Some (-1))
           else ret (m + 1, l + 1, None))
        (m, l, None) s
      = Ok (m', l',
            if forallb (fun j => seq_js (aget more (m + j)) (aget less (l + j)))
                 (seqZ 0 (Z.of_nat n))
            then None else Some (-1)) s.
Proof.
  induction n as [|n IH]; intros fuel m l s Hl Hf.
  - exists m, l. destruct fuel; cbn [while_];
      (destruct (Z.ltb_spec l le); [lia|reflexivity]).
  - destruct fuel as [|fuel]; [lia|]. cbn [while_].
    destruct (Z.ltb_spec l le); [|lia].
    rewrite seqZ_cons by lia. cbn [forallb]. rewrite !Z.add_0_r.
    destruct (seq_js (aget more m) (aget less l)); cbn [negb andb];
      unfold ret at 1.
    + destruct (IH fuel (m + 1) (l + 1) s) as (m' & l' & H'); [lia|lia|].
      exists m', l'. rewrite H'. do 3 f_equal.
      replace (Z.pred (Z.of_nat (S n))) with (Z.of_nat n) by lia.
      change (Z.succ 0) with (1 + 0).
      rewrite <- (fmap_add_seqZ 1 0), forallb_fmap.
      match goal with
      | |- (if forallb ?f ?l then _ else _) = (if forallb ?g _ then _ else _) =>
          rewrite (forallb_ext' f g l)
      end; [reflexivity|]. intros j.
      replace (m + (1 + j)) with (m + 1 + j) by lia.
      replace (l + (1 + j)) with (l + 1 + j) by lia. reflexivity.
    + exists (m + 1), (l + 1). destruct fuel; reflexivity.
Qed.


(** X5. [subsequenceIndex] in closed form. With [i] the first index,
    from [moreStart] on, of [less[lessStart]] in [more]: the result
    is [-1] when [i] is, or when more than [lessEnd - lessStart] nodes
    follow [i] before [moreEnd] and the rest of the [less] range
    differs somewhere from the nodes after [i]; in every other case it
    is [i], so also, unchecked, when too few nodes follow [i]. *)
Theorem subsequenceIndex_closed_form (fuel : nat) (more less : list jsval)
    (ms me ls le : Z) (s : store) :
  le - ls - 1 <= Z.of_nat fuel ->
  subsequenceIndex fuel more ms me less ls le s
  = Ok (let i := indexOf more (aget less ls) ms in
        if (-1 <? i) && (le - ls <=? me - (i + 1))
        then if run_matches more less i ls (le - ls) then i else -1
        else i) s.
Proof.
  intros Hf. unfold subsequenceIndex. cbv zeta.
  set (i := indexOf more (aget less ls) ms).
  destruct ((-1 <? i) && (le - ls <=? me - (i + 1))); [|reflexivity].
  unfold bind.
  destruct (Z.le_gt_cases le (ls + 1)) as [Hle|Hgt].
  { unfold run_matches. rewrite seqZ_nil by lia. cbn [forallb].
    destruct fuel; cbn [while_];
      (destruct (Z.ltb_spec (ls + 1) le); [lia|reflexivity]). }
  destruct (subsequence_loop more less le (Z.to_nat (le - (ls + 1))) fuel
              (i + 1) (ls + 1) s) as (m' & l' & H); [lia|lia|].
  rewrite H. unfold run_matches, ret.
  replace (seqZ 1 (le - ls - 1))
    with (Z.add 1 <$> seqZ 0 (Z.of_nat (Z.to_nat (le - (ls + 1))))).
  2:{ rewrite fmap_add_seqZ. f_equal. lia. }
  rewrite forallb_fmap.
  rewrite (forallb_ext'
             (fun j => seq_js (aget more (i + (1 + j))) (aget less (ls + (1 + j))))
             (fun j => seq_js (aget more (i + 1 + j)) (aget less (ls + 1 + j)))).
  2:{ intros j. rewrite !Z.add_assoc. reflexivity. }
  destruct (forallb _ _); reflexivity.
Qed.

Lemma subsequenceIndex_closed_form_witness :
  subsequenceIndex 2 (of_nodes [9; 0; 2; 1]%nat) 0 4
    (of_nodes [0; 1; 2]%nat) 0 3
    (enter {| Dom.children := []; Dom.calls := [] |} [] [])
  = Ok 1 (enter {| Dom.children := []; Dom.calls := [] |} [] []).
Proof.
  apply (subsequenceIndex_closed_form 2 (of_nodes [9; 0; 2; 1]%nat)
           (of_nodes [0; 1; 2]%nat) 0 4 0 3
           (enter {| Dom.children := []; Dom.calls := [] |} [] [])).
  vm_compute. discriminate.
Defined.

(** ** Moves and swaps, with the calls they make *)

Lemma swap_step_calls (k : list Dom.op) (pre cm nm suf : list Node) (x y : Node) :
  NoDup (pre ++ (x :: cm ++ [y]) ++ suf) ->
  swap_ends (of_nodes (pre ++ (y :: nm ++ [x]) ++ suf))
    (window k (pre ++ (x :: cm ++ [y]) ++ suf) pre
       (x :: cm ++ [y]) (y :: nm ++ [x]) suf)
  = Ok false
        (window (k ++ Dom.InsertBefore y (JNode x)
                      :: match nm, cm with
                         | _ :: _, _ :: _ => [Dom.InsertBefore x (first_of suf)]
                         | _, _ => []
                         end)
                   (match nm with
                    | [] => pre ++ y :: x :: cm ++ suf
                    | _ => pre ++ y :: cm ++ x :: suf
                    end) (pre ++ [y]) cm nm (x :: suf)).
Proof.
  intros Hnd.
  assert (Hc : pre ++ (x :: cm ++ [y]) ++ suf = (pre ++ x :: cm) ++ y :: suf)
    by list_eq.
  assert (Hn : pre ++ (y :: nm ++ [x]) ++ suf = (pre ++ y :: nm) ++ x :: suf)
    by list_eq.
  assert (Hy1 : y ∉ pre ++ x :: cm) by nodup Hnd.
  assert (Hy2 : y ∉ suf) by nodup Hnd.
  assert (Hy3 : y ∉ x :: cm ++ suf) by nodup Hnd.
  assert (Hd1 : NoDup (pre ++ x :: cm ++ suf)) by nodup Hnd.
  assert (Hx1 : x ∉ pre ++ [y]) by nodup Hnd.
  assert (Hx2 : x ∉ cm ++ suf) by nodup Hnd.
  assert (Hx3 : x ∉ suf) by nodup Hnd.
  assert (Hd2 : NoDup ((pre ++ y :: cm) ++ suf)) by nodup Hnd.
  unfold swap_ends, bind, get, modify, nextSibling, insertBefore, dom, cur_set,
    Reconcile.nx, window. cbn [id]. fields.
  set (cl := pre ++ (x :: cm ++ [y]) ++ suf) in *.
  set (nl := pre ++ (y :: nm ++ [x]) ++ suf) in *.
  rewrite (aget_at cl (pre ++ x :: cm) suf y (Z.of_nat (length pre + length (x :: cm ++ [y])) - 1))
    by first [exact Hc | len_eq].
  rewrite (aget_at nl pre (nm ++ [x] ++ suf) y (Z.of_nat (length pre)))
    by first [subst nl; list_eq | len_eq].
  rewrite (aget_at cl pre (cm ++ [y] ++ suf) x (Z.of_nat (length pre)))
    by first [subst cl; list_eq | len_eq].
  rewrite (aget_at nl (pre ++ y :: nm) suf x (Z.of_nat (length pre + length (y :: nm ++ [x])) - 1))
    by first [exact Hn | len_eq].
  step.
  unfold Dom.nextSibling. fields.
  replace (Dom.next_of y cl) with (first_of suf)
    by (rewrite Hc; symmetry; apply next_of_middle; exact Hy1).
  step.
  rewrite (insertBefore_node y x cl pre (cm ++ suf) k);
    [|rewrite Hc, without_middle by assumption; list_eq|assumption|assumption].
  step.
  rewrite !gap_test.
  assert (Hw : Dom.without x (pre ++ y :: x :: cm ++ suf) = (pre ++ y :: cm) ++ suf).
  { replace (pre ++ y :: x :: cm ++ suf) with ((pre ++ [y]) ++ x :: (cm ++ suf))
      by list_eq.
    rewrite without_middle by assumption. list_eq. }
  remember (match nm with [] => false | _ :: _ => true end) as bn eqn:Hbn.
  remember (match cm with [] => false | _ :: _ => true end) as bc eqn:Hbc.
  assert (Hfin : exists d',
             (if bn && bc
              then Dom.insertBefore (JNode x) (first_of suf)
                     {| Dom.children := pre ++ y :: x :: cm ++ suf;
                        Dom.calls := k ++ [Dom.InsertBefore y (JNode x)] |}
              else Ok tt {| Dom.children := pre ++ y :: x :: cm ++ suf;
                            Dom.calls := k ++ [Dom.InsertBefore y (JNode x)] |})
             = Ok tt {| Dom.children := d';
                        Dom.calls :=
                          k ++ Dom.InsertBefore y (JNode x)
                            :: match nm, cm with
                               | _ :: _, _ :: _ =>
                                   [Dom.InsertBefore x (first_of suf)]
                               | _, _ => []
                               end |}
             /\ d' = match nm with
                     | [] => pre ++ y :: x :: cm ++ suf
                     | _ :: _ => pre ++ y :: cm ++ x :: suf
                     end).
  { destruct bn, bc; cbn [andb].
    - rewrite (insertBefore_at x _ (pre ++ y :: cm) suf) by assumption.
      eexists. destruct nm; [discriminate|]. destruct cm; [discriminate|].
      split; [f_equal; f_equal; list_eq|list_eq].
    - eexists. destruct cm; [|discriminate].
      split; [destruct nm; f_equal; f_equal; list_eq|destruct nm; reflexivity].
    - eexists. destruct nm; [|discriminate].
      split; [f_equal; f_equal; list_eq|reflexivity].
    - eexists. destruct nm; [|discriminate].
      split; [f_equal; f_equal; list_eq|reflexivity]. }
  destruct Hfin as (d' & Hfin & Hd').
  rewrite <- Hd'. clear Hd' Hbn Hbc.
  set (k' := k ++ Dom.InsertBefore y (JNode x) :: _) in *.
  destruct (bn && bc); cbn [when]; unfold ret; step;
    [rewrite Hfin|injection Hfin as <- <-];
    unfold modify; step;
    rewrite (aset_at cl _ suf y x _ Hc) by len_eq;
    rewrite (aset_at _ pre (cm ++ x :: suf) x y) by first [list_eq | len_eq];
    do 2 f_equal; first [reflexivity | f_equal; list_eq | len_eq].
Qed.

Lemma rtl_step_calls (fuel : nat) (k : list Dom.op) (pre cm nm suf : list Node)
    (x y : Node) :
  NoDup (pre ++ (x :: cm ++ [y]) ++ suf) ->
  initial_optimization fuel (of_nodes (pre ++ (y :: nm) ++ suf))
    (window k (pre ++ (x :: cm ++ [y]) ++ suf) pre
       (x :: cm ++ [y]) (y :: nm) suf)
  = Ok false
      (window (k ++ [Dom.InsertBefore y (JNode x)])
         (pre ++ y :: x :: cm ++ suf) (pre ++ [y]) (x :: cm) nm suf).
Proof.
  intros Hnd.
  assert (Hc : pre ++ (x :: cm ++ [y]) ++ suf = (pre ++ x :: cm) ++ y :: suf)
    by list_eq.
  assert (Hy1 : y ∉ pre ++ x :: cm) by nodup Hnd.
  assert (Hy2 : y ∉ suf) by nodup Hnd.
  assert (Hy3 : y ∉ x :: cm ++ suf) by nodup Hnd.
  assert (Hd1 : NoDup (pre ++ x :: cm ++ suf)) by nodup Hnd.
  unfold initial_optimization, bind, get, modify, insertBefore, dom, cur_splice,
    Reconcile.nx, window. cbn [id]. fields.
  set (cl := pre ++ (x :: cm ++ [y]) ++ suf) in *.
  set (nl := pre ++ (y :: nm) ++ suf) in *.
  rewrite (aget_at cl (pre ++ x :: cm) suf y
             (Z.of_nat (length pre + length (x :: cm ++ [y])) - 1))
    by first [exact Hc | len_eq].
  rewrite (aget_at nl pre (nm ++ suf) y (Z.of_nat (length pre)))
    by first [subst nl; list_eq | len_eq].
  rewrite (aget_at cl pre (cm ++ [y] ++ suf) x (Z.of_nat (length pre)))
    by first [subst cl; list_eq | len_eq].
  rewrite seq_js_nodes, bool_decide_eq_true_2 by reflexivity.
  step.
  rewrite (insertBefore_node y x cl pre (cm ++ suf) k);
    [|rewrite Hc, without_middle by assumption; list_eq|assumption|assumption].
  step.
  rewrite (splice_out cl (pre ++ x :: cm) suf y) by first [exact Hc | len_eq].
  step. change (aget [JNode y] 0) with (JNode y).
  rewrite (splice_in ((pre ++ x :: cm) ++ suf) pre (x :: cm ++ suf) y)
    by first [list_eq | len_eq].
  step. unfold ret.
  do 2 f_equal; first [reflexivity | f_equal; list_eq | len_eq].
Qed.

Lemma ltr_step_calls (fuel : nat) (k : list Dom.op) (pre cm nm suf : list Node)
    (x y zc : Node) :
  NoDup (pre ++ (x :: cm) ++ suf) ->
  head (nm ++ [x]) = Some y -> last (x :: cm) = Some zc ->
  y <> zc -> x <> zc ->
  initial_optimization fuel (of_nodes (pre ++ (nm ++ [x]) ++ suf))
    (window k (pre ++ (x :: cm) ++ suf) pre (x :: cm) (nm ++ [x]) suf)
  = Ok false
      (window (k ++ [Dom.InsertBefore x (first_of suf)])
         (pre ++ cm ++ x :: suf) pre cm nm (x :: suf)).
Proof.
  intros Hnd Hy Hzc Hyz Hxz.
  assert (Hcm : exists cm', cm = cm' ++ [zc]).
  { destruct cm as [|c1 cm]; [cbn in Hzc; congruence|].
    change (last (x :: c1 :: cm)) with (last (c1 :: cm)) in Hzc.
    exists (removelast (c1 :: cm)). apply last_snoc_inv, Hzc. }
  destruct Hcm as (cm' & Hcm).
  assert (Hc : pre ++ (x :: cm) ++ suf = (pre ++ x :: cm') ++ zc :: suf)
    by (rewrite Hcm; list_eq).
  assert (Hx1 : x ∉ pre) by nodup Hnd.
  assert (Hx2 : x ∉ cm ++ suf) by nodup Hnd.
  assert (Hx3 : x ∉ suf) by nodup Hnd.
  assert (Hd1 : NoDup ((pre ++ cm) ++ suf)) by nodup Hnd.
  assert (Hz1 : zc ∉ pre ++ x :: cm').
  { rewrite Hc in Hnd. nodup Hnd. }
  unfold initial_optimization, bind, get, modify, insertBefore, nextSibling, dom,
    cur_splice, Reconcile.nx, window. cbn [id]. fields.
  set (cl := pre ++ (x :: cm) ++ suf) in *.
  set (nl := pre ++ (nm ++ [x]) ++ suf) in *.
  rewrite (aget_at cl (pre ++ x :: cm') suf zc
             (Z.of_nat (length pre + length (x :: cm)) - 1))
    by first [exact Hc | rewrite Hcm; len_eq].
  replace (aget (of_nodes nl) (Z.of_nat (length pre))) with (JNode y)
    by (symmetry; apply aget_first, Hy).
  rewrite (aget_at cl pre (cm ++ suf) x (Z.of_nat (length pre)))
    by first [subst cl; list_eq | len_eq].
  rewrite (aget_at nl (pre ++ nm) suf x
             (Z.of_nat (length pre + length (nm ++ [x])) - 1))
    by first [subst nl; list_eq | len_eq].
  rewrite !seq_js_nodes.
  rewrite (bool_decide_eq_false_2 (y = zc)) by assumption.
  rewrite bool_decide_eq_true_2 by reflexivity.
  step. unfold Dom.nextSibling. fields.
  replace (Dom.next_of zc cl) with (first_of suf)
    by (rewrite Hc; symmetry; apply next_of_middle; exact Hz1).
  step.
  rewrite (insertBefore_at x cl (pre ++ cm) suf);
    [|subst cl; cbn [app]; rewrite without_middle by assumption; list_eq
     |assumption|assumption].
  step.
  rewrite (splice_out cl pre (cm ++ suf) x) by first [subst cl; list_eq | len_eq].
  step. change (aget [JNode x] 0) with (JNode x).
  rewrite (splice_in (pre ++ cm ++ suf) (pre ++ cm) suf x)
    by first [list_eq | len_eq].
  step. unfold ret.
  do 2 f_equal; first [reflexivity | f_equal; list_eq | len_eq].
Qed.

Lemma resume_same_window (fuel m : nat) (k : list Dom.op)
    (d pre l suf : list Node) :
  (length l <= m)%nat ->
  resume fuel (of_nodes (pre ++ l ++ suf)) m (window k d pre l l suf)
  = Ok tt (window k d (pre ++ l) [] [] suf).
Proof.
  intros Hm.
  replace m with (length l + (m - length l))%nat by lia.
  pose proof (resume_prefix fuel l (m - length l) k d pre [] [] suf) as H.
  rewrite !app_nil_r in H. rewrite H.
  rewrite resume_exit by (rewrite window_loops; reflexivity).
  apply final_nothing.
Qed.

Lemma last_cons_cons {A} (x y : A) (l : list A) :
  last (x :: y :: l) = last (y :: l).
Proof. reflexivity. Qed.

(** X6. One node [y] moved to the left over the run [x :: cm], in a
    duplicate-free list that is the child list of [parent]:
    [reconcile] returns after exactly one call, the [insertBefore] of
    [y] before [x]; the children and the [current] array are
    [next]. *)
Theorem reconcile_move_left_one_call (fuel : nat) (p : Dom.t)
    (pre cm suf : list Node) (x y : Node) :
  NoDup (pre ++ (x :: cm ++ [y]) ++ suf) ->
  Dom.children p = pre ++ (x :: cm ++ [y]) ++ suf ->
  (length (pre ++ (x :: cm ++ [y]) ++ suf) <= fuel)%nat ->
  exists s,
    reconcile fuel p (pre ++ (x :: cm ++ [y]) ++ suf)
      (pre ++ (y :: x :: cm) ++ suf) = Ok tt s
    /\ Dom.children (parent s) = pre ++ (y :: x :: cm) ++ suf
    /\ Dom.calls (parent s) = Dom.calls p ++ [Dom.InsertBefore y (JNode x)]
    /\ current s = of_nodes (pre ++ (y :: x :: cm) ++ suf).
Proof.
  intros Hnd Hp Hf. rewrite reconcile_resume, Hp.
  rewrite !length_app in Hf. cbn [length] in Hf. rewrite length_app in Hf.
  cbn [length] in Hf.
  rewrite skip_prefix by lia.
  rewrite (skip_suffix fuel _ (pre ++ (y :: x :: cm) ++ suf) _ _ pre
             (x :: cm ++ [y]) (y :: x :: cm) suf);
    [|reflexivity|lia|].
  2:{ intros s1 rest _. cbn [app head]. intros E. injection E as ->.
      nodup Hnd. }
  set (d := pre ++ (x :: cm ++ [y]) ++ suf).
  set (nl := pre ++ (y :: x :: cm) ++ suf).
  set (w := window (Dom.calls p) d pre (x :: cm ++ [y]) (y :: x :: cm) suf).
  assert (Hm : exists m, (fuel - length pre - length suf = S m)%nat
                         /\ (length cm + 1 <= m)%nat)
    by (exists (fuel - length pre - length suf - 1)%nat; lia).
  destruct Hm as (m & -> & Hm).
  assert (Hloop : (start w <? currentEnd w) && (start w <? nextEnd w) = true)
    by (unfold w; rewrite window_loops; reflexivity).
  assert (Nxy : x <> y) by nodup Hnd.
  assert (Hzc : last (x :: cm ++ [y]) = Some y)
    by (change (x :: cm ++ [y]) with ((x :: cm) ++ [y]); apply last_snoc).
  destruct (last_cons_is_Some x cm) as (zn & Hzn).
  assert (Hzn' : last (y :: x :: cm) = Some zn) by exact Hzn.
  assert (Nz : y <> zn).
  { intros <-. apply last_elem_of in Hzn. clear - Hnd Hzn. nodup_in. }
  pose proof (iteration_steps fuel w pre (x :: cm ++ [y]) (y :: x :: cm) suf
                x y y zn eq_refl eq_refl eq_refl eq_refl eq_refl eq_refl
                eq_refl eq_refl Hzc Hzn') as Hit.
  fold nl in Hit.
  rewrite (bool_decide_eq_false_2 (x = y)) in Hit by assumption.
  rewrite (bool_decide_eq_false_2 (y = zn)) in Hit by assumption.
  rewrite (bool_decide_eq_true_2 (y = y)) in Hit by reflexivity.
  rewrite andb_true_r in Hit.
  destruct cm as [|c1 cm'].
  - cbn in Hzn. injection Hzn as <-.
    rewrite bool_decide_eq_true_2 in Hit by reflexivity.
    pose proof (swap_step_calls (Dom.calls p) pre [] [] suf x y Hnd) as Hsw.
    change (swap_ends (of_nodes nl) w = Ok false
              (window (Dom.calls p ++ [Dom.InsertBefore y (JNode x)])
                 (pre ++ y :: x :: [] ++ suf) (pre ++ [y]) [] []
                 (x :: suf))) in Hsw.
    rewrite Hsw in Hit.
    rewrite (resume_next _ _ _ _ _ Hloop Hit).
    rewrite resume_exit by (rewrite window_loops; reflexivity).
    rewrite final_nothing. eexists. split; [reflexivity|].
    unfold window, nl. fields.
    split; [list_eq|]. split; [reflexivity|]. f_equal. list_eq.
  - assert (Nx : x <> zn).
    { intros <-. rewrite last_cons_cons in Hzn. apply last_elem_of in Hzn.
      clear - Hnd Hzn. nodup_in. }
    rewrite (bool_decide_eq_false_2 (x = zn)) in Hit by assumption.
    pose proof (rtl_step_calls fuel (Dom.calls p) pre (c1 :: cm') (x :: c1 :: cm')
                  suf x y Hnd) as Hrl.
    change (initial_optimization fuel (of_nodes nl) w
            = Ok false
                (window (Dom.calls p ++ [Dom.InsertBefore y (JNode x)])
                   (pre ++ y :: x :: (c1 :: cm') ++ suf) (pre ++ [y])
                   (x :: c1 :: cm') (x :: c1 :: cm') suf)) in Hrl.
    rewrite Hrl in Hit.
    rewrite (resume_next _ _ _ _ _ Hloop Hit).
    replace nl with ((pre ++ [y]) ++ (x :: c1 :: cm') ++ suf)
      by (unfold nl; list_eq).
    rewrite resume_same_window by (cbn [length] in *; lia).
    eexists. split; [reflexivity|].
    unfold window. fields.
    split; [list_eq|]. split; [reflexivity|]. f_equal. list_eq.
Qed.

Lemma reconcile_move_left_one_call_witness :
  exists s,
    reconcile 5 {| Dom.children := [0; 1; 2; 3; 4]%nat; Dom.calls := [] |}
      [0; 1; 2; 3; 4]%nat [0; 3; 1; 2; 4]%nat = Ok tt s
    /\ Dom.children (parent s) = [0; 3; 1; 2; 4]%nat
    /\ Dom.calls (parent s) = [Dom.InsertBefore 3%nat (JNode 1%nat)]
    /\ current s = of_nodes [0; 3; 1; 2; 4]%nat.
Proof.
  apply (reconcile_move_left_one_call 5
           {| Dom.children := [0; 1; 2; 3; 4]%nat; Dom.calls := [] |}
           [0%nat] [2%nat] [4%nat] 1%nat 3%nat).
  - apply (bool_decide_unpack _). vm_compute. exact I.
  - reflexivity.
  - cbn [length app]. lia.
Defined.

(** X7. One node [x] moved to the right over a run [cm] of two nodes
    or more: [reconcile] returns after exactly one call, the
    [insertBefore] of [x] before the node that followed the run
    ([null] at the end of the list); the children and the [current]
    array are [next]. *)
Theorem reconcile_move_right_one_call (fuel : nat) (p : Dom.t)
    (pre cm suf : list Node) (x : Node) :
  NoDup (pre ++ (x :: cm) ++ suf) ->
  (2 <= length cm)%nat ->
  Dom.children p = pre ++ (x :: cm) ++ suf ->
  (length (pre ++ (x :: cm) ++ suf) <= fuel)%nat ->
  exists s,
    reconcile fuel p (pre ++ (x :: cm) ++ suf) (pre ++ (cm ++ [x]) ++ suf)
    = Ok tt s
    /\ Dom.children (parent s) = pre ++ (cm ++ [x]) ++ suf
    /\ Dom.calls (parent s) = Dom.calls p ++ [Dom.InsertBefore x (first_of suf)]
    /\ current s = of_nodes (pre ++ (cm ++ [x]) ++ suf).
Proof.
  intros Hnd Hcm Hp Hf. rewrite reconcile_resume, Hp.
  rewrite !length_app in Hf. cbn [length] in Hf.
  destruct cm as [|y cm']; [cbn [length] in Hcm; lia|].
  rewrite skip_prefix by lia.
  rewrite (skip_suffix fuel _ (pre ++ ((y :: cm') ++ [x]) ++ suf) _ _ pre
             (x :: y :: cm') ((y :: cm') ++ [x]) suf);
    [|list_eq|cbn [length] in Hf; lia|].
  2:{ intros s1 rest _. cbn [app head]. intros E. injection E as ->.
      nodup Hnd. }
  set (d := pre ++ (x :: y :: cm') ++ suf).
  set (nl := pre ++ ((y :: cm') ++ [x]) ++ suf).
  set (w := window (Dom.calls p) d pre (x :: y :: cm') ((y :: cm') ++ [x]) suf).
  assert (Hm : exists m, (fuel - length pre - length suf = S m)%nat
                         /\ (length (y :: cm') <= m)%nat)
    by (exists (fuel - length pre - length suf - 1)%nat; cbn [length] in *; lia).
  destruct Hm as (m & -> & Hm).
  assert (Hloop : (start w <? currentEnd w) && (start w <? nextEnd w) = true)
    by (unfold w; rewrite window_loops; reflexivity).
  assert (Nxy : x <> y) by nodup Hnd.
  destruct (last_cons_is_Some y cm') as (zc & Hzc).
  assert (Hzc' : last (x :: y :: cm') = Some zc) by exact Hzc.
  assert (Hzn : last ((y :: cm') ++ [x]) = Some x) by apply last_snoc.
  pose proof (last_elem_of _ _ Hzc) as Hin.
  assert (Nz : zc <> x) by (intros ->; clear - Hnd Hin; nodup_in).
  assert (Nyz : y <> zc).
  { intros <-. destruct cm' as [|c2 cm'']; [cbn [length] in Hcm; lia|].
    rewrite last_cons_cons in Hzc. apply last_elem_of in Hzc.
    clear - Hnd Hzc. nodup_in. }
  pose proof (iteration_steps fuel w pre (x :: y :: cm') ((y :: cm') ++ [x]) suf
                x y zc x eq_refl eq_refl eq_refl eq_refl eq_refl eq_refl
                eq_refl eq_refl Hzc' Hzn) as Hit.
  fold nl in Hit.
  rewrite (bool_decide_eq_false_2 (x = y)) in Hit by assumption.
  rewrite (bool_decide_eq_false_2 (zc = x)) in Hit by assumption.
  rewrite (bool_decide_eq_false_2 (y = zc)) in Hit by assumption.
  rewrite andb_false_r in Hit.
  pose proof (ltr_step_calls fuel (Dom.calls p) pre (y :: cm') (y :: cm') suf
                x y zc Hnd eq_refl Hzc' Nyz (not_eq_sym Nz)) as Hlr.
  change (initial_optimization fuel (of_nodes nl) w
          = Ok false
              (window (Dom.calls p ++ [Dom.InsertBefore x (first_of suf)])
                 (pre ++ (y :: cm') ++ x :: suf) pre (y :: cm') (y :: cm')
                 (x :: suf))) in Hlr.
  rewrite Hlr in Hit.
  rewrite (resume_next _ _ _ _ _ Hloop Hit).
  replace nl with (pre ++ (y :: cm') ++ x :: suf) by (unfold nl; list_eq).
  rewrite resume_same_window by exact Hm.
  eexists. split; [reflexivity|].
  unfold window. fields.
  split; [list_eq|]. split; [reflexivity|]. f_equal. list_eq.
Qed.

Lemma reconcile_move_right_one_call_witness :
  exists s,
    reconcile 5 {| Dom.children := [0; 1; 2; 3; 4]%nat; Dom.calls := [] |}
      [0; 1; 2; 3; 4]%nat [0; 2; 3; 1; 4]%nat = Ok tt s
    /\ Dom.children (parent s) = [0; 2; 3; 1; 4]%nat
    /\ Dom.calls (parent s) = [Dom.InsertBefore 1%nat (JNode 4%nat)]
    /\ current s = of_nodes [0; 2; 3; 1; 4]%nat.
Proof.
  apply (reconcile_move_right_one_call 5
           {| Dom.children := [0; 1; 2; 3; 4]%nat; Dom.calls := [] |}
           [0%nat] [2; 3]%nat [4%nat] 1%nat).
  - apply (bool_decide_unpack _). vm_compute. exact I.
  - cbn [length]. lia.
  - reflexivity.
  - cbn [length app]. lia.
Defined.

(** X8. Two nodes [x] and [y] that exchange their places around a
    non-empty run [mid] that stays: [reconcile] returns after exactly
    two calls, [y] inserted before [x] and [x] inserted before the
    node that followed [y]; the children and the [current] array are
    [next]. *)
Theorem reconcile_swap_two_calls (fuel : nat) (p : Dom.t)
    (pre mid suf : list Node) (x y : Node) :
  NoDup (pre ++ (x :: mid ++ [y]) ++ suf) ->
  mid <> [] ->
  Dom.children p = pre ++ (x :: mid ++ [y]) ++ suf ->
  (length (pre ++ (x :: mid ++ [y]) ++ suf) <= fuel)%nat ->
  exists s,
    reconcile fuel p (pre ++ (x :: mid ++ [y]) ++ suf)
      (pre ++ (y :: mid ++ [x]) ++ suf) = Ok tt s
    /\ Dom.children (parent s) = pre ++ (y :: mid ++ [x]) ++ suf
    /\ Dom.calls (parent s)
       = Dom.calls p ++ [Dom.InsertBefore y (JNode x);
                         Dom.InsertBefore x (first_of suf)]
    /\ current s = of_nodes (pre ++ (y :: mid ++ [x]) ++ suf).
Proof.
  intros Hnd Hmid Hp Hf. rewrite reconcile_resume, Hp.
  rewrite !length_app in Hf. cbn [length] in Hf. rewrite length_app in Hf.
  cbn [length] in Hf.
  rewrite skip_prefix by lia.
  rewrite (skip_suffix fuel _ (pre ++ (y :: mid ++ [x]) ++ suf) _ _ pre
             (x :: mid ++ [y]) (y :: mid ++ [x]) suf);
    [|reflexivity|lia|].
  2:{ intros s1 rest _. cbn [app head]. intros E. injection E as ->.
      nodup Hnd. }
  set (d := pre ++ (x :: mid ++ [y]) ++ suf).
  set (nl := pre ++ (y :: mid ++ [x]) ++ suf).
  set (w := window (Dom.calls p) d pre (x :: mid ++ [y]) (y :: mid ++ [x]) suf).
  assert (Hm : exists m, (fuel - length pre - length suf = S m)%nat
                         /\ (length mid <= m)%nat)
    by (exists (fuel - length pre - length suf - 1)%nat; lia).
  destruct Hm as (m & -> & Hm).
  assert (Hloop : (start w <? currentEnd w) && (start w <? nextEnd w) = true)
    by (unfold w; rewrite window_loops; reflexivity).
  assert (Nxy : x <> y) by nodup Hnd.
  assert (Hzc : last (x :: mid ++ [y]) = Some y)
    by (change (x :: mid ++ [y]) with ((x :: mid) ++ [y]); apply last_snoc).
  assert (Hzn : last (y :: mid ++ [x]) = Some x)
    by (change (y :: mid ++ [x]) with ((y :: mid) ++ [x]); apply last_snoc).
  pose proof (iteration_steps fuel w pre (x :: mid ++ [y]) (y :: mid ++ [x]) suf
                x y y x eq_refl eq_refl eq_refl eq_refl eq_refl eq_refl
                eq_refl eq_refl Hzc Hzn) as Hit.
  fold nl in Hit.
  rewrite (bool_decide_eq_false_2 (x = y)) in Hit by assumption.
  rewrite (bool_decide_eq_false_2 (y = x)) in Hit by congruence.
  rewrite !bool_decide_eq_true_2 in Hit by reflexivity.
  cbn [andb] in Hit.
  pose proof (swap_step_calls (Dom.calls p) pre mid mid suf x y Hnd) as Hsw.
  destruct mid as [|m1 mid']; [congruence|].
  change (swap_ends (of_nodes nl) w
          = Ok false
              (window (Dom.calls p ++ [Dom.InsertBefore y (JNode x);
                                       Dom.InsertBefore x (first_of suf)])
                 (pre ++ y :: (m1 :: mid') ++ x :: suf) (pre ++ [y])
                 (m1 :: mid') (m1 :: mid') (x :: suf))) in Hsw.
  rewrite Hsw in Hit.
  rewrite (resume_next _ _ _ _ _ Hloop Hit).
  replace nl with ((pre ++ [y]) ++ (m1 :: mid') ++ x :: suf)
    by (unfold nl; list_eq).
  rewrite resume_same_window by exact Hm.
  eexists. split; [reflexivity|].
  unfold window. fields.
  split; [list_eq|]. split; [reflexivity|]. f_equal. list_eq.
Qed.

Lemma reconcile_swap_two_calls_witness :
  exists s,
    reconcile 5 {| Dom.children := [0; 1; 2; 3; 4]%nat; Dom.calls := [] |}
      [0; 1; 2; 3; 4]%nat [0; 3; 2; 1; 4]%nat = Ok tt s
    /\ Dom.children (parent s) = [0; 3; 2; 1; 4]%nat
    /\ Dom.calls (parent s)
       = [Dom.InsertBefore 3%nat (JNode 1%nat);
          Dom.InsertBefore 1%nat (JNode 4%nat)]
    /\ current s = of_nodes [0; 3; 2; 1; 4]%nat.
Proof.
  apply (reconcile_swap_two_calls 5
           {| Dom.children := [0; 1; 2; 3; 4]%nat; Dom.calls := [] |}
           [0%nat] [2%nat] [4%nat] 1%nat 3%nat).
  - apply (bool_decide_unpack _). vm_compute. exact I.
  - discriminate.
  - reflexivity.
  - cbn [length app]. lia.
Defined.

(** X9. Nodes put in front of a list: when [next] is [ins ++ cur]
    with a non-empty [ins] whose first node is not the first node of
    [cur], the suffix step consumes all of [current] and the final
    insertion reads [current[-1].nextSibling]: [reconcile] throws a
    [TypeError], [parent] is as it was. *)
Theorem reconcile_insert_at_front_throws (fuel : nat) (p : Dom.t)
    (ins cur : list Node) :
  ins <> [] ->
  head ins <> head cur ->
  (length cur <= fuel)%nat ->
  exists s,
    reconcile fuel p cur (ins ++ cur) = Throw (Exception Dom.TypeError) s
    /\ parent s = p
    /\ current s = of_nodes cur.
Proof.
  intros Hins Hhead Hf. rewrite reconcile_resume.
  pose proof (skip_suffix fuel fuel (ins ++ cur) (Dom.calls p) (Dom.children p)
                [] [] ins cur eq_refl Hf) as H.
  cbn [app] in H. rewrite H.
  2:{ intros s1 rest ->. destruct ins as [|i1 ins]; [congruence|].
      cbn [app head] in *. congruence. }
  rewrite resume_exit by (rewrite window_loops; reflexivity).
  destruct ins as [|i1 ins]; [congruence|].
  unfold final_optimization, bind, get. cbn [id].
  unfold window. fields. cbn [length app Nat.add].
  rewrite Z.eqb_refl.
  destruct (Z.eqb_spec 0 (Z.of_nat (S (length ins)))) as [E|_]; [lia|].
  unfold nextSibling, dom.
  rewrite aget_before by lia. cbn [Dom.nextSibling].
  eexists. split; [reflexivity|]. destruct p. split; reflexivity.
Qed.

Lemma reconcile_insert_at_front_throws_witness :
  exists s,
    reconcile 2 {| Dom.children := [1; 2]%nat; Dom.calls := [] |}
      [1; 2]%nat ([0%nat] ++ [1; 2]%nat) = Throw (Exception Dom.TypeError) s
    /\ parent s = {| Dom.children := [1; 2]%nat; Dom.calls := [] |}
    /\ current s = of_nodes [1; 2]%nat.
Proof.
  apply (reconcile_insert_at_front_throws 2
           {| Dom.children := [1; 2]%nat; Dom.calls := [] |}
           [0%nat] [1; 2]%nat).
  - discriminate.
  - discriminate.
  - cbn [length]. lia.
Defined.

(** ** The full subsequence fast path *)

Lemma index_from_found (x : Node) (X B : list Node) (i : Z) :
  x ∉ X ->
  index_from (JNode x) (of_nodes (X ++ x :: B)) i = i + Z.of_nat (length X).
Proof.
  revert i. induction X as [|y X IH]; intros i H.
  - cbn [of_nodes fmap list_fmap index_from app length].
    rewrite seq_js_nodes, bool_decide_eq_true_2 by reflexivity. lia.
  - apply not_elem_of_cons in H as [Hne HX].
    cbn [of_nodes fmap list_fmap index_from app].
    rewrite seq_js_nodes, bool_decide_eq_false_2 by congruence.
    change (list_fmap Node jsval JNode (X ++ x :: B))
      with (of_nodes (X ++ x :: B)).
    rewrite IH by exact HX. cbn [length]. lia.
Qed.

Lemma indexOf_found (x : Node) (A X B : list Node) :
  x ∉ X ->
  indexOf (of_nodes (A ++ X ++ x :: B)) (JNode x) (Z.of_nat (length A))
  = Z.of_nat (length A + length X).
Proof.
  intros H. unfold indexOf.
  destruct (Z.leb_spec (Z.of_nat (length (of_nodes (A ++ X ++ x :: B))))
              (Z.of_nat (length A))) as [Hle|_].
  { unfold of_nodes in Hle. rewrite length_fmap, !length_app in Hle.
    cbn [length] in Hle. lia. }
  destruct (Z.ltb_spec (Z.of_nat (length A)) 0); [lia|].
  rewrite Nat2Z.id. unfold of_nodes. rewrite fmap_app.
  rewrite drop_app_length' by (rewrite length_fmap; reflexivity).
  change (JNode <$> X ++ x :: B) with (of_nodes (X ++ x :: B)).
  rewrite index_from_found by exact H. lia.
Qed.

Lemma aget_inside (A C B : list Node) (j : Z) :
  0 <= j < Z.of_nat (length C) ->
  aget (of_nodes (A ++ C ++ B)) (Z.of_nat (length A) + j)
  = aget (of_nodes C) j.
Proof.
  intros Hj. unfold aget, of_nodes.
  destruct (Z.ltb_spec (Z.of_nat (length A) + j) 0); [lia|].
  destruct (Z.ltb_spec j 0); [lia|].
  rewrite !list_lookup_fmap.
  rewrite lookup_app_r by lia.
  rewrite lookup_app_l by lia.
  replace (Z.to_nat (Z.of_nat (length A) + j) - length A)%nat
    with (Z.to_nat j) by lia.
  reflexivity.
Qed.

(** [subsequenceIndex] finds a run of [less] in [more] when enough
    nodes follow its first node. *)
Lemma subsequenceIndex_run (fuel : nat) (A X Y P Q c' : list Node) (a : Node)
    (me : Z) (s : store) :
  a ∉ X ->
  Z.of_nat (length (a :: c')) <= me - Z.of_nat (length A + length X) - 1 ->
  (length c' <= fuel)%nat ->
  subsequenceIndex fuel (of_nodes (A ++ X ++ (a :: c') ++ Y))
    (Z.of_nat (length A)) me
    (of_nodes (P ++ (a :: c') ++ Q)) (Z.of_nat (length P))
    (Z.of_nat (length P + length (a :: c'))) s
  = Ok (Z.of_nat (length A + length X)) s.
Proof.
  intros Ha Hme Hf. unfold subsequenceIndex.
  rewrite (aget_at _ P (c' ++ Q) a) by reflexivity.
  cbn [app]. rewrite (indexOf_found a A X (c' ++ Y)) by exact Ha.
  set (i := Z.of_nat (length A + length X)).
  destruct (Z.ltb_spec (-1) i); [|lia]. cbn [andb].
  destruct (Z.leb_spec (Z.of_nat (length P + length (a :: c'))
                        - Z.of_nat (length P)) (me - (i + 1))) as [_|Hn];
    [|cbn [length] in *; lia].
  destruct (subsequence_loop
              (of_nodes (A ++ X ++ a :: c' ++ Y)) (of_nodes (P ++ a :: c' ++ Q))
              (Z.of_nat (length P + length (a :: c'))) (length c') fuel
              (i + 1) (Z.of_nat (length P) + 1) s) as (m' & l' & Hloop).
  { cbn [length]. lia. }
  { exact Hf. }
  unfold bind. rewrite Hloop.
  assert (Hall : forallb
                   (fun j => seq_js
                               (aget (of_nodes (A ++ X ++ a :: c' ++ Y)) (i + 1 + j))
                               (aget (of_nodes (P ++ a :: c' ++ Q))
                                  (Z.of_nat (length P) + 1 + j)))
                   (seqZ 0 (Z.of_nat (length c'))) = true).
  { apply forallb_forall. intros j Hj.
    apply list_elem_of_In, elem_of_seqZ in Hj.
    replace (A ++ X ++ a :: c' ++ Y) with ((A ++ X) ++ (a :: c') ++ Y)
      by list_eq.
    change (P ++ a :: c' ++ Q) with (P ++ (a :: c') ++ Q).
    replace (i + 1 + j) with (Z.of_nat (length (A ++ X)) + (1 + j))
      by (unfold i; rewrite length_app; lia).
    replace (Z.of_nat (length P) + 1 + j) with (Z.of_nat (length P) + (1 + j))
      by lia.
    rewrite !aget_inside by (cbn [length]; lia).
    unfold seq_js. apply bool_decide_eq_true_2. reflexivity. }
  rewrite Hall. reflexivity.
Qed.

(** A loop of insertions before one target: the node that follows the
    part [A] of the child list, or [null] at its end. *)
Lemma insert_at_loop (nl w rest : list Node) :
  forall (fuel : nat) (a b A : list Node) (s : store),
    nl = a ++ rest ++ b ->
    Dom.children (parent s) = A ++ w ->
    NoDup (A ++ rest ++ w) ->
    (length rest <= fuel)%nat ->
    exists d',
      for_ fuel (Z.of_nat (length a)) (Z.of_nat (length a + length rest))
        (fun n => insertBefore (aget (of_nodes nl) n) (first_of w)) s
      = Ok tt (set_parent d' s)
      /\ Dom.children d' = A ++ rest ++ w
      /\ Dom.calls d'
         = Dom.calls (parent s)
           ++ ((fun n => Dom.InsertBefore n (first_of w)) <$> rest).
Proof.
  induction rest as [|r rest IH]; intros fuel a b A s Hnl Hd Hnd Hf.
  - exists (parent s). rewrite for_done by (cbn [length]; lia).
    rewrite Hd. cbn [fmap list_fmap]. rewrite app_nil_r.
    destruct s. auto.
  - destruct fuel as [|fuel]; [cbn [length] in Hf; lia|].
    destruct s as [[d k] cur ce ne st' i adv lc ln ni pn].
    cbn [parent Dom.children Dom.calls current] in *. subst d.
    assert (Hr1 : r ∉ A ++ w) by nodup Hnd.
    assert (Hr2 : r ∉ w) by nodup Hnd.
    assert (Hd1 : NoDup (A ++ w)) by nodup Hnd.
    erewrite for_step; [| cbn [length]; lia |].
    2:{ unfold insertBefore, dom. step.
        rewrite (aget_at nl a (rest ++ b) r) by first [exact Hnl | reflexivity].
        rewrite (insertBefore_at r (A ++ w) A w);
          [|apply without_absent, Hr1|assumption|assumption].
        reflexivity. }
    destruct (IH fuel (a ++ [r]) b (A ++ [r])
                {| parent := {| Dom.children := A ++ r :: w;
                                Dom.calls := k ++ [Dom.InsertBefore r (first_of w)] |};
                   current := cur; currentEnd := ce; nextEnd := ne;
                   start := st'; ins := i;
                   advancedDiff := adv; lastCurrent := lc; lastNext := ln;
                   nextIndexes := ni; prevNodes := pn |})
      as (d' & Hs' & Hc' & Hk').
    + rewrite Hnl. list_eq.
    + cbn [parent Dom.children]. list_eq.
    + revert Hnd. rewrite <- !app_assoc. cbn [app]. auto.
    + cbn [length] in Hf. lia.
    + exists d'. split; [|split].
      * unfold set_parent in Hs' |- *.
        cbn [parent current currentEnd nextEnd start ins advancedDiff
             lastCurrent lastNext nextIndexes prevNodes] in Hs' |- *.
        rewrite <- Hs'. f_equal; len_eq.
      * rewrite Hc'. list_eq.
      * rewrite Hk'. cbn [parent Dom.calls fmap list_fmap]. list_eq.
Qed.

(** A loop of removals of the nodes [rest] of an array that is not
    read again. *)
Lemma remove_run_loop (cur : list Node) (rest : list Node) :
  forall (fuel : nat) (a b u v : list Node) (s : store),
    cur = a ++ rest ++ b ->
    Dom.children (parent s) = u ++ rest ++ v ->
    NoDup (u ++ rest ++ v) ->
    (length rest <= fuel)%nat ->
    exists d',
      for_ fuel (Z.of_nat (length a)) (Z.of_nat (length a + length rest))
        (fun j => removeChild (aget (of_nodes cur) j)) s
      = Ok tt (set_parent d' s)
      /\ Dom.children d' = u ++ v
      /\ Dom.calls d' = Dom.calls (parent s) ++ (Dom.RemoveChild <$> rest).
Proof.
  induction rest as [|r rest IH]; intros fuel a b u v s Hcur Hd Hnd Hf.
  - exists (parent s). rewrite for_done by (cbn [length]; lia). rewrite Hd.
    cbn [fmap list_fmap]. rewrite app_nil_r. destruct s. auto.
  - destruct fuel as [|fuel]; [cbn [length] in Hf; lia|].
    destruct s as [[d k] cr ce ne st i adv lc ln ni pn].
    cbn [parent Dom.children Dom.calls current] in *. subst d.
    assert (Hr1 : r ∉ u) by nodup Hnd.
    assert (Hr2 : r ∉ rest ++ v) by nodup Hnd.
    assert (Hd1 : NoDup (u ++ rest ++ v)) by nodup Hnd.
    erewrite for_step; [| cbn [length]; lia |].
    2:{ unfold removeChild, dom. step.
        rewrite (aget_at cur a (rest ++ b) r) by first [exact Hcur | reflexivity].
        unfold Dom.removeChild, Dom.is_child. fields.
        rewrite bool_decide_eq_true_2 by set_solver.
        cbn [app]. rewrite without_middle by assumption.
        reflexivity. }
    destruct (IH fuel (a ++ [r]) b u v
                {| parent := {| Dom.children := u ++ rest ++ v;
                                Dom.calls := k ++ [Dom.RemoveChild r] |};
                   current := cr;
                   currentEnd := ce; nextEnd := ne;
                   start := st; ins := i;
                   advancedDiff := adv; lastCurrent := lc; lastNext := ln;
                   nextIndexes := ni; prevNodes := pn |})
      as (d' & Hs' & Hc' & Hk').
    + rewrite Hcur. list_eq.
    + reflexivity.
    + exact Hd1.
    + cbn [length] in Hf. lia.
    + exists d'. split; [|split].
      * unfold set_parent in Hs' |- *.
        cbn [parent current currentEnd nextEnd start ins advancedDiff
             lastCurrent lastNext nextIndexes prevNodes] in Hs' |- *.
        rewrite <- Hs'. f_equal; len_eq.
      * exact Hc'.
      * rewrite Hk'. cbn [parent Dom.calls fmap list_fmap]. list_eq.
Qed.

Lemma fastPaths_run_kept_insert (fuel : nat) (k : list Dom.op)
    (u pre n1 c' n2 suf v : list Node) (a : Node) :
  NoDup (u ++ pre ++ n1 ++ (a :: c') ++ n2 ++ suf ++ v) ->
  n2 <> [] ->
  (length n1 + length c' + length n2 <= fuel)%nat ->
  exists d',
    fastPaths fuel (of_nodes (pre ++ (n1 ++ (a :: c') ++ n2) ++ suf))
      (Z.of_nat (length pre)) (Z.of_nat (length pre + length (a :: c')))
      (Z.of_nat (length pre))
      (Z.of_nat (length pre + length (n1 ++ (a :: c') ++ n2)))
      (window k (u ++ pre ++ (a :: c') ++ suf ++ v) pre (a :: c')
         (n1 ++ (a :: c') ++ n2) suf)
    = Ok true
        (set_parent d'
           (window k (u ++ pre ++ (a :: c') ++ suf ++ v) pre (a :: c')
              (n1 ++ (a :: c') ++ n2) suf))
    /\ Dom.children d' = u ++ pre ++ n1 ++ (a :: c') ++ n2 ++ suf ++ v
    /\ Dom.calls d'
       = k ++ ((fun n => Dom.InsertBefore n (JNode a)) <$> n1)
           ++ ((fun n => Dom.InsertBefore n (first_of (suf ++ v))) <$> n2).
Proof.
  intros Hnd Hn2 Hf.
  set (nl := pre ++ (n1 ++ (a :: c') ++ n2) ++ suf).
  set (d := u ++ pre ++ (a :: c') ++ suf ++ v).
  set (w := window k d pre (a :: c') (n1 ++ (a :: c') ++ n2) suf).
  assert (Hl2 : (0 < length n2)%nat) by (destruct n2; [congruence|cbn; lia]).
  destruct (last_cons_is_Some a c') as (zc & Hzc).
  assert (Hc0 : exists c0, a :: c' = c0 ++ [zc])
    by (exists (removelast (a :: c')); apply last_snoc_inv, Hzc).
  destruct Hc0 as (c0 & Hc0).
  assert (Hidx : subsequenceIndex fuel (of_nodes nl)
                   (Z.of_nat (length pre))
                   (Z.of_nat (length pre + length (n1 ++ (a :: c') ++ n2)))
                   (current w) (Z.of_nat (length pre))
                   (Z.of_nat (length pre + length (a :: c'))) w
                 = Ok (Z.of_nat (length pre + length n1)) w).
  { replace nl with (pre ++ n1 ++ (a :: c') ++ n2 ++ suf)
      by (unfold nl; list_eq).
    unfold w at 1, window. fields.
    apply subsequenceIndex_run.
    - nodup Hnd.
    - rewrite !length_app. cbn [length]. lia.
    - lia. }
  destruct (insert_at_loop nl ((a :: c') ++ suf ++ v) n1 fuel pre
              ((a :: c') ++ n2 ++ suf) (u ++ pre) w)
    as (d1 & Hr1 & Hc1 & Hk1).
  { unfold nl. list_eq. }
  { unfold w, window. fields. unfold d. list_eq. }
  { revert Hnd. rewrite <- !app_assoc. cbn [app]. intros Hnd. nodup Hnd. }
  { lia. }
  assert (Hz : zc ∉ u ++ pre ++ n1 ++ c0).
  { revert Hnd. rewrite Hc0, <- !app_assoc. cbn [app]. intros Hnd.
    nodup Hnd. }
  destruct (insert_at_loop nl (suf ++ v) n2 fuel (pre ++ n1 ++ (a :: c'))
              suf (u ++ pre ++ n1 ++ (a :: c')) (set_parent d1 w))
    as (d2 & Hr2 & Hc2 & Hk2).
  { unfold nl. list_eq. }
  { cbn [parent set_parent]. rewrite Hc1. list_eq. }
  { revert Hnd. rewrite <- !app_assoc. cbn [app]. intros Hnd. nodup Hnd. }
  { lia. }
  exists d2. split; [|split].
  - unfold fastPaths. cbv zeta. unfold bind at 1, get at 1.
    destruct (Z.ltb_spec
                (Z.of_nat (length pre + length (a :: c')) - Z.of_nat (length pre))
                (Z.of_nat (length pre + length (n1 ++ (a :: c') ++ n2))
                 - Z.of_nat (length pre))) as [_|Hn].
    2:{ rewrite !length_app in Hn. cbn [length] in Hn. lia. }
    fold nl. unfold bind at 1. rewrite Hidx.
    destruct (Z.ltb_spec (-1) (Z.of_nat (length pre + length n1))); [|lia].
    replace (aget (current w) (Z.of_nat (length pre))) with (JNode a)
      by (symmetry; unfold w, window; fields;
          apply (aget_at _ pre (c' ++ suf) a); reflexivity).
    change (JNode a) with (first_of ((a :: c') ++ suf ++ v)) at 1.
    unfold bind at 1. rewrite Hr1.
    replace (aget (current w) (Z.of_nat (length pre + length (a :: c')) - 1))
      with (JNode zc)
      by (symmetry; unfold w, window; fields;
          apply (aget_last pre (a :: c') suf zc Hzc)).
    unfold bind at 1, nextSibling at 1, dom at 1, Dom.nextSibling.
    cbn [parent set_parent]. rewrite Hc1.
    replace (Dom.next_of zc ((u ++ pre) ++ n1 ++ (a :: c') ++ suf ++ v))
      with (first_of (suf ++ v)).
    2:{ rewrite Hc0. symmetry.
        replace ((u ++ pre) ++ n1 ++ (c0 ++ [zc]) ++ suf ++ v)
          with ((u ++ pre ++ n1 ++ c0) ++ zc :: suf ++ v) by list_eq.
        apply next_of_middle. exact Hz. }
    replace (set_parent d1 (set_parent d1 w)) with (set_parent d1 w)
      by reflexivity.
    replace (Z.of_nat (length pre + length n1)
             + (Z.of_nat (length pre + length (a :: c')) - Z.of_nat (length pre)))
      with (Z.of_nat (length (pre ++ n1 ++ (a :: c'))))
      by (rewrite !length_app; lia).
    replace (Z.of_nat (length pre + length (n1 ++ (a :: c') ++ n2)))
      with (Z.of_nat (length (pre ++ n1 ++ (a :: c')) + length n2))
      by (rewrite !length_app; lia).
    unfold bind at 1. rewrite Hr2. reflexivity.
  - rewrite Hc2. list_eq.
  - rewrite Hk2. cbn [parent set_parent]. rewrite Hk1.
    unfold w, window. fields. cbn [first_of app]. list_eq.
Qed.

(** X22. The full subsequence fast path, more next nodes. New nodes
    inserted on both sides of a run of the list that stays (between
    parts [pre] and [suf] that stay too; all nodes distinct):
    [reconcile] returns after inserting every node of the first group,
    in order, before the first node of the run, then every node of the
    second group, in order, before the node that followed the run
    ([null] at the end of the child list); the children are the new
    list in place of the old. The [current] array is left as it was. *)
Theorem reconcile_insert_around_kept_run (fuel : nat) (p : Dom.t)
    (u pre n1 c' n2 suf v : list Node) (a : Node) :
  NoDup (u ++ pre ++ n1 ++ (a :: c') ++ n2 ++ suf ++ v) ->
  n1 <> [] -> n2 <> [] ->
  Dom.children p = u ++ pre ++ (a :: c') ++ suf ++ v ->
  (length pre + length n1 + length (a :: c') + length n2 + length suf
   <= fuel)%nat ->
  exists s,
    reconcile fuel p (pre ++ (a :: c') ++ suf)
      (pre ++ (n1 ++ (a :: c') ++ n2) ++ suf) = Ok tt s
    /\ Dom.children (parent s)
       = u ++ pre ++ n1 ++ (a :: c') ++ n2 ++ suf ++ v
    /\ Dom.calls (parent s)
       = Dom.calls p ++ ((fun n => Dom.InsertBefore n (JNode a)) <$> n1)
           ++ ((fun n => Dom.InsertBefore n (first_of (suf ++ v))) <$> n2)
    /\ current s = of_nodes (pre ++ (a :: c') ++ suf).
Proof.
  intros Hnd Hn1 Hn2 Hp Hf. rewrite reconcile_resume, Hp.
  rewrite skip_prefix by lia.
  destruct n1 as [|b n1']; [congruence|].
  set (nw := (b :: n1') ++ (a :: c') ++ n2).
  destruct (last_cons_is_Some a c') as (zc & Hzc).
  assert (Hzn : exists zn, last n2 = Some zn).
  { destruct n2 as [|x n2']; [congruence|]. apply last_cons_is_Some. }
  destruct Hzn as (zn & Hzn).
  assert (Hzn' : last nw = Some zn).
  { apply last_snoc_inv in Hzn. unfold nw. rewrite Hzn.
    rewrite !app_assoc. apply last_snoc. }
  pose proof (last_elem_of _ _ Hzc) as Hzc'.
  pose proof (last_elem_of _ _ Hzn) as Hzn2.
  assert (Nab : a <> b) by nodup Hnd.
  assert (Nz : zc <> zn) by (intros ->; clear - Hnd Hzc' Hzn2; nodup_in).
  assert (Nbz : b <> zc) by (intros ->; clear - Hnd Hzc'; nodup_in).
  assert (Naz : a <> zn) by (intros ->; clear - Hnd Hzn2; nodup_in).
  rewrite (skip_suffix fuel _ (pre ++ nw ++ suf) _ _ pre (a :: c') nw suf);
    [|reflexivity|cbn [length] in Hf; lia|].
  2:{ intros s1 rest _. cbn [app head]. intros E. injection E as ->.
      congruence. }
  set (d := u ++ pre ++ (a :: c') ++ suf ++ v).
  set (w := window (Dom.calls p) d pre (a :: c') nw suf).
  assert (Hm : exists m, (fuel - length pre - length suf = S m)%nat)
    by (exists (fuel - length pre - length suf - 1)%nat; cbn [length] in Hf; lia).
  destruct Hm as (m & ->).
  pose proof (iteration_steps fuel w pre (a :: c') nw suf a b zc zn
                eq_refl eq_refl eq_refl eq_refl eq_refl eq_refl
                eq_refl eq_refl Hzc Hzn') as Hit.
  rewrite !bool_decide_eq_false_2 in Hit by assumption.
  cbn [andb] in Hit.
  destruct (fastPaths_run_kept_insert fuel (Dom.calls p) u pre (b :: n1') c' n2
              suf v a) as (d' & Hfp & Hc & Hk);
    [assumption|assumption|cbn [length] in *; lia|].
  fold nw in Hfp. fold d in Hfp. fold w in Hfp.
  assert (Hio : initial_optimization fuel (of_nodes (pre ++ nw ++ suf)) w
                = Ok true (set_parent d' w)).
  { unfold initial_optimization, bind at 1, get at 1. cbn [id].
    unfold Reconcile.nx.
    replace (aget (of_nodes (pre ++ nw ++ suf)) (start w)) with (JNode b)
      by (symmetry; apply (aget_first pre nw suf b); reflexivity).
    replace (aget (current w) (currentEnd w - 1)) with (JNode zc)
      by (symmetry; apply (aget_last pre (a :: c') suf zc Hzc)).
    replace (aget (current w) (start w)) with (JNode a)
      by (symmetry; apply (aget_at _ pre (c' ++ suf) a); reflexivity).
    replace (aget (of_nodes (pre ++ nw ++ suf)) (nextEnd w - 1))
      with (JNode zn)
      by (symmetry; apply (aget_last pre nw suf zn Hzn')).
    rewrite !seq_js_nodes, !bool_decide_eq_false_2 by assumption.
    unfold bind at 1.
    change (start w) with (Z.of_nat (length pre)).
    change (currentEnd w) with (Z.of_nat (length pre + length (a :: c'))).
    change (nextEnd w) with (Z.of_nat (length pre + length nw)).
    rewrite Hfp. reflexivity. }
  rewrite Hio in Hit.
  rewrite (resume_return fuel m _ w (set_parent d' w));
    [|unfold w; rewrite window_loops; reflexivity|exact Hit].
  eexists. split; [reflexivity|].
  split; [exact Hc|]. split; [exact Hk|]. reflexivity.
Qed.

Lemma reconcile_insert_around_kept_run_witness :
  exists s,
    reconcile 7 {| Dom.children := [9; 0; 1; 2; 3; 8]%nat; Dom.calls := [] |}
      [0; 1; 2; 3]%nat [0; 5; 1; 2; 6; 7; 3]%nat = Ok tt s
    /\ Dom.children (parent s) = [9; 0; 5; 1; 2; 6; 7; 3; 8]%nat
    /\ Dom.calls (parent s)
       = [Dom.InsertBefore 5%nat (JNode 1%nat);
          Dom.InsertBefore 6%nat (JNode 3%nat);
          Dom.InsertBefore 7%nat (JNode 3%nat)]
    /\ current s = of_nodes [0; 1; 2; 3]%nat.
Proof.
  apply (reconcile_insert_around_kept_run 7
           {| Dom.children := [9; 0; 1; 2; 3; 8]%nat; Dom.calls := [] |}
           [9%nat] [0%nat] [5%nat] [2%nat] [6; 7]%nat [3%nat] [8%nat] 1%nat).
  - apply (bool_decide_unpack _). vm_compute. exact I.
  - discriminate.
  - discriminate.
  - reflexivity.
  - cbn [length]. lia.
Defined.

Lemma fastPaths_run_kept_remove (fuel : nat) (k : list Dom.op)
    (u pre r1 k' r2 suf v : list Node) (a : Node) :
  NoDup (u ++ pre ++ r1 ++ (a :: k') ++ r2 ++ suf ++ v) ->
  r2 <> [] ->
  (length r1 + length k' + length r2 <= fuel)%nat ->
  exists d',
    fastPaths fuel (of_nodes (pre ++ (a :: k') ++ suf))
      (Z.of_nat (length pre))
      (Z.of_nat (length pre + length (r1 ++ (a :: k') ++ r2)))
      (Z.of_nat (length pre)) (Z.of_nat (length pre + length (a :: k')))
      (window k (u ++ pre ++ (r1 ++ (a :: k') ++ r2) ++ suf ++ v) pre
         (r1 ++ (a :: k') ++ r2) (a :: k') suf)
    = Ok true
        (set_parent d'
           (window k (u ++ pre ++ (r1 ++ (a :: k') ++ r2) ++ suf ++ v) pre
              (r1 ++ (a :: k') ++ r2) (a :: k') suf))
    /\ Dom.children d' = u ++ pre ++ (a :: k') ++ suf ++ v
    /\ Dom.calls d'
       = k ++ (Dom.RemoveChild <$> r1) ++ (Dom.RemoveChild <$> r2).
Proof.
  intros Hnd Hr2 Hf.
  set (c := r1 ++ (a :: k') ++ r2).
  set (d := u ++ pre ++ c ++ suf ++ v).
  set (w := window k d pre c (a :: k') suf).
  set (cl := pre ++ c ++ suf).
  assert (Hl2 : (0 < length r2)%nat) by (destruct r2; [congruence|cbn; lia]).
  assert (Hcur : current w = of_nodes cl) by reflexivity.
  assert (Hidx : subsequenceIndex fuel (current w)
                   (Z.of_nat (length pre)) (Z.of_nat (length pre + length c))
                   (of_nodes (pre ++ (a :: k') ++ suf)) (Z.of_nat (length pre))
                   (Z.of_nat (length pre + length (a :: k'))) w
                 = Ok (Z.of_nat (length pre + length r1)) w).
  { rewrite Hcur.
    replace cl with (pre ++ r1 ++ (a :: k') ++ r2 ++ suf)
      by (unfold cl, c; list_eq).
    apply subsequenceIndex_run.
    - nodup Hnd.
    - unfold c. rewrite !length_app. cbn [length]. lia.
    - lia. }
  destruct (remove_run_loop cl r1 fuel pre ((a :: k') ++ r2 ++ suf) (u ++ pre)
              ((a :: k') ++ r2 ++ suf ++ v) w) as (d1 & Hr1' & Hc1 & Hk1).
  { unfold cl, c. list_eq. }
  { unfold w, window. fields. unfold d, c. list_eq. }
  { revert Hnd. rewrite <- !app_assoc. cbn [app]. intros Hnd. nodup Hnd. }
  { lia. }
  destruct (remove_run_loop cl r2 fuel (pre ++ r1 ++ (a :: k')) suf
              (u ++ pre ++ (a :: k')) (suf ++ v) (set_parent d1 w))
    as (d2 & Hr2' & Hc2 & Hk2).
  { unfold cl, c. list_eq. }
  { cbn [parent set_parent]. rewrite Hc1. list_eq. }
  { revert Hnd. rewrite <- !app_assoc. cbn [app]. intros Hnd. nodup Hnd. }
  { lia. }
  exists d2. split; [|split].
  - unfold fastPaths. cbv zeta. unfold bind at 1, get at 1.
    destruct (Z.ltb_spec
                (Z.of_nat (length pre + length c) - Z.of_nat (length pre))
                (Z.of_nat (length pre + length (a :: k'))
                 - Z.of_nat (length pre))) as [Hn|_].
    { unfold c in Hn. rewrite !length_app in Hn. cbn [length] in Hn. lia. }
    destruct (Z.ltb_spec
                (Z.of_nat (length pre + length (a :: k')) - Z.of_nat (length pre))
                (Z.of_nat (length pre + length c) - Z.of_nat (length pre)))
      as [_|Hn].
    2:{ unfold c in Hn. rewrite !length_app in Hn. cbn [length] in Hn. lia. }
    unfold bind at 1. rewrite Hidx.
    destruct (Z.ltb_spec (-1) (Z.of_nat (length pre + length r1))); [|lia].
    rewrite Hcur.
    unfold bind at 1. rewrite Hr1'.
    replace (Z.of_nat (length pre + length r1)
             + (Z.of_nat (length pre + length (a :: k')) - Z.of_nat (length pre)))
      with (Z.of_nat (length (pre ++ r1 ++ (a :: k'))))
      by (rewrite !length_app; lia).
    replace (Z.of_nat (length pre + length c))
      with (Z.of_nat (length (pre ++ r1 ++ (a :: k')) + length r2))
      by (unfold c; rewrite !length_app; lia).
    unfold bind at 1. rewrite Hr2'. reflexivity.
  - rewrite Hc2. list_eq.
  - rewrite Hk2. cbn [parent set_parent]. rewrite Hk1.
    unfold w, window. fields. list_eq.
Qed.

(** X23. The full subsequence fast path, more current nodes. Nodes
    removed on both sides of a run of the list that stays (between
    parts [pre] and [suf] that stay too; all nodes distinct):
    [reconcile] returns after removing every node of the first group,
    in order, then every node of the second, and makes no other call;
    the children are the new list in place of the old. The [current]
    array is left as it was. *)
Theorem reconcile_remove_around_kept_run (fuel : nat) (p : Dom.t)
    (u pre r1 k' r2 suf v : list Node) (a : Node) :
  NoDup (u ++ pre ++ r1 ++ (a :: k') ++ r2 ++ suf ++ v) ->
  r1 <> [] -> r2 <> [] ->
  Dom.children p = u ++ pre ++ (r1 ++ (a :: k') ++ r2) ++ suf ++ v ->
  (length pre + length r1 + length (a :: k') + length r2 + length suf
   <= fuel)%nat ->
  exists s,
    reconcile fuel p (pre ++ (r1 ++ (a :: k') ++ r2) ++ suf)
      (pre ++ (a :: k') ++ suf) = Ok tt s
    /\ Dom.children (parent s) = u ++ pre ++ (a :: k') ++ suf ++ v
    /\ Dom.calls (parent s)
       = Dom.calls p ++ (Dom.RemoveChild <$> r1) ++ (Dom.RemoveChild <$> r2)
    /\ current s = of_nodes (pre ++ (r1 ++ (a :: k') ++ r2) ++ suf).
Proof.
  intros Hnd Hr1 Hr2 Hp Hf. rewrite reconcile_resume, Hp.
  rewrite skip_prefix by lia.
  destruct r1 as [|b r1']; [congruence|].
  set (c := (b :: r1') ++ (a :: k') ++ r2).
  destruct (last_cons_is_Some a k') as (zn & Hzn).
  assert (Hzc : exists zc, last r2 = Some zc).
  { destruct r2 as [|x r2']; [congruence|]. apply last_cons_is_Some. }
  destruct Hzc as (zc & Hzc).
  assert (Hzc' : last c = Some zc).
  { apply last_snoc_inv in Hzc. unfold c. rewrite Hzc.
    rewrite !app_assoc. apply last_snoc. }
  pose proof (last_elem_of _ _ Hzn) as Hzn2.
  pose proof (last_elem_of _ _ Hzc) as Hzc2.
  assert (Nab : b <> a) by nodup Hnd.
  assert (Nz : zc <> zn) by (intros ->; clear - Hnd Hzc2 Hzn2; nodup_in).
  assert (Nbz : b <> zn) by (intros ->; clear - Hnd Hzn2; nodup_in).
  assert (Naz : a <> zc) by (intros ->; clear - Hnd Hzc2; nodup_in).
  rewrite (skip_suffix fuel _ (pre ++ (a :: k') ++ suf) _ _ pre c (a :: k') suf);
    [|reflexivity|cbn [length] in Hf; lia|].
  2:{ intros s1 rest _. cbn [app head]. intros E. injection E as ->.
      congruence. }
  set (d := u ++ pre ++ c ++ suf ++ v).
  set (w := window (Dom.calls p) d pre c (a :: k') suf).
  assert (Hm : exists m, (fuel - length pre - length suf = S m)%nat)
    by (exists (fuel - length pre - length suf - 1)%nat; cbn [length] in Hf; lia).
  destruct Hm as (m & ->).
  pose proof (iteration_steps fuel w pre c (a :: k') suf b a zc zn
                eq_refl eq_refl eq_refl eq_refl eq_refl eq_refl
                eq_refl eq_refl Hzc' Hzn) as Hit.
  rewrite !bool_decide_eq_false_2 in Hit by assumption.
  cbn [andb] in Hit.
  destruct (fastPaths_run_kept_remove fuel (Dom.calls p) u pre (b :: r1') k' r2
              suf v a) as (d' & Hfp & Hc & Hk);
    [assumption|assumption|cbn [length] in *; lia|].
  fold c in Hfp. fold d in Hfp. fold w in Hfp.
  assert (Hio : initial_optimization fuel (of_nodes (pre ++ (a :: k') ++ suf)) w
                = Ok true (set_parent d' w)).
  { unfold initial_optimization, bind at 1, get at 1. cbn [id].
    unfold Reconcile.nx.
    replace (aget (of_nodes (pre ++ (a :: k') ++ suf)) (start w)) with (JNode a)
      by (symmetry; apply (aget_at _ pre (k' ++ suf) a); reflexivity).
    replace (aget (current w) (currentEnd w - 1)) with (JNode zc)
      by (symmetry; apply (aget_last pre c suf zc Hzc')).
    replace (aget (current w) (start w)) with (JNode b)
      by (symmetry; apply (aget_first pre c suf b); reflexivity).
    replace (aget (of_nodes (pre ++ (a :: k') ++ suf)) (nextEnd w - 1))
      with (JNode zn)
      by (symmetry; apply (aget_last pre (a :: k') suf zn Hzn)).
    rewrite !seq_js_nodes, !bool_decide_eq_false_2 by assumption.
    unfold bind at 1.
    change (start w) with (Z.of_nat (length pre)).
    change (currentEnd w) with (Z.of_nat (length pre + length c)).
    change (nextEnd w) with (Z.of_nat (length pre + length (a :: k'))).
    rewrite Hfp. reflexivity. }
  rewrite Hio in Hit.
  rewrite (resume_return fuel m _ w (set_parent d' w));
    [|unfold w; rewrite window_loops; reflexivity|exact Hit].
  eexists. split; [reflexivity|].
  split; [exact Hc|]. split; [exact Hk|]. reflexivity.
Qed.

Lemma reconcile_remove_around_kept_run_witness :
  exists s,
    reconcile 7
      {| Dom.children := [9; 0; 5; 1; 2; 6; 7; 3; 8]%nat; Dom.calls := [] |}
      [0; 5; 1; 2; 6; 7; 3]%nat [0; 1; 2; 3]%nat = Ok tt s
    /\ Dom.children (parent s) = [9; 0; 1; 2; 3; 8]%nat
    /\ Dom.calls (parent s)
       = [Dom.RemoveChild 5%nat; Dom.RemoveChild 6%nat; Dom.RemoveChild 7%nat]
    /\ current s = of_nodes [0; 5; 1; 2; 6; 7; 3]%nat.
Proof.
  apply (reconcile_remove_around_kept_run 7
           {| Dom.children := [9; 0; 5; 1; 2; 6; 7; 3; 8]%nat; Dom.calls := [] |}
           [9%nat] [0%nat] [5%nat] [2%nat] [6; 7]%nat [3%nat] [8%nat] 1%nat).
  - apply (bool_decide_unpack _). vm_compute. exact I.
  - discriminate.
  - discriminate.
  - reflexivity.
  - cbn [length]. lia.
Defined.

End ReconcileCalls.


(* ===================================================================== *)
(** * [reconcile]: the initial optimisation as a whole                    *)
(* ===================================================================== *)

Module InitialFacts.
Import JsArray Reconcile ReconcileSpec ReconcileFacts ReconcileCalls InitialSpec.

#[local] Set Warnings "-clear-no-such-hyp".

(** ** Steps 1 to 5, up to where they stop *)

Lemma to_stop (fuel : nat) (nl : list Node) (len : nat) :
  forall (n m : nat) (k : list Dom.op) (d pre c nw suf : list Node)
         (anchored : bool),
    nl = pre ++ nw ++ suf ->
    d = pre ++ c ++ suf ->
    len = length d ->
    (anchored = true <-> pre <> []) ->
    NoDup d -> NoDup nl ->
    (length c + length nw < n)%nat ->
    (length c + length nw <= m)%nat ->
    (length c + length nw <= fuel)%nat ->
    exists (m' : nat) (k' : list Dom.op) (d' pre' c' nw' suf' : list Node)
           (a' : bool),
      resume fuel (of_nodes nl) m (window k d pre c nw suf)
      = resume fuel (of_nodes nl) m' (window k' d' pre' c' nw' suf')
      /\ stops n anchored c nw = (a', c', nw')
      /\ nl = pre' ++ nw' ++ suf'
      /\ (exists u v, d' = u ++ c' ++ v /\ u ++ v = pre' ++ suf'
                       /\ (nw' <> [] -> u = pre' /\ v = suf'))
      /\ len = length d'
      /\ (a' = true <-> pre' <> [])
      /\ NoDup d'
      /\ (length c' + length nw' <= m')%nat
      /\ (length c' + length nw' <= fuel)%nat
      /\ match c', nw' with
         | x :: _, y :: _ =>
             exists zc zn,
               last c' = Some zc /\ last nw' = Some zn
               /\ x <> y /\ zc <> zn /\ y <> zc /\ x <> zn
         | _, _ => True
         end.
Proof.
  induction n as [|n IH];
    intros m k d pre c nw suf anchored Hnl Hd Hlen Ha Hndd Hndn Hn Hm Hf;
    [lia|].
  assert (Hstay : forall a c0 nw0,
             stops (S n) anchored c nw = (a, c0, nw0) ->
             a = anchored -> c0 = c -> nw0 = nw ->
             match c, nw with
             | x :: _, y :: _ =>
                 exists zc zn,
                   last c = Some zc /\ last nw = Some zn
                   /\ x <> y /\ zc <> zn /\ y <> zc /\ x <> zn
             | _, _ => True
             end ->
             exists (m' : nat) (k' : list Dom.op) (d' pre' c' nw' suf' : list Node)
                    (a' : bool),
               resume fuel (of_nodes nl) m (window k d pre c nw suf)
               = resume fuel (of_nodes nl) m' (window k' d' pre' c' nw' suf')
               /\ stops (S n) anchored c nw = (a', c', nw')
               /\ nl = pre' ++ nw' ++ suf'
               /\ (exists u v, d' = u ++ c' ++ v /\ u ++ v = pre' ++ suf'
                                /\ (nw' <> [] -> u = pre' /\ v = suf'))
               /\ len = length d'
               /\ (a' = true <-> pre' <> [])
               /\ NoDup d'
               /\ (length c' + length nw' <= m')%nat
               /\ (length c' + length nw' <= fuel)%nat
               /\ match c', nw' with
                  | x :: _, y :: _ =>
                      exists zc zn,
                        last c' = Some zc /\ last nw' = Some zn
                        /\ x <> y /\ zc <> zn /\ y <> zc /\ x <> zn
                  | _, _ => True
                  end).
  { intros a c0 nw0 Hs -> -> -> Hst.
    exists m, k, d, pre, c, nw, suf, anchored.
    repeat (split; [first [reflexivity | assumption | tauto
                          | exists pre, suf; auto]|]).
    exact Hst. }
  destruct c as [|x c'], nw as [|y nw'].
  1-3: apply (Hstay anchored _ _ eq_refl eq_refl eq_refl eq_refl I).
  clear Hstay.
  destruct m as [|m]; [cbn [length] in Hm; lia|].
  destruct (last_cons_is_Some x c') as (zc & Hzc).
  destruct (last_cons_is_Some y nw') as (zn & Hzn).
  remember (stops (S n) anchored (x :: c') (y :: nw')) as res eqn:Hs.
  cbn [stops] in Hs. rewrite Hzc, Hzn in Hs.
  assert (Hloop : (start (window k d pre (x :: c') (y :: nw') suf)
                   <? currentEnd (window k d pre (x :: c') (y :: nw') suf))
                  && (start (window k d pre (x :: c') (y :: nw') suf)
                      <? nextEnd (window k d pre (x :: c') (y :: nw') suf))
                  = true) by (rewrite window_loops; reflexivity).
  pose proof (iteration_steps fuel (window k d pre (x :: c') (y :: nw') suf)
                pre (x :: c') (y :: nw') suf x y zc zn
                eq_refl eq_refl eq_refl eq_refl eq_refl eq_refl
                eq_refl eq_refl Hzc Hzn) as Hit.
  rewrite <- Hnl in Hit.
  destruct (decide (x = y)) as [Exy|Nxy].
  { (* 1. common prefix *)
    subst y. rewrite bool_decide_eq_true_2 in Hs, Hit by reflexivity.
    rewrite (resume_next _ _ _ _ _ Hloop Hit).
    replace (set_start _ _) with (window k d (pre ++ [x]) c' nw' suf)
      by store_eq.
    rewrite Hs.
    apply (IH m k d (pre ++ [x]) c' nw' suf true);
      [rewrite Hnl; list_eq|rewrite Hd; list_eq|assumption
      |split; [intros _; destruct pre; discriminate|reflexivity]
      |assumption|assumption
      |cbn [length] in *; lia|cbn [length] in *; lia|cbn [length] in *; lia]. }
  rewrite bool_decide_eq_false_2 in Hs, Hit by assumption.
  destruct (decide (zc = zn)) as [Ez|Nz].
  { (* 2. common suffix *)
    subst zn.
    rewrite bool_decide_eq_true_2 in Hs, Hit by reflexivity.
    rewrite (resume_next _ _ _ _ _ Hloop Hit).
    pose proof (last_snoc_inv _ _ Hzc) as E1.
    pose proof (last_snoc_inv _ _ Hzn) as E2.
    remember (removelast (x :: c')) as ci eqn:Eci.
    remember (removelast (y :: nw')) as ni eqn:Eni.
    clear Eci Eni Hit Hloop Hzc Hzn.
    rewrite E1, E2 in *.
    replace (set_nextEnd _ _) with (window k d pre ci ni (zc :: suf))
      by store_eq.
    rewrite Hs.
    apply (IH m k d pre ci ni (zc :: suf) anchored);
      [rewrite Hnl; list_eq|rewrite Hd; list_eq|assumption
      |assumption|assumption|assumption
      |len_hyps|len_hyps|len_hyps]. }
  rewrite (bool_decide_eq_false_2 (Some zc = Some zn)) in Hs by congruence.
  rewrite (bool_decide_eq_false_2 (zc = zn)) in Hit by assumption.
  destruct (decide (x = zn)) as [Exz|Nxz], (decide (y = zc)) as [Eyz|Nyz].
  + (* 3. swap of the ends *)
    subst zn zc.
    rewrite !bool_decide_eq_true_2 in Hs, Hit by reflexivity.
    cbn [andb] in Hs, Hit.
    destruct (last_cons_ne _ _ _ Hzc Nxy) as (cm & ->).
    destruct (last_cons_ne _ _ _ Hzn (not_eq_sym Nxy)) as (nm & ->).
    rewrite !removelast_last in Hs.
    destruct (swap_step k pre cm nm suf x y) as (k' & Hsw);
      [rewrite <- Hd; assumption|].
    rewrite <- Hnl, <- Hd in Hsw. rewrite Hsw in Hit.
    rewrite (resume_next _ _ _ _ _ Hloop Hit).
    rewrite Hs.
    destruct nm as [|n1 nm'].
    * exists m, k', (pre ++ y :: x :: cm ++ suf), (pre ++ [y]), cm, [],
        (x :: suf), true.
      split; [reflexivity|].
      split; [destruct n, cm; reflexivity|].
      split; [rewrite Hnl; list_eq|].
      split.
      { exists (pre ++ [y; x]), suf.
        split; [list_eq|]. split; [list_eq|]. congruence. }
      split; [rewrite Hlen, Hd; len_eq|].
      split; [split; [intros _; destruct pre; discriminate|reflexivity]|].
      split; [rewrite Hd in Hndd; nodup Hndd|].
      split; [len_hyps|]. split; [len_hyps|].
      destruct cm; exact I.
    * apply (IH m k' (pre ++ y :: cm ++ x :: suf) (pre ++ [y]) cm (n1 :: nm')
               (x :: suf) true);
        [rewrite Hnl; list_eq|list_eq|rewrite Hlen, Hd; len_eq
        |split; [intros _; destruct pre; discriminate|reflexivity]
        |rewrite Hd in Hndd; nodup Hndd|assumption
        |len_hyps|len_hyps|len_hyps].
  + (* 5. left to right move *)
    subst zn.
    rewrite (bool_decide_eq_true_2 (Some x = Some x)) in Hs by reflexivity.
    rewrite (bool_decide_eq_false_2 (Some y = Some zc)) in Hs by congruence.
    rewrite (bool_decide_eq_false_2 (y = zc)) in Hit by assumption.
    rewrite andb_false_r in Hit. cbn [andb] in Hs.
    pose proof (last_snoc_inv _ _ Hzn) as E2.
    remember (removelast (y :: nw')) as ni eqn:Eni.
    assert (Hy : head (ni ++ [x]) = Some y) by (rewrite <- E2; reflexivity).
    clear Eni Hzn. rewrite E2 in *.
    destruct (ltr_step fuel k pre c' ni suf x y zc) as (k' & Hlr);
      [rewrite <- Hd; assumption|assumption|assumption|assumption
      |congruence|].
    rewrite <- Hnl, <- Hd in Hlr. rewrite Hlr in Hit.
    rewrite (resume_next _ _ _ _ _ Hloop Hit).
    rewrite Hs.
    apply (IH m k' (pre ++ c' ++ x :: suf) pre c' ni (x :: suf) anchored);
      [rewrite Hnl; list_eq|list_eq|rewrite Hlen, Hd; len_eq
      |assumption|rewrite Hd in Hndd; nodup Hndd|assumption
      |len_hyps|len_hyps|len_hyps].
  + (* 4. right to left move *)
    subst zc.
    rewrite (bool_decide_eq_false_2 (Some x = Some zn)) in Hs by congruence.
    rewrite (bool_decide_eq_true_2 (Some y = Some y)) in Hs by reflexivity.
    rewrite (bool_decide_eq_false_2 (x = zn)) in Hit by assumption.
    cbn [andb] in Hs, Hit.
    destruct (last_cons_ne _ _ _ Hzc Nxy) as (cm & ->).
    change (x :: cm ++ [y]) with ((x :: cm) ++ [y]) in Hs.
    rewrite removelast_last in Hs.
    destruct (rtl_step fuel k pre cm nw' suf x y) as (k' & Hrl);
      [rewrite <- Hd; assumption|].
    rewrite <- Hnl, <- Hd in Hrl. rewrite Hrl in Hit.
    rewrite (resume_next _ _ _ _ _ Hloop Hit).
    rewrite Hs.
    apply (IH m k' (pre ++ y :: x :: cm ++ suf) (pre ++ [y]) (x :: cm) nw'
             suf true);
      [rewrite Hnl; list_eq|list_eq|rewrite Hlen, Hd; len_eq
      |split; [intros _; destruct pre; discriminate|reflexivity]
      |rewrite Hd in Hndd; nodup Hndd|assumption
      |len_hyps|len_hyps|len_hyps].
  + (* none of the five steps applies *)
    rewrite (bool_decide_eq_false_2 (Some x = Some zn)) in Hs by congruence.
    rewrite (bool_decide_eq_false_2 (Some y = Some zc)) in Hs by congruence.
    cbn [andb] in Hs.
    exists (S m), k, d, pre, (x :: c'), (y :: nw'), suf, anchored.
    repeat (split; [first [reflexivity | assumption | tauto
                          | exists pre, suf; auto]|]).
    exists zc, zn. repeat split; assumption.
Qed.

(** ** Where the steps stop *)

Lemma position_None (x : Node) (l : list Node) :
  position x l = None -> x ∉ l.
Proof.
  induction l as [|y l IH]; cbn [position]; [intros _; apply not_elem_of_nil|].
  destruct (bool_decide_reflect (y = x)) as [->|Hne]; [discriminate|].
  destruct (position x l); [discriminate|]. intros _.
  apply not_elem_of_cons. split; [congruence|]. apply IH. reflexivity.
Qed.

(** A run of [more] with a node behind it. *)
Lemma run_split (less more : list Node) (i : nat) :
  take (length less) (drop i more) = less ->
  (i + length less < length more)%nat ->
  exists n1 n2, more = n1 ++ less ++ n2 /\ n2 <> [].
Proof.
  intros Ht Hl. exists (take i more), (drop (length less) (drop i more)).
  split.
  - transitivity (take i more ++ drop i more); [symmetry; apply take_drop|].
    f_equal. rewrite <- (take_drop (length less) (drop i more)) at 1.
    rewrite Ht. reflexivity.
  - intros E. apply (f_equal length) in E.
    rewrite !length_drop in E. cbn [length] in E. lia.
Qed.

Lemma run_at_cases (less more : list Node) :
  run_at less more = true ->
  exists a l',
    less = a :: l'
    /\ ((exists n1 n2, more = n1 ++ less ++ n2 /\ n2 <> [])
        \/ (l' = [] /\ a ∉ more)).
Proof.
  unfold run_at. destruct less as [|a l']; [discriminate|].
  intros H. exists a, l'. split; [reflexivity|].
  destruct (position a more) as [i|] eqn:Hp.
  - left. apply andb_true_iff in H as [H1 H2].
    apply bool_decide_eq_true in H1. apply bool_decide_eq_true in H2.
    apply (run_split _ _ i); assumption.
  - right. apply bool_decide_eq_true in H. split.
    + destruct l'; [reflexivity|discriminate].
    + apply position_None, Hp.
Qed.

(** The final insertion with no node of [current] before it reads
    [current[-1].nextSibling]. *)
Lemma front_insertion (fuel m : nat) (k : list Dom.op) (d nw suf : list Node)
    (y : Node) :
  exists s,
    resume fuel (of_nodes ([] ++ (y :: nw) ++ suf)) m
      (window k d [] [] (y :: nw) suf)
    = Throw (Exception Dom.TypeError) s.
Proof.
  rewrite resume_exit by (rewrite window_loops; reflexivity).
  unfold final_optimization, bind at 1, get. cbn [id].
  unfold window at 1 2 3. fields. cbn [length Nat.add].
  change (Z.of_nat 0 =? Z.of_nat 0) with true. cbn match.
  destruct (Z.eqb_spec (Z.of_nat 0) (Z.of_nat (S (length nw)))) as [E|_];
    [lia|].
  unfold window. fields.
  eexists. unfold bind, nextSibling, dom. fields.
  rewrite aget_before by (cbn; lia). reflexivity.
Qed.

(** No step applies and a fast path does. *)
Lemma fast_path_returns (fuel m : nat) (k : list Dom.op)
    (d pre c nw suf : list Node) (x y zc zn : Node) (dd : Dom.t) :
  head c = Some x -> head nw = Some y ->
  last c = Some zc -> last nw = Some zn ->
  x <> y -> zc <> zn -> y <> zc -> x <> zn ->
  fastPaths fuel (of_nodes (pre ++ nw ++ suf))
    (Z.of_nat (length pre)) (Z.of_nat (length pre + length c))
    (Z.of_nat (length pre)) (Z.of_nat (length pre + length nw))
    (window k d pre c nw suf)
  = Ok true (set_parent dd (window k d pre c nw suf)) ->
  resume fuel (of_nodes (pre ++ nw ++ suf)) (S m) (window k d pre c nw suf)
  = Ok tt (set_parent dd (window k d pre c nw suf)).
Proof.
  intros Hx Hy Hzc Hzn Nxy Nz Nyz Nxz Hfp.
  set (w := window k d pre c nw suf) in *.
  pose proof (iteration_steps fuel w pre c nw suf x y zc zn
                eq_refl eq_refl eq_refl eq_refl eq_refl eq_refl
                Hx Hy Hzc Hzn) as Hit.
  rewrite !bool_decide_eq_false_2 in Hit by assumption.
  cbn [andb] in Hit.
  assert (Hio : initial_optimization fuel (of_nodes (pre ++ nw ++ suf)) w
                = Ok true (set_parent dd w)).
  { unfold initial_optimization, bind at 1, get at 1. cbn [id].
    unfold Reconcile.nx.
    replace (aget (of_nodes (pre ++ nw ++ suf)) (start w)) with (JNode y)
      by (symmetry; apply (aget_first pre nw suf y Hy)).
    replace (aget (current w) (currentEnd w - 1)) with (JNode zc)
      by (symmetry; apply (aget_last pre c suf zc Hzc)).
    replace (aget (current w) (start w)) with (JNode x)
      by (symmetry; apply (aget_first pre c suf x Hx)).
    replace (aget (of_nodes (pre ++ nw ++ suf)) (nextEnd w - 1))
      with (JNode zn)
      by (symmetry; apply (aget_last pre nw suf zn Hzn)).
    rewrite !seq_js_nodes, !bool_decide_eq_false_2 by assumption.
    unfold bind at 1.
    change (start w) with (Z.of_nat (length pre)).
    change (currentEnd w) with (Z.of_nat (length pre + length c)).
    change (nextEnd w) with (Z.of_nat (length pre + length nw)).
    rewrite Hfp. reflexivity. }
  rewrite Hio in Hit.
  apply (resume_return fuel m _ w (set_parent dd w));
    [unfold w; rewrite window_loops; destruct c, nw; try discriminate;
     reflexivity|exact Hit].
Qed.

Ltac disjoint_nodes :=
  unfold Node in *;
  repeat (progress (rewrite ?NoDup_app, ?NoDup_cons, ?NoDup_nil in * ));
  set_solver.

(** The three ways a fast path applies, on the parts left between
    the cursors. *)
Lemma fast_path_applies (fuel : nat) (k : list Dom.op)
    (pre c nw suf : list Node) (x y : Node) :
  NoDup (pre ++ c ++ suf) -> NoDup (pre ++ nw ++ suf) ->
  head c = Some x -> head nw = Some y -> x <> y ->
  fast c nw = true ->
  (length c + length nw <= fuel)%nat ->
  exists dd,
    fastPaths fuel (of_nodes (pre ++ nw ++ suf))
      (Z.of_nat (length pre)) (Z.of_nat (length pre + length c))
      (Z.of_nat (length pre)) (Z.of_nat (length pre + length nw))
      (window k (pre ++ c ++ suf) pre c nw suf)
    = Ok true (set_parent dd (window k (pre ++ c ++ suf) pre c nw suf))
    /\ Dom.children dd = pre ++ nw ++ suf.
Proof.
  intros Hndc Hndn Hx Hy Nxy Hfast Hf.
  destruct c as [|x' c']; [discriminate|]. injection Hx as ->.
  destruct nw as [|y' nw']; [discriminate|]. injection Hy as ->.
  unfold fast in Hfast.
  destruct (bool_decide_reflect (length (x :: c') < length (y :: nw'))%nat)
    as [Hlt|Hge].
  - destruct (run_at_cases _ _ Hfast)
      as (a & l' & E & [(n1 & n2 & En & Hn2)|[El Ha]]);
      injection E as <- <-; try subst c'.
    + destruct (fastPaths_run_kept_insert fuel k [] pre n1 c' n2 suf [] x)
        as (dd & Hfp & Hch & _).
      * rewrite En in Hndn. cbn [app]. rewrite app_nil_r.
        rewrite <- !app_assoc in Hndn. exact Hndn.
      * exact Hn2.
      * rewrite En in Hf. clear - Hf. len_hyps.
      * cbn [app] in Hfp, Hch, En. rewrite !app_nil_r in Hfp, Hch.
        rewrite <- En in Hfp. exists dd. split; [exact Hfp|].
        rewrite Hch, En. list_eq.
    + destruct (fastPaths_one_to_many fuel k [] pre [] (y :: nw') suf [] x)
        as (dd & Hfp & Hch & _).
      * cbn [app]. rewrite app_nil_r. clear - Hndc Hndn Ha. disjoint_nodes.
      * discriminate.
      * left. reflexivity.
      * exact Hf.
      * cbn [app] in Hfp, Hch. rewrite !app_nil_r in Hfp, Hch.
        exists dd. split; [exact Hfp|]. rewrite Hch. list_eq.
  - destruct (bool_decide_reflect (length (y :: nw') < length (x :: c'))%nat)
      as [Hlt|Hge'].
    + destruct (run_at_cases _ _ Hfast)
        as (a & l' & E & [(r1 & r2 & Ec & Hr2)|[El Ha]]);
        injection E as <- <-; try subst nw'.
      * destruct (fastPaths_run_kept_remove fuel k [] pre r1 nw' r2 suf [] y)
          as (dd & Hfp & Hch & _).
        -- rewrite Ec in Hndc. cbn [app]. rewrite app_nil_r.
           rewrite <- !app_assoc in Hndc. exact Hndc.
        -- exact Hr2.
        -- rewrite Ec in Hf. clear - Hf. len_hyps.
        -- cbn [app] in Hfp, Hch, Ec. rewrite !app_nil_r in Hfp, Hch.
           rewrite <- Ec in Hfp. exists dd. split; [exact Hfp|].
           rewrite Hch. list_eq.
      * destruct (fastPaths_one_to_many fuel k [] pre c' [y] suf [] x)
          as (dd & Hfp & Hch & _).
        -- cbn [app]. rewrite app_nil_r. clear - Hndc Hndn Ha. disjoint_nodes.
        -- discriminate.
        -- right. reflexivity.
        -- exact Hf.
        -- cbn [app] in Hfp, Hch. rewrite !app_nil_r in Hfp, Hch.
           exists dd. split; [exact Hfp|]. rewrite Hch. list_eq.
    + apply bool_decide_eq_true in Hfast.
      assert (c' = []) as -> by (destruct c'; [reflexivity|discriminate]).
      assert (nw' = []) as ->
        by (destruct nw'; [reflexivity|cbn [length] in *; lia]).
      destruct (fastPaths_one_to_many fuel k [] pre [] [y] suf [] x)
        as (dd & Hfp & Hch & _).
      * cbn [app]. rewrite app_nil_r. clear - Hndc Hndn Nxy. disjoint_nodes.
      * discriminate.
      * left. reflexivity.
      * exact Hf.
      * cbn [app] in Hfp, Hch. rewrite !app_nil_r in Hfp, Hch.
        exists dd. split; [exact Hfp|]. rewrite Hch. list_eq.
Qed.

(** ** The initial optimisation as a whole *)

Lemma initial_result (fuel : nat) (p : Dom.t) (cur next : list Node) :
  NoDup cur -> NoDup next ->
  Dom.children p = cur ->
  finishes cur next = true ->
  (length cur + length next <= fuel)%nat ->
  (inserts_at_front cur next = false
   /\ exists s,
        reconcile fuel p cur next = Ok tt s
        /\ Dom.children (parent s) = next
        /\ length (current s) = length cur
        /\ stale_window next (current s))
  \/ (inserts_at_front cur next = true
      /\ exists s,
           reconcile fuel p cur next = Throw (Exception Dom.TypeError) s).
Proof.
  intros Hc Hn Hp Hfin Hf.
  rewrite reconcile_resume, Hp.
  destruct (to_stop fuel next (length cur) (S (length cur + length next)) fuel
              (Dom.calls p) cur [] cur next [] false)
    as (m' & k' & d' & pre' & c' & nw' & suf' & a' & Hres & Hst & Hnl
        & (u & v & Hd & Huv & Hpv) & Hlen & Ha & Hnd & Hm & Hfl & Hstop).
  { rewrite app_nil_r. reflexivity. }
  { rewrite app_nil_r. reflexivity. }
  { reflexivity. }
  { split; [discriminate|congruence]. }
  { exact Hc. }
  { exact Hn. }
  { lia. }
  { exact Hf. }
  { exact Hf. }
  rewrite Hres. clear Hres.
  unfold finishes, inserts_at_front, stop_of in *. rewrite Hst in *.
  clear Hst.
  destruct c' as [|x c''], nw' as [|y nw''].
  - (* nothing left *)
    left. split; [reflexivity|].
    rewrite resume_exit by (rewrite window_loops; reflexivity).
    destruct (final_remove_window fuel (of_nodes next) k' d' pre' [] suf' u v)
      as (s' & Hs' & Hc' & Hcur'); [exact Hd|exact Hnd|cbn [length]; lia|].
    exists s'. split; [exact Hs'|].
    split; [rewrite Hc', Huv, Hnl; reflexivity|].
    rewrite Hcur'. split.
    + unfold of_nodes. rewrite length_fmap, Hlen, Hd. cbn [app].
      rewrite <- Huv. reflexivity.
    + exists pre', [], [], suf'. auto.
  - (* the final insertion *)
    destruct (Hpv ltac:(discriminate)) as [-> ->]. cbn [app] in Hd.
    destruct a'.
    + left. split; [reflexivity|].
      rewrite resume_exit by (rewrite window_loops; reflexivity).
      destruct (final_insert_window fuel k' pre' (y :: nw'') suf')
        as (s' & Hs' & Hc' & Hcur');
        [rewrite <- Hnl; exact Hn|apply Ha; reflexivity|discriminate
        |cbn [length] in *; lia|].
      exists s'. split; [rewrite Hd, Hnl; exact Hs'|].
      split; [rewrite Hc', Hnl; reflexivity|].
      rewrite Hcur'. split.
      * unfold of_nodes. rewrite length_fmap, Hlen, Hd. reflexivity.
      * exists pre', [], (y :: nw''), suf'. auto.
    + right. split; [reflexivity|].
      assert (pre' = []) as ->.
      { destruct pre' as [|q pre'']; [reflexivity|].
        destruct Ha as [_ Ha]. discriminate Ha. discriminate. }
      rewrite Hnl.
      apply front_insertion.
  - (* the final removal *)
    left. split; [reflexivity|].
    rewrite resume_exit by (rewrite window_loops; reflexivity).
    destruct (final_remove_window fuel (of_nodes next) k' d' pre' (x :: c'')
                suf' u v)
      as (s' & Hs' & Hc' & Hcur'); [exact Hd|exact Hnd|cbn [length] in *; lia|].
    exists s'. split; [exact Hs'|].
    split; [rewrite Hc', Huv, Hnl; reflexivity|].
    rewrite Hcur'. split.
    + unfold of_nodes. rewrite length_fmap, Hlen, Hd.
      clear - Huv. apply (f_equal length) in Huv.
      rewrite !length_app in *. lia.
    + exists pre', (x :: c''), [], suf'. auto.
  - (* a fast path *)
    destruct (Hpv ltac:(discriminate)) as [-> ->].
    destruct Hstop as (zc & zn & Hzc & Hzn & Nxy & Nz & Nyz & Nxz).
    left. split; [reflexivity|].
    destruct m' as [|m']; [cbn [length] in Hm; lia|].
    destruct (fast_path_applies fuel k' pre' (x :: c'') (y :: nw'') suf' x y)
      as (dd & Hfp & Hch);
      [rewrite <- Hd; exact Hnd|rewrite <- Hnl; exact Hn|reflexivity
      |reflexivity|exact Nxy|exact Hfin|exact Hfl|].
    exists (set_parent dd (window k' (pre' ++ (x :: c'') ++ suf') pre' (x :: c'')
                             (y :: nw'') suf')).
    split.
    { rewrite Hd, Hnl.
      apply (fast_path_returns fuel m' k' _ pre' (x :: c'') (y :: nw'') suf'
               x y zc zn dd); try assumption; reflexivity. }
    split; [cbn [parent set_parent]; rewrite Hch, Hnl; reflexivity|].
    split.
    + unfold window, set_parent. fields. unfold of_nodes.
      rewrite length_fmap, Hlen, Hd. reflexivity.
    + exists pre', (x :: c''), (y :: nw''), suf'.
      split; [exact Hnl|]. split; [reflexivity|]. auto.
Qed.



End InitialFacts.


(* ===================================================================== *)
(** * [indexArray]: the empty list, and the pool                          *)
(* ===================================================================== *)

Module IndexArrayMore.
Import Reactive IndexArray IndexArraySpec IndexArrayFacts.

Section Mapping.
Context {R : Type}.
Variable mapFn : ref -> Z -> R.
Variable fallback : option R.
Variable DEFAULT_POOL_LIMIT : Z.
Variable poolLimit_option : option Z.

Let update_ := update R mapFn fallback DEFAULT_POOL_LIMIT poolLimit_option.

(** [runAll(disposers)] on an array without holes. *)
Lemma dispose_all (ds : list ref) :
  forall (done : list ref) (c : closure R),
    disposers R c = Some <$> (done ++ ds) ->
    forI_ R (seqZ (Z.of_nat (length done)) (Z.of_nat (length ds)))
      (call_disposer R) c
    = Ok tt (emits (Disposed <$> ds) c).
Proof.
  induction ds as [|d ds IH]; intros done c Hd.
  - cbn. rewrite emits_nil. reflexivity.
  - cbn [length]. rewrite seqZ_S. cbn [forI_]. unfold bind at 1.
    assert (H1 : call_disposer R (Z.of_nat (length done)) c
                 = Ok tt (emits [Disposed d] c)).
    { unfold call_disposer, bind, look. rewrite array_get_nat, Hd.
      rewrite list_lookup_fmap, list_lookup_middle by reflexivity.
      reflexivity. }
    rewrite H1.
    replace (S (length done)) with (length (done ++ [d]))
      by (rewrite length_app; cbn; lia).
    rewrite (IH (done ++ [d])).
    + rewrite emits_emits. reflexivity.
    + cbn [emits disposers]. rewrite Hd, <- app_assoc. reflexivity.
Qed.

(** X16. The update for an empty list, without a pool, from a
    non-empty state whose disposers are all set: every disposer is
    called, in the order of the positions; the arrays are reset;
    with the fallback option one root is then created for the
    fallback, which becomes the only mapped entry. *)
Theorem indexArray_empty_list_disposes_all (c : closure R) (ds : list ref) :
  pool R c = None ->
  len R c <> 0 ->
  disposers R c = Some <$> ds ->
  exists c',
    update_ [] c = Ok (mapped R c') c'
    /\ effects R c'
       = effects R c ++ (Disposed <$> ds)
         ++ match fallback with
            | Some _ => [RootCreated (fresh_ref R c)]
            | None => []
            end
    /\ sources R c' = []
    /\ match fallback with
       | Some r =>
           items R c' = [FALLBACK] /\ mapped R c' = [Some r]
           /\ disposers R c' = [Some (fresh_ref R c)] /\ len R c' = 1
       | None =>
           items R c' = [] /\ mapped R c' = []
           /\ disposers R c' = [] /\ len R c' = 0
       end.
Proof.
  intros Hp Hl Hd.
  unfold update_, update. unfold bind at 1, look at 1. cbn [id].
  change (newLength [] =? 0) with true. cbv iota.
  assert (Hlen : (len R c =? 0) = false) by (apply Z.eqb_neq; exact Hl).
  rewrite Hlen, Hp. cbn [negb].
  unfold bind at 1. unfold bind at 1. unfold bind at 1.
  change 0 with (Z.of_nat (length (@nil ref))) at 1.
  rewrite Hd, length_fmap.
  rewrite (dispose_all ds [] c Hd).
  unfold clear, upd at 1. unfold upd at 1.
  destruct c as [its mp dsp ss ln pl fr efs]. cbn in Hp, Hd. subst pl dsp.
  destruct fallback as [r|].
  - unfold bind, upd, allocate, look. cbn.
    match goal with
    | |- exists c', Ok _ ?C = _ /\ _ => exists C
    end.
    split; [reflexivity|]. cbn.
    rewrite <- app_assoc. repeat split; reflexivity.
  - unfold bind, look, ret. cbn.
    match goal with
    | |- exists c', Ok _ ?C = _ /\ _ => exists C
    end.
    split; [reflexivity|]. cbn.
    rewrite app_nil_r. repeat split; reflexivity.
Qed.

End Mapping.

Lemma indexArray_empty_list_disposes_all_witness :
  exists c',
    example_update [] example_first = Ok (mapped Z c') c'
    /\ effects Z c'
       = effects Z example_first
         ++ (Disposed <$> [0; 2; 4]%nat) ++ []
    /\ sources Z c' = []
    /\ (items Z c' = [] /\ mapped Z c' = []
        /\ disposers Z c' = [] /\ len Z c' = 0).
Proof.
  apply (indexArray_empty_list_disposes_all example_mapFn None 100 None
           example_first [0; 2; 4]%nat).
  - reflexivity.
  - vm_compute. discriminate.
  - vm_compute. reflexivity.
Defined.

End IndexArrayMore.

Module PoolFacts.
Import Reactive IndexArray IndexArraySpec IndexArrayFacts PoolSpec.

Section Mapping.
Context {R : Type}.
Variable mapFn : ref -> Z -> R.
Variable fallback : option R.
Variable DEFAULT_POOL_LIMIT : Z.
Variable poolLimit_option : option Z.

Lemma spares_ret {A} (a : A) : spares (ret a : MI R A).
Proof.
  intros c Hc. split; [exact Hc|]. exists []. cbn. rewrite app_nil_r. auto.
Qed.

Lemma spares_throw {A} (e : exn) : spares (throw e : MI R A).
Proof.
  intros c Hc. split; [exact Hc|]. exists []. cbn. rewrite app_nil_r. auto.
Qed.

Lemma spares_look {A} (f : closure R -> A) : spares (look R f).
Proof.
  intros c Hc. split; [exact Hc|]. exists []. cbn. rewrite app_nil_r. auto.
Qed.

Lemma spares_bind {A B} (m : MI R A) (k : A -> MI R B) :
  spares m -> (forall a, spares (k a)) -> spares (bind m k).
Proof.
  intros Hm Hk c Hc. unfold bind.
  destruct (Hm c Hc) as (Hp & es & He & Hf).
  destruct (m c) as [a c1|e c1]; cbn [final] in *.
  - destruct (Hk a c1 Hp) as (Hp2 & es2 & He2 & Hf2).
    split; [exact Hp2|]. exists (es ++ es2).
    rewrite He2, He, app_assoc. split; [reflexivity|].
    apply Forall_app. auto.
  - split; [exact Hp|]. exists es. auto.
Qed.

(** An assignment that keeps [pool] set and adds no request, or one
    that is not the call of a disposer. *)
Lemma spares_upd (f : closure R -> closure R) :
  (forall c, is_Some (pool R c) ->
             is_Some (pool R (f c))
             /\ exists es, effects R (f c) = effects R c ++ es
                           /\ Forall no_dispose es) ->
  spares (upd R f).
Proof. intros H c Hc. exact (H c Hc). Qed.

Lemma spares_forI {A} (l : list A) (f : A -> MI R unit) :
  (forall x, spares (f x)) -> spares (forI_ R l f).
Proof.
  intros H. induction l as [|x l IH]; cbn [forI_].
  - apply spares_ret.
  - apply spares_bind; [apply H|]. intros _. exact IH.
Qed.

Ltac quiet_upd :=
  let H := fresh "Hpool" in
  apply spares_upd; intros [? ? ? ? ? ? ? ?] H;
  cbn in H |- *;
  (split; [first [exact H | destruct H as [? ->]; cbn; eauto]|]);
  first [exists []; rewrite app_nil_r; split; [reflexivity|constructor]
        |eexists [_]; split; [reflexivity|repeat constructor]].

Lemma spares_allocate : spares (allocate R).
Proof.
  intros [its mp ds ss ln pl fr efs] Hc. cbn in *.
  split; [exact Hc|]. exists []. rewrite app_nil_r. auto.
Qed.

Lemma spares_root_mapper (next : list T) (i : Z) :
  spares (root_mapper R mapFn next i).
Proof.
  unfold root_mapper.
  apply spares_bind; [apply spares_allocate|]. intros d.
  apply spares_bind; [quiet_upd|]. intros _.
  apply spares_bind; [quiet_upd|]. intros _.
  apply spares_bind; [apply spares_allocate|]. intros s.
  destruct (next !! Z.to_nat i) as [v|]; [|apply spares_throw].
  apply spares_bind; [quiet_upd|]. intros _.
  apply spares_bind; [quiet_upd|]. intros _.
  quiet_upd.
Qed.

Lemma spares_recycle (i : Z) (p : PoolItem R) :
  spares (recycleFromPool R i p).
Proof.
  unfold recycleFromPool.
  apply spares_bind; [quiet_upd|]. intros _.
  apply spares_bind; [quiet_upd|]. intros _.
  apply spares_bind; [quiet_upd|]. intros _.
  quiet_upd.
Qed.

Lemma spares_saveInPool (next : list T) (i : Z) :
  spares (saveInPool R DEFAULT_POOL_LIMIT poolLimit_option next i).
Proof.
  unfold saveInPool. apply spares_upd.
  intros [its mp ds ss ln pl fr efs] [m Hm]. cbn in Hm. subst pl. cbn.
  split; [eauto|]. exists []. rewrite app_nil_r. auto.
Qed.

Lemma spares_visit (next : list T) (i : Z) : spares (visit R mapFn next i).
Proof.
  unfold visit. apply spares_bind; [apply spares_look|]. intros c.
  destruct (_ && _).
  - destruct (array_get None (sources R c) i) as [s|]; [|apply spares_throw].
    destruct (next !! Z.to_nat i) as [v|]; [|apply spares_throw].
    quiet_upd.
  - destruct (_ <=? _); [|apply spares_ret].
    destruct (pool R c) as [m|]; [|apply spares_root_mapper].
    destruct (m !! i) as [p|];
      [apply spares_recycle|apply spares_root_mapper].
Qed.

(** In pool mode [retire] saves the entry. *)
Lemma spares_retire (next : list T) (i : Z) :
  spares (retire R DEFAULT_POOL_LIMIT poolLimit_option next i).
Proof.
  intros c Hc. unfold retire, bind, look. cbn [id].
  destruct (pool R c) as [m|] eqn:Hm; [|destruct Hc; discriminate].
  apply spares_saveInPool. rewrite Hm. eauto.
Qed.

(** X17. In pool mode, and unless the state holds the fallback, an
    update calls no disposer, whatever the new list and whether it
    returns or throws: entries past the new list are saved in the
    pool, and the pool entry deleted at the limit or replaced under
    the same index is dropped without its disposer being called. *)
Theorem pooled_update_calls_no_disposer (c : closure R) (next : list T) :
  is_Some (pool R c) ->
  items R c !! 0%nat <> Some FALLBACK ->
  exists es,
    effects R (final (update R mapFn fallback DEFAULT_POOL_LIMIT
                        poolLimit_option next c))
    = effects R c ++ es
    /\ Forall no_dispose es.
Proof.
  intros Hc Hfb.
  assert (Hdrop : drop_fallback R c = Ok tt c).
  { unfold drop_fallback, bind, look. cbn [id].
    rewrite bool_decide_eq_false_2 by exact Hfb. reflexivity. }
  unfold update. unfold bind at 1, look at 1. cbn [id].
  destruct (newLength next =? 0).
  - assert (H : spares
                  (bind (if negb (len R c =? 0)
                         then bind match pool R c with
                                   | Some _ =>
                                       forI_ R (seqZ 0 (len R c))
                                         (saveInPool R DEFAULT_POOL_LIMIT
                                            poolLimit_option next)
                                   | None =>
                                       forI_ R
                                         (seqZ 0 (Z.of_nat (length (disposers R c))))
                                         (call_disposer R)
                                   end
                                (fun _ => bind (clear R)
                                            (fun _ => upd R (set_sources R [])))
                         else ret tt)
                     (fun _ =>
                        bind match fallback with
                             | Some r =>
                                 bind (upd R (set_items R [FALLBACK])) (fun _ =>
                                 bind (allocate R) (fun d =>
                                 bind (upd R (emit R (RootCreated d))) (fun _ =>
                                 bind (upd R (fun c =>
                                         set_disposers R
                                           (array_set None (disposers R c) 0
                                              (Some d)) c)) (fun _ =>
                                 bind (upd R (fun c =>
                                         set_mapped R
                                           (array_set None (mapped R c) 0
                                              (Some r)) c)) (fun _ =>
                                 upd R (set_len R 1))))))
                             | None => ret tt
                             end
                          (fun _ => look R (mapped R))))).
    { apply spares_bind.
      - destruct (negb _); [|apply spares_ret].
        apply spares_bind.
        + destruct (pool R c) as [m|] eqn:Hm; [|destruct Hc; discriminate].
          apply spares_forI. intros i. apply spares_saveInPool.
        + intros _. apply spares_bind; [unfold clear; quiet_upd|].
          intros _. quiet_upd.
      - intros _. apply spares_bind; [|intros _; apply spares_look].
        destruct fallback as [r|]; [|apply spares_ret].
        apply spares_bind; [quiet_upd|]. intros _.
        apply spares_bind; [apply spares_allocate|]. intros d.
        apply spares_bind; [quiet_upd|]. intros _.
        apply spares_bind; [quiet_upd|]. intros _.
        apply spares_bind; [quiet_upd|]. intros _.
        quiet_upd. }
    destruct (H c Hc) as (_ & es & He & Hf). exists es. auto.
  - unfold bind at 1. rewrite Hdrop.
    assert (H : spares
                  (bind (forI_ R (seqZ 0 (newLength next)) (visit R mapFn next))
                     (fun _ =>
                        bind (look R id) (fun c1 =>
                        bind (forI_ R
                                (seqZ (newLength next)
                                   (Z.of_nat (length (items R c1)) - newLength next))
                                (retire R DEFAULT_POOL_LIMIT poolLimit_option next))
                          (fun _ =>
                        bind (upd R (fun c =>
                                set_len R (newLength next)
                                  (set_sources R (resize (sources R c) (newLength next))
                                     (set_disposers R
                                        (resize (disposers R c) (newLength next)) c))))
                          (fun _ =>
                        bind (upd R (set_items R (Item <$> next))) (fun _ =>
                        bind (upd R (fun c =>
                                set_mapped R
                                  (take (Z.to_nat (newLength next)) (mapped R c)) c))
                          (fun _ => look R (mapped R))))))))).
    { apply spares_bind; [apply spares_forI; intros i; apply spares_visit|].
      intros _. apply spares_bind; [apply spares_look|]. intros c1.
      apply spares_bind; [apply spares_forI; intros i; apply spares_retire|].
      intros _. apply spares_bind; [quiet_upd|]. intros _.
      apply spares_bind; [quiet_upd|]. intros _.
      apply spares_bind; [quiet_upd|]. intros _.
      apply spares_look. }
    destruct (H c Hc) as (_ & es & He & Hf). exists es. auto.
Qed.

End Mapping.

Lemma pooled_update_calls_no_disposer_witness :
  exists es,
    effects Z (final (pooled_update [10] pooled_first))
    = effects Z pooled_first ++ es
    /\ Forall no_dispose es.
Proof.
  apply (pooled_update_calls_no_disposer example_mapFn None 100 None
           pooled_first [10]).
  - vm_compute. eauto.
  - vm_compute. discriminate.
Defined.

End PoolFacts.

Module RecycleFacts.
Import Reactive IndexArray IndexArraySpec IndexArrayFacts PoolSpec.

Lemma array_get_resize {A} (arr : list (option A)) (n j : Z) :
  j < n -> array_get None (resize arr n) j = array_get None arr j.
Proof.
  intros Hj. unfold array_get, resize.
  destruct (Z.ltb_spec j 0); [reflexivity|].
  destruct (decide (Z.to_nat j < length arr)%nat) as [Hl|Hl].
  - rewrite lookup_app_l by (rewrite length_take; lia).
    rewrite lookup_take_lt by lia. reflexivity.
  - rewrite (lookup_ge_None_2 arr) by lia.
    rewrite take_ge by lia.
    rewrite lookup_app_r by lia.
    rewrite lookup_replicate_2 by lia. reflexivity.
Qed.

Lemma array_get_take {A} (hole : A) (arr : list A) (n : nat) (j : Z) :
  j < Z.of_nat n -> array_get hole (take n arr) j = array_get hole arr j.
Proof.
  intros Hj. unfold array_get.
  destruct (Z.ltb_spec j 0); [reflexivity|].
  rewrite lookup_take_lt by lia. reflexivity.
Qed.

Lemma array_get_set_below {A} (hole : A) (arr : list A) (i j : Z) (v : A) :
  j < i -> array_get hole (array_set hole arr i v) j = array_get hole arr j.
Proof.
  intros Hj. destruct (Z.lt_ge_cases j 0) as [Hn|Hn].
  - unfold array_get. destruct (Z.ltb_spec j 0); [reflexivity|lia].
  - apply AsynxFacts.array_get_set_ne. lia.
Qed.

Section Mapping.
Context {R : Type}.
Variable mapFn : ref -> Z -> R.
Variable fallback : option R.
Variable DEFAULT_POOL_LIMIT : Z.
Variable poolLimit_option : option Z.

Lemma visit_same (old more : list T) (c : closure R) (i : nat) :
  items R c = Item <$> old -> (i < length old)%nat ->
  visit R mapFn (old ++ more) (Z.of_nat i) c = Ok tt c.
Proof.
  intros Hit Hi. unfold visit, bind, look. cbn [id].
  rewrite Hit, length_fmap, Nat2Z.id, list_lookup_fmap.
  rewrite lookup_app_l by exact Hi.
  rewrite bool_decide_eq_true_2 by reflexivity.
  rewrite andb_false_r.
  destruct (Z.leb_spec (Z.of_nat (length old)) (Z.of_nat i)); [lia|].
  reflexivity.
Qed.

Lemma visit_same_loop (old more : list T) (c : closure R) (k : nat) :
  forall a : nat,
    items R c = Item <$> old -> (a + k <= length old)%nat ->
    forI_ R (seqZ (Z.of_nat a) (Z.of_nat k)) (visit R mapFn (old ++ more)) c
    = Ok tt c.
Proof.
  induction k as [|k IH]; intros a Hit Hk.
  - reflexivity.
  - rewrite seqZ_S. cbn [forI_]. unfold bind.
    rewrite visit_same by (assumption || lia).
    apply IH; [assumption|lia].
Qed.

Lemma visit_recycle_loop (old next : list T) (m : gmap Z (PoolItem R))
    (c : closure R) (k : nat) :
  forall (a : nat) (ck : closure R),
    items R c = Item <$> old ->
    (length old <= a)%nat ->
    (forall j, Z.of_nat (length old) <= j < Z.of_nat (a + k) ->
               is_Some (m !! j)) ->
    recycled (Z.of_nat (length old)) (Z.of_nat a) m c ck ->
    exists ck',
      forI_ R (seqZ (Z.of_nat a) (Z.of_nat k)) (visit R mapFn next) ck
      = Ok tt ck'
      /\ recycled (Z.of_nat (length old)) (Z.of_nat (a + k)) m c ck'.
Proof.
  induction k as [|k IH]; intros a ck Hit Ha Hm Hinv.
  - exists ck. rewrite Nat.add_0_r. split; [reflexivity|exact Hinv].
  - rewrite seqZ_S. cbn [forI_]. unfold bind.
    destruct Hinv as (Hi & He & Hf & (mk & Hp & Hmk) & Harr & Hkept).
    destruct (Hm (Z.of_nat a)) as [p Hpa]; [lia|].
    assert (Hmka : mk !! Z.of_nat a = Some p).
    { rewrite Hmk, bool_decide_eq_false_2 by lia. exact Hpa. }
    assert (Hv : visit R mapFn next (Z.of_nat a) ck
                 = recycleFromPool R (Z.of_nat a) p ck).
    { unfold visit, bind, look. cbn [id].
      rewrite Hi, Hit, length_fmap.
      destruct (Z.ltb_spec (Z.of_nat a) (Z.of_nat (length old))); [lia|].
      cbn [andb].
      destruct (Z.leb_spec (Z.of_nat (length old)) (Z.of_nat a)); [|lia].
      rewrite Hp, Hmka. reflexivity. }
    rewrite Hv. unfold recycleFromPool, bind, upd. cbn [final].
    match goal with
    | |- exists ck', forI_ _ _ _ ?C = _ /\ _ =>
        destruct (IH (S a) C) as (ck' & Hrun & Hinv')
    end.
    + exact Hit.
    + lia.
    + intros j Hj. apply Hm. lia.
    + destruct ck as [its mp ds ss ln pl fr efs].
      unfold recycled, same_entries in Hkept |- *.
      cbn [items mapped disposers sources len pool fresh_ref effects
           set_mapped set_disposers set_sources set_pool] in *.
      subst pl. cbn [fmap option_fmap option_map].
      repeat split; try assumption.
      * exists (delete (Z.of_nat a) mk). split; [reflexivity|].
        intros j. destruct (decide (j = Z.of_nat a)) as [->|Hne].
        -- rewrite lookup_delete_eq, bool_decide_eq_true_2 by lia.
           reflexivity.
        -- rewrite lookup_delete_ne by congruence. rewrite Hmk.
           destruct (decide (Z.of_nat (length old) <= j < Z.of_nat a)).
           ++ rewrite !bool_decide_eq_true_2 by lia. reflexivity.
           ++ rewrite !bool_decide_eq_false_2 by lia. reflexivity.
      * destruct (decide (j = Z.of_nat a)) as [->|Hne].
        -- rewrite AsynxFacts.array_get_set_eq by lia. congruence.
        -- rewrite AsynxFacts.array_get_set_ne by lia.
           apply (Harr j p0); [lia|assumption].
      * destruct (decide (j = Z.of_nat a)) as [->|Hne].
        -- rewrite AsynxFacts.array_get_set_eq by lia. congruence.
        -- rewrite AsynxFacts.array_get_set_ne by lia.
           apply (Harr j p0); [lia|assumption].
      * destruct (decide (j = Z.of_nat a)) as [->|Hne].
        -- rewrite AsynxFacts.array_get_set_eq by lia. congruence.
        -- rewrite AsynxFacts.array_get_set_ne by lia.
           apply (Harr j p0); [lia|assumption].
      * rewrite array_get_set_below by lia. apply (Hkept j). lia.
      * rewrite array_get_set_below by lia. apply (Hkept j). lia.
      * rewrite array_get_set_below by lia. apply (Hkept j). lia.
    + exists ck'. split; [exact Hrun|].
      replace (a + S k)%nat with (S a + k)%nat by lia. exact Hinv'.
Qed.

(** An update that only appends, every appended position in the pool. *)
Lemma append_recycles (c : closure R) (old more : list T)
    (m : gmap Z (PoolItem R)) :
  pool R c = Some m ->
  items R c = Item <$> old ->
  more <> [] ->
  (forall j, Z.of_nat (length old) <= j < Z.of_nat (length (old ++ more)) ->
             is_Some (m !! j)) ->
  exists c',
    update R mapFn fallback DEFAULT_POOL_LIMIT poolLimit_option
      (old ++ more) c = Ok (mapped R c') c'
    /\ effects R c' = effects R c
    /\ fresh_ref R c' = fresh_ref R c
    /\ items R c' = Item <$> (old ++ more)
    /\ len R c' = Z.of_nat (length (old ++ more))
    /\ (exists m', pool R c' = Some m'
          /\ forall j, m' !! j
                       = if bool_decide (Z.of_nat (length old) <= j
                                         < Z.of_nat (length (old ++ more)))
                         then None else m !! j)
    /\ (forall j p,
          Z.of_nat (length old) <= j < Z.of_nat (length (old ++ more)) ->
          m !! j = Some p ->
          array_get None (mapped R c') j = p_mapped R p
          /\ array_get None (disposers R c') j = p_disposer R p
          /\ array_get None (sources R c') j = p_source R p)
    /\ same_entries (Z.of_nat (length old)) c c'.
Proof.
  intros Hp Hit Hmore Hm.
  set (next := old ++ more).
  assert (Hlen : (length next = length old + length more)%nat)
    by (unfold next; apply length_app).
  assert (Hml : (0 < length more)%nat)
    by (destruct more; [congruence|cbn; lia]).
  assert (Hfb : items R c !! 0%nat <> Some FALLBACK).
  { rewrite Hit, list_lookup_fmap. destruct (old !! 0%nat); cbn; congruence. }
  unfold update. unfold bind at 1, look at 1. cbn [id].
  unfold newLength. fold next.
  destruct (Z.eqb_spec (Z.of_nat (length next)) 0) as [H0|_]; [lia|].
  unfold bind at 1. unfold drop_fallback, bind at 1, look at 1. cbn [id].
  rewrite bool_decide_eq_false_2 by exact Hfb. unfold ret at 1.
  unfold bind at 1.
  replace (seqZ 0 (Z.of_nat (length next)))
    with (seqZ (Z.of_nat 0) (Z.of_nat (length old))
          ++ seqZ (Z.of_nat (length old)) (Z.of_nat (length more))).
  2:{ rewrite Hlen, Nat2Z.inj_add, seqZ_app by lia. reflexivity. }
  rewrite forI_app. unfold bind at 1.
  unfold next at 1. rewrite visit_same_loop by (assumption || lia).
  destruct (visit_recycle_loop old next m c (length more) (length old) c)
    as (c1 & Hrun & Hi & He & Hf & (m1 & Hp1 & Hm1) & Harr & Hkept).
  { exact Hit. }
  { lia. }
  { intros j Hj. apply Hm. fold next. lia. }
  { split; [reflexivity|]. split; [reflexivity|]. split; [reflexivity|].
    split; [|split].
    - exists m. split; [exact Hp|]. intros j.
      rewrite bool_decide_eq_false_2 by lia. reflexivity.
    - intros j p Hj. exfalso; lia.
    - intros j Hj. auto. }
  rewrite Hrun. unfold bind at 1, look at 1. cbn [id].
  rewrite Hi, Hit, length_fmap.
  rewrite (seqZ_nil _ (Z.of_nat (length old) - Z.of_nat (length next))) by lia.
  cbn [forI_]. unfold bind, ret, upd, look.
  match goal with |- exists c', Ok _ ?C = _ /\ _ => exists C end.
  destruct c1 as [its mp ds ss ln pl fr efs].
  unfold same_entries in Hkept |- *.
  cbn [items mapped disposers sources len pool fresh_ref effects
       set_mapped set_disposers set_sources set_pool set_items set_len] in *.
  subst pl.
  split; [reflexivity|].
  split; [assumption|]. split; [assumption|]. split; [reflexivity|].
  split; [reflexivity|]. split; [|split].
  - exists m1. split; [reflexivity|]. intros j. rewrite Hm1.
    rewrite <- Hlen. reflexivity.
  - intros j p Hj Hmj. rewrite array_get_take by lia.
    rewrite !array_get_resize by lia.
    apply (Harr j p); [lia|assumption].
  - intros j Hj.
    rewrite array_get_take by lia.
    rewrite !array_get_resize by lia.
    apply (Hkept j Hj).
Qed.


(** X18. In pool mode, an update that only appends to the list, when
    the pool holds an entry for every appended position: the update
    returns, makes no request at all (no root, no observable, and no
    write: the value of an appended position is not given to the
    source of the entry taken for it), the entry of each appended
    position is the pool's entry of that position, and these entries
    leave the pool. *)
Theorem pooled_append_recycles_silently (c : closure R) (old more : list T)
    (m : gmap Z (PoolItem R)) :
  pool R c = Some m ->
  items R c = Item <$> old ->
  more <> [] ->
  (forall j, Z.of_nat (length old) <= j < Z.of_nat (length (old ++ more)) ->
             is_Some (m !! j)) ->
  exists c',
    update R mapFn fallback DEFAULT_POOL_LIMIT poolLimit_option
      (old ++ more) c = Ok (mapped R c') c'
    /\ effects R c' = effects R c
    /\ fresh_ref R c' = fresh_ref R c
    /\ items R c' = Item <$> (old ++ more)
    /\ len R c' = Z.of_nat (length (old ++ more))
    /\ (exists m', pool R c' = Some m'
          /\ forall j, m' !! j
                       = if bool_decide (Z.of_nat (length old) <= j
                                         < Z.of_nat (length (old ++ more)))
                         then None else m !! j)
    /\ (forall j p,
          Z.of_nat (length old) <= j < Z.of_nat (length (old ++ more)) ->
          m !! j = Some p ->
          array_get None (mapped R c') j = p_mapped R p
          /\ array_get None (disposers R c') j = p_disposer R p
          /\ array_get None (sources R c') j = p_source R p).
Proof.
  intros Hp Hit Hmore Hm.
  destruct (append_recycles c old more m Hp Hit Hmore Hm)
    as (c' & H1 & H2 & H3 & H4 & H5 & H6 & H7 & _).
  exists c'. auto 10.
Qed.

End Mapping.

Lemma pooled_append_recycles_silently_witness :
  exists c',
    pooled_update ([10] ++ [99; 98]) pooled_shrunk = Ok (mapped Z c') c'
    /\ effects Z c' = effects Z pooled_shrunk
    /\ fresh_ref Z c' = fresh_ref Z pooled_shrunk
    /\ items Z c' = Item <$> [10; 99; 98].
Proof.
  destruct (pooled_append_recycles_silently example_mapFn None 100 None
              pooled_shrunk [10] [99; 98]
              (default ∅ (pool Z pooled_shrunk)))
    as (c' & Hrun & He & Hf & Hi & _).
  - vm_compute. reflexivity.
  - vm_compute. reflexivity.
  - discriminate.
  - intros j Hj. cbn [length app] in Hj.
    assert (Hc : j = 1 \/ j = 2) by lia.
    destruct Hc as [-> | ->]; vm_compute; eauto.
  - exists c'. repeat split; assumption.
Defined.

End RecycleFacts.

Module ShrinkFacts.
Import Reactive IndexArray IndexArraySpec IndexArrayFacts PoolSpec RecycleFacts.

Section Mapping.
Context {R : Type}.
Variable mapFn : ref -> Z -> R.
Variable fallback : option R.
Variable DEFAULT_POOL_LIMIT : Z.
Variable poolLimit_option : option Z.

Let limit := poolLimit DEFAULT_POOL_LIMIT poolLimit_option.

Lemma visit_equal (next : list T) (c : closure R) (i : nat) :
  (i < length (items R c))%nat ->
  items R c !! i = Item <$> next !! i ->
  visit R mapFn next (Z.of_nat i) c = Ok tt c.
Proof.
  intros Hi He. unfold visit, bind, look. cbn [id].
  rewrite Nat2Z.id, He.
  rewrite bool_decide_eq_true_2 by reflexivity.
  rewrite andb_false_r.
  destruct (Z.leb_spec (Z.of_nat (length (items R c))) (Z.of_nat i)); [lia|].
  reflexivity.
Qed.

Lemma visit_equal_loop (next : list T) (c : closure R) (k : nat) :
  forall a : nat,
    (a + k <= length (items R c))%nat ->
    (forall i, (i < a + k)%nat -> items R c !! i = Item <$> next !! i) ->
    forI_ R (seqZ (Z.of_nat a) (Z.of_nat k)) (visit R mapFn next) c
    = Ok tt c.
Proof.
  induction k as [|k IH]; intros a Hk He.
  - reflexivity.
  - rewrite seqZ_S. cbn [forI_]. unfold bind.
    rewrite visit_equal by (apply He || idtac; lia).
    apply IH; [lia|]. intros i Hi. apply He. lia.
Qed.

(** The second loop in pool mode, under the pool limit. *)
Lemma retire_saves_loop (next : list T) (m : gmap Z (PoolItem R))
    (c : closure R) (lo hi : Z) (k : nat) :
  forall (a : nat) (ck : closure R),
    lo <= Z.of_nat a -> Z.of_nat (a + k) <= hi ->
    Z.of_nat (base.size m) + (hi - lo) <= limit ->
    saved lo (Z.of_nat a) m c ck ->
    exists ck',
      forI_ R (seqZ (Z.of_nat a) (Z.of_nat k))
        (retire R DEFAULT_POOL_LIMIT poolLimit_option next) ck
      = Ok tt ck'
      /\ saved lo (Z.of_nat (a + k)) m c ck'.
Proof.
  induction k as [|k IH]; intros a ck Hlo Hhi Hlim Hinv.
  - exists ck. rewrite Nat.add_0_r. split; [reflexivity|exact Hinv].
  - rewrite seqZ_S. cbn [forI_]. unfold bind.
    destruct Hinv as (Hi & He & Hf & Hmp & Hds & Hss & (mk & Hp & Hmk & Hsz)).
    assert (Hr : retire R DEFAULT_POOL_LIMIT poolLimit_option next
                   (Z.of_nat a) ck
                 = Ok tt (set_pool R
                            (Some (<[Z.of_nat a := entry_at c (Z.of_nat a)]> mk))
                            ck)).
    { unfold retire, bind, look. cbn [id]. rewrite Hp.
      unfold saveInPool, upd. rewrite Hp.
      fold limit.
      destruct (Z.leb_spec limit (Z.of_nat (base.size mk))); [lia|].
      unfold entry_at. rewrite Hmp, Hds, Hss. reflexivity. }
    rewrite Hr.
    destruct (IH (S a) (set_pool R
                          (Some (<[Z.of_nat a := entry_at c (Z.of_nat a)]> mk))
                          ck))
      as (ck' & Hrun & Hinv'); [lia|lia|exact Hlim| |].
    + unfold saved. cbn [items effects fresh_ref mapped disposers sources
                         pool set_pool].
      repeat (split; [assumption|]).
      eexists. split; [reflexivity|]. split.
      * intros j. destruct (decide (j = Z.of_nat a)) as [->|Hne].
        -- rewrite lookup_insert_eq, bool_decide_eq_true_2 by lia.
           reflexivity.
        -- rewrite lookup_insert_ne by congruence. rewrite Hmk.
           destruct (decide (lo <= j < Z.of_nat a)).
           ++ rewrite !bool_decide_eq_true_2 by lia. reflexivity.
           ++ rewrite !bool_decide_eq_false_2 by lia. reflexivity.
      * destruct (mk !! Z.of_nat a) as [x|] eqn:Hx.
        -- rewrite map_size_insert_Some by eauto. lia.
        -- rewrite map_size_insert_None by exact Hx. lia.
    + exists ck'. split; [exact Hrun|].
      replace (a + S k)%nat with (S a + k)%nat by lia. exact Hinv'.
Qed.

(** An update with a non-empty prefix of the list, in pool mode and
    under the pool limit. *)
Lemma shrink_saves (c : closure R) (old : list T) (n : nat)
    (m : gmap Z (PoolItem R)) :
  pool R c = Some m ->
  items R c = Item <$> old ->
  (0 < n <= length old)%nat ->
  Z.of_nat (base.size m) + Z.of_nat (length old - n) <= limit ->
  exists c',
    update R mapFn fallback DEFAULT_POOL_LIMIT poolLimit_option
      (take n old) c = Ok (mapped R c') c'
    /\ effects R c' = effects R c
    /\ fresh_ref R c' = fresh_ref R c
    /\ items R c' = Item <$> take n old
    /\ len R c' = Z.of_nat n
    /\ mapped R c' = take n (mapped R c)
    /\ disposers R c' = resize (disposers R c) (Z.of_nat n)
    /\ sources R c' = resize (sources R c) (Z.of_nat n)
    /\ exists m', pool R c' = Some m'
         /\ forall j, m' !! j
                      = if bool_decide (Z.of_nat n <= j < Z.of_nat (length old))
                        then Some (entry_at c j) else m !! j.
Proof.
  intros Hp Hit Hn Hlim.
  set (next := take n old).
  assert (Hlen : length next = n) by (unfold next; rewrite length_take; lia).
  assert (Hfb : items R c !! 0%nat <> Some FALLBACK).
  { rewrite Hit, list_lookup_fmap. destruct (old !! 0%nat); cbn; congruence. }
  unfold update. unfold bind at 1, look at 1. cbn [id].
  unfold newLength. rewrite Hlen.
  destruct (Z.eqb_spec (Z.of_nat n) 0) as [H0|_]; [lia|].
  unfold bind at 1. unfold drop_fallback, bind at 1, look at 1. cbn [id].
  rewrite bool_decide_eq_false_2 by exact Hfb. unfold ret at 1.
  unfold bind at 1.
  change 0 with (Z.of_nat 0) at 1.
  rewrite visit_equal_loop.
  2:{ rewrite Hit, length_fmap. lia. }
  2:{ intros i Hi. rewrite Hit, list_lookup_fmap. unfold next.
      rewrite lookup_take_lt by lia. reflexivity. }
  unfold bind at 1, look at 1. cbn [id].
  rewrite Hit, length_fmap.
  replace (Z.of_nat (length old) - Z.of_nat n)
    with (Z.of_nat (length old - n)) by lia.
  destruct (retire_saves_loop next m c (Z.of_nat n) (Z.of_nat (length old))
              (length old - n) n c)
    as (c1 & Hrun & Hi & He & Hf & Hmp & Hds & Hss & (m1 & Hp1 & Hm1 & _)).
  { lia. }
  { lia. }
  { fold limit. lia. }
  { repeat (split; [reflexivity|]).
    exists m. split; [exact Hp|]. split; [|lia].
    intros j. rewrite bool_decide_eq_false_2 by lia. reflexivity. }
  unfold bind at 1. rewrite Hrun.
  unfold bind, ret, upd, look.
  match goal with |- exists c', Ok _ ?C = _ /\ _ => exists C end.
  destruct c1 as [its mp ds ss ln pl fr efs].
  cbn [items mapped disposers sources len pool fresh_ref effects
       set_mapped set_disposers set_sources set_pool set_items set_len] in *.
  subst its efs fr mp ds ss pl. split; [reflexivity|].
  repeat (split; [first [assumption | reflexivity
                        | rewrite Nat2Z.id; reflexivity]|]).
  exists m1. split; [reflexivity|]. intros j. rewrite Hm1.
  replace (n + (length old - n))%nat with (length old) by lia.
  reflexivity.
Qed.

(** X24. In pool mode and under the pool limit, an update with a
    non-empty prefix of the list returns without any request: the
    arrays are cut to the prefix, and the entry of every position
    that left the list is stored in the pool under its index
    (replacing what the pool held there); the rest of the pool is
    as it was. *)
Theorem pooled_shrink_saves_entries (c : closure R) (old : list T) (n : nat)
    (m : gmap Z (PoolItem R)) :
  pool R c = Some m ->
  items R c = Item <$> old ->
  (0 < n <= length old)%nat ->
  Z.of_nat (base.size m) + Z.of_nat (length old - n)
  <= poolLimit DEFAULT_POOL_LIMIT poolLimit_option ->
  exists c',
    update R mapFn fallback DEFAULT_POOL_LIMIT poolLimit_option
      (take n old) c = Ok (mapped R c') c'
    /\ effects R c' = effects R c
    /\ fresh_ref R c' = fresh_ref R c
    /\ items R c' = Item <$> take n old
    /\ len R c' = Z.of_nat n
    /\ mapped R c' = take n (mapped R c)
    /\ disposers R c' = resize (disposers R c) (Z.of_nat n)
    /\ sources R c' = resize (sources R c) (Z.of_nat n)
    /\ exists m', pool R c' = Some m'
         /\ forall j, m' !! j
                      = if bool_decide (Z.of_nat n <= j < Z.of_nat (length old))
                        then Some (entry_at c j) else m !! j.
Proof. apply shrink_saves. Qed.

(** X25. Shrinking then growing back, in pool mode and under the
    pool limit: an update with a non-empty proper prefix of the list
    followed by an update that appends as many values as were
    dropped, whatever these values are. Both updates return, no
    request is made to the reactive core, and every position holds
    the entry (mapped value, disposer, source) it held before the
    two updates: the new values of the appended positions are not
    given to the sources. *)
Theorem pooled_shrink_regrow_restores (c : closure R) (old more : list T)
    (n : nat) (m : gmap Z (PoolItem R)) :
  pool R c = Some m ->
  items R c = Item <$> old ->
  (0 < n < length old)%nat ->
  length more = (length old - n)%nat ->
  Z.of_nat (base.size m) + Z.of_nat (length old - n)
  <= poolLimit DEFAULT_POOL_LIMIT poolLimit_option ->
  exists c1 c2,
    update R mapFn fallback DEFAULT_POOL_LIMIT poolLimit_option
      (take n old) c = Ok (mapped R c1) c1
    /\ update R mapFn fallback DEFAULT_POOL_LIMIT poolLimit_option
         (take n old ++ more) c1 = Ok (mapped R c2) c2
    /\ effects R c2 = effects R c
    /\ fresh_ref R c2 = fresh_ref R c
    /\ items R c2 = Item <$> (take n old ++ more)
    /\ same_entries (Z.of_nat (length old)) c c2.
Proof.
  intros Hp Hit Hn Hmore Hlim.
  destruct (shrink_saves c old n m Hp Hit) as
    (c1 & Hrun1 & He1 & Hf1 & Hi1 & Hl1 & Hm1 & Hd1 & Hs1 & (m1 & Hp1 & Hpool1));
    [lia|exact Hlim|].
  assert (Hlt : length (take n old) = n) by (rewrite length_take; lia).
  destruct (append_recycles mapFn fallback DEFAULT_POOL_LIMIT poolLimit_option
              c1 (take n old) more m1 Hp1 Hi1)
    as (c2 & Hrun2 & He2 & Hf2 & Hi2 & Hl2 & _ & Harr & Hkept).
  { intros ->. cbn in Hmore. lia. }
  { intros j Hj. rewrite length_app, Hlt, Hmore in Hj.
    rewrite Hpool1, bool_decide_eq_true_2 by lia. eauto. }
  exists c1, c2. split; [exact Hrun1|]. split; [exact Hrun2|].
  split; [congruence|]. split; [congruence|]. split; [exact Hi2|].
  intros j Hj. rewrite Hlt in Hkept.
  destruct (Z.lt_ge_cases j (Z.of_nat n)) as [Hjn|Hjn].
  - destruct (Hkept j Hjn) as (K1 & K2 & K3).
    rewrite K1, K2, K3, Hm1, Hd1, Hs1.
    rewrite array_get_take by lia. rewrite !array_get_resize by lia.
    auto.
  - destruct (Harr j (entry_at c j)) as (K1 & K2 & K3).
    + rewrite length_app, Hlt, Hmore. lia.
    + rewrite Hpool1, bool_decide_eq_true_2 by lia. reflexivity.
    + rewrite K1, K2, K3. auto.
Qed.

End Mapping.

Lemma pooled_shrink_saves_entries_witness :
  exists c',
    pooled_update (take 1 [10; 20; 30]) pooled_first = Ok (mapped Z c') c'
    /\ effects Z c' = effects Z pooled_first
    /\ fresh_ref Z c' = fresh_ref Z pooled_first
    /\ items Z c' = Item <$> take 1 [10; 20; 30]
    /\ len Z c' = Z.of_nat 1
    /\ mapped Z c' = take 1 (mapped Z pooled_first)
    /\ disposers Z c' = resize (disposers Z pooled_first) (Z.of_nat 1)
    /\ sources Z c' = resize (sources Z pooled_first) (Z.of_nat 1)
    /\ exists m', pool Z c' = Some m'
         /\ forall j, m' !! j
                      = if bool_decide (Z.of_nat 1 <= j
                                        < Z.of_nat (length [10; 20; 30]))
                        then Some (entry_at pooled_first j)
                        else (∅ : gmap Z (PoolItem Z)) !! j.
Proof.
  apply (pooled_shrink_saves_entries example_mapFn None 100 None
           pooled_first [10; 20; 30] 1 ∅).
  - vm_compute. reflexivity.
  - vm_compute. reflexivity.
  - cbn [length]. lia.
  - vm_compute. discriminate.
Defined.

Lemma pooled_shrink_regrow_restores_witness :
  exists c1 c2,
    pooled_update (take 1 [10; 20; 30]) pooled_first = Ok (mapped Z c1) c1
    /\ pooled_update (take 1 [10; 20; 30] ++ [99; 98]) c1 = Ok (mapped Z c2) c2
    /\ effects Z c2 = effects Z pooled_first
    /\ fresh_ref Z c2 = fresh_ref Z pooled_first
    /\ items Z c2 = Item <$> (take 1 [10; 20; 30] ++ [99; 98])
    /\ same_entries (Z.of_nat (length [10; 20; 30])) pooled_first c2.
Proof.
  apply (pooled_shrink_regrow_restores example_mapFn None 100 None
           pooled_first [10; 20; 30] [99; 98] 1 ∅).
  - vm_compute. reflexivity.
  - vm_compute. reflexivity.
  - cbn [length]. lia.
  - reflexivity.
  - vm_compute. discriminate.
Defined.

End ShrinkFacts.


(* ===================================================================== *)
(** * The subscription graph: [connect] and [disconnect]                  *)
(* ===================================================================== *)

Module LinkFacts.
Import Reactive LinkSpec.

Lemma slot_entry_take_first (o : ref) (j fs : Z) arr slots (k : Z) :
  slot_entry (Some o) j arr slots k
  = if k =? -1 then Some (o, j) else slot_entry None fs arr slots k.
Proof. unfold slot_entry. destruct (k =? -1); reflexivity. Qed.

Lemma slot_entry_no_first (fs : Z) arr slots :
  slot_entry None fs arr slots (-1) = None.
Proof. reflexivity. Qed.

Lemma slot_entry_no_arrays first fs slots (k : Z) :
  0 <= k -> slot_entry first fs None slots k = None.
Proof.
  intros Hk. unfold slot_entry.
  destruct (Z.eqb_spec k (-1)); [lia|].
  destruct (Z.ltb_spec k 0); [lia|]. reflexivity.
Qed.

Lemma slot_entry_create first fs (o : ref) (j : Z) slots (k : Z) :
  slot_entry first fs (Some [o]) (Some [j]) k
  = if k =? 0 then Some (o, j) else slot_entry first fs None slots k.
Proof.
  unfold slot_entry.
  destruct (Z.eqb_spec k (-1)) as [->|H1]; [reflexivity|].
  destruct (Z.ltb_spec k 0) as [H0|H0].
  - destruct (Z.eqb_spec k 0); [lia|reflexivity].
  - destruct (Z.eqb_spec k 0) as [->|Hk]; [reflexivity|].
    destruct (Z.to_nat k) as [|n] eqn:E; [lia|]. reflexivity.
Qed.

Lemma slot_entry_past first fs (l : list ref) (sl : list Z) (k : Z) :
  Z.of_nat (length l) <= k ->
  slot_entry first fs (Some l) (Some sl) k = None.
Proof.
  intros Hk. unfold slot_entry.
  destruct (Z.eqb_spec k (-1)); [lia|].
  destruct (Z.ltb_spec k 0); [lia|].
  rewrite (lookup_ge_None_2 l) by lia. reflexivity.
Qed.

Lemma slot_entry_push first fs (l : list ref) (sl : list Z) (o : ref)
    (j k : Z) :
  length l = length sl ->
  slot_entry first fs (Some (l ++ [o])) (Some (sl ++ [j])) k
  = if k =? Z.of_nat (length l) then Some (o, j)
    else slot_entry first fs (Some l) (Some sl) k.
Proof.
  intros Hlen. unfold slot_entry.
  destruct (Z.eqb_spec k (-1)) as [->|H1].
  { destruct (Z.eqb_spec (-1) (Z.of_nat (length l))); [lia|reflexivity]. }
  destruct (Z.ltb_spec k 0) as [H0|H0].
  { destruct (Z.eqb_spec k (Z.of_nat (length l))); [lia|reflexivity]. }
  destruct (Z.eqb_spec k (Z.of_nat (length l))) as [->|Hk].
  - rewrite Nat2Z.id, list_lookup_middle by reflexivity.
    rewrite list_lookup_middle by exact Hlen. reflexivity.
  - destruct (decide (Z.to_nat k < length l)%nat) as [Hlt|Hge].
    + rewrite !lookup_app_l by lia. reflexivity.
    + rewrite (lookup_ge_None_2 (l ++ [o])) by (rewrite length_app; cbn; lia).
      rewrite (lookup_ge_None_2 l) by lia. reflexivity.
Qed.

(** One new pair of slots, free before, on a subscription and an
    observer, each naming the other. *)
Lemma link_step (w : World) (this to : ref) (sb sb' : SourceSub)
    (tob tob' : Observer) (k j : Z) :
  subscriptions w !! this = Some sb ->
  observers w !! to = Some tob ->
  shaped w -> sub_linked w -> obs_linked w ->
  sub_entry sb k = None -> obs_entry tob j = None ->
  (forall k', sub_entry sb' k'
              = if k' =? k then Some (to, j) else sub_entry sb k') ->
  (forall j', obs_entry tob' j'
              = if j' =? j then Some (this, k) else obs_entry tob j') ->
  sub_shaped sb' -> obs_shaped tob' ->
  let w' := set_observers (<[to := tob']> (observers w))
              (set_subscriptions (<[this := sb']> (subscriptions w)) w) in
  shaped w' /\ sub_linked w' /\ obs_linked w' /\ edge w' this k to j.
Proof.
  intros Hsb Htob [Hs1 Hs2] Hsl Hol Hk Hj Hsb' Htob' Hshs Hsho w'.
  assert (Hsubs : subscriptions w' = <[this := sb']> (subscriptions w))
    by reflexivity.
  assert (Hobs : observers w' = <[to := tob']> (observers w))
    by reflexivity.
  clearbody w'.
  split; [|split; [|split]].
  - split.
    + intros s x. rewrite Hsubs. destruct (decide (s = this)) as [->|Hne].
      * rewrite lookup_insert_eq. intros [= <-]. exact Hshs.
      * rewrite lookup_insert_ne by congruence. apply Hs1.
    + intros o x. rewrite Hobs. destruct (decide (o = to)) as [->|Hne].
      * rewrite lookup_insert_eq. intros [= <-]. exact Hsho.
      * rewrite lookup_insert_ne by congruence. apply Hs2.
  - intros s x k' o j' Hx He. rewrite Hsubs in Hx. rewrite Hobs.
    destruct (decide (s = this)) as [->|Hne].
    + rewrite lookup_insert_eq in Hx. injection Hx as <-.
      rewrite Hsb' in He.
      destruct (Z.eqb_spec k' k) as [->|Hkk].
      * injection He as <- <-. exists tob'.
        rewrite lookup_insert_eq, Htob', Z.eqb_refl. auto.
      * destruct (Hsl this sb k' o j' Hsb He) as (ob & Hob & Hoe).
        destruct (decide (o = to)) as [->|Hot].
        -- assert (ob = tob) by congruence. subst ob.
           exists tob'. rewrite lookup_insert_eq, Htob'.
           destruct (Z.eqb_spec j' j) as [->|_]; [congruence|]. auto.
        -- exists ob. rewrite lookup_insert_ne by congruence. auto.
    + rewrite lookup_insert_ne in Hx by congruence.
      destruct (Hsl s x k' o j' Hx He) as (ob & Hob & Hoe).
      destruct (decide (o = to)) as [->|Hot].
      * assert (ob = tob) by congruence. subst ob.
        exists tob'. rewrite lookup_insert_eq, Htob'.
        destruct (Z.eqb_spec j' j) as [->|_]; [congruence|]. auto.
      * exists ob. rewrite lookup_insert_ne by congruence. auto.
  - intros o x j' s k' Hx He. rewrite Hobs in Hx. rewrite Hsubs.
    destruct (decide (o = to)) as [->|Hne].
    + rewrite lookup_insert_eq in Hx. injection Hx as <-.
      rewrite Htob' in He.
      destruct (Z.eqb_spec j' j) as [->|Hjj].
      * injection He as <- <-. exists sb'.
        rewrite lookup_insert_eq, Hsb', Z.eqb_refl. auto.
      * destruct (Hol to tob j' s k' Htob He) as (y & Hy & Hye).
        destruct (decide (s = this)) as [->|Hst].
        -- assert (y = sb) by congruence. subst y.
           exists sb'. rewrite lookup_insert_eq, Hsb'.
           destruct (Z.eqb_spec k' k) as [->|_]; [congruence|]. auto.
        -- exists y. rewrite lookup_insert_ne by congruence. auto.
    + rewrite lookup_insert_ne in Hx by congruence.
      destruct (Hol o x j' s k' Hx He) as (y & Hy & Hye).
      destruct (decide (s = this)) as [->|Hst].
      * assert (y = sb) by congruence. subst y.
        exists sb'. rewrite lookup_insert_eq, Hsb'.
        destruct (Z.eqb_spec k' k) as [->|_]; [congruence|]. auto.
      * exists y. rewrite lookup_insert_ne by congruence. auto.
  - exists sb', tob'. rewrite Hsubs, Hobs, !lookup_insert_eq.
    rewrite Hsb', Htob', !Z.eqb_refl. auto.
Qed.

(** The observer's side of [connect]. *)
Lemma link_obs_side (w1 w' : World) (this to : ref) (tob : Observer)
    (fromSlot : Z) :
  observers w1 !! to = Some tob ->
  obs_shaped tob ->
  match src1 tob, srcs tob, srcSlots tob with
  | None, _, _ =>
      updObs to (fun ob => set_src1Slot fromSlot (set_src1 (Some this) ob))
  | Some _, None, _ =>
      updObs to (fun ob =>
        set_srcSlots (Some [fromSlot]) (set_srcs (Some [this]) ob))
  | Some _, Some l, Some sl =>
      updObs to (fun ob =>
        set_srcSlots (Some (sl ++ [fromSlot]))
          (set_srcs (Some (l ++ [this])) ob))
  | Some _, Some _, None => throw TypeError
  end w1 = Ok tt w' ->
  let toSlot := match src1 tob, srcs tob with
                | None, _ => -1
                | Some _, None => 0
                | Some _, Some l => Z.of_nat (length l)
                end in
  exists tob',
    w' = set_observers (<[to := tob']> (observers w1)) w1
    /\ obs_entry tob toSlot = None
    /\ (forall j', obs_entry tob' j'
                   = if j' =? toSlot then Some (this, fromSlot)
                     else obs_entry tob j')
    /\ obs_shaped tob'.
Proof.
  intros Htob Hsh H toSlot. subst toSlot.
  unfold obs_shaped, obs_entry, arrays_shaped in *.
  destruct tob as [ty st f v e ag ow od cx cl s1 s1s ss sss dp dps dpc sb].
  cbn [src1 srcs srcSlots src1Slot] in *.
  destruct s1 as [s1|].
  - destruct ss as [l|].
    + destruct sss as [sl|]; [|discriminate].
      unfold updObs in H. rewrite Htob in H. injection H as <-.
      eexists. split; [reflexivity|].
      cbn [src1 srcs srcSlots src1Slot set_src1 set_src1Slot set_srcs
           set_srcSlots].
      split; [apply slot_entry_past; lia|].
      split; [|rewrite !length_app; cbn; lia].
      intros j'. apply slot_entry_push. exact Hsh.
    + unfold updObs in H. rewrite Htob in H. injection H as <-.
      eexists. split; [reflexivity|].
      cbn [src1 srcs srcSlots src1Slot set_src1 set_src1Slot set_srcs
           set_srcSlots].
      split; [apply slot_entry_no_arrays; lia|].
      split; [|reflexivity].
      intros j'. apply slot_entry_create.
  - unfold updObs in H. rewrite Htob in H. injection H as <-.
    eexists. split; [reflexivity|].
    cbn [src1 srcs srcSlots src1Slot set_src1 set_src1Slot set_srcs
         set_srcSlots].
    split; [reflexivity|]. split; [|exact Hsh].
    intros j'. apply slot_entry_take_first.
Qed.

(** X19. [connect] keeps the subscription graph consistent. From a
    state where the parallel arrays go together and every slot of a
    subscription and of an observer is answered by the slot it names,
    a [connect] that returns leaves such a state, in which the running
    observer holds a slot of the subscription and the subscription
    the matching slot of the observer. *)
Theorem connect_keeps_links (w w' : World) (this to : ref) :
  Observer_ w = Some to ->
  shaped w -> sub_linked w -> obs_linked w ->
  SourceSub_connect this w = Ok tt w' ->
  shaped w' /\ sub_linked w' /\ obs_linked w'
  /\ exists k j, edge w' this k to j.
Proof.
  intros Hto Hsh Hsl Hol H.
  unfold SourceSub_connect in H. unfold bind at 1, gets at 1 in H.
  rewrite Hto in H.
  unfold bind at 1, getObs at 1 in H.
  destruct (observers w !! to) as [tob|] eqn:Htob; [|discriminate].
  unfold bind at 1, getSub at 1 in H.
  destruct (subscriptions w !! this) as [sb|] eqn:Hsb; [|discriminate].
  pose proof (proj1 Hsh this sb Hsb) as Hshs.
  pose proof (proj2 Hsh to tob Htob) as Hsho.
  assert (Hold : forall k j, sub_entry sb k = Some (to, j) ->
                   shaped w /\ sub_linked w /\ obs_linked w
                   /\ exists k j, edge w this k to j).
  { intros k j He. repeat split; try assumption; try apply Hsh.
    destruct (Hsl this sb k to j Hsb He) as (ob & Hob & Hoe).
    exists k, j, sb, ob. auto. }
  assert (Hnew : forall sb' k w1,
             w1 = set_subscriptions (<[this := sb']> (subscriptions w)) w ->
             sub_entry sb k = None ->
             (forall k', sub_entry sb' k'
                         = if k' =? k
                           then Some (to, match src1 tob, srcs tob with
                                          | None, _ => -1
                                          | Some _, None => 0
                                          | Some _, Some l => Z.of_nat (length l)
                                          end)
                           else sub_entry sb k') ->
             sub_shaped sb' ->
             match src1 tob, srcs tob, srcSlots tob with
             | None, _, _ =>
                 updObs to (fun ob => set_src1Slot k (set_src1 (Some this) ob))
             | Some _, None, _ =>
                 updObs to (fun ob =>
                   set_srcSlots (Some [k]) (set_srcs (Some [this]) ob))
             | Some _, Some l, Some sl =>
                 updObs to (fun ob =>
                   set_srcSlots (Some (sl ++ [k]))
                     (set_srcs (Some (l ++ [this])) ob))
             | Some _, Some _, None => throw TypeError
             end w1 = Ok tt w' ->
             shaped w' /\ sub_linked w' /\ obs_linked w'
             /\ exists k j, edge w' this k to j).
  { intros sb' k w1 -> Hfree Hent Hshs' Hrun.
    apply link_obs_side with (tob := tob) in Hrun;
      [|exact Htob|exact Hsho].
    destruct Hrun as (tob' & -> & Hofree & Hoent & Hsho').
    destruct (link_step w this to sb sb' tob tob' k _
                Hsb Htob Hsh Hsl Hol Hfree Hofree Hent Hoent Hshs' Hsho')
      as (A & B & C & D).
    repeat split; try assumption; try apply A. eauto. }
  unfold sub_shaped, sub_entry, arrays_shaped in Hshs, Hold, Hnew.
  destruct sb as [o1 o1s ol osl].
  cbn [obs1 obs1Slot obs obsSlots] in *.
  destruct o1 as [o1|].
  - destruct ol as [l|].
    + destruct (decide (last l = Some to)) as [E|N].
      * rewrite bool_decide_eq_true_2 in H by exact E. injection H as <-.
        destruct osl as [sl|]; [|contradiction].
        clear Hnew Hsb.
        destruct l as [|x l0 _] using rev_ind; [discriminate|].
        rewrite last_snoc in E. injection E as ->.
        destruct sl as [|y sl0 _] using rev_ind.
        { rewrite length_app in Hshs. cbn in Hshs. lia. }
        apply (Hold (Z.of_nat (length l0)) y).
        rewrite !length_app in Hshs. cbn in Hshs.
        rewrite (slot_entry_push _ _ l0 sl0 to y) by lia.
        rewrite Z.eqb_refl. reflexivity.
      * rewrite bool_decide_eq_false_2 in H by exact N.
        destruct osl as [sl|]; [|contradiction].
        unfold bind at 1, updSub at 1 in H. rewrite Hsb in H.
        eapply Hnew; [reflexivity| | | |exact H].
        -- apply slot_entry_past. lia.
        -- intros k'. cbn [obs1 obs1Slot obs obsSlots set_obs set_obsSlots].
           apply slot_entry_push. exact Hshs.
        -- unfold arrays_shaped.
           cbn [obs obsSlots set_obs set_obsSlots].
           rewrite !length_app. cbn. lia.
    + destruct (decide (o1 = to)) as [->|N].
      * rewrite bool_decide_eq_true_2 in H by reflexivity. injection H as <-.
        apply (Hold (-1) o1s). reflexivity.
      * rewrite bool_decide_eq_false_2 in H by exact N.
        unfold bind at 1, updSub at 1 in H. rewrite Hsb in H.
        eapply Hnew; [reflexivity| | | |exact H].
        -- apply slot_entry_no_arrays. lia.
        -- intros k'. cbn [obs1 obs1Slot obs obsSlots set_obs set_obsSlots].
           apply slot_entry_create.
        -- reflexivity.
  - unfold bind at 1, updSub at 1 in H. rewrite Hsb in H.
    eapply Hnew; [reflexivity| | | |exact H].
    + reflexivity.
    + intros k'.
      cbn [obs1 obs1Slot obs obsSlots set_obs1 set_obs1Slot].
      apply slot_entry_take_first.
    + exact Hshs.
Qed.

(** The example of an observable read by a memo that a render effect
    reads is consistent. *)
Lemma reading_world_linked :
  shaped BatchSpec.reading_world
  /\ sub_linked BatchSpec.reading_world
  /\ obs_linked BatchSpec.reading_world.
Proof.
  unfold BatchSpec.reading_world, ReactiveSpec.chain_world.
  split; [split|split].
  - intros s sb H. cbn in H.
    apply lookup_insert_Some in H as [[<- <-]|[_ H]]; [exact I|].
    apply lookup_singleton_Some in H as [<- <-]. exact I.
  - intros o ob H. cbn in H.
    apply lookup_insert_Some in H as [[<- <-]|[_ H]]; [exact I|].
    apply lookup_singleton_Some in H as [<- <-]. exact I.
  - intros s sb k o j H He. cbn in H.
    apply lookup_insert_Some in H as [[<- <-]|[_ H]];
      [|apply lookup_singleton_Some in H as [<- <-]];
      unfold sub_entry, slot_entry in He; cbn in He;
      destruct (Z.eqb_spec k (-1)) as [->|_];
      try (destruct (k <? 0); discriminate);
      injection He as <- <-;
      eexists; (split; [vm_compute; reflexivity|reflexivity]).
  - intros o ob j s k H He. cbn in H.
    apply lookup_insert_Some in H as [[<- <-]|[_ H]];
      [|apply lookup_singleton_Some in H as [<- <-]];
      unfold obs_entry, slot_entry in He; cbn in He;
      destruct (Z.eqb_spec j (-1)) as [->|_];
      try (destruct (j <? 0); discriminate);
      injection He as <- <-;
      eexists; (split; [vm_compute; reflexivity|reflexivity]).
Qed.

Lemma connect_keeps_links_witness :
  shaped BatchSpec.read_once /\ sub_linked BatchSpec.read_once
  /\ obs_linked BatchSpec.read_once
  /\ exists k j, edge BatchSpec.read_once 0%nat k 2%nat j.
Proof.
  apply (connect_keeps_links BatchSpec.reading_world BatchSpec.read_once
           0%nat 2%nat).
  - reflexivity.
  - apply reading_world_linked.
  - apply reading_world_linked.
  - apply reading_world_linked.
  - vm_compute. reflexivity.
Defined.

End LinkFacts.

Module UnlinkFacts.
Import Reactive LinkSpec LinkFacts.

Lemma array_set_insert {A} (hole : A) (arr : list A) (i : Z) (v : A) :
  0 <= i < Z.of_nat (length arr) ->
  array_set hole arr i v = <[Z.to_nat i := v]> arr.
Proof.
  intros Hi. unfold array_set.
  destruct (Z.ltb_spec i 0); [lia|].
  destruct (Z.ltb_spec i (Z.of_nat (length arr))); [reflexivity|lia].
Qed.

Lemma slot_entry_drop_first first fs arr slots (k : Z) :
  slot_entry None fs arr slots k
  = if k =? -1 then None else slot_entry first fs arr slots k.
Proof. unfold slot_entry. destruct (k =? -1); reflexivity. Qed.

Lemma slot_entry_insert first fs (l : list ref) (sl : list Z) (n : nat)
    (o : ref) (j k : Z) :
  length l = length sl -> (n < length l)%nat ->
  slot_entry first fs (Some (<[n := o]> l)) (Some (<[n := j]> sl)) k
  = if k =? Z.of_nat n then Some (o, j)
    else slot_entry first fs (Some l) (Some sl) k.
Proof.
  intros Hlen Hn. unfold slot_entry.
  destruct (Z.eqb_spec k (-1)) as [->|H1].
  { destruct (Z.eqb_spec (-1) (Z.of_nat n)); [lia|reflexivity]. }
  destruct (Z.ltb_spec k 0) as [H0|H0].
  { destruct (Z.eqb_spec k (Z.of_nat n)); [lia|reflexivity]. }
  destruct (Z.eqb_spec k (Z.of_nat n)) as [->|Hk].
  - rewrite Nat2Z.id, !list_lookup_insert_eq by lia. reflexivity.
  - rewrite !list_lookup_insert_ne by lia. reflexivity.
Qed.

Lemma slot_entry_set_slot first fs (l : list ref) (sl : list Z) (n : nat)
    (s : ref) (v k : Z) :
  l !! n = Some s -> (n < length sl)%nat ->
  slot_entry first fs (Some l) (Some (<[n := v]> sl)) k
  = if k =? Z.of_nat n then Some (s, v)
    else slot_entry first fs (Some l) (Some sl) k.
Proof.
  intros Hl Hn. unfold slot_entry.
  destruct (Z.eqb_spec k (-1)) as [->|H1].
  { destruct (Z.eqb_spec (-1) (Z.of_nat n)); [lia|reflexivity]. }
  destruct (Z.ltb_spec k 0) as [H0|H0].
  { destruct (Z.eqb_spec k (Z.of_nat n)); [lia|reflexivity]. }
  destruct (Z.eqb_spec k (Z.of_nat n)) as [->|Hk].
  - rewrite Nat2Z.id, Hl, list_lookup_insert_eq by lia. reflexivity.
  - rewrite list_lookup_insert_ne by lia. reflexivity.
Qed.

Lemma slot_entry_set_first (s : ref) fs arr slots (v k : Z) :
  slot_entry (Some s) v arr slots k
  = if k =? -1 then Some (s, v) else slot_entry (Some s) fs arr slots k.
Proof. unfold slot_entry. destruct (k =? -1); reflexivity. Qed.

(** A slot of the arrays names an index below their lengths. *)
Lemma slot_entry_in_range first fs (l : list ref) (sl : list Z) (k : Z)
    (e : ref * Z) :
  k <> -1 ->
  slot_entry first fs (Some l) (Some sl) k = Some e ->
  0 <= k /\ (Z.to_nat k < length l)%nat /\ (Z.to_nat k < length sl)%nat
  /\ l !! Z.to_nat k = Some e.1 /\ sl !! Z.to_nat k = Some e.2.
Proof.
  intros Hk. unfold slot_entry.
  destruct (Z.eqb_spec k (-1)); [lia|].
  destruct (Z.ltb_spec k 0); [discriminate|].
  destruct (l !! Z.to_nat k) as [o|] eqn:Hl; [|discriminate].
  destruct (sl !! Z.to_nat k) as [j|] eqn:Hs; [|discriminate].
  intros [= <-]. apply lookup_lt_Some in Hl as Hl'.
  apply lookup_lt_Some in Hs as Hs'. cbn. auto with lia.
Qed.

Lemma same_srcs_refl (a : Observer) : same_srcs a a.
Proof. repeat split. Qed.

Lemma same_sources_refl (w : World) : same_sources w w.
Proof.
  intros o. destruct (observers w !! o); [apply same_srcs_refl|exact I].
Qed.

(** A subscription loses the slot [slot], the observers stay as they
    are. *)
Lemma drop_slot (w : World) (this : ref) (sb sb' : SourceSub) (slot : Z)
    (o : ref) (j : Z) :
  subscriptions w !! this = Some sb ->
  sub_linked w ->
  sub_entry sb slot = Some (o, j) ->
  (forall k, sub_entry sb' k = if k =? slot then None else sub_entry sb k) ->
  let w' := set_subscriptions (<[this := sb']> (subscriptions w)) w in
  sub_linked w'
  /\ (forall done, obs_linked_but w o done ->
                   obs_linked_but w' o (fun x => done x \/ x = j))
  /\ same_sources w w'.
Proof.
  intros Hsb Hsl He Hent w'. subst w'. split; [|split].
  - intros s x k o' j' Hx Hxe.
    cbn [subscriptions observers set_subscriptions] in *.
    destruct (decide (s = this)) as [->|Hne].
    + rewrite lookup_insert_eq in Hx. injection Hx as <-.
      rewrite Hent in Hxe. destruct (k =? slot); [discriminate|].
      apply (Hsl this sb k o' j' Hsb Hxe).
    + rewrite lookup_insert_ne in Hx by congruence.
      apply (Hsl s x k o' j' Hx Hxe).
  - intros done Hol o' ob j' s k Hob Hoe Hnot.
    cbn [subscriptions observers set_subscriptions] in *.
    destruct (Hol o' ob j' s k Hob Hoe) as (x & Hx & Hxe); [tauto|].
    destruct (decide (s = this)) as [->|Hne].
    + assert (x = sb) by congruence. subst x.
      exists sb'. rewrite lookup_insert_eq, Hent.
      destruct (Z.eqb_spec k slot) as [->|_]; [|auto].
      exfalso. apply Hnot. rewrite He in Hxe. injection Hxe as <- <-. auto.
    + exists x. rewrite lookup_insert_ne by congruence. auto.
  - intros o'. cbn [observers set_subscriptions].
    destruct (observers w !! o'); [apply same_srcs_refl|exact I].
Qed.

(** The last slot of a subscription moves to [slot], and the observer
    it names is told. *)
Lemma move_last (w : World) (this lastObs : ref) (sb sb' : SourceSub)
    (lob lob' : Observer) (lastIdx lastSlot slot : Z) (o : ref) (j : Z) :
  subscriptions w !! this = Some sb ->
  observers w !! lastObs = Some lob ->
  sub_linked w ->
  sub_entry sb slot = Some (o, j) ->
  sub_entry sb lastIdx = Some (lastObs, lastSlot) ->
  slot <> lastIdx ->
  (forall k, sub_entry sb' k
             = if k =? slot then Some (lastObs, lastSlot)
               else if k =? lastIdx then None else sub_entry sb k) ->
  (forall j, obs_entry lob' j
             = if j =? lastSlot then Some (this, slot) else obs_entry lob j) ->
  same_srcs lob lob' ->
  let w' := set_observers (<[lastObs := lob']> (observers w))
              (set_subscriptions (<[this := sb']> (subscriptions w)) w) in
  sub_linked w'
  /\ (forall done, obs_linked_but w o done ->
                   obs_linked_but w' o (fun x => done x \/ x = j))
  /\ same_sources w w'.
Proof.
  intros Hsb Hlob Hsl He Hlast Hne Hsb' Hlob' Hsame w'. subst w'.
  destruct (Hsl this sb lastIdx lastObs lastSlot Hsb Hlast)
    as (lob0 & Hlob0 & Hback).
  assert (lob0 = lob) by congruence. subst lob0.
  split; [|split].
  - intros s x k o' j' Hx Hxe.
    cbn [subscriptions observers set_subscriptions set_observers] in *.
    assert (Hother : forall s0 k0 o0 j0 x0,
               subscriptions w !! s0 = Some x0 ->
               sub_entry x0 k0 = Some (o0, j0) ->
               (s0, k0) <> (this, lastIdx) ->
               exists ob, <[lastObs := lob']> (observers w) !! o0 = Some ob
                          /\ obs_entry ob j0 = Some (s0, k0)).
    { intros s0 k0 o0 j0 x0 Hx0 He0 Hn0.
      destruct (Hsl s0 x0 k0 o0 j0 Hx0 He0) as (ob & Hob & Hoe).
      destruct (decide (o0 = lastObs)) as [->|Hol].
      - assert (ob = lob) by congruence. subst ob.
        exists lob'. rewrite lookup_insert_eq, Hlob'.
        destruct (Z.eqb_spec j0 lastSlot) as [->|_]; [congruence|]. auto.
      - exists ob. rewrite lookup_insert_ne by congruence. auto. }
    destruct (decide (s = this)) as [->|Hst].
    + rewrite lookup_insert_eq in Hx. injection Hx as <-.
      rewrite Hsb' in Hxe.
      destruct (Z.eqb_spec k slot) as [Hks|Hks].
      * injection Hxe as <- <-. exists lob'.
        rewrite lookup_insert_eq, Hlob', Z.eqb_refl. subst k. auto.
      * destruct (Z.eqb_spec k lastIdx) as [Hkl|Hkl]; [discriminate|].
        apply (Hother this k o' j' sb Hsb Hxe). congruence.
    + rewrite lookup_insert_ne in Hx by congruence.
      apply (Hother s k o' j' x Hx Hxe). congruence.
  - intros done Hol o' ob j' s k Hob Hoe Hnot.
    cbn [subscriptions observers set_subscriptions set_observers] in *.
    assert (Hold : forall ob0,
               observers w !! o' = Some ob0 ->
               obs_entry ob0 j' = Some (s, k) ->
               (o', j') <> (lastObs, lastSlot) ->
               exists x, <[this := sb']> (subscriptions w) !! s = Some x
                         /\ sub_entry x k = Some (o', j')).
    { intros ob0 Hob0 Hoe0 Hnl.
      destruct (Hol o' ob0 j' s k Hob0 Hoe0) as (x & Hx & Hxe); [tauto|].
      destruct (decide (s = this)) as [->|Hst].
      - assert (x = sb) by congruence. subst x.
        exists sb'. rewrite lookup_insert_eq, Hsb'.
        destruct (Z.eqb_spec k slot) as [Hks|Hks].
        { exfalso. apply Hnot. subst k. rewrite He in Hxe.
          injection Hxe as <- <-. auto. }
        destruct (Z.eqb_spec k lastIdx) as [Hkl|Hkl]; [|auto].
        exfalso. apply Hnl. subst k. congruence.
      - exists x. rewrite lookup_insert_ne by congruence. auto. }
    destruct (decide (o' = lastObs)) as [->|Hol'].
    + rewrite lookup_insert_eq in Hob. injection Hob as <-.
      rewrite Hlob' in Hoe.
      destruct (Z.eqb_spec j' lastSlot) as [Hjl|Hjl].
      * injection Hoe as <- <-. exists sb'.
        rewrite lookup_insert_eq, Hsb', Z.eqb_refl. subst j'. auto.
      * apply (Hold lob Hlob Hoe). congruence.
    + rewrite lookup_insert_ne in Hob by congruence.
      apply (Hold ob Hob Hoe). congruence.
  - intros o'. cbn [observers set_observers set_subscriptions].
    destruct (decide (o' = lastObs)) as [->|Hol'].
    + rewrite lookup_insert_eq, Hlob. exact Hsame.
    + rewrite lookup_insert_ne by congruence.
      destruct (observers w !! o'); [apply same_srcs_refl|exact I].
Qed.

(** [disconnect(slot)] on a slot that is taken. *)
Lemma disconnect_slot (w : World) (this : ref) (sb : SourceSub)
    (slot : Z) (o : ref) (j : Z) :
  subscriptions w !! this = Some sb ->
  sub_shaped sb ->
  sub_linked w ->
  sub_entry sb slot = Some (o, j) ->
  exists w' sb',
    SourceSub_disconnect this slot w = Ok tt w'
    /\ subscriptions w' = <[this := sb']> (subscriptions w)
    /\ sub_shaped sb'
    /\ (forall e', (exists k, sub_entry sb' k = Some e')
                   <-> (exists k, k <> slot /\ sub_entry sb k = Some e'))
    /\ sub_linked w'
    /\ (forall done, obs_linked_but w o done ->
                     obs_linked_but w' o (fun x => done x \/ x = j))
    /\ same_sources w w'.
Proof.
  intros Hsb Hsh Hsl He.
  unfold SourceSub_disconnect.
  destruct (Z.eqb_spec slot (-1)) as [->|Hs1].
  { unfold updSub. rewrite Hsb.
    eexists _, _. split; [reflexivity|]. split; [reflexivity|].
    split; [exact Hsh|].
    assert (Hent : forall k, sub_entry (set_obs1 None sb) k
                             = if k =? -1 then None else sub_entry sb k).
    { intros k. unfold sub_entry. cbn [obs1 obs1Slot obs obsSlots set_obs1].
      apply slot_entry_drop_first. }
    split.
    - intros e'. split.
      + intros [k Hk]. rewrite Hent in Hk.
        destruct (Z.eqb_spec k (-1)); [discriminate|]. eauto.
      + intros (k & Hk & Hke). exists k. rewrite Hent.
        destruct (Z.eqb_spec k (-1)); [lia|]. exact Hke.
    - apply (drop_slot w this sb _ (-1) o j Hsb Hsl He Hent). }
  unfold bind at 1, getSub at 1. rewrite Hsb.
  unfold sub_shaped, arrays_shaped in Hsh.
  destruct (obs sb) as [l|] eqn:Hl.
  2:{ unfold sub_entry in He. rewrite Hl in He.
      unfold slot_entry in He.
      destruct (Z.eqb_spec slot (-1)); [lia|].
      destruct (slot <? 0); discriminate. }
  destruct (obsSlots sb) as [sl|] eqn:Hsls; [|contradiction].
  assert (Hin : 0 <= slot /\ (Z.to_nat slot < length l)%nat).
  { pose proof He as He'. unfold sub_entry in He'. rewrite Hl, Hsls in He'.
    apply slot_entry_in_range in He'; [|exact Hs1]. lia. }
  destruct l as [|lastObs l0 _] using rev_ind; [cbn in Hin; lia|].
  destruct sl as [|lastSlot sl0 _] using rev_ind.
  { rewrite length_app in Hsh. cbn in Hsh. lia. }
  repeat rewrite length_app in Hsh. repeat rewrite length_app in Hin.
  cbn [length] in Hsh, Hin.
  assert (Hlen : length l0 = length sl0) by lia.
  rewrite !last_snoc, !removelast_last.
  assert (Hold : forall k, sub_entry sb k
                   = if k =? Z.of_nat (length l0)
                     then Some (lastObs, lastSlot)
                     else slot_entry (obs1 sb) (obs1Slot sb)
                            (Some l0) (Some sl0) k).
  { intros k. unfold sub_entry. rewrite Hl, Hsls.
    apply slot_entry_push. exact Hlen. }
  destruct (Z.eqb_spec slot (Z.of_nat (length l0))) as [Hsl0|Hnl].
  { unfold updSub. rewrite Hsb.
    eexists _, _. split; [reflexivity|]. split; [reflexivity|].
    split; [exact Hlen|].
    assert (Hent : forall k,
               sub_entry (set_obsSlots (Some sl0) (set_obs (Some l0) sb)) k
               = if k =? slot then None else sub_entry sb k).
    { intros k. rewrite Hold, Hsl0. unfold sub_entry.
      cbn [obs1 obs1Slot obs obsSlots set_obs set_obsSlots].
      destruct (Z.eqb_spec k (Z.of_nat (length l0))) as [->|]; [|reflexivity].
      apply slot_entry_past. lia. }
    split.
    - intros e'. split.
      + intros [k Hk]. rewrite Hent in Hk.
        destruct (Z.eqb_spec k slot); [discriminate|]. eauto.
      + intros (k & Hk & Hke). exists k. rewrite Hent.
        destruct (Z.eqb_spec k slot); [lia|]. exact Hke.
    - apply (drop_slot w this sb _ slot o j Hsb Hsl He Hent). }
  assert (Hlast : sub_entry sb (Z.of_nat (length l0))
                  = Some (lastObs, lastSlot))
    by (rewrite Hold, Z.eqb_refl; reflexivity).
  destruct (Hsl this sb _ lastObs lastSlot Hsb Hlast) as (lob & Hlob & Hback).
  unfold bind at 1, updSub at 1. rewrite Hsb.
  rewrite !array_set_insert by lia.
  set (sb' := set_obsSlots (Some (<[Z.to_nat slot := lastSlot]> sl0))
                (set_obs (Some (<[Z.to_nat slot := lastObs]> l0)) sb)).
  assert (Hent : forall k,
             sub_entry sb' k
             = if k =? slot then Some (lastObs, lastSlot)
               else if k =? Z.of_nat (length l0) then None
               else sub_entry sb k).
  { intros k. rewrite Hold. unfold sub_entry, sb'.
    cbn [obs1 obs1Slot obs obsSlots set_obs set_obsSlots].
    rewrite slot_entry_insert by lia. rewrite Z2Nat.id by lia.
    destruct (Z.eqb_spec k slot); [reflexivity|].
    destruct (Z.eqb_spec k (Z.of_nat (length l0))) as [->|]; [|reflexivity].
    apply slot_entry_past. lia. }
  assert (Hkeep : forall e', (exists k, sub_entry sb' k = Some e')
                   <-> (exists k, k <> slot /\ sub_entry sb k = Some e')).
  { intros e'. split.
    - intros [k Hk]. rewrite Hent in Hk.
      destruct (Z.eqb_spec k slot) as [Hks|Hks].
      + injection Hk as <-. exists (Z.of_nat (length l0)). auto.
      + destruct (Z.eqb_spec k (Z.of_nat (length l0))); [discriminate|]. eauto.
    - intros (k & Hk & Hke).
      destruct (Z.eqb_spec k (Z.of_nat (length l0))) as [->|Hkl].
      + exists slot. rewrite Hent, Z.eqb_refl. congruence.
      + exists k. rewrite Hent.
        destruct (Z.eqb_spec k slot); [lia|].
        destruct (Z.eqb_spec k (Z.of_nat (length l0))); [lia|]. exact Hke. }
  assert (Hsh' : sub_shaped sb').
  { unfold sub_shaped, arrays_shaped, sb'.
    cbn [obs obsSlots set_obs set_obsSlots].
    rewrite !length_insert. exact Hlen. }
  destruct (Z.eqb_spec lastSlot (-1)) as [->|Hls].
  - unfold updObs. cbn [observers set_subscriptions]. rewrite Hlob.
    eexists _, sb'. split; [reflexivity|]. split; [reflexivity|].
    split; [exact Hsh'|]. split; [exact Hkeep|].
    eapply (move_last w this lastObs sb sb' lob _ _ (-1) slot o j
              Hsb Hlob Hsl He Hlast Hnl Hent).
    + intros j0. unfold obs_entry in *.
      cbn [src1 src1Slot srcs srcSlots set_src1Slot].
      unfold slot_entry in Hback |- *. cbn [Z.eqb] in Hback.
      destruct (src1 lob) as [s1|]; [|discriminate].
      injection Hback as -> _.
      destruct (j0 =? -1); reflexivity.
    + repeat split.
  - unfold bind at 1, getObs at 1. cbn [observers set_subscriptions].
    rewrite Hlob.
    unfold obs_entry in Hback.
    destruct (srcs lob) as [ss|] eqn:Hss.
    2:{ unfold slot_entry in Hback.
        destruct (Z.eqb_spec lastSlot (-1)); [lia|].
        destruct (lastSlot <? 0); discriminate. }
    destruct (srcSlots lob) as [sss|] eqn:Hsss.
    2:{ unfold slot_entry in Hback.
        destruct (Z.eqb_spec lastSlot (-1)); [lia|].
        destruct (lastSlot <? 0); discriminate. }
    apply slot_entry_in_range in Hback as (H0 & Hr1 & Hr2 & Hb1 & Hb2);
      [|exact Hls].
    cbn [fst snd] in Hb1, Hb2.
    unfold updObs. cbn [observers set_subscriptions]. rewrite Hlob.
    rewrite array_set_insert by lia.
    eexists _, sb'. split; [reflexivity|]. split; [reflexivity|].
    split; [exact Hsh'|]. split; [exact Hkeep|].
    eapply (move_last w this lastObs sb sb' lob _ _ lastSlot slot o j
              Hsb Hlob Hsl He Hlast Hnl Hent).
    + intros j0. unfold obs_entry.
      cbn [src1 src1Slot srcs srcSlots set_srcSlots]. rewrite Hss, Hsss.
      rewrite (slot_entry_set_slot _ _ ss sss (Z.to_nat lastSlot) this)
        by assumption.
      rewrite Z2Nat.id by lia. reflexivity.
    + unfold same_srcs. cbn [src1 srcs srcSlots set_srcSlots].
      rewrite Hsss. cbn. rewrite length_insert. auto.
Qed.

(** X20. [disconnect(slot)] on a slot that is taken, in a state where
    every slot of a subscription is answered by the observer it names:
    the call returns, the subscription keeps exactly the entries of
    its other slots (the last one moved into the freed slot), no
    other subscription changes, and every slot of every subscription
    is still answered by its observer. *)
Theorem disconnect_frees_one_slot (w : World) (this : ref) (sb : SourceSub)
    (slot : Z) (e : ref * Z) :
  subscriptions w !! this = Some sb ->
  sub_shaped sb ->
  sub_linked w ->
  sub_entry sb slot = Some e ->
  exists w' sb',
    SourceSub_disconnect this slot w = Ok tt w'
    /\ subscriptions w' = <[this := sb']> (subscriptions w)
    /\ sub_shaped sb'
    /\ (forall e', (exists k, sub_entry sb' k = Some e')
                   <-> (exists k, k <> slot /\ sub_entry sb k = Some e'))
    /\ sub_linked w'.
Proof.
  intros Hsb Hsh Hsl He. destruct e as [o j].
  destruct (disconnect_slot w this sb slot o j Hsb Hsh Hsl He)
    as (w' & sb' & H1 & H2 & H3 & H4 & H5 & _).
  exists w', sb'. auto.
Qed.

Lemma shared_world_linked : sub_linked shared_world.
Proof.
  intros s sb k o j H He. unfold shared_world in H. cbn in H.
  apply lookup_singleton_Some in H as [<- <-].
  unfold sub_entry, slot_entry in He. cbn in He.
  destruct (Z.eqb_spec k (-1)) as [->|Hk].
  { injection He as <- <-.
    eexists. split; [vm_compute; reflexivity|reflexivity]. }
  destruct (Z.ltb_spec k 0); [discriminate|].
  destruct (Z.to_nat k) as [|[|n]] eqn:E; cbn in He; try discriminate;
    injection He as <- <-.
  - assert (k = 0) as -> by lia.
    eexists. split; [vm_compute; reflexivity|reflexivity].
  - assert (k = 1) as -> by lia.
    eexists. split; [vm_compute; reflexivity|reflexivity].
Qed.

Lemma disconnect_frees_one_slot_witness :
  exists w' sb',
    SourceSub_disconnect 0%nat 0 shared_world = Ok tt w'
    /\ subscriptions w'
       = <[0%nat := sb']> (subscriptions shared_world)
    /\ sub_shaped sb'
    /\ (forall e', (exists k, sub_entry sb' k = Some e')
                   <-> (exists k, k <> 0
                                  /\ sub_entry
                                       (mkSourceSub (Some 1%nat) (-1)
                                          (Some [2%nat; 3%nat]) (Some [-1; -1]))
                                       k = Some e'))
    /\ sub_linked w'.
Proof.
  apply (disconnect_frees_one_slot shared_world 0%nat _ 0 (2%nat, -1)).
  - vm_compute. reflexivity.
  - reflexivity.
  - exact shared_world_linked.
  - reflexivity.
Defined.

End UnlinkFacts.

Module UnsubscribeFacts.
Import Reactive LinkSpec LinkFacts UnlinkFacts.

Lemma obs_shaped_same (a b : Observer) :
  same_srcs a b -> obs_shaped a -> obs_shaped b.
Proof.
  intros (_ & H2 & H3). unfold obs_shaped, arrays_shaped. rewrite H2.
  destruct (srcs a); destruct (srcSlots a); destruct (srcSlots b);
    cbn in H3; try discriminate; try tauto.
  injection H3 as H3. lia.
Qed.

Lemma same_srcs_trans (a b c : Observer) :
  same_srcs a b -> same_srcs b c -> same_srcs a c.
Proof.
  intros (A1 & A2 & A3) (B1 & B2 & B3). repeat split; congruence.
Qed.

Lemma same_sources_trans (w1 w2 w3 : World) :
  same_sources w1 w2 -> same_sources w2 w3 -> same_sources w1 w3.
Proof.
  intros H12 H23 o. specialize (H12 o). specialize (H23 o).
  destruct (observers w1 !! o), (observers w2 !! o), (observers w3 !! o);
    try tauto.
  eapply same_srcs_trans; eassumption.
Qed.

Lemma same_sources_others (w0 w1 w2 : World) (o : ref) :
  others_keep w0 w1 o -> same_sources w1 w2 -> others_keep w0 w2 o.
Proof.
  intros H01 H12 o' a Hne Ha.
  destruct (H01 o' a Hne Ha) as (b & Hb & E1 & E2).
  specialize (H12 o'). rewrite Hb in H12.
  destruct (observers w2 !! o') as [c|]; [|contradiction].
  destruct H12 as (C1 & C2 & _). exists c. repeat split; congruence.
Qed.

Lemma obs_linked_all (w : World) (o : ref) :
  obs_linked w <-> obs_linked_but w o (fun _ => False).
Proof.
  split.
  - intros H o' ob j s k Hob He _. eapply H; eassumption.
  - intros H o' ob j s k Hob He. eapply H; [eassumption..|tauto].
Qed.

Lemma unsubscribing_ext (w : World) (o : ref) (P Q : Z -> Prop) :
  (forall j, P j <-> Q j) -> unsubscribing w o P -> unsubscribing w o Q.
Proof.
  intros HPQ (A & B & C & D). repeat split; try assumption; try apply A.
  - intros o' ob j s k Hob He Hn. eapply C; [eassumption..|].
    rewrite HPQ. exact Hn.
  - intros s sb k j Hs He Hq. eapply D; [eassumption..|].
    rewrite HPQ. exact Hq.
Qed.

(** One subscription of [o] given up on the subscription's side. *)
Lemma slot_step (w : World) (o : ref) (x : Observer) (j : Z) (s : ref)
    (k : Z) (done : Z -> Prop) :
  unsubscribing w o done ->
  observers w !! o = Some x ->
  obs_entry x j = Some (s, k) ->
  ~ done j ->
  exists w',
    SourceSub_disconnect s k w = Ok tt w'
    /\ unsubscribing w' o (fun z => done z \/ z = j)
    /\ same_sources w w'.
Proof.
  intros ([Hs1 Hs2] & Hsl & Hol & Hrel) Hx He Hnd.
  destruct (Hol o x j s k Hx He) as (sb & Hsb & Hse); [tauto|].
  destruct (disconnect_slot w s sb k o j Hsb (Hs1 s sb Hsb) Hsl Hse)
    as (w' & sb' & Hrun & Hsubs & Hsh' & Hkeep & Hsl' & Hol' & Hsame).
  exists w'. split; [exact Hrun|]. split; [|exact Hsame].
  split; [split|split; [exact Hsl'|split; [apply Hol'; exact Hol|]]].
  - intros s0 x0. rewrite Hsubs.
    destruct (decide (s0 = s)) as [->|Hne].
    + rewrite lookup_insert_eq. intros [= <-]. exact Hsh'.
    + rewrite lookup_insert_ne by congruence. apply Hs1.
  - intros o' b Hb. specialize (Hsame o'). rewrite Hb in Hsame.
    destruct (observers w !! o') as [a|] eqn:Ha; [|contradiction].
    apply (obs_shaped_same a b Hsame). apply (Hs2 o' a Ha).
  - intros s0 x0 k0 j0 Hx0 He0. rewrite Hsubs in Hx0.
    destruct (decide (s0 = s)) as [->|Hne].
    + rewrite lookup_insert_eq in Hx0. injection Hx0 as <-.
      destruct (proj1 (Hkeep (o, j0))) as (k1 & Hk1 & He1); [eauto|].
      intros [Hd| ->].
      * exact (Hrel s sb k1 j0 Hsb He1 Hd).
      * destruct (Hsl s sb k1 o j Hsb He1) as (x1 & Hx1 & Hxe1).
        assert (x1 = x) by congruence. subst x1. congruence.
    + rewrite lookup_insert_ne in Hx0 by congruence.
      intros [Hd| ->].
      * exact (Hrel s0 x0 k0 j0 Hx0 He0 Hd).
      * destruct (Hsl s0 x0 k0 o j Hx0 He0) as (x1 & Hx1 & Hxe1).
        assert (x1 = x) by congruence. subst x1. congruence.
Qed.

(** The observer [o] replaced by one that lost the slots given up. *)
Lemma replace_observer (w : World) (o : ref) (x y : Observer)
    (done done' : Z -> Prop) :
  observers w !! o = Some x ->
  (forall j e, obs_entry y j = Some e -> obs_entry x j = Some e) ->
  (forall j e, ~ done j -> obs_entry x j = Some e -> obs_entry y j = Some e) ->
  (forall j e, obs_entry y j = Some e -> done j -> done' j) ->
  (forall j, done' j -> done j) ->
  obs_shaped y ->
  unsubscribing w o done ->
  unsubscribing (set_observers (<[o := y]> (observers w)) w) o done'.
Proof.
  intros Hx HA HB HC HD Hshy ([Hs1 Hs2] & Hsl & Hol & Hrel).
  split; [split|split; [|split]].
  - exact Hs1.
  - intros o' b. cbn [observers set_observers].
    destruct (decide (o' = o)) as [->|Hne].
    + rewrite lookup_insert_eq. intros [= <-]. exact Hshy.
    + rewrite lookup_insert_ne by congruence. apply Hs2.
  - intros s sb k o' j Hsb He.
    cbn [observers subscriptions set_observers] in *.
    destruct (Hsl s sb k o' j Hsb He) as (a & Ha & Hae).
    destruct (decide (o' = o)) as [->|Hne].
    + assert (a = x) by congruence. subst a.
      exists y. rewrite lookup_insert_eq. split; [reflexivity|].
      apply HB; [|exact Hae]. exact (Hrel s sb k j Hsb He).
    + exists a. rewrite lookup_insert_ne by congruence. auto.
  - intros o' b j s k Hb He Hn.
    cbn [observers subscriptions set_observers] in *.
    destruct (decide (o' = o)) as [->|Hne].
    + rewrite lookup_insert_eq in Hb. injection Hb as <-.
      apply (Hol o x j s k Hx (HA _ _ He)).
      intros [_ Hd]. apply Hn. split; [reflexivity|].
      exact (HC j _ He Hd).
    + rewrite lookup_insert_ne in Hb by congruence.
      apply (Hol o' b j s k Hb He). tauto.
  - intros s sb k j Hsb He Hd'. cbn [subscriptions set_observers] in Hsb.
    exact (Hrel s sb k j Hsb He (HD j Hd')).
Qed.

Lemma obs_entry_index (x : Observer) (l : list ref) (slots : list Z)
    (i : nat) (s : ref) (k : Z) :
  srcs x = Some l -> srcSlots x = Some slots ->
  l !! i = Some s -> slots !! i = Some k ->
  obs_entry x (Z.of_nat i) = Some (s, k).
Proof.
  intros Hl Hs Hli Hsi. unfold obs_entry, slot_entry. rewrite Hl, Hs.
  destruct (Z.eqb_spec (Z.of_nat i) (-1)); [lia|].
  destruct (Z.ltb_spec (Z.of_nat i) 0); [lia|].
  rewrite Nat2Z.id, Hli, Hsi. reflexivity.
Qed.

Section Disconnect.
Variable run_cleanup : ref -> bool -> M unit.

Lemma disconnect_unfold (n : nat) (o : ref) (final : bool) :
  disconnect run_cleanup (S n) o final
  = (do ob <- getObs o;
     exec match cleanups ob with
          | Some cs =>
              exec forM_ cs (fun c => run_cleanup c final);
              updObs o (set_cleanups None)
          | None => ret tt
          end;
     exec updObs o (set_ctx None);
     exec match owned ob with
          | Some l =>
              exec forM_ l (dispose run_cleanup n);
              updObs o (set_owned None)
          | None => ret tt
          end;
     exec match src1 ob with
          | Some s1 =>
              do ob1 <- getObs o;
              exec SourceSub_disconnect s1 (src1Slot ob1);
              updObs o (set_src1 None)
          | None => ret tt
          end;
     match srcs ob with
     | Some l =>
         exec forM_ (imap (fun i s => (Z.of_nat i, s)) l)
                (fun '(i, s) =>
                   do obi <- getObs o;
                   match srcSlots obi with
                   | Some slots => SourceSub_disconnect s (array_get 0 slots i)
                   | None => throw TypeError
                   end);
         updObs o (fun ob => set_srcSlots None (set_srcs None ob))
     | None => ret tt
     end)%js.
Proof. reflexivity. Qed.

(** The loop over [srcs], from index [i] on. *)
Lemma unsubscribe_loop (o : ref) (l : list ref) :
  forall (rest : list ref) (i : nat) (wk : World),
    drop i l = rest -> (i <= length l)%nat ->
    unsubscribing wk o (fun j => 0 <= j < Z.of_nat i) ->
    (exists x, observers wk !! o = Some x /\ srcs x = Some l) ->
    exists wk',
      forM_ (imap (fun i' s => (Z.of_nat (i + i'), s)) rest)
        (fun '(i, s) =>
           do obi <- getObs o;
           match srcSlots obi with
           | Some slots => SourceSub_disconnect s (array_get 0 slots i)
           | None => throw TypeError
           end)%js wk = Ok tt wk'
      /\ unsubscribing wk' o (fun j => 0 <= j < Z.of_nat (length l))
      /\ same_sources wk wk'.
Proof.
  induction rest as [|s rest IH]; intros i wk Hdrop Hi Hinv (x & Hx & Hl).
  - exists wk. split; [reflexivity|].
    assert (i = length l).
    { apply (f_equal length) in Hdrop. rewrite length_drop in Hdrop.
      cbn in Hdrop. lia. }
    subst i. split; [exact Hinv|apply same_sources_refl].
  - assert (Hli : l !! i = Some s).
    { rewrite <- (Nat.add_0_r i), <- lookup_drop, Hdrop. reflexivity. }
    assert (Hrest : drop (S i) l = rest).
    { rewrite (drop_S l s i Hli) in Hdrop. congruence. }
    apply lookup_lt_Some in Hli as Hlt.
    pose proof (proj2 (proj1 Hinv) o x Hx) as Hshx.
    unfold obs_shaped, arrays_shaped in Hshx. rewrite Hl in Hshx.
    destruct (srcSlots x) as [slots|] eqn:Hslots; [|contradiction].
    destruct (lookup_lt_is_Some_2 slots i) as [k Hk]; [lia|].
    destruct (slot_step wk o x (Z.of_nat i) s k _ Hinv Hx
                (obs_entry_index x l slots i s k Hl Hslots Hli Hk))
      as (wk1 & Hrun & Hinv1 & Hsame1); [lia|].
    destruct (IH (S i) wk1 Hrest) as (wk' & Hrun' & Hinv' & Hsame').
    { lia. }
    { eapply unsubscribing_ext; [|exact Hinv1]. intros j. cbn beta. lia. }
    { specialize (Hsame1 o). rewrite Hx in Hsame1.
      destruct (observers wk1 !! o) as [x1|]; [|contradiction].
      exists x1. split; [reflexivity|].
      destruct Hsame1 as (_ & E & _). congruence. }
    exists wk'. split; [|split; [exact Hinv'|]].
    + cbn [imap forM_].
      rewrite (imap_ext _ (fun i' s0 => (Z.of_nat (S i + i'), s0)))
        by (intros; cbn; f_equal; lia).
      erewrite BatchFacts.bind_ok; [exact Hrun'|].
      unfold bind at 1, getObs at 1. rewrite Hx, Hslots.
      rewrite Nat.add_0_r, IndexArrayFacts.array_get_nat, Hk.
      exact Hrun.
    + eapply same_sources_trans; eassumption.
Qed.

(** X21. [disconnect] of an observer with no cleanups and no owned
    computations, in a consistent state: the call returns, the
    state is consistent again, no subscription holds the observer
    any longer and the observer holds none, while every other
    observer holds the subscriptions it held. *)
Theorem disconnect_unsubscribes_everywhere (n : nat) (w : World) (o : ref)
    (ob : Observer) (final : bool) :
  observers w !! o = Some ob ->
  cleanups ob = None -> owned ob = None ->
  shaped w -> sub_linked w -> obs_linked w ->
  exists w' ob',
    disconnect run_cleanup (S n) o final w = Ok tt w'
    /\ shaped w' /\ sub_linked w' /\ obs_linked w'
    /\ (forall s sb k j, subscriptions w' !! s = Some sb ->
                         sub_entry sb k <> Some (o, j))
    /\ observers w' !! o = Some ob'
    /\ src1 ob' = None /\ srcs ob' = None /\ srcSlots ob' = None
    /\ others_keep w w' o.
Proof.
  intros Hob Hcl Hown Hsh Hsl Hol.
  rewrite disconnect_unfold.
  erewrite BatchFacts.bind_ok by (unfold getObs; rewrite Hob; reflexivity).
  rewrite Hcl, Hown.
  erewrite BatchFacts.bind_ok by reflexivity.
  erewrite BatchFacts.bind_ok by (unfold updObs; rewrite Hob; reflexivity).
  erewrite BatchFacts.bind_ok by reflexivity.
  set (ob1 := set_ctx None ob).
  set (w1 := set_observers (<[o := ob1]> (observers w)) w).
  assert (Hob1 : observers w1 !! o = Some ob1)
    by (unfold w1; cbn; apply lookup_insert_eq).
  assert (Hinv1 : unsubscribing w1 o (fun _ => False)).
  { apply (replace_observer w o ob ob1 (fun _ => False) (fun _ => False)).
    - exact Hob.
    - intros j e H. exact H.
    - intros j e _ H. exact H.
    - intros j e _ [].
    - tauto.
    - exact (proj2 Hsh o ob Hob).
    - repeat split; try assumption; try apply Hsh.
      + apply obs_linked_all. exact Hol.
      + intros s sb k j _ _ []. }
  assert (Hoth1 : others_keep w w1 o).
  { intros o' a Hne Ha. exists a. unfold w1. cbn.
    rewrite lookup_insert_ne by congruence. auto. }
  clearbody w1.
  (* the first slot *)
  assert (Hfirst : exists w3 x3,
             match src1 ob with
             | Some s1 =>
                 (do ob1 <- getObs o;
                  exec SourceSub_disconnect s1 (src1Slot ob1);
                  updObs o (set_src1 None))%js
             | None => ret tt
             end w1 = Ok tt w3
             /\ unsubscribing w3 o (fun _ => False)
             /\ observers w3 !! o = Some x3
             /\ src1 x3 = None /\ srcs x3 = srcs ob
             /\ others_keep w w3 o).
  { destruct (src1 ob) as [s1|] eqn:Hs1.
    - assert (He : obs_entry ob1 (-1) = Some (s1, src1Slot ob1)).
      { unfold obs_entry, slot_entry, ob1. cbn. rewrite Hs1. reflexivity. }
      destruct (slot_step w1 o ob1 (-1) s1 (src1Slot ob1) _ Hinv1 Hob1 He)
        as (w2 & Hrun & Hinv2 & Hsame2); [tauto|].
      pose proof (Hsame2 o) as Ho. rewrite Hob1 in Ho.
      destruct (observers w2 !! o) as [x2|] eqn:Hx2; [|contradiction].
      destruct Ho as (E1 & E2 & E3).
      exists (set_observers (<[o := set_src1 None x2]> (observers w2)) w2),
             (set_src1 None x2).
      split.
      { erewrite BatchFacts.bind_ok
          by (unfold getObs; rewrite Hob1; reflexivity).
        erewrite BatchFacts.bind_ok by exact Hrun.
        unfold updObs. rewrite Hx2. reflexivity. }
      assert (Hent : forall j, obs_entry (set_src1 None x2) j
                               = if j =? -1 then None else obs_entry x2 j).
      { intros j. unfold obs_entry.
        cbn [src1 src1Slot srcs srcSlots set_src1].
        apply slot_entry_drop_first. }
      split.
      { apply (replace_observer w2 o x2 _ (fun z => False \/ z = -1)
                 (fun _ => False)).
        - exact Hx2.
        - intros j e. rewrite Hent. destruct (j =? -1); [discriminate|auto].
        - intros j e Hn. rewrite Hent.
          destruct (Z.eqb_spec j (-1)); [tauto|auto].
        - intros j e. rewrite Hent.
          destruct (Z.eqb_spec j (-1)); [discriminate|]. lia.
        - tauto.
        - exact (proj2 (proj1 Hinv2) o x2 Hx2).
        - exact Hinv2. }
      split; [cbn; apply lookup_insert_eq|].
      split; [reflexivity|].
      split; [cbn [srcs set_src1]; unfold ob1 in E2; exact E2|].
      intros o' a Hne Ha.
      destruct (same_sources_others w w1 w2 o Hoth1 Hsame2 o' a Hne Ha)
        as (b & Hb & Hb1 & Hb2).
      exists b. cbn. rewrite lookup_insert_ne by congruence. auto.
    - exists w1, ob1. split; [reflexivity|]. split; [exact Hinv1|].
      split; [exact Hob1|]. split; [exact Hs1|]. split; [reflexivity|].
      exact Hoth1. }
  destruct Hfirst as (w3 & x3 & Hrun3 & Hinv3 & Hx3 & Hx31 & Hx3s & Hoth3).
  erewrite BatchFacts.bind_ok by exact Hrun3.
  clear Hrun3 Hinv1 Hob1 Hoth1 w1.
  (* the array *)
  assert (Hlast : forall wk xk (P : Z -> Prop),
             unsubscribing wk o P ->
             observers wk !! o = Some xk ->
             src1 xk = None ->
             (forall j e, obs_entry xk j = Some e -> P j) ->
             others_keep w wk o ->
             let y := set_srcSlots None (set_srcs None xk) in
             let w' := set_observers (<[o := y]> (observers wk)) wk in
             shaped w' /\ sub_linked w' /\ obs_linked w'
             /\ (forall s sb k j, subscriptions w' !! s = Some sb ->
                                  sub_entry sb k <> Some (o, j))
             /\ observers w' !! o = Some y
             /\ src1 y = None /\ srcs y = None /\ srcSlots y = None
             /\ others_keep w w' o).
  { intros wk xk P Hinv Hxk Hxk1 HP Hoth y w'.
    assert (Hnone : forall j, obs_entry y j = None).
    { intros j. unfold obs_entry, slot_entry, y.
      cbn [src1 src1Slot srcs srcSlots set_srcs set_srcSlots].
      rewrite Hxk1. destruct (j =? -1); [|destruct (j <? 0)]; reflexivity. }
    assert (Hinv' : unsubscribing w' o (fun _ => False)).
    { apply (replace_observer wk o xk y P (fun _ => False)).
      - exact Hxk.
      - intros j e. rewrite Hnone. discriminate.
      - intros j e Hn He. destruct (Hn (HP j e He)).
      - intros j e. rewrite Hnone. discriminate.
      - tauto.
      - exact I.
      - exact Hinv. }
    destruct Hinv' as (A & B & C & D).
    assert (Hy : observers w' !! o = Some y)
      by (unfold w'; cbn; apply lookup_insert_eq).
    split; [exact A|]. split; [exact B|].
    split; [apply (obs_linked_all w' o); exact C|].
    split.
    { intros s sb k j Hsb He.
      destruct (B s sb k o j Hsb He) as (y' & Hy' & Hye).
      assert (y' = y) by congruence. subst y'.
      rewrite Hnone in Hye. discriminate. }
    split; [exact Hy|]. split; [exact Hxk1|].
    split; [reflexivity|]. split; [reflexivity|].
    intros o' a Hne Ha. destruct (Hoth o' a Hne Ha) as (b & Hb & E).
    exists b. unfold w'. cbn. rewrite lookup_insert_ne by congruence. auto. }
  destruct (srcs ob) as [l|] eqn:Hl.
  - destruct (unsubscribe_loop o l l 0%nat w3) as (w4 & Hrun4 & Hinv4 & Hsame4).
    { reflexivity. }
    { lia. }
    { eapply unsubscribing_ext; [|exact Hinv3]. intros j. cbn. lia. }
    { exists x3. auto. }
    erewrite BatchFacts.bind_ok by exact Hrun4.
    pose proof (Hsame4 o) as Ho. rewrite Hx3 in Ho.
    destruct (observers w4 !! o) as [x4|] eqn:Hx4; [|contradiction].
    destruct Ho as (E1 & E2 & E3).
    unfold updObs. rewrite Hx4.
    eexists _, _. split; [reflexivity|].
    apply (Hlast w4 x4 _ Hinv4 Hx4).
    + congruence.
    + intros j e He. unfold obs_entry in He.
      assert (Hx4l : srcs x4 = Some l) by congruence.
      pose proof (proj2 (proj1 Hinv4) o x4 Hx4) as Hsh4.
      unfold obs_shaped, arrays_shaped in Hsh4. rewrite Hx4l in Hsh4.
      destruct (srcSlots x4) as [sl4|]; [|contradiction].
      rewrite Hx4l in He.
      destruct (Z.eqb_spec j (-1)) as [->|Hj].
      * unfold slot_entry in He. cbn in He.
        rewrite E1, Hx31 in He. discriminate.
      * apply slot_entry_in_range in He; [|exact Hj]. lia.
    + eapply same_sources_others; eassumption.
  - unfold ret.
    pose proof (proj2 (proj1 Hinv3) o x3 Hx3) as Hsh3.
    unfold obs_shaped, arrays_shaped in Hsh3. rewrite Hx3s in Hsh3.
    destruct (srcSlots x3) as [sl3|] eqn:Hsl3; [contradiction|].
    exists w3, x3.
    destruct Hinv3 as (A & B & C & D).
    assert (Hnone : forall j, obs_entry x3 j = None).
    { intros j. unfold obs_entry, slot_entry.
      rewrite Hx31, Hx3s.
      destruct (j =? -1); [|destruct (j <? 0)]; reflexivity. }
    split; [reflexivity|]. split; [exact A|]. split; [exact B|].
    split; [apply (obs_linked_all w3 o); exact C|].
    split.
    { intros s sb k j Hsb He.
      destruct (B s sb k o j Hsb He) as (y' & Hy' & Hye).
      assert (y' = x3) by congruence. subst y'.
      rewrite Hnone in Hye. discriminate. }
    auto 10.
Qed.

End Disconnect.

Lemma disconnect_unsubscribes_everywhere_witness :
  exists w' ob',
    disconnect ReactiveSpec.no_cleanup 1 1%nat false BatchSpec.reading_world
    = Ok tt w'
    /\ shaped w' /\ sub_linked w' /\ obs_linked w'
    /\ (forall s sb k j, subscriptions w' !! s = Some sb ->
                         sub_entry sb k <> Some (1%nat, j))
    /\ observers w' !! 1%nat = Some ob'
    /\ src1 ob' = None /\ srcs ob' = None /\ srcSlots ob' = None
    /\ others_keep BatchSpec.reading_world w' 1%nat.
Proof.
  eapply (disconnect_unsubscribes_everywhere ReactiveSpec.no_cleanup 0
            BatchSpec.reading_world 1%nat _ false).
  - vm_compute. reflexivity.
  - reflexivity.
  - reflexivity.
  - apply reading_world_linked.
  - apply reading_world_linked.
  - apply reading_world_linked.
Defined.

End UnsubscribeFacts.


(* ===================================================================== *)
(** * [TimelineScheduler]: the timeout of the earliest task               *)
(* ===================================================================== *)

Module TimelineFacts.
Import TimelineScheduler TimelineSpec.

Lemma foldr_min_spec (k : Z) (ks : list Z) :
  foldr Z.min k ks ∈ k :: ks /\ forall x, x ∈ k :: ks -> foldr Z.min k ks <= x.
Proof.
  induction ks as [|y ks [IHin IHle]]; cbn [foldr].
  - split; [left|]. intros x Hx. apply list_elem_of_singleton in Hx. lia.
  - split.
    + destruct (Z.min_spec y (foldr Z.min k ks)) as [[_ ->]|[_ ->]].
      * right. left.
      * apply elem_of_cons in IHin as [->|Hin]; [left|right; right; exact Hin].
    + intros x Hx.
      apply elem_of_cons in Hx as [->|Hx].
      * specialize (IHle k ltac:(left)). lia.
      * apply elem_of_cons in Hx as [->|Hx]; [lia|].
        specialize (IHle x ltac:(right; exact Hx)). lia.
Qed.

Lemma key_listed {A} (m : gmap Z A) (k : Z) :
  k ∈ (map_to_list m).*1 <-> is_Some (m !! k).
Proof.
  rewrite list_elem_of_fmap. split.
  - intros ([k' x] & -> & H). apply elem_of_map_to_list in H. eauto.
  - intros [x H]. exists (k, x). split; [reflexivity|].
    apply elem_of_map_to_list. exact H.
Qed.

Lemma min_key_earliest {A} (m : gmap Z A) :
  m <> ∅ -> earliest (min_key m) m.
Proof.
  intros Hne. unfold min_key, earliest.
  destruct ((map_to_list m).*1) as [|k ks] eqn:E.
  - exfalso. apply Hne. apply map_to_list_empty_iff.
    destruct (map_to_list m); [reflexivity|discriminate].
  - destruct (foldr_min_spec k ks) as [Hin Hle]. rewrite <- E in Hin, Hle.
    split.
    + apply key_listed. exact Hin.
    + intros k' Hk'. apply Hle. apply key_listed. exact Hk'.
Qed.

Lemma earliest_unique {A} (m : gmap Z A) (a b : Z) :
  earliest a m -> earliest b m -> a = b.
Proof.
  intros [Ha1 Ha2] [Hb1 Hb2]. specialize (Ha2 b Hb1). specialize (Hb2 a Ha1).
  lia.
Qed.

Lemma size_zero_empty {A} (m : gmap Z A) :
  bool_decide (base.size m = 0%nat) = bool_decide (m = ∅).
Proof. apply bool_decide_ext. apply map_size_empty_iff. Qed.

(** [rescheduleCheck] arms the scheduler from a state where at most
    the timeout of [timeoutId] is pending. *)
Lemma rescheduleCheck_arms (s : Scheduler) :
  match timeoutId s with
  | Some id => (exists w t, timers s = [mkTimer id w t])
               /\ is_Some (nextCheck s)
  | None => timers s = [] /\ nextCheck s = None
  end ->
  (forall t, nextCheck s = Some t -> earliest t (tasks s) ->
             exists id w, timeoutId s = Some id /\ timers s = [mkTimer id w t]) ->
  armed (rescheduleCheck s).
Proof.
  intros Hone Hsame. unfold rescheduleCheck. rewrite size_zero_empty.
  destruct (decide (tasks s = ∅)) as [He|Hne].
  - rewrite bool_decide_eq_true_2 by exact He.
    unfold armed. destruct (timeoutId s) as [id|] eqn:Hid.
    + destruct Hone as [(w & t & Ht) _].
      cbn. rewrite Ht. cbn.
      rewrite decide_False by (cbn; tauto).
      split; [exact He|split; reflexivity].
    + destruct Hone as [Ht _]. cbn.
      split; [exact He|split; [exact Hid|exact Ht]].
  - rewrite bool_decide_eq_false_2 by exact Hne.
    pose proof (min_key_earliest (tasks s) Hne) as Hmin.
    destruct (decide (nextCheck s = Some (min_key (tasks s)))) as [E|N].
    + rewrite bool_decide_eq_true_2 by exact E.
      unfold armed. rewrite E. split; [exact Hmin|].
      apply Hsame; assumption.
    + rewrite bool_decide_eq_false_2 by exact N.
      unfold armed. destruct (timeoutId s) as [id|] eqn:Hid.
      * destruct Hone as [(w & t & Ht) _].
        cbn. rewrite Ht. cbn.
        rewrite decide_False by (cbn; tauto). cbn.
        split; [exact Hmin|]. eauto.
      * destruct Hone as [Ht _]. cbn. rewrite Ht. cbn.
        split; [exact Hmin|]. eauto.
Qed.

(** A change of the tasks of an armed scheduler, followed by
    [rescheduleCheck]. *)
Lemma rearm (s : Scheduler) (m : gmap Z (list callback)) :
  armed s -> armed (rescheduleCheck (set_tasks m s)).
Proof.
  intros Ha. apply rescheduleCheck_arms.
  - unfold armed in Ha. cbn [timeoutId timers nextCheck set_tasks].
    destruct (nextCheck s) as [t|].
    + destruct Ha as (_ & id & w & -> & ->). split; eauto.
    + destruct Ha as (_ & -> & ->). auto.
  - cbn [timeoutId timers nextCheck tasks set_tasks]. intros t Ht _.
    unfold armed in Ha. rewrite Ht in Ha.
    destruct Ha as (_ & id & w & H1 & H2). eauto.
Qed.

Lemma schedule_unfold (s : Scheduler) (delay : Z) (cb : callback) :
  schedule delay cb s
  = ((now s + delay, cb),
     rescheduleCheck
       (set_tasks
          (<[now s + delay
             := default [] (tasks s !! (now s + delay)) ++ [cb]]> (tasks s)) s)).
Proof.
  unfold schedule. f_equal. f_equal.
  destruct (tasks s !! (now s + delay)) as [l|] eqn:El.
  - rewrite bool_decide_eq_true_2 by eauto. rewrite El. reflexivity.
  - rewrite bool_decide_eq_false_2 by (intros [? ?]; discriminate).
    unfold set_tasks. cbn [tasks nextCheck timeoutId now timers last_id].
    rewrite lookup_insert_eq, insert_insert_eq. reflexivity.
Qed.

Lemma rescheduleCheck_keeps (x : Scheduler) :
  tasks (rescheduleCheck x) = tasks x /\ now (rescheduleCheck x) = now x.
Proof.
  unfold rescheduleCheck.
  repeat match goal with
         | |- context [bool_decide ?P] => destruct (bool_decide P)
         | |- context [timeoutId x] => destruct (timeoutId x)
         end; cbn; auto.
Qed.

Lemma schedule_armed (s : Scheduler) (delay : Z) (cb : callback) :
  armed s -> armed (schedule delay cb s).2.
Proof. intros Ha. rewrite schedule_unfold. apply rearm. exact Ha. Qed.

(** X26. [schedule] keeps the scheduler armed. From an armed state,
    [schedule(delay, callback)] adds the callback after the ones
    already held for the time [now + delay], leaves the other times as
    they are, and leaves the scheduler armed: [nextCheck] is the
    earliest time with tasks and exactly one timeout is pending, for
    that time. The closure returned holds that time and the
    callback. *)
Theorem schedule_keeps_armed (s : Scheduler) (delay : Z) (cb : callback) :
  armed s ->
  armed (schedule delay cb s).2
  /\ (schedule delay cb s).1 = (now s + delay, cb)
  /\ tasks (schedule delay cb s).2
     = <[now s + delay := default [] (tasks s !! (now s + delay)) ++ [cb]]>
         (tasks s)
  /\ now (schedule delay cb s).2 = now s.
Proof.
  intros Ha. split; [apply schedule_armed; exact Ha|].
  rewrite schedule_unfold. cbn [fst snd].
  split; [reflexivity|].
  destruct (rescheduleCheck_keeps
              (set_tasks
                 (<[now s + delay
                    := default [] (tasks s !! (now s + delay)) ++ [cb]]>
                    (tasks s)) s)) as [K1 K2].
  split; [exact K1|exact K2].
Qed.

Lemma earliest_delete {A} (m : gmap Z A) (t time : Z) :
  t <> time -> earliest t m -> earliest t (delete time m).
Proof.
  intros Hne [H1 H2]. split.
  - rewrite lookup_delete_ne by congruence. exact H1.
  - intros k Hk. apply H2.
    destruct (decide (k = time)) as [->|Hk'].
    + rewrite lookup_delete_eq in Hk. destruct Hk; discriminate.
    + rewrite lookup_delete_ne in Hk by congruence. exact Hk.
Qed.

Lemma earliest_replace {A} (m : gmap Z A) (t time : Z) (x : A) :
  is_Some (m !! time) -> earliest t m -> earliest t (<[time := x]> m).
Proof.
  intros Hin [H1 H2]. split.
  - destruct (decide (t = time)) as [->|Hne].
    + rewrite lookup_insert_eq. eauto.
    + rewrite lookup_insert_ne by congruence. exact H1.
  - intros k Hk. apply H2.
    destruct (decide (k = time)) as [->|Hk'].
    + exact Hin.
    + rewrite lookup_insert_ne in Hk by congruence. exact Hk.
Qed.

(** X27. The closure [schedule] returns keeps the scheduler armed.
    Called in an armed state, it takes the first occurrence of the
    callback out of the tasks of its time (the whole entry when no
    task is left for that time; nothing when the time has no entry),
    and the scheduler is armed again: the timeout is cleared when no
    task is left at all, and replaced by one for the new earliest
    time when the earliest time went away. *)
Theorem dispose_keeps_armed (s : Scheduler) (time : Z) (cb : callback) :
  armed s ->
  armed (dispose (time, cb) s)
  /\ tasks (dispose (time, cb) s)
     = match tasks s !! time with
       | Some l =>
           match remove_first cb l with
           | [] => delete time (tasks s)
           | l' => <[time := l']> (tasks s)
           end
       | None => tasks s
       end
  /\ now (dispose (time, cb) s) = now s.
Proof.
  intros Ha. unfold dispose.
  pose proof rescheduleCheck_keeps as Hkeep.
  destruct (tasks s !! time) as [l|] eqn:El.
  - assert (Hnc : exists t, nextCheck s = Some t).
    { unfold armed in Ha. destruct (nextCheck s) as [t|]; [eauto|].
      destruct Ha as (He & _). rewrite He, lookup_empty in El. discriminate. }
    destruct Hnc as (t & Ht).
    assert (Hat : earliest t (tasks s)
                  /\ exists id w, timeoutId s = Some id
                                  /\ timers s = [mkTimer id w t]).
    { unfold armed in Ha. rewrite Ht in Ha. exact Ha. }
    destruct Hat as (Hmin & Htim).
    destruct (remove_first cb l) as [|y l'] eqn:Er.
    + replace (bool_decide (length (@nil callback) = 0%nat)) with true
        by (symmetry; apply bool_decide_eq_true_2; reflexivity).
      cbn [nextCheck set_tasks].
      destruct (decide (t = time)) as [->|Hne].
      * rewrite Ht, bool_decide_eq_true_2 by reflexivity.
        destruct (Hkeep (set_tasks (delete time (tasks s)) s)) as [K1 K2].
        split; [apply rearm; exact Ha|]. split; [exact K1|exact K2].
      * rewrite Ht, bool_decide_eq_false_2 by congruence.
        split; [|split; reflexivity].
        unfold armed. cbn [nextCheck tasks timeoutId timers set_tasks].
        rewrite Ht. split; [|exact Htim].
        apply earliest_delete; assumption.
    + replace (bool_decide (length (y :: l') = 0%nat)) with false
        by (symmetry; apply bool_decide_eq_false_2; discriminate).
      cbn [nextCheck set_tasks].
      destruct (decide (t = time)) as [->|Hne].
      * rewrite Ht, bool_decide_eq_true_2 by reflexivity.
        destruct (Hkeep (set_tasks (<[time := y :: l']> (tasks s)) s))
          as [K1 K2].
        split; [apply rearm; exact Ha|]. split; [exact K1|exact K2].
      * rewrite Ht, bool_decide_eq_false_2 by congruence.
        split; [|split; reflexivity].
        unfold armed. cbn [nextCheck tasks timeoutId timers set_tasks].
        rewrite Ht. split; [|exact Htim].
        apply earliest_replace; [eauto|assumption].
  - assert (Hn : nextCheck s <> Some time).
    { intros E. unfold armed in Ha. rewrite E in Ha.
      destruct Ha as ([[x Hx] _] & _). congruence. }
    rewrite bool_decide_eq_false_2 by exact Hn.
    split; [exact Ha|]. split; reflexivity.
Qed.

(** X28. A task scheduled without delay from inside a timeout that
    fired on time is left without a timeout. In the state the closure
    of the timeout runs in when the clock reads exactly the time it
    was set for ([nextCheck] still that time, its tasks taken out of
    the map by [executeTasks], no timeout pending, every other task
    later): [schedule(0, callback)] puts the callback under that very
    time, and neither its [rescheduleCheck] nor the one that ends the
    closure sets a timeout. *)
Theorem task_at_firing_time_gets_no_timeout (s : Scheduler) (t : Z)
    (cb : callback) :
  nextCheck s = Some t ->
  now s = t ->
  tasks s !! t = None ->
  (forall k, is_Some (tasks s !! k) -> t <= k) ->
  timers s = [] ->
  tasks (rescheduleCheck (schedule 0 cb s).2) !! t = Some [cb]
  /\ timers (rescheduleCheck (schedule 0 cb s).2) = []
  /\ nextCheck (rescheduleCheck (schedule 0 cb s).2) = Some t.
Proof.
  intros Hn Hnow Hnone Hle Ht.
  assert (Hstep : forall x,
             nextCheck x = Some t -> earliest t (tasks x) ->
             rescheduleCheck x = x).
  { intros x Hx Hmin. unfold rescheduleCheck. rewrite size_zero_empty.
    assert (Hne : tasks x <> ∅).
    { intros E. destruct Hmin as [[y Hy] _].
      rewrite E, lookup_empty in Hy. discriminate. }
    rewrite bool_decide_eq_false_2 by exact Hne.
    rewrite (earliest_unique _ _ _ (min_key_earliest (tasks x) Hne) Hmin).
    rewrite bool_decide_eq_true_2 by exact Hx. reflexivity. }
  rewrite schedule_unfold. cbn [fst snd].
  rewrite Hnow, Z.add_0_r, Hnone.
  cbn [default from_option id app].
  assert (Hmin : earliest t (<[t := [cb]]> (tasks s))).
  { split.
    - rewrite lookup_insert_eq. eauto.
    - intros k Hk. destruct (decide (k = t)) as [->|Hk']; [lia|].
      rewrite lookup_insert_ne in Hk by congruence. apply Hle, Hk. }
  assert (E : rescheduleCheck (set_tasks (<[t := [cb]]> (tasks s)) s)
              = set_tasks (<[t := [cb]]> (tasks s)) s)
    by (apply Hstep; [exact Hn|exact Hmin]).
  rewrite !E.
  cbn [nextCheck tasks timers set_tasks]. rewrite lookup_insert_eq. auto.
Qed.

Lemma idle_armed : armed idle.
Proof. unfold armed, idle. cbn. auto. Qed.

Lemma schedule_keeps_armed_witness :
  armed (schedule 50 1%nat idle).2
  /\ (schedule 50 1%nat idle).1 = (now idle + 50, 1%nat)
  /\ tasks (schedule 50 1%nat idle).2
     = <[now idle + 50 := default [] (tasks idle !! (now idle + 50)) ++ [1%nat]]>
         (tasks idle)
  /\ now (schedule 50 1%nat idle).2 = now idle.
Proof. apply (schedule_keeps_armed idle 50 1%nat). exact idle_armed. Defined.

Lemma three_tasks_armed : armed three_tasks.
Proof.
  unfold three_tasks. do 3 apply schedule_armed. exact idle_armed.
Qed.

Lemma dispose_keeps_armed_witness :
  armed (dispose (50, 1%nat) three_tasks)
  /\ tasks (dispose (50, 1%nat) three_tasks)
     = match tasks three_tasks !! 50 with
       | Some l =>
           match remove_first 1%nat l with
           | [] => delete 50 (tasks three_tasks)
           | l' => <[50 := l']> (tasks three_tasks)
           end
       | None => tasks three_tasks
       end
  /\ now (dispose (50, 1%nat) three_tasks) = now three_tasks.
Proof.
  apply (dispose_keeps_armed three_tasks 50 1%nat). exact three_tasks_armed.
Defined.

Lemma task_at_firing_time_gets_no_timeout_witness :
  tasks (rescheduleCheck (schedule 0 4%nat firing).2) !! 20 = Some [4%nat]
  /\ timers (rescheduleCheck (schedule 0 4%nat firing).2) = []
  /\ nextCheck (rescheduleCheck (schedule 0 4%nat firing).2) = Some 20.
Proof.
  apply (task_at_firing_time_gets_no_timeout firing 20 4%nat).
  - vm_compute. reflexivity.
  - reflexivity.
  - vm_compute. reflexivity.
  - assert (E : tasks firing = {[ 50 := [1%nat; 2%nat] ]})
      by (vm_compute; reflexivity).
    intros k [l Hk]. rewrite E in Hk.
    apply lookup_singleton_Some in Hk as [<- _]. lia.
  - reflexivity.
Defined.

End TimelineFacts.


(* ===================================================================== *)
(** * Locks: [lockDeps] and its cleanup                                   *)
(* ===================================================================== *)

Module LockFacts.
Import Reactive Asynx LockSpec.

Lemma times_here (r : ref) (locks : list ref) :
  times r (r :: locks) = 1 + times r locks.
Proof.
  unfold times. rewrite filter_cons_True by reflexivity. cbn [length]. lia.
Qed.

Lemma times_other (r r' : ref) (locks : list ref) :
  r' <> r -> times r (r' :: locks) = times r locks.
Proof.
  intros H. unfold times. rewrite filter_cons_False by exact H. reflexivity.
Qed.

Lemma times_nonneg (r : ref) (locks : list ref) : 0 <= times r locks.
Proof. unfold times. lia. Qed.

Lemma relocked_refl (w : World) : relocked (fun _ => 0) w w.
Proof.
  split; [destruct w; reflexivity|]. intros r.
  destruct (sources w !! r) as [[v p s l e]|]; [|reflexivity].
  cbn. unfold set_s_locked. cbn. rewrite Z.add_0_r. reflexivity.
Qed.

Lemma relocked_trans (d1 d2 : ref -> Z) (w w1 w2 : World) :
  relocked d1 w w1 -> relocked d2 w1 w2 ->
  relocked (fun r => d1 r + d2 r) w w2.
Proof.
  intros [E1 H1] [E2 H2]. split.
  - rewrite E2, E1. reflexivity.
  - intros r. rewrite H2, H1.
    destruct (sources w !! r) as [[v p s l e]|]; [|reflexivity].
    cbn. unfold set_s_locked. cbn. rewrite Z.add_assoc. reflexivity.
Qed.

Lemma relocked_ext (d d' : ref -> Z) (w w' : World) :
  (forall r, d r = d' r) -> relocked d w w' -> relocked d' w w'.
Proof.
  intros Hd [E H]. split; [exact E|]. intros r. rewrite H, Hd. reflexivity.
Qed.

(** One lock, one unlock: a lock count moved by one. *)
Lemma relocked_one (d : Z) (r : ref) (x : Source) (w : World) :
  sources w !! r = Some x ->
  relocked (fun r' => if bool_decide (r' = r) then d else 0) w
    (set_sources (<[r := set_s_locked (s_locked x + d) x]> (sources w)) w).
Proof.
  intros Hx. split; [reflexivity|]. intros r'. cbn [sources set_sources].
  destruct (decide (r' = r)) as [->|Hne].
  - rewrite lookup_insert_eq, Hx, bool_decide_eq_true_2 by reflexivity.
    reflexivity.
  - rewrite lookup_insert_ne by congruence.
    rewrite bool_decide_eq_false_2 by exact Hne.
    destruct (sources w !! r') as [[v p s l e]|]; [|reflexivity].
    cbn. unfold set_s_locked. cbn. rewrite Z.add_0_r. reflexivity.
Qed.

Lemma lock_moves (r : ref) (x : Source) (w : World) :
  sources w !! r = Some x -> IsRunning w = false ->
  Source_lock r w
  = Ok tt (set_sources (<[r := set_s_locked (s_locked x + 1) x]> (sources w)) w).
Proof.
  intros Hx Hr. unfold Source_lock, bind, updSrc, gets, when.
  rewrite Hx. cbn [IsRunning set_sources]. rewrite Hr. reflexivity.
Qed.

Lemma locks_run (locks : list ref) :
  forall w : World,
    IsRunning w = false ->
    (forall r, r ∈ locks -> is_Some (sources w !! r)) ->
    exists w',
      forM_ locks Source_lock w = Ok tt w'
      /\ relocked (fun r => times r locks) w w'.
Proof.
  induction locks as [|r locks IH]; intros w Hrun Hin.
  - exists w. split; [reflexivity|]. apply relocked_refl.
  - destruct (Hin r) as [x Hx]; [left|].
    pose proof (relocked_one 1 r x w Hx) as H1.
    set (w1 := set_sources (<[r := set_s_locked (s_locked x + 1) x]> (sources w)) w)
      in *.
    destruct (IH w1) as (w' & Hrun' & H').
    { exact Hrun. }
    { intros r' Hr'. rewrite (proj2 H1 r').
      destruct (Hin r') as [y Hy]; [right; exact Hr'|]. rewrite Hy. cbn. eauto. }
    exists w'. split.
    + cbn [forM_]. unfold bind. rewrite (lock_moves r x w Hx Hrun). exact Hrun'.
    + eapply relocked_ext; [|exact (relocked_trans _ _ _ _ _ H1 H')].
      intros r'. cbn beta.
      destruct (decide (r' = r)) as [->|Hne].
      * rewrite bool_decide_eq_true_2 by reflexivity. rewrite times_here. lia.
      * rewrite bool_decide_eq_false_2 by exact Hne.
        rewrite times_other by congruence. lia.
Qed.

Section Unlock.
Variable run_fn : ref -> Val -> M Val.
Variable run_cleanup : ref -> bool -> M unit.
Variable run_handler : ref -> exn -> M unit.
Variable fuel : nat.

Lemma unlock_moves (r : ref) (x : Source) (w : World) :
  sources w !! r = Some x -> s_pending x = None -> 0 < s_locked x ->
  Source_unlock run_fn run_cleanup run_handler fuel r w
  = Ok tt (set_sources (<[r := set_s_locked (s_locked x + -1) x]> (sources w)) w).
Proof.
  intros Hx Hp Hl. unfold Source_unlock, bind at 1, getSrc. rewrite Hx.
  destruct (Z.eqb_spec (s_locked x) 0); [lia|].
  unfold bind, updSrc. rewrite Hx, Hp.
  rewrite (bool_decide_eq_false_2 (is_Some None))
    by (intros [? ?]; discriminate).
  rewrite andb_false_r. reflexivity.
Qed.

Lemma unlocks_run (locks : list ref) :
  forall w : World,
    (forall r, r ∈ locks ->
               exists x, sources w !! r = Some x /\ s_pending x = None
                         /\ times r locks <= s_locked x) ->
    exists w',
      forM_ locks (Source_unlock run_fn run_cleanup run_handler fuel) w
      = Ok tt w'
      /\ relocked (fun r => - times r locks) w w'.
Proof.
  induction locks as [|r locks IH]; intros w Hin.
  - exists w. split; [reflexivity|]. apply relocked_refl.
  - destruct (Hin r) as (x & Hx & Hp & Hl); [left|].
    rewrite times_here in Hl. pose proof (times_nonneg r locks) as Hnn.
    pose proof (relocked_one (-1) r x w Hx) as H1.
    set (w1 := set_sources (<[r := set_s_locked (s_locked x + -1) x]> (sources w)) w)
      in *.
    destruct (IH w1) as (w' & Hrun' & H').
    { intros r' Hr'. rewrite (proj2 H1 r').
      destruct (Hin r') as (y & Hy & Hyp & Hyl); [right; exact Hr'|].
      rewrite Hy. cbn [fmap option_fmap option_map].
      eexists. split; [reflexivity|]. split; [exact Hyp|].
      cbn [s_locked set_s_locked].
      destruct (decide (r' = r)) as [->|Hne].
      - rewrite bool_decide_eq_true_2 by reflexivity.
        rewrite times_here in Hyl. lia.
      - rewrite bool_decide_eq_false_2 by exact Hne.
        rewrite times_other in Hyl by congruence. lia. }
    exists w'. split.
    + cbn [forM_]. unfold bind.
      rewrite (unlock_moves r x w Hx Hp) by lia. exact Hrun'.
    + eapply relocked_ext; [|exact (relocked_trans _ _ _ _ _ H1 H')].
      intros r'. cbn beta.
      destruct (decide (r' = r)) as [->|Hne].
      * rewrite bool_decide_eq_true_2 by reflexivity. rewrite times_here. lia.
      * rewrite bool_decide_eq_false_2 by exact Hne.
        rewrite times_other by congruence. lia.
Qed.

Lemma forX_core (locks : list ref) (f : ref -> M unit) (l : Loop) :
  forX_ locks (fun r => core (f r)) l = core (forM_ locks f) l.
Proof.
  revert l. induction locks as [|r locks IH]; intros l.
  - unfold core, lift. cbn. destruct l; reflexivity.
  - cbn [forX_ forM_]. unfold bind at 1. unfold core at 1, lift at 1.
    unfold core at 2, lift at 1. unfold bind at 1.
    destruct (f r (world l)) as [[] w1|e w1]; [|reflexivity].
    rewrite IH. unfold core, lift. cbn [world set_world].
    destruct (forM_ locks f w1); destruct l; reflexivity.
Qed.

(** X29. Locking and unlocking the observables of an action with
    nothing written in between is a round trip. Outside a batch,
    for a list of observables (an observable may be named more than
    once) that have nothing staged and a lock count that is not
    negative: [lockDeps] followed by the cleanup it returns leaves
    the whole state as it was; no flush runs. *)
Theorem lock_cleanup_round_trip (lock : list ref) (l : Loop) :
  IsRunning (world l) = false ->
  (forall r, r ∈ lock ->
             exists x, sources (world l) !! r = Some x
                       /\ s_pending x = None /\ 0 <= s_locked x) ->
  bind (lockDeps lock)
    (fun _ => lockCleanup run_fn run_cleanup run_handler fuel lock) l
  = Ok tt l.
Proof.
  intros Hrun Hin.
  destruct (locks_run lock (world l) Hrun) as (w1 & Hr1 & [E1 H1]).
  { intros r Hr. destruct (Hin r Hr) as (x & Hx & _). eauto. }
  destruct (unlocks_run lock w1) as (w2 & Hr2 & [E2 H2]).
  { intros r Hr. destruct (Hin r Hr) as (x & Hx & Hp & Hl).
    rewrite H1, Hx. cbn [fmap option_fmap option_map].
    eexists. split; [reflexivity|]. split; [exact Hp|].
    cbn [s_locked set_s_locked]. lia. }
  assert (Hs : sources w2 = sources (world l)).
  { apply map_eq. intros r. rewrite H2, H1.
    destruct (sources (world l) !! r) as [[v p s k e]|]; [|reflexivity].
    cbn. unfold set_s_locked. cbn. do 2 f_equal. lia. }
  assert (Hw : w2 = world l).
  { rewrite E2, E1, Hs. destruct (world l). reflexivity. }
  unfold lockDeps, lockCleanup, bind. rewrite forX_core.
  unfold core at 1, lift at 1. rewrite Hr1.
  rewrite forX_core. unfold core, lift. cbn [world set_world].
  rewrite Hr2, Hw. destruct l. reflexivity.
Qed.

End Unlock.

Lemma lock_cleanup_round_trip_witness :
  bind (lockDeps [1; 2; 1]%nat)
    (fun _ => lockCleanup ReactiveSpec.identity_fn ReactiveSpec.no_cleanup
                ReactiveSpec.no_handler 20 [1; 2; 1]%nat)
    AsynxSpec.three_sources
  = Ok tt AsynxSpec.three_sources.
Proof.
  apply (lock_cleanup_round_trip ReactiveSpec.identity_fn ReactiveSpec.no_cleanup
           ReactiveSpec.no_handler 20 [1; 2; 1]%nat AsynxSpec.three_sources).
  - reflexivity.
  - intros r Hr. exists (mkSource 0 None None 0 (Some ReactiveSpec.EQUALS)).
    assert (Hc : r = 1%nat \/ r = 2%nat).
    { apply elem_of_cons in Hr as [->|Hr]; [auto|].
      apply elem_of_cons in Hr as [->|Hr]; [auto|].
      apply list_elem_of_singleton in Hr as ->. auto. }
    destruct Hc as [-> | ->];
      (split; [vm_compute; reflexivity|split; [reflexivity|cbn; lia]]).
Defined.

End LockFacts.
